(* ===== verification/_CoqProject ===== *)
-Q . S2P
Prelude.v
Utf8.v
GoStrings.v
TokenizerCore.v
BPE.v
Pretokenizer.v
Regex.v
Vocab.v
Encode.v
Json.v
Chatml.v
Render.v
RuneBuffer.v
JsonRoundtrip.v
Stream.v
Client.v
Generate.v
OpenAI.v
Sse.v
Server.v
ServerSpec.v
ClientView.v
Binding.v
Routes.v
Flags.v
Supervisor.v
TokenizerLoad.v
Cmd.v
BlockAllocator.v
KvTables.v
Sequence.v
Handler.v
Scheduler.v
PagedRuntime.v
StepContext.v
KvStore.v
Strided.v
Attention.v
GraphCache.v
Rounding.v
Sampler.v
ModelRuntime.v
ForwardOk.v
RapidJson.v
ModelSpec.v
SafeTensors.v
RowKernels.v
SchedulerFrame.v
SchedulerInv.v
SchedulerSpec.v
Delivery.v
KvContents.v
KvSound.v
Answers.v
StartUp.v
Boot.v
System.v
