(* ===== verification/Prelude.v ===== *)
(** * FlashQwen: a verification of the serving stack

    FlashQwen serves a Qwen3 model behind an OpenAI-compatible HTTP API. A Go program
    ([src/cmd], [src/internal]) owns everything about text: it loads the tokenizer, renders
    ChatML, talks HTTP, and drives a C++ engine ([src/engine]) over gRPC which only sees
    token ids. The development models all of the Go program but its calls to the outside,
    and of the engine what is not arithmetic: the block allocator, the requests with their
    event streams, the continuous-batching scheduler, the forward pass on the GPU down to
    which memory each kernel reads and writes, and how the engine comes up from the files of
    a model.

    ** How the parts interact

    A request enters as an HTTP body. [Routes] dispatches it and [Binding] decodes it;
    [Server] turns it into a neutral [Client.Request] and answers with JSON or server-sent
    events; [Generate] encodes the prompt ([Render], [Encode]), clamps the budget and reads
    the engine's events through [Client]; [Stream] and [RuneBuffer] turn ids into text that
    never breaks a character and into tool calls. On the other side of the wire, [Sequence]
    is the engine's request and its sink, [Handler] the call that reads it, [Scheduler] the
    loop that batches requests over the blocks of [BlockAllocator]. The scheduler talks to
    the device through two interfaces: [Scheduler.Runtime], a forward pass on a state, and
    [PagedRuntime.PagedRuntime], which says where keys and values live and what a pass does
    to them. [ModelRuntime] is the implementation: [StepContext] packs the inputs, [KvStore]
    and [Attention] are the kernels that address the paged memory, [GraphCache] replays
    launches, [Sampler] draws the tokens. [StartUp] puts the engine together, [Boot] starts it
    from a model directory, which [ModelSpec] checks and [SafeTensors] reads; [System] joins
    the engine and the Go side. [Cmd] opens and closes the whole with [Supervisor] and [TokenizerLoad].

    ** Files and sources

    - the language and its library: this prelude (bytes, machine integers, the monad [run]
      whose values are a result, a run-time panic or running out of fuel), [Utf8],
      [GoStrings], [Json] with [JsonRoundtrip], and [Sse] (the reader of an event stream);
    - [internal/tokenizer/tokenizer.go]: [TokenizerCore] (the struct, byte tables, lookups),
      [BPE], [Pretokenizer] with its specification [Regex], [Encode], [TokenizerLoad];
      [Vocab] decides the hypothesis of the round trips on a concrete vocabulary;
    - [internal/chatml]: [Chatml] (types, load-time constants), [Render], [Stream];
      [RuneBuffer] is the loop [stream.go] shares with [generate.go];
    - [internal/engine]: [Client] ([client.go], [types.go]), [Generate] ([generate.go]);
    - [internal/server]: [OpenAI] ([types.go], content and responses), [Binding]
      ([types.go], the struct tags read), [Server] ([completions.go], [server.go]),
      [Routes] ([Server.Run]); [ServerSpec] and [ClientView] hold their theorems;
    - [internal/supervisor]: [Supervisor]; [cmd/flashqwen]: [Cmd], with [engine.Dial] and
      [Client.Close], over [Flags] (Go's [flag] package and the [strconv] behind it);
    - [engine/src]: [BlockAllocator] ([block_allocator.h]), [Sequence] ([scheduler.h],
      [grpc_sink.h], [grpc_service.cc], [model_runtime.h]), [Scheduler] ([scheduler.h],
      [scheduler.cc]); [KvTables], [SchedulerFrame], [SchedulerInv] and [SchedulerSpec]
      hold their invariants and theorems; [Handler] is [ServiceImpl::Generate]
      ([grpc_service.cc]), [Delivery] its composition with the loop;
    - the device ([model_runtime.cu], [kv_store.cu], [attn_sm80.cu], [kernels.cu]):
      [PagedRuntime] (the contract, with a reference implementation), [StepContext]
      ([PrepareInputs]), [KvStore] ([StoreKV]), [Attention] ([LaunchAttnDecode],
      [LaunchAttnPrefill]) over [Strided], [GraphCache], [Sampler] ([LaunchSampleBatch]) over
      [Rounding] (binary32 sums and halves),
      [ModelRuntime] ([Forward]) and its proof [ForwardOk]; [RowKernels], below it, is the
      kernels that work row by row, on flat memory with 32-bit products; [KvContents] and [KvSound] say
      what the memory holds in every reachable state, [Answers] what follows for the answers;
    - the model files: [RapidJson] (the values of [rapidjson/document.h] that the engine
      uses), [ModelSpec] ([model_spec.cc]), [SafeTensors] ([safetensors.cc] and the upload of
      [model_runtime.cu], with the format as a writer);
    - [StartUp]: the engine [RunEngine] makes, the arguments ([args.h], [main.cc]) and the size
      of the pool; [Boot]: the whole of [RunEngine] ([grpc_service.cc]), its errors included.

    Definitions carry the names of the code (with a trailing underscore where a class or an
    interface has the name). A Go function that can index out of range
    returns [run]; one that returns an error returns [result error]. A handler is the list
    of effects on its response; a callback acts on a state of its caller. The store of the
    scheduler maps ids to requests where the code has pointers.

    ** What the theorems show

    - Text. [Decode] inverts [Encode]; [Encode] implements the leftmost-longest-special
      specification, [applyBPE] the merge relation, and the hand-written pre-tokenizer the
      regular expression of the original tokenizer, as a backtracking engine matches it;
      loading establishes every assumption of these theorems ([Load_wire_ok]) and does not
      depend on map order or on ties of the sort.
    - Prompts and answers. [Render] is the turn-by-turn template and its markers cannot be
      forged by tool definitions; the id stream decodes to the text and the tool calls of
      the whole answer, every delta being well-formed UTF-8.
    - The service. Every request on a route is answered exactly once; a body a client
      writes is decoded back field by field; the events of a stream, read back by a client,
      are the blocking answer in pieces; errors keep their message and get their status.
    - The engine. In every reachable state the allocator's counts agree with the tables;
      each batch is the concatenation of the chunks of a prefix of the running requests,
      and no block it writes into is shared or cached; every request is settled within a
      bounded number of turns, its tokens, finish reason and counts agreeing. However the
      handler, its queue and the loop interleave, the client gets all its events.
    - The device. [PrepareInputs_describes], [StoreKV_paged] and [attention_rows] follow the
      inputs through the kernels: no index leaves its buffer, every row attends to exactly
      the positions up to its own. [Forward_refines] composes the 36 layers: a pass keeps
      the contract of [PagedRuntime], for ids of the vocabulary and up to 87382 rows.
      [row_kernels]: within these bounds the other kernels do to flat memory what
      [ModelRuntime] says of rows. [sampled_token]: sampling is greedy, or from a nucleus of
      the mass asked for. [graph_cache_lru]: every captured graph is launched for its own
      shape and destroyed once.
    - The answers. On any runtime that keeps the contract, with prompts of the vocabulary
      and an ample pool, every token is sampled from keys
      and values of the request's own tokens ([answers_own_prompt]), so batching, sharing and
      scheduling do not show ([batching_invisible], for a model whose results do not depend
      on them); [started_engine_answers] applies this to the engine as it starts. These
      theorems assume that no two different prefixes have the same hash;
      [prefix_cache_collision] shows that two do.
    - The start. [Load_checks]: a checkpoint for another model is refused with the list of what
      differs. [weights_read_back]: the device holds the elements of the tensors a directory
      was written with, fused in order. [engine_boots] goes from those files to the answers.
    - The whole. [api_requests_answered]: requests built by the Go generator and submitted
      in any order are completed with the options they were sent with, and [Generate] returns
      what their tokens decode to.
    - Processes. [serve] runs with exactly the values its command line spells, and hands them
      to the engine; whatever fails, a program that exits leaves no engine, connection or (but
      for one leak) file; [commands_leave_no_engine] also says what a signal leaves that the
      program has not asked for.
    - Defects. Theorems also prove what the code gets wrong: an empty special literal makes
      [Encode] diverge, a negative id panics [Load], a stray closing marker repeats a call,
      large ids are truncated, an empty prompt gets a template, preemption while a batch is
      packed corrupts the batch when the pool is too small, colliding prefixes are answered
      from each other's keys and values, rounding makes a draw fall through to the last token
      of the vocabulary, a configuration without a dimension aborts the engine, tensors of
      any type are uploaded as BF16, a batch of 87383 rows overflows an offset, and a signal
      while the model loads or during a chat leaves the engine running.

    ** Bounds and fuel

    A Fixpoint with fuel returns [Fuel] when it runs out, and each has a theorem that the
    fuel its caller passes is enough (for the engine, in every reachable state): one round per byte or code point for the loops of the
    tokenizer, per merge for [bpe_loop], per line for the chat, per tick of the timeout for
    [WaitReady]; one per token of the budget for [sample_loop], one per running request for
    [Grow] and [BuildBatch]. The JSON parser makes at most two calls per byte; the lemmas on
    [reads] show that this reads every document the program or its clients write. [rounds] is bounded by
    [load], the tokens that may still be generated or computed. [warp_loop] has one round per
    position, [make_room] one per cached graph. Go's [int] is 64 bits wide
    and wraps ([int64], [int32] of this prelude); [max_ctx] fits 32 bits on the wire. The
    engine's lengths are bounded by [max_ctx] and are plain [Z].

    ** Parameters, and what is not modelled

    gin (dispatch, and its call of [encoding/json]), the generated gRPC stubs, the operating
    system, the clock and random numbers are parameters with their documented behaviour as
    named hypotheses ([GinOk], [clock_ok], [Os]). What a kernel computes from the rows it
    reads - matrix products, norms, rotations, attention, the exponential - is the record
    [Arithmetic], whose products may depend on the number of rows. Its hypotheses are
    [arithmetic_ok]: that masked positions contribute nothing to prefill attention
    ([masked_ignored]), which the code obtains by a weight of zero and which fails when
    unwritten memory holds a NaN or an infinity; and that a row of logits has one for each id
    of the vocabulary. The code does not check the ids of a request against the vocabulary:
    [exec] panics on one outside it, and the theorems assume prompts within it
    ([prompts_in_vocabulary]). Products that the code computes in 32
    bits are so in [KvStore], in the [exec] of [ModelRuntime] (by the guard [fits_int], which
    panics on an overflow) and in [RowKernels]; the theorems bound the rows ([kMaxRows],
    87382), the requests sampled ([kMaxSampled], 14135) and the positions ([kMaxPositions]). The
    attention kernels use 64 bits. Launches run one after the other, as on one stream, and the threads of a kernel in any order for [StoreKV] and
    in [RowKernels]; should several threads of [SampleKernel] claim a
    draw, [SampleBatch] takes one of them. The random
    numbers are a sequence. Files are their bytes, mapped to whole pages; the parser of
    RapidJSON is a parameter, in the theorems with the one law that a header which is the
    text of some members reads as them ([so_header]). The angles of the rotation are
    parameters too. The parsing of the engine's flags (CLI11), the logs of both programs and
    the accept loop of the HTTP server are not modelled. Handlers submit and cancel between the
    turns of the engine's loop, which takes its lock only to swap the inbound queue. A JSON document that repeats a member is
    outside [Binding]. The engine theorems assume a pool that covers every slot at full
    context ([ample]); [preemption_breaks_batches] shows that they need it. A request with
    no tokens is never scheduled by the engine; the Go side never sends one
    ([sent_admissible]).

    Left for later: liveness without [ample] once preemption is repaired, fairness of the
    batch order, and that at most one thread claims a draw. *)

From Stdlib Require Export ZArith NArith Lia Bool.

From Stdlib Require Export Strings.Byte.
From stdpp Require Export base tactics numbers option list gmap strings.

#[export] Set Default Proof Using "Type".

(** ** Go strings and byte slices

    A Go [string] and a [[]byte] are both sequences of bytes, not of characters:
    the model uses [list byte] for both. *)

Abbreviation bytes := (list byte).

Declare Scope go_scope.
Delimit Scope go_scope with go.

#[export] Instance byte_eq_dec : EqDecision byte := Byte.byte_eq_dec.

#[export] Program Instance byte_countable : Countable byte :=
  inj_countable Byte.to_N Byte.of_N _.
Next Obligation. intros b. apply Byte.of_to_N. Qed.

(** The value of a byte as an integer in [0, 256). *)
Definition bz (b : byte) : Z := Z.of_N (Byte.to_N b).

(** The Go conversion [byte(z)]: the low eight bits. *)
Definition byte_of_Z (z : Z) : byte :=
  default x00 (Byte.of_N (Z.to_N (z mod 256))).

(** *** Literals

    [go "..."] is a Go string literal: the escapes for newline, carriage return, tab
    and backslash are those of Go, and [\q] stands for the double quote. *)
Definition unescape_one (b : byte) : byte :=
  if Byte.eqb b x6e then x0a else if Byte.eqb b x72 then x0d
  else if Byte.eqb b x74 then x09 else if Byte.eqb b x71 then x22 else b.

Fixpoint unescape (l : bytes) : bytes :=
  match l with
  | b :: ((c :: t) as r) =>
      if Byte.eqb b x5c then unescape_one c :: unescape t else b :: unescape r
  | _ => l
  end.

Definition go (s : string) : bytes := unescape (String.list_byte_of_string s).
Arguments go s%_string_scope.
#[global] Opaque go.

(** The Go [len]. *)
Definition len {A} (l : list A) : Z := Z.of_nat (length l).

(** *** Sub-slices [s[lo:hi]] *)
Definition slice {A} (l : list A) (lo hi : nat) : list A := take (hi - lo) (drop lo l).

(** ** Machine integers

    [int] is 64 bits wide on the platforms the program is built for; [int32] appears
    at the engine's wire interface. *)
Definition wrap (w : Z) (z : Z) : Z := ((z + 2 ^ (w - 1)) mod 2 ^ w - 2 ^ (w - 1))%Z.
Definition int32 (z : Z) : Z := wrap 32 z.
Definition int64 (z : Z) : Z := wrap 64 z.
Definition max_int : Z := (2 ^ 63 - 1)%Z.

Definition in_int (w : Z) (z : Z) : Prop := (- 2 ^ (w - 1) <= z < 2 ^ (w - 1))%Z.
#[export] Instance in_int_dec w z : Decision (in_int w z) := and_dec _ _.

(** ** Results of fallible code *)
Inductive result (E A : Type) : Type :=
  | Ok (a : A)
  | Err (e : E).
Arguments Ok {E A} a.
Arguments Err {E A} e.

Definition rbind {E A B} (m : result E A) (k : A -> result E B) : result E B :=
  match m with Ok a => k a | Err e => Err e end.

Notation "'let!' x := m 'in' k" := (rbind m (fun x => k))
  (at level 10, x pattern, m at level 100, k at level 200) : go_scope.

(** ** Shared tactics *)

(** Split every boolean test and match the goal branches on, keeping the equations. *)
Ltac case_all :=
  repeat match goal with
  | |- context [if ?b then _ else _] => let E := fresh "E" in destruct b eqn:E
  | |- context [match ?x with _ => _ end] => let E := fresh "E" in destruct x eqn:E
  end.

Ltac boolprop :=
  repeat match goal with
  | H : (_ && _)%bool = true |- _ => apply andb_true_iff in H; destruct H
  | H : (_ || _)%bool = false |- _ => apply orb_false_iff in H; destruct H
  | H : negb _ = true |- _ => apply negb_true_iff in H
  | H : negb _ = false |- _ => apply negb_false_iff in H
  | H : (_ <? _)%Z = true |- _ => apply Z.ltb_lt in H
  | H : (_ <? _)%Z = false |- _ => apply Z.ltb_ge in H
  | H : (_ <=? _)%Z = true |- _ => apply Z.leb_le in H
  | H : (_ <=? _)%Z = false |- _ => apply Z.leb_gt in H
  | H : (_ =? _)%Z = true |- _ => apply Z.eqb_eq in H
  | H : (_ =? _)%Z = false |- _ => apply Z.eqb_neq in H
  | H : (_ <? _)%nat = true |- _ => apply Nat.ltb_lt in H
  | H : (_ <? _)%nat = false |- _ => apply Nat.ltb_ge in H
  | H : (_ <=? _)%nat = true |- _ => apply Nat.leb_le in H
  | H : (_ <=? _)%nat = false |- _ => apply Nat.leb_gt in H
  | H : (_ =? _)%nat = true |- _ => apply Nat.eqb_eq in H
  | H : (_ =? _)%nat = false |- _ => apply Nat.eqb_neq in H
  | H : bool_decide _ = true |- _ => apply bool_decide_eq_true in H
  | H : bool_decide _ = false |- _ => apply bool_decide_eq_false in H
  end.

(** ** Lemmas on bytes *)
Lemma bz_range b : (0 <= bz b < 256)%Z.
Proof. unfold bz. pose proof (Byte.to_N_bounded b). lia. Qed.

Lemma bz_inj b1 b2 : bz b1 = bz b2 -> b1 = b2.
Proof.
  unfold bz. intros H. apply N2Z.inj in H.
  pose proof (Byte.of_to_N b1) as H1. pose proof (Byte.of_to_N b2) as H2. congruence.
Qed.

Lemma bz_byte_of_Z z : (0 <= z < 256)%Z -> bz (byte_of_Z z) = z.
Proof.
  intros Hz. unfold bz, byte_of_Z. rewrite Z.mod_small by done.
  destruct (Byte.of_N (Z.to_N z)) as [b|] eqn:E; simpl.
  - apply Byte.to_of_N in E. lia.
  - apply Byte.of_N_None_iff in E. lia.
Qed.

Lemma byte_of_Z_bz b : byte_of_Z (bz b) = b.
Proof. apply bz_inj, bz_byte_of_Z, bz_range. Qed.

(** ** Lemmas on lists *)
Lemma slice_full {A} (l : list A) n : (length l <= n)%nat -> slice l 0 n = l.
Proof. intros. unfold slice. rewrite drop_0. apply take_ge. lia. Qed.

Lemma slice_app {A} (l : list A) i j k :
  (i <= j <= k)%nat -> slice l i j ++ slice l j k = slice l i k.
Proof.
  intros H. unfold slice.
  replace (drop j l) with (drop (j - i) (drop i l)) by (rewrite drop_drop; f_equal; lia).
  rewrite take_take_drop. f_equal. lia.
Qed.

Lemma length_slice {A} (l : list A) i j :
  (i <= j <= length l)%nat -> length (slice l i j) = (j - i)%nat.
Proof. intros. unfold slice. rewrite length_take, length_drop. lia. Qed.

Lemma concat_snoc {A} (ls : list (list A)) l : concat (ls ++ [l]) = concat ls ++ l.
Proof. rewrite concat_app. simpl. by rewrite app_nil_r. Qed.

Lemma bool_decide_refl {A} `{EqDecision A} (x : A) : bool_decide (x = x) = true.
Proof. by apply bool_decide_eq_true. Qed.

(** ** Lemmas on machine integers *)
Lemma wrap_id w z : (0 < w)%Z -> in_int w z -> wrap w z = z.
Proof.
  unfold wrap, in_int. intros Hw Hz.
  assert (Heq : (2 ^ w = 2 * 2 ^ (w - 1))%Z).
  { rewrite <- Z.pow_succ_r by lia. f_equal. lia. }
  rewrite Z.mod_small; lia.
Qed.

Lemma wrap_range w z : (0 < w)%Z -> in_int w (wrap w z).
Proof.
  unfold wrap, in_int. intros Hw.
  assert (Heq : (2 ^ w = 2 * 2 ^ (w - 1))%Z).
  { rewrite <- Z.pow_succ_r by lia. f_equal. lia. }
  assert (0 < 2 ^ (w - 1))%Z by (apply Z.pow_pos_nonneg; lia).
  pose proof (Z.mod_pos_bound (z + 2 ^ (w - 1)) (2 ^ w)). lia.
Qed.

Create HintDb flash discriminated.
Create Rewrite HintDb flash.
#[export] Hint Resolve bz_range : flash.
#[export] Hint Rewrite @length_app @length_drop @length_take @concat_snoc : flash.

#[global] Arguments Nat.leb : simpl never.
#[global] Arguments Nat.ltb : simpl never.
#[global] Arguments Z.leb : simpl never.
#[global] Arguments Z.ltb : simpl never.
#[global] Arguments Z.eqb : simpl never.

(** ** Outcomes of code that can panic or fail to terminate

    [Ret a]: the code returns [a]. [Panic]: an index out of range, or another run-time
    panic. [Fuel]: the rounds the caller allowed did not suffice; theorems state, for
    each use, how many rounds do. *)
Inductive run (A : Type) : Type :=
  | Ret (a : A)
  | Panic
  | Fuel.
Arguments Ret {A} a.
Arguments Panic {A}.
Arguments Fuel {A}.

Definition run_bind {A B} (m : run A) (k : A -> run B) : run B :=
  match m with Ret a => k a | Panic => Panic | Fuel => Fuel end.

Notation "'let*' x := m 'in' k" := (run_bind m (fun x => k))
  (at level 10, x pattern, m at level 100, k at level 200) : go_scope.

(** [l[i]]: a read out of range panics. *)
Definition index_at {A} (l : list A) (i : nat) : run A :=
  match l !! i with Some a => Ret a | None => Panic end.

Lemma index_at_lt {A} (l : list A) i :
  (i < length l)%nat -> exists a, l !! i = Some a /\ index_at l i = Ret a.
Proof.
  intros [a Ha]%lookup_lt_is_Some. exists a. unfold index_at. by rewrite Ha.
Qed.

(** ** Every byte value: a finite check decides a property of all bytes *)
Definition all_bytes : list byte := byte_of_Z <$> seqZ 0 256.

Lemma elem_of_all_bytes b : b ∈ all_bytes.
Proof.
  apply list_elem_of_fmap. exists (bz b). split; [by rewrite byte_of_Z_bz|].
  apply elem_of_seqZ. pose proof (bz_range b). lia.
Qed.

Lemma byte_forall (P : byte -> bool) :
  forallb P all_bytes = true -> forall b, P b = true.
Proof.
  intros H b. rewrite forallb_forall in H. apply H, list_elem_of_In, elem_of_all_bytes.
Qed.

Lemma Forall_slice {A} (P : A -> Prop) (l : list A) i j :
  (forall k x, (i <= k < j)%nat -> l !! k = Some x -> P x) -> Forall P (slice l i j).
Proof.
  intros H. apply Forall_lookup_2. intros k x Hk. unfold slice in Hk.
  apply lookup_take_Some in Hk as [Hk Hlt]. rewrite lookup_drop in Hk.
  apply (H (i + k)%nat); [lia|done].
Qed.

Lemma slice_one {A} (l : list A) i x : l !! i = Some x -> slice l i (i + 1) = [x].
Proof.
  intros H. unfold slice. replace (i + 1 - i)%nat with 1%nat by lia.
  by rewrite (drop_S l x i H).
Qed.

Lemma slice_fmap {A B} (f : A -> B) (l : list A) i j : slice (f <$> l) i j = f <$> slice l i j.
Proof. unfold slice. by rewrite fmap_take, fmap_drop. Qed.

Lemma slice_nil {A} (l : list A) i : slice l i i = [].
Proof. unfold slice. by rewrite Nat.sub_diag. Qed.

Lemma elem_of_snoc {A} (x y : A) l : x ∈ l ++ [y] <-> x ∈ l \/ x = y.
Proof. by rewrite elem_of_app, list_elem_of_singleton. Qed.

Lemma Forall2_impl_elem {A B} (P Q : A -> B -> Prop) l k :
  Forall2 P l k -> (forall x y, x ∈ l -> P x y -> Q x y) -> Forall2 Q l k.
Proof.
  intros H HQ. induction H as [|x y l k Hxy Hl IH]; constructor; [apply HQ; [by left|done]|].
  apply IH. intros x' y' Hx'. apply HQ. by right.
Qed.

Lemma filter_test_ext {A} (f g : A -> bool) (l : list A) :
  (forall x, x ∈ l -> f x = g x) ->
  filter (fun x => f x = true) l = filter (fun x => g x = true) l.
Proof.
  induction l as [|x l IH]; intros H; [done|]. rewrite !filter_cons, (H x) by by left.
  rewrite IH; [done|]. intros y Hy. apply H. by right.
Qed.

(** A bind that returned, taken apart. *)
Lemma bind_inv {A B} (m : run A) (k : A -> run B) b : run_bind m k = Ret b -> exists a, m = Ret a /\ k a = Ret b.
Proof. destruct m as [a| |]; [|done..]. intros H. by exists a. Qed.
