(* ===== verification/Utf8.v ===== *)
(** * The part of Go's [unicode/utf8] (and of [range] over a string) the program uses

    Nothing here is code of the repository: it is the meaning of the standard-library
    calls [utf8.DecodeRune], [utf8.FullRune], [utf8.Valid] and [string(rune)], and of
    the loop [for i, r := range s], which the tokenizer and the two streaming decoders
    are written with. *)

From S2P Require Import Prelude.
Local Open Scope Z_scope.

Abbreviation rune := Z (only parsing).

Definition RuneSelf : Z := 0x80.
Definition RuneError : rune := 0xFFFD.

(** What the first byte of a sequence announces: the tables [first] and [acceptRanges]. *)
Inductive lead :=
  | LAscii
  | LBad
  | LSeq (size : nat) (lo hi : Z).

Definition first (b : byte) : lead :=
  let z := bz b in
  if z <? 0x80 then LAscii
  else if z <? 0xC2 then LBad
  else if z <? 0xE0 then LSeq 2 0x80 0xBF
  else if z =? 0xE0 then LSeq 3 0xA0 0xBF
  else if z =? 0xED then LSeq 3 0x80 0x9F
  else if z <? 0xF0 then LSeq 3 0x80 0xBF
  else if z =? 0xF0 then LSeq 4 0x90 0xBF
  else if z <? 0xF4 then LSeq 4 0x80 0xBF
  else if z =? 0xF4 then LSeq 4 0x80 0x8F
  else LBad.

Definition outside (lo hi : Z) (b : byte) : bool := (bz b <? lo) || (hi <? bz b).

(** The six payload bits of a continuation byte. *)
Definition cont (b : byte) : Z := Z.land (bz b) 0x3F.

Definition decode_rune (p : bytes) : rune * nat :=
  match p with
  | [] => (RuneError, 0%nat)
  | b0 :: r0 =>
      match first b0 with
      | LAscii => (bz b0, 1%nat)
      | LBad => (RuneError, 1%nat)
      | LSeq n lo hi =>
          if (length p <? n)%nat then (RuneError, 1%nat) else
          match r0 with
          | [] => (RuneError, 1%nat)
          | b1 :: r1 =>
              if outside lo hi b1 then (RuneError, 1%nat) else
              if (n <=? 2)%nat then
                (Z.lor (Z.shiftl (Z.land (bz b0) 0x1F) 6) (cont b1), 2%nat) else
              match r1 with
              | [] => (RuneError, 1%nat)
              | b2 :: r2 =>
                  if outside 0x80 0xBF b2 then (RuneError, 1%nat) else
                  if (n <=? 3)%nat then
                    (Z.lor (Z.lor (Z.shiftl (Z.land (bz b0) 0x0F) 12) (Z.shiftl (cont b1) 6))
                       (cont b2), 3%nat) else
                  match r2 with
                  | [] => (RuneError, 1%nat)
                  | b3 :: _ =>
                      if outside 0x80 0xBF b3 then (RuneError, 1%nat) else
                      (Z.lor (Z.lor (Z.lor (Z.shiftl (Z.land (bz b0) 0x07) 18)
                                       (Z.shiftl (cont b1) 12))
                                (Z.shiftl (cont b2) 6)) (cont b3), 4%nat)
                  end
              end
          end
      end
  end.

Definition full_rune (p : bytes) : bool :=
  match p with
  | [] => false
  | b0 :: r0 =>
      match first b0 with
      | LAscii | LBad => true
      | LSeq n lo hi =>
          if (n <=? length p)%nat then true else
          match r0 with
          | [] => false
          | b1 :: r1 =>
              if outside lo hi b1 then true else
              match r1 with
              | [] => false
              | b2 :: _ => outside 0x80 0xBF b2
              end
          end
      end
  end.

(** [string(r)] for a rune [r], and [utf8.AppendRune]. *)
Definition encode_rune (r : rune) : bytes :=
  let seq3 r := [byte_of_Z (Z.lor 0xE0 (Z.shiftr r 12));
                 byte_of_Z (Z.lor 0x80 (Z.land (Z.shiftr r 6) 0x3F));
                 byte_of_Z (Z.lor 0x80 (Z.land r 0x3F))] in
  if (r <? 0) || (0x10FFFF <? r) || ((0xD800 <=? r) && (r <=? 0xDFFF)) then seq3 RuneError
  else if r <=? 0x7F then [byte_of_Z r]
  else if r <=? 0x7FF then
    [byte_of_Z (Z.lor 0xC0 (Z.shiftr r 6)); byte_of_Z (Z.lor 0x80 (Z.land r 0x3F))]
  else if r <=? 0xFFFF then seq3 r
  else [byte_of_Z (Z.lor 0xF0 (Z.shiftr r 18));
        byte_of_Z (Z.lor 0x80 (Z.land (Z.shiftr r 12) 0x3F));
        byte_of_Z (Z.lor 0x80 (Z.land (Z.shiftr r 6) 0x3F));
        byte_of_Z (Z.lor 0x80 (Z.land r 0x3F))].

(** [for i, r := range s]: the runes of [s] with their byte offsets. Every round consumes
    at least one byte, so [length s] rounds are enough ([range_from_cons]). *)
Fixpoint range_from (fuel off : nat) (s : bytes) : list (rune * nat) :=
  match fuel with
  | O => []
  | S f =>
      match s with
      | [] => []
      | _ :: _ =>
          let '(r, n) := decode_rune s in
          (r, off) :: range_from f (off + n) (drop n s)
      end
  end.

Definition range_string (s : bytes) : list (rune * nat) := range_from (length s) 0 s.

(** A string all of whose bytes belong to well-formed sequences ([utf8.Valid]). *)
Inductive valid : bytes -> Prop :=
  | valid_nil : valid []
  | valid_step p r n :
      p <> [] -> decode_rune p = (r, n) -> (r <> RuneError \/ n <> 1%nat) ->
      valid (drop n p) -> valid p.

(** ** Facts *)

Lemma first_size b n lo hi : first b = LSeq n lo hi -> (2 <= n <= 4)%nat.
Proof. unfold first. case_all; intros; simplify_eq; lia. Qed.

Lemma decode_size p : p <> [] -> (1 <= snd (decode_rune p) <= length p)%nat.
Proof.
  destruct p as [|b0 r0]; [done|intros _]. unfold decode_rune.
  destruct (first b0) as [| |n lo hi] eqn:E; simpl; try lia.
  apply first_size in E. case_all; simpl; boolprop; simpl in *; lia.
Qed.

Lemma full_rune_false_length p : full_rune p = false -> (length p <= 3)%nat.
Proof.
  destruct p as [|b0 r0]; simpl; [lia|].
  destruct (first b0) as [| |n lo hi] eqn:E; try done.
  apply first_size in E. destruct (n <=? _)%nat eqn:E1; [done|]. boolprop. lia.
Qed.

Lemma full_rune_app p q : full_rune p = true -> full_rune (p ++ q) = true.
Proof.
  destruct p as [|b0 r0]; [done|]. simpl.
  destruct (first b0) as [| |n lo hi] eqn:E; try done.
  destruct (n <=? _)%nat eqn:E1.
  - intros _. rewrite (proj2 (Nat.leb_le _ _)); [done|].
    boolprop. rewrite length_app. lia.
  - intros Hf. destruct (n <=? S (length (r0 ++ q)))%nat; [done|].
    destruct r0 as [|b1 r1]; [done|]. simpl.
    destruct (outside lo hi b1); [done|]. by destruct r1.
Qed.

(** A complete rune decodes the same whatever bytes follow it. *)
Lemma decode_rune_app p q : full_rune p = true -> decode_rune (p ++ q) = decode_rune p.
Proof.
  destruct p as [|b0 r0]; [done|]. simpl.
  destruct (first b0) as [| |n lo hi] eqn:E; try done.
  apply first_size in E.
  destruct (n <=? S (length r0))%nat eqn:E1.
  - intros _. boolprop.
    rewrite !(proj2 (Nat.ltb_ge _ _)) by (rewrite ?length_app; lia).
    destruct r0 as [|b1 r1]; simpl in *; [lia|].
    destruct r1 as [|b2 r2]; simpl in *.
    { by rewrite (proj2 (Nat.leb_le n 2)) by lia. }
    destruct r2 as [|b3 r3]; simpl in *; [|done].
    by rewrite (proj2 (Nat.leb_le n 3)) by lia.
  - boolprop. rewrite (proj2 (Nat.ltb_lt (S (length r0)) n)) by lia.
    destruct r0 as [|b1 r1]; [done|]. simpl.
    destruct (outside lo hi b1) eqn:Eb; [intros _; by case_all|].
    destruct r1 as [|b2 r2]; [done|]. simpl in *. intros Ho. rewrite Ho.
    rewrite (proj2 (Nat.leb_gt n 2)) by lia. by case_all.
Qed.

Lemma decode_ascii b p : bz b < 0x80 -> decode_rune (b :: p) = (bz b, 1%nat).
Proof. intros H. unfold decode_rune, first. by rewrite (proj2 (Z.ltb_lt _ _) H). Qed.

Lemma range_from_cons f off s :
  (length s <= f)%nat ->
  range_from f off s =
  match s with
  | [] => []
  | _ :: _ =>
      let '(r, n) := decode_rune s in
      (r, off) :: range_from (length (drop n s)) (off + n) (drop n s)
  end.
Proof.
  revert off s. induction f as [f IH] using lt_wf_ind. intros off s Hf.
  destruct s as [|b s]; [by destruct f|].
  destruct f as [|f]; [simpl in Hf; lia|]. cbn [range_from].
  pose proof (decode_size (b :: s) ltac:(done)) as Hs.
  destruct (decode_rune (b :: s)) as [r n]. cbn [snd] in Hs. f_equal.
  set (t := drop n (b :: s)).
  assert (length t <= f)%nat by (subst t; rewrite length_drop; simpl in *; lia).
  rewrite (IH f) by (simpl in *; lia).
  rewrite (IH (length t)); [done| |done].
  simpl in *. lia.
Qed.

(** A rune that fits in a prefix decodes the same in the prefix alone. *)
Lemma decode_rune_prefix q rest r n :
  decode_rune (q ++ rest) = (r, n) -> (n <= length q)%nat -> q <> [] -> decode_rune q = (r, n).
Proof.
  destruct (full_rune q) eqn:Ef.
  { intros <- _ _. symmetry. by apply decode_rune_app. }
  destruct q as [|b0 q]; [done|]. intros Hd Hn _. revert Hd Ef. simpl in *.
  destruct (first b0) as [| |k lo hi] eqn:E; [done|done|].
  destruct (k <=? S (length q))%nat eqn:Ek; [done|]. boolprop.
  rewrite (proj2 (Nat.ltb_lt (S (length q)) k)) by lia. intros Hd _. revert Hd.
  destruct (S (length (q ++ rest)) <? k)%nat; [done|].
  apply first_size in E.
  destruct (q ++ rest) as [|b1 r1] eqn:Eq; [done|].
  destruct (outside lo hi b1); [done|].
  destruct (k <=? 2)%nat eqn:E2; boolprop.
  { intros [= _ <-]. lia. }
  destruct r1 as [|b2 r2]; [done|]. destruct (outside 128 191 b2); [done|].
  destruct (k <=? 3)%nat eqn:E3; boolprop.
  { intros [= _ <-]. lia. }
  destruct r2 as [|b3 r3]; [done|]. destruct (outside 128 191 b3); [done|].
  intros [= _ <-]. lia.
Qed.

(** The runes of a string with offsets counted from [off]. *)
Definition range_at (off : nat) (s : bytes) : list (rune * nat) := range_from (length s) off s.

Lemma range_at_cons off s :
  range_at off s =
  match s with
  | [] => []
  | _ :: _ =>
      let '(r, n) := decode_rune s in (r, off) :: range_at (off + n) (drop n s)
  end.
Proof. unfold range_at at 1. by rewrite range_from_cons. Qed.

(** Cutting a string between two of its runes cuts its rune list. *)
Lemma range_at_split k off s :
  (k <= length (range_at off s))%nat ->
  exists a b, s = a ++ b /\ range_at off a = take k (range_at off s) /\
    range_at (off + length a) b = drop k (range_at off s).
Proof.
  revert off s. induction k as [|k IH]; intros off s Hk.
  { exists [], s. simpl. rewrite Nat.add_0_r. by rewrite drop_0. }
  destruct s as [|c s]; [simpl in Hk; lia|].
  rewrite range_at_cons in Hk |- *.
  pose proof (decode_size (c :: s) ltac:(done)) as Hs.
  destruct (decode_rune (c :: s)) as [r n] eqn:Hd. cbn [snd length] in Hs, Hk.
  destruct (IH (off + n)%nat (drop n (c :: s))) as (a & b & Heq & Ha & Hb); [lia|].
  exists (take n (c :: s) ++ a), b. rewrite <- app_assoc, <- Heq, take_drop.
  assert (Hlen : length (take n (c :: s)) = n) by (rewrite length_take; simpl; lia).
  split_and!; [done| |].
  - rewrite range_at_cons.
    destruct (take n (c :: s) ++ a) as [|c' s'] eqn:E.
    { apply app_eq_nil in E as [E _]. rewrite E in Hlen. simpl in Hlen. lia. }
    rewrite <- E, (decode_rune_prefix _ b r n).
    + cbn [take]. rewrite <- Ha. f_equal. f_equal.
      rewrite <- Hlen at 1. by rewrite drop_app_length.
    + rewrite <- app_assoc, <- Heq. by rewrite take_drop.
    + rewrite length_app. lia.
    + rewrite E. done.
  - cbn [drop]. rewrite <- Hb. f_equal. rewrite length_app. lia.
Qed.

Lemma range_at_nil off s : range_at off s = [] <-> s = [].
Proof.
  split; [|by intros ->]. rewrite range_at_cons. destruct s; [done|].
  by destruct (decode_rune _).
Qed.

(** The runes of a string, without offsets. *)
Definition runes (s : bytes) : list rune := fst <$> range_string s.

Lemma runes_range_at off s : runes s = fst <$> range_at off s.
Proof.
  unfold runes, range_string, range_at. generalize (length s) 0%nat. intros f.
  revert off s. induction f as [|f IH]; intros off [|b s] o; try done.
  cbn [range_from]. destruct (decode_rune (b :: s)). cbn. f_equal. apply IH.
Qed.

(** The bytes of a well-formed multi-byte sequence are all at least 0x80. *)
Lemma decode_rune_high b p c n :
  RuneSelf <= bz b -> decode_rune (b :: p) = (c, n) -> (c <> RuneError \/ n <> 1%nat) ->
  Forall (fun x => RuneSelf <= bz x) (take n (b :: p)).
Proof.
  intros Hb. unfold decode_rune.
  assert (Hout : forall lo hi x, 0x80 <= lo -> outside lo hi x = false -> RuneSelf <= bz x).
  { intros lo hi x Hlo Ho. unfold outside in Ho. boolprop. unfold RuneSelf. lia. }
  assert (Hlo : forall k lo hi, first b = LSeq k lo hi -> 0x80 <= lo).
  { unfold first. intros k lo hi. case_all; intros; simplify_eq; lia. }
  destruct (first b) as [| |k lo hi] eqn:E.
  - exfalso. unfold first, RuneSelf in *. revert E. case_all; boolprop; (done || lia).
  - intros [= <- <-] Hne. tauto.
  - specialize (Hlo _ _ _ eq_refl).
    case_all; intros [= <- <-] Hne; try (exfalso; tauto);
      repeat match goal with H : outside ?l _ _ = false |- _ => apply (Hout l) in H; [|lia] end;
      repeat constructor; done.
Qed.

(** ** Encoding is the inverse of decoding *)

Lemma lor_shiftl a k b : 0 <= k -> 0 <= b < 2 ^ k -> Z.lor (Z.shiftl a k) b = a * 2 ^ k + b.
Proof.
  intros Hk Hb. rewrite <- Z.shiftl_mul_pow2 by lia. symmetry.
  assert (Z.land (Z.shiftl a k) b = 0) as Hl.
  { apply Z.bits_inj'. intros i Hi. rewrite Z.land_spec, Z.bits_0.
    destruct (Z.ltb_spec i k).
    - by rewrite Z.shiftl_spec_low.
    - rewrite <- (Z.mod_small b (2 ^ k)), Z.mod_pow2_bits_high, andb_false_r by lia. done. }
  by rewrite <- Z.lxor_lor, Z.add_nocarry_lxor.
Qed.

(** The payload of a byte. *)
Lemma payload_table :
  forallb (fun b => let z := bz b in
    implb ((0x80 <=? z) && (z <=? 0xBF)) (cont b =? z - 0x80)
    && implb ((0xC0 <=? z) && (z <? 0xE0)) (Z.land z 0x1F =? z - 0xC0)
    && implb ((0xE0 <=? z) && (z <? 0xF0)) (Z.land z 0x0F =? z - 0xE0)
    && implb ((0xF0 <=? z) && (z <? 0xF8)) (Z.land z 0x07 =? z - 0xF0)) all_bytes = true.
Proof. vm_compute. reflexivity. Qed.

Lemma payload b :
  let z := bz b in
  (0x80 <= z <= 0xBF -> cont b = z - 0x80) /\
  (0xC0 <= z < 0xE0 -> Z.land z 0x1F = z - 0xC0) /\
  (0xE0 <= z < 0xF0 -> Z.land z 0x0F = z - 0xE0) /\
  (0xF0 <= z < 0xF8 -> Z.land z 0x07 = z - 0xF0).
Proof.
  pose proof (byte_forall _ payload_table b) as H. cbn zeta beta in *. boolprop.
  rewrite !implb_true_iff, !andb_true_iff, !Z.eqb_eq, !Z.leb_le, !Z.ltb_lt in *.
  split_and!; intros; tauto || lia.
Qed.

(** The bytes [encode_rune] builds from a payload. *)
Lemma lead_table :
  forallb (fun x => (Z.lor 0x80 x =? 0x80 + x) && implb (x <? 32) (Z.lor 0xC0 x =? 0xC0 + x)
                    && implb (x <? 16) (Z.lor 0xE0 x =? 0xE0 + x)
                    && implb (x <? 8) (Z.lor 0xF0 x =? 0xF0 + x)) (seqZ 0 64) = true.
Proof. vm_compute. reflexivity. Qed.

Lemma lead_lor x :
  0 <= x < 64 ->
  Z.lor 0x80 x = 0x80 + x /\ (x < 32 -> Z.lor 0xC0 x = 0xC0 + x) /\
  (x < 16 -> Z.lor 0xE0 x = 0xE0 + x) /\ (x < 8 -> Z.lor 0xF0 x = 0xF0 + x).
Proof.
  intros Hx. pose proof lead_table as H. rewrite forallb_forall in H.
  specialize (H x). rewrite <- list_elem_of_In, elem_of_seqZ in H. specialize (H ltac:(lia)). boolprop.
  rewrite !implb_true_iff, !Z.ltb_lt, !Z.eqb_eq in *. split_and!; [lia|done..].
Qed.

Lemma cont_byte x b : 0 <= x < 64 -> bz b = 0x80 + x -> byte_of_Z (Z.lor 0x80 x) = b.
Proof. intros Hx Hb. destruct (lead_lor x Hx) as [-> _]. rewrite <- Hb. apply byte_of_Z_bz. Qed.

Lemma land_63 r : Z.land r 0x3F = r mod 64.
Proof. change 0x3F with (Z.ones 6). by rewrite Z.land_ones. Qed.

Lemma split_6 q x : 0 <= x < 64 -> (q * 64 + x) / 64 = q /\ (q * 64 + x) mod 64 = x.
Proof.
  intros Hx. split.
  - rewrite Z.div_add_l by lia. rewrite Z.div_small; lia.
  - rewrite Z.add_comm, Z_mod_plus_full. by apply Z.mod_small.
Qed.

Lemma shiftr_6 r : Z.shiftr r 6 = r / 64.
Proof. by rewrite Z.shiftr_div_pow2. Qed.
Lemma shiftr_12 r : Z.shiftr r 12 = r / 64 / 64.
Proof. rewrite Z.shiftr_div_pow2, Z.div_div by lia. done. Qed.
Lemma shiftr_18 r : Z.shiftr r 18 = r / 64 / 64 / 64.
Proof. rewrite Z.shiftr_div_pow2, !Z.div_div by lia. done. Qed.

Lemma encode_2 b0 b1 :
  0xC2 <= bz b0 < 0xE0 -> 0x80 <= bz b1 <= 0xBF ->
  encode_rune (Z.lor (Z.shiftl (Z.land (bz b0) 0x1F) 6) (cont b1)) = [b0; b1].
Proof.
  intros H0 H1. destruct (payload b0) as (_ & E0 & _). destruct (payload b1) as (E1 & _).
  rewrite E0, E1 by lia. rewrite lor_shiftl by lia. change (2 ^ 6) with 64.
  set (q := bz b0 - 0xC0). set (x := bz b1 - 0x80).
  destruct (split_6 q x ltac:(lia)) as [Hd Hm]. unfold encode_rune.
  cbv zeta.
  rewrite (land_63 (q * 64 + x)), (shiftr_6 (q * 64 + x)), Hd, Hm.
  rewrite (proj2 (Z.ltb_ge (q * 64 + x) 0)), (proj2 (Z.ltb_ge 0x10FFFF (q * 64 + x))),
    (proj2 (Z.leb_gt 0xD800 (q * 64 + x))), (proj2 (Z.leb_gt (q * 64 + x) 0x7F)),
    (proj2 (Z.leb_le (q * 64 + x) 0x7FF)) by lia. cbn [orb andb].
  rewrite (cont_byte x b1) by lia. f_equal.
  destruct (lead_lor q ltac:(lia)) as (_ & -> & _); [|lia].
  replace (0xC0 + q) with (bz b0) by lia. apply byte_of_Z_bz.
Qed.

Lemma encode_3 b0 b1 b2 :
  0xE0 <= bz b0 < 0xF0 -> 0x80 <= bz b1 <= 0xBF -> 0x80 <= bz b2 <= 0xBF ->
  (bz b0 = 0xE0 -> 0xA0 <= bz b1) -> (bz b0 = 0xED -> bz b1 <= 0x9F) ->
  encode_rune (Z.lor (Z.lor (Z.shiftl (Z.land (bz b0) 0x0F) 12) (Z.shiftl (cont b1) 6)) (cont b2))
  = [b0; b1; b2].
Proof.
  intros H0 H1 H2 Hlo Hhi. destruct (payload b0) as (_ & _ & E0 & _).
  destruct (payload b1) as (E1 & _). destruct (payload b2) as (E2 & _).
  rewrite E0, E1, E2 by lia.
  set (q := bz b0 - 0xE0). set (x := bz b1 - 0x80). set (y := bz b2 - 0x80).
  assert (Z.lor (Z.lor (Z.shiftl q 12) (Z.shiftl x 6)) y = (q * 64 + x) * 64 + y) as ->.
  { rewrite (Z.shiftl_mul_pow2 x) by lia. rewrite lor_shiftl by lia.
    replace (q * 2 ^ 12 + x * 2 ^ 6) with (Z.shiftl (q * 64 + x) 6) by (rewrite Z.shiftl_mul_pow2; lia).
    by rewrite lor_shiftl by lia. }
  destruct (split_6 (q * 64 + x) y ltac:(lia)) as [Hd Hm]. destruct (split_6 q x ltac:(lia)) as [Hd' Hm'].
  set (r := (q * 64 + x) * 64 + y) in *. unfold encode_rune.
  cbv zeta.
  rewrite (land_63 r), (land_63 (Z.shiftr r 6)), (shiftr_6 r), (shiftr_12 r), Hd, Hm, Hd', Hm'.
  assert (0x7FF < r <= 0xFFFF /\ (r < 0xD800 \/ 0xDFFF < r)) as [Hr Hs] by lia.
  rewrite (proj2 (Z.ltb_ge r 0)), (proj2 (Z.ltb_ge 0x10FFFF r)), (proj2 (Z.leb_gt r 0x7F)),
    (proj2 (Z.leb_gt r 0x7FF)), (proj2 (Z.leb_le r 0xFFFF)) by lia.
  assert ((0xD800 <=? r) && (r <=? 0xDFFF) = false) as ->.
  { apply andb_false_iff. rewrite !Z.leb_gt. lia. }
  cbn [orb]. rewrite (cont_byte y b2), (cont_byte x b1) by lia. f_equal.
  destruct (lead_lor q ltac:(lia)) as (_ & _ & -> & _); [|lia].
  replace (0xE0 + q) with (bz b0) by lia. apply byte_of_Z_bz.
Qed.

Lemma encode_4 b0 b1 b2 b3 :
  0xF0 <= bz b0 < 0xF5 -> 0x80 <= bz b1 <= 0xBF -> 0x80 <= bz b2 <= 0xBF -> 0x80 <= bz b3 <= 0xBF ->
  (bz b0 = 0xF0 -> 0x90 <= bz b1) -> (bz b0 = 0xF4 -> bz b1 <= 0x8F) ->
  encode_rune (Z.lor (Z.lor (Z.lor (Z.shiftl (Z.land (bz b0) 0x07) 18) (Z.shiftl (cont b1) 12))
                       (Z.shiftl (cont b2) 6)) (cont b3)) = [b0; b1; b2; b3].
Proof.
  intros H0 H1 H2 H3 Hlo Hhi. destruct (payload b0) as (_ & _ & _ & E0).
  destruct (payload b1) as (E1 & _). destruct (payload b2) as (E2 & _). destruct (payload b3) as (E3 & _).
  rewrite E0, E1, E2, E3 by lia.
  set (q := bz b0 - 0xF0). set (x := bz b1 - 0x80). set (y := bz b2 - 0x80). set (w := bz b3 - 0x80).
  assert (Z.lor (Z.lor (Z.lor (Z.shiftl q 18) (Z.shiftl x 12)) (Z.shiftl y 6)) w
          = ((q * 64 + x) * 64 + y) * 64 + w) as ->.
  { rewrite (Z.shiftl_mul_pow2 x), (Z.shiftl_mul_pow2 y) by lia. rewrite (lor_shiftl q) by lia.
    replace (q * 2 ^ 18 + x * 2 ^ 12) with (Z.shiftl (q * 64 + x) 12) by (rewrite Z.shiftl_mul_pow2; lia).
    rewrite lor_shiftl by lia.
    replace ((q * 64 + x) * 2 ^ 12 + y * 2 ^ 6) with (Z.shiftl ((q * 64 + x) * 64 + y) 6)
      by (rewrite Z.shiftl_mul_pow2; lia).
    by rewrite lor_shiftl by lia. }
  destruct (split_6 ((q * 64 + x) * 64 + y) w ltac:(lia)) as [Hd Hm].
  destruct (split_6 (q * 64 + x) y ltac:(lia)) as [Hd' Hm'].
  destruct (split_6 q x ltac:(lia)) as [Hd'' Hm''].
  set (r := ((q * 64 + x) * 64 + y) * 64 + w) in *. unfold encode_rune.
  cbv zeta.
  rewrite (land_63 r), (land_63 (Z.shiftr r 6)), (land_63 (Z.shiftr r 12)), (shiftr_6 r),
    (shiftr_12 r), (shiftr_18 r), Hd, Hm, Hd', Hm', Hd'', Hm''.
  assert (0xFFFF < r <= 0x10FFFF) as Hr by lia.
  rewrite (proj2 (Z.ltb_ge r 0)), (proj2 (Z.ltb_ge 0x10FFFF r)), (proj2 (Z.leb_gt r 0x7F)),
    (proj2 (Z.leb_gt r 0x7FF)), (proj2 (Z.leb_gt r 0xFFFF)), (proj2 (Z.leb_gt r 0xDFFF)), andb_false_r by lia.
  cbn [orb]. rewrite (cont_byte w b3), (cont_byte y b2), (cont_byte x b1) by lia. f_equal.
  destruct (lead_lor q ltac:(lia)) as (_ & _ & _ & ->); [|lia].
  replace (0xF0 + q) with (bz b0) by lia. apply byte_of_Z_bz.
Qed.

Lemma encode_decode p c n :
  p <> [] -> decode_rune p = (c, n) -> (c <> RuneError \/ n <> 1%nat) -> encode_rune c = take n p.
Proof.
  intros Hne. destruct p as [|b0 r0]; [done|]. unfold decode_rune.
  destruct (first b0) as [| |k lo hi] eqn:Ef.
  - intros [= <- <-] _. cbn [take]. rewrite take_0. unfold first in Ef.
    assert (bz b0 < 0x80).
    { revert Ef. destruct (Z.ltb_spec (bz b0) 0x80); [done|]. case_all; done. }
    pose proof (bz_range b0). unfold encode_rune.
    rewrite (proj2 (Z.ltb_ge (bz b0) 0)), (proj2 (Z.ltb_ge 0x10FFFF (bz b0))),
      (proj2 (Z.leb_gt 0xD800 (bz b0))), (proj2 (Z.leb_le (bz b0) 0x7F)) by lia.
    cbn [orb andb]. by rewrite byte_of_Z_bz.
  - intros [= <- <-]. tauto.
  - assert (Hk : (k = 2%nat /\ 0xC2 <= bz b0 < 0xE0 /\ lo = 0x80 /\ hi = 0xBF) \/
      (k = 3%nat /\ 0xE0 <= bz b0 < 0xF0 /\ 0x80 <= lo /\ hi <= 0xBF /\
       (bz b0 = 0xE0 -> lo = 0xA0) /\ (bz b0 = 0xED -> hi = 0x9F)) \/
      (k = 4%nat /\ 0xF0 <= bz b0 < 0xF5 /\ 0x80 <= lo /\ hi <= 0xBF /\
       (bz b0 = 0xF0 -> lo = 0x90) /\ (bz b0 = 0xF4 -> hi = 0x8F))).
    { unfold first in Ef. revert Ef. case_all; intros; simplify_eq; boolprop; try (left; lia);
        try (right; left; lia); right; right; lia. }
    destruct (length (b0 :: r0) <? k)%nat; [intros [= <- <-]; tauto|].
    destruct r0 as [|b1 r1]; [intros [= <- <-]; tauto|].
    unfold outside. destruct ((bz b1 <? lo) || (hi <? bz b1)) eqn:E1; [intros [= <- <-]; tauto|].
    destruct (Nat.leb_spec k 2).
    { intros [= <- <-] _. cbn [take]. rewrite take_0. boolprop. apply encode_2; lia. }
    destruct r1 as [|b2 r2]; [intros [= <- <-]; tauto|].
    destruct ((bz b2 <? 128) || (191 <? bz b2)) eqn:E2; [intros [= <- <-]; tauto|].
    destruct (Nat.leb_spec k 3).
    { intros [= <- <-] _. cbn [take]. rewrite take_0. boolprop. apply encode_3; lia. }
    destruct r2 as [|b3 r3]; [intros [= <- <-]; tauto|].
    destruct ((bz b3 <? 128) || (191 <? bz b3)) eqn:E3; [intros [= <- <-]; tauto|].
    intros [= <- <-] _. cbn [take]. rewrite take_0. boolprop. apply encode_4; lia.
Qed.
