(* ===== verification/GoStrings.v ===== *)
(** * The part of Go's [strings] and [strconv] the program uses

    [strings.Index], [strings.HasPrefix], [strings.IndexByte], [strings.TrimRight] with
    a cutset, and [strconv.Itoa]; -1 is [None]. *)

From S2P Require Import Prelude.

Fixpoint has_prefix (s p : bytes) {struct p} : bool :=
  match p, s with
  | [], _ => true
  | b :: p', c :: s' => bool_decide (b = c) && has_prefix s' p'
  | _ :: _, [] => false
  end.

(** [strings.Index]: the offset of the first occurrence. *)
Fixpoint index (s sub : bytes) : option nat :=
  if has_prefix s sub then Some 0%nat else
  match s with
  | [] => None
  | _ :: s' => S <$> index s' sub
  end.

Definition index_byte (s : bytes) (b : byte) : option nat := fst <$> list_find (b =.) s.

(** [strings.TrimRight(s, cutset)]. *)
Definition trim_right (s cutset : bytes) : bytes :=
  let fix drop_while l :=
    match l with
    | [] => []
    | b :: l' => if bool_decide (b ∈ cutset) then drop_while l' else l
    end in
  reverse (drop_while (reverse s)).

(** [strconv.Itoa]. *)
Fixpoint digits (fuel : nat) (z : Z) (acc : bytes) : bytes :=
  match fuel with
  | O => acc
  | S f =>
      let acc' := byte_of_Z (48 + z mod 10) :: acc in
      if (z <? 10)%Z then acc' else digits f (z / 10) acc'
  end.

Definition itoa (z : Z) : bytes :=
  let d z := digits (S (Z.to_nat (Z.log2 z))) z [] in
  if (z <? 0)%Z then x2d :: d (- z)%Z else d z.

(** [time.Duration.String], of a number of nanoseconds. [fmtFrac]: the fraction of
    [v / 10^prec] without trailing zeros, and the integer part. *)
Fixpoint fmt_frac (prec : nat) (v : Z) (print : bool) (acc : bytes) : bytes * bool * Z :=
  match prec with
  | O => (acc, print, v)
  | S k =>
      let digit := (v mod 10)%Z in
      let print := print || negb (digit =? 0)%Z in
      fmt_frac k (v / 10) print (if print then byte_of_Z (48 + digit) :: acc else acc)
  end.

Definition fmt_unit (prec : nat) (v : Z) (unit : bytes) : bytes * Z :=
  let '(frac, print, v) := fmt_frac prec v false [] in
  ((if print then x2e :: frac else frac) ++ unit, v).

Definition duration_string (d : Z) : bytes :=
  let u := Z.abs d in
  let body :=
    if (u <? 10 ^ 9)%Z then
      if (u =? 0)%Z then go "0s" else
      let '(prec, unit) :=
        if (u <? 10 ^ 3)%Z then (0%nat, go "ns")
        else if (u <? 10 ^ 6)%Z then (3%nat, [xc2; xb5; x73])
        else (6%nat, go "ms") in
      let '(tail, v) := fmt_unit prec u unit in itoa v ++ tail
    else
      let '(tail, v) := fmt_unit 9 u (go "s") in
      let secs := itoa (v mod 60) ++ tail in
      let v := (v / 60)%Z in
      if (v =? 0)%Z then secs else
      let mins := itoa (v mod 60) ++ go "m" ++ secs in
      let v := (v / 60)%Z in
      if (v =? 0)%Z then mins else itoa v ++ go "h" ++ mins in
  if (d <? 0)%Z then x2d :: body else body.

Example duration_ex :
  duration_string <$> [0; 1500; 300000000; 1800000000000; 5025500000000]%Z =
  [go "0s"; itoa 1 ++ go ".5" ++ [xc2; xb5; x73]; go "300ms"; go "30m0s"; go "1h23m45.5s"].
Proof. vm_compute. reflexivity. Qed.

(** ** Facts *)

Lemma has_prefix_spec s p : has_prefix s p = true <-> exists t, s = p ++ t.
Proof.
  revert s. induction p as [|b p IH]; intros s; simpl.
  - split; intros _; [by exists s|reflexivity].
  - destruct s as [|c s].
    + split; [done|by intros [t ?]].
    + rewrite andb_true_iff, bool_decide_eq_true, IH. split.
      * intros [-> [t ->]]. by exists t.
      * intros [t [= -> ->]]. eauto.
Qed.

Lemma has_prefix_app s t : has_prefix (s ++ t) s = true.
Proof. apply has_prefix_spec. eauto. Qed.

Lemma index_Some s sub i :
  index s sub = Some i <->
  has_prefix (drop i s) sub = true /\ (i <= length s)%nat /\
  forall j, (j < i)%nat -> has_prefix (drop j s) sub = false.
Proof.
  revert i. induction s as [|c s IH]; intros i; cbn [index].
  - destruct (has_prefix [] sub) eqn:E.
    + split; [intros [= <-]; simpl; split_and!; [done|lia|lia]|].
      intros (_ & Hi & _). simpl in Hi. f_equal. lia.
    + rewrite drop_nil. split; [done|intros [? _]; congruence].
  - destruct (has_prefix (c :: s) sub) eqn:E.
    + split; [intros [= <-]; simpl; split_and!; [done|lia|lia]|].
      intros (_ & _ & Hj). destruct i; [done|]. specialize (Hj 0%nat ltac:(lia)).
      simpl in Hj. congruence.
    + rewrite fmap_Some. setoid_rewrite IH. split.
      * intros (j & (Hp & Hl & Hm) & ->). simpl. split_and!; [done|lia|].
        intros [|k] Hk; [done|]. apply Hm. lia.
      * intros (Hp & Hl & Hm). destruct i as [|i]; [simpl in Hp; congruence|].
        exists i. simpl in *. split_and!; [done|lia| |done].
        intros k Hk. apply (Hm (S k)). lia.
Qed.

Lemma index_None s sub :
  index s sub = None -> forall i, (i <= length s)%nat -> has_prefix (drop i s) sub = false.
Proof.
  induction s as [|c s IH]; cbn [index].
  - destruct (has_prefix [] sub) eqn:E; [done|]. intros _ i _. by rewrite drop_nil.
  - destruct (has_prefix (c :: s) sub) eqn:E; [done|].
    rewrite fmap_None. intros H [|i] Hi; [done|]. apply IH; [done|]. simpl in Hi. lia.
Qed.

Lemma index_split s sub i :
  index s sub = Some i -> s = take i s ++ sub ++ drop (i + length sub) s.
Proof.
  intros (Hp & Hl & _)%index_Some. apply has_prefix_spec in Hp as [t Ht].
  rewrite <- (take_drop i s) at 1. f_equal. rewrite Ht. f_equal.
  rewrite <- drop_drop, Ht. by rewrite drop_app_length.
Qed.

Lemma index_bound s sub i : index s sub = Some i -> (i + length sub <= length s)%nat.
Proof.
  intros H. pose proof H as (_ & Hl & _)%index_Some.
  apply index_split, (f_equal length) in H.
  rewrite !length_app, length_take, length_drop in H. lia.
Qed.
