(* ===== verification/TokenizerCore.v ===== *)
(** * The tokenizer's state, its byte tables and its lookups

    Models [internal/tokenizer/tokenizer.go]: the [Tokenizer] struct, [buildByteMaps],
    [symToBytes], and the read-only public API [Decode], [ID], [IsSpecial] and
    [VocabSize]. The tables translate each byte to a printable code point ("symbol
    space") and back; [syms_of] is that translation on a whole string, and the lemmas
    show that [symToBytes] inverts it. *)

From S2P Require Import Prelude Utf8.
Local Open Scope go_scope.

Record special := Special { sp_str : bytes; sp_id : Z }.

#[export] Instance special_eq_dec : EqDecision special.
Proof. solve_decision. Defined.

Record Tokenizer := {
  byteToSym : list bytes;       (** [256]string *)
  cpToByte : gmap rune byte;
  tokToID : gmap bytes Z;
  idToTok : list bytes;
  specialF : list bool;
  mergeRank : gmap bytes Z;
  specials : list special;
}.

(** ** buildByteMaps *)

(** The bytes that stand for themselves: the three [add] calls. *)
Definition printable (b : Z) : bool :=
  (((0x21 <=? b) && (b <=? 0x7E)) || ((0xA1 <=? b) && (b <=? 0xAC))
   || ((0xAE <=? b) && (b <=? 0xFF)))%Z.

(** One round of the loop over the 256 bytes; [n] counts the bytes given a code point
    above 255. *)
Definition byte_maps_round (st : Z * list bytes * gmap rune byte) (b : Z)
    : Z * list bytes * gmap rune byte :=
  let '(n, syms, m) := st in
  let '(cp, n) := if printable b then (b, n) else ((256 + n)%Z, (n + 1)%Z) in
  (n, syms ++ [encode_rune cp], <[cp := byte_of_Z b]> m).

Definition byte_maps (m : gmap rune byte) : list bytes * gmap rune byte :=
  let '(_, syms, m) := foldl byte_maps_round (0%Z, [], m) (seqZ 0 256) in (syms, m).

Definition buildByteMaps (t : Tokenizer) : Tokenizer :=
  let '(syms, m) := byte_maps (cpToByte t) in
  {| byteToSym := syms; cpToByte := m; tokToID := tokToID t; idToTok := idToTok t;
     specialF := specialF t; mergeRank := mergeRank t; specials := specials t |}.

(** [t.byteToSym[b]]: the index is a byte, so it is never out of range. *)
Definition sym_of (t : Tokenizer) (b : byte) : bytes :=
  default [] (byteToSym t !! Z.to_nat (bz b)).

Definition symToBytes (t : Tokenizer) (sym : bytes) : bytes :=
  concat ((fun '(cp, _) =>
             match cpToByte t !! cp with Some b => [b] | None => [] end)
          <$> range_string sym).

(** ** The public lookups *)

Definition Decode (t : Tokenizer) (ids : list Z) : bytes :=
  concat ((fun id =>
             if (0 <=? id)%Z && (id <? len (idToTok t))%Z
             then default [] (idToTok t !! Z.to_nat id) else []) <$> ids).

Definition ID (t : Tokenizer) (token : bytes) : option Z := tokToID t !! token.

Definition IsSpecial (t : Tokenizer) (id : Z) : bool :=
  (0 <=? id)%Z && (id <? len (specialF t))%Z
  && default false (specialF t !! Z.to_nat id).

Definition VocabSize (t : Tokenizer) : Z := len (idToTok t).

(** ** What the rest of the program needs of a detokeniser

    The ChatML stream and the raw-completion path decode one id at a time; that this
    reproduces the whole-list decode is exactly [decode_app]. *)
Class Detokenizer (T : Type) := {
  decode : T -> list Z -> bytes;
  is_special : T -> Z -> bool;
  decode_nil t : decode t [] = [];
  decode_app t xs ys : decode t (xs ++ ys) = decode t xs ++ decode t ys;
}.

Lemma Decode_app t xs ys : Decode t (xs ++ ys) = Decode t xs ++ Decode t ys.
Proof. unfold Decode. by rewrite fmap_app, concat_app. Qed.

#[export] Instance Tokenizer_Detokenizer : Detokenizer Tokenizer := {
  decode := Decode;
  is_special := IsSpecial;
  decode_nil _ := eq_refl;
  decode_app := Decode_app;
}.

(** ** Correctness of the byte tables *)

(** The tables are those [buildByteMaps] builds on a fresh tokenizer. *)
Definition maps_ok (t : Tokenizer) : Prop := (byteToSym t, cpToByte t) = byte_maps ∅.

Definition syms_of (t : Tokenizer) (bs : bytes) : bytes := concat (sym_of t <$> bs).

(** The check of one byte against the tables: its symbol is one complete rune, which
    decodes back to the byte, and does not contain the merge separator. *)
Definition byte_entry_ok (tab : list bytes * gmap rune byte) (b : byte) : bool :=
  match tab.1 !! Z.to_nat (bz b) with
  | None => false
  | Some s =>
      full_rune s && (snd (decode_rune s) =? length s)%nat
      && bool_decide (tab.2 !! fst (decode_rune s) = Some b)
      && negb (bool_decide (s = [])) && negb (bool_decide (x01 ∈ s))
  end.

Lemma byte_table_ok : forallb (byte_entry_ok (byte_maps ∅)) all_bytes = true.
Proof. vm_compute. reflexivity. Qed.

Lemma sym_of_ok t b :
  maps_ok t ->
  full_rune (sym_of t b) = true /\
  snd (decode_rune (sym_of t b)) = length (sym_of t b) /\
  cpToByte t !! fst (decode_rune (sym_of t b)) = Some b /\
  sym_of t b <> [] /\ x01 ∉ sym_of t b.
Proof.
  intros Hm. pose proof (byte_forall _ byte_table_ok b) as H.
  unfold maps_ok in Hm. rewrite <- Hm in H. unfold byte_entry_ok in H. simpl in H.
  unfold sym_of. destruct (byteToSym t !! _) as [s|]; [|done]. simpl. boolprop. eauto.
Qed.

Lemma range_string_app s r n p :
  s <> [] -> full_rune s = true -> decode_rune s = (r, n) -> n = length s ->
  forall off f, (length (s ++ p) <= f)%nat ->
  range_from f off (s ++ p) = (r, off) :: range_from (length p) (off + n) p.
Proof.
  intros Hne Hfull Hd -> off f Hf.
  rewrite range_from_cons by done.
  destruct (s ++ p) as [|b s'] eqn:E; [by destruct s|].
  rewrite <- E, decode_rune_app, Hd by done. by rewrite drop_app_length.
Qed.

(** [symToBytes] does not look at offsets. *)
Lemma range_from_fst f off off' s :
  fst <$> range_from f off s = fst <$> range_from f off' s.
Proof.
  revert off off' s. induction f as [|f IH]; [done|]. intros off off' [|b s]; [done|].
  cbn [range_from]. destruct (decode_rune (b :: s)) as [r n]. cbn. f_equal. apply IH.
Qed.

Definition cp_bytes (t : Tokenizer) (cp : rune) : bytes :=
  match cpToByte t !! cp with Some b => [b] | None => [] end.

Lemma symToBytes_fst t s :
  symToBytes t s = concat (cp_bytes t <$> (fst <$> range_string s)).
Proof.
  unfold symToBytes. rewrite <- list_fmap_compose. f_equal.
  apply list_fmap_ext. by intros ? [].
Qed.

Lemma symToBytes_sym t b p :
  maps_ok t -> symToBytes t (sym_of t b ++ p) = b :: symToBytes t p.
Proof.
  intros Hm. destruct (sym_of_ok t b Hm) as (Hf & Hn & Hc & Hne & _).
  rewrite !symToBytes_fst. unfold range_string.
  destruct (decode_rune (sym_of t b)) as [r n] eqn:Hd. simpl in Hn, Hc.
  rewrite (range_string_app _ _ _ _ Hne Hf Hd Hn) by done.
  rewrite fmap_cons. cbn [fst]. rewrite (range_from_fst _ _ 0).
  rewrite fmap_cons. cbn [concat]. unfold cp_bytes at 1. by rewrite Hc.
Qed.

Lemma syms_of_cons t b bs : syms_of t (b :: bs) = sym_of t b ++ syms_of t bs.
Proof. done. Qed.

Lemma symToBytes_syms_of_app t bs p :
  maps_ok t -> symToBytes t (syms_of t bs ++ p) = bs ++ symToBytes t p.
Proof.
  intros Hm. induction bs as [|b bs IH]; [done|].
  rewrite syms_of_cons, <- app_assoc, symToBytes_sym by done. by rewrite IH.
Qed.

Lemma symToBytes_syms_of t bs : maps_ok t -> symToBytes t (syms_of t bs) = bs.
Proof.
  intros Hm. pose proof (symToBytes_syms_of_app t bs [] Hm) as H.
  by rewrite !app_nil_r in H.
Qed.

Lemma syms_of_app t xs ys : syms_of t (xs ++ ys) = syms_of t xs ++ syms_of t ys.
Proof. unfold syms_of. by rewrite fmap_app, concat_app. Qed.

Lemma syms_of_inj t xs ys : maps_ok t -> syms_of t xs = syms_of t ys -> xs = ys.
Proof. intros Hm H. rewrite <- (symToBytes_syms_of t xs), H by done. by apply symToBytes_syms_of. Qed.

Lemma syms_of_no_sep t bs : maps_ok t -> x01 ∉ syms_of t bs.
Proof.
  intros Hm. induction bs as [|b bs IH]; [apply not_elem_of_nil|].
  rewrite syms_of_cons, elem_of_app. intros [H|H]; [|done].
  by apply (sym_of_ok t b Hm).
Qed.

(** ** Properties *)

(** The struct literal [Load] starts from: every map is empty. *)
Definition new_tokenizer : Tokenizer :=
  {| byteToSym := replicate 256 []; cpToByte := ∅; tokToID := ∅; idToTok := [];
     specialF := []; mergeRank := ∅; specials := [] |}.

Lemma buildByteMaps_maps_ok t : cpToByte t = ∅ -> maps_ok (buildByteMaps t).
Proof.
  unfold maps_ok, buildByteMaps. intros ->. destruct (byte_maps ∅) as [syms m] eqn:E.
  reflexivity.
Qed.

(** The byte tables built at load time are a bijection between bytes and code points:
    translating any byte string to symbol space and back gives it again, and symbol space
    never contains the byte 0x01 that separates the two halves of a merge key. *)
Lemma buildByteMaps_bijective bs :
  let t := buildByteMaps new_tokenizer in
  symToBytes t (syms_of t bs) = bs /\ x01 ∉ syms_of t bs.
Proof.
  intros t. assert (maps_ok t) by by apply buildByteMaps_maps_ok.
  split; [by apply symToBytes_syms_of|by apply syms_of_no_sep].
Qed.
