(* ===== verification/BPE.v ===== *)
(** * Byte-pair encoding of one pre-token: [applyBPE]

    Models [applyBPE] of [internal/tokenizer/tokenizer.go] and gives it an independent
    specification: [bpe_step] relates a symbol list to the one in which the
    lowest-ranked (leftmost first) adjacent pair is merged everywhere, and
    [irreducible] says no adjacent pair has a rank. *)

From S2P Require Import Prelude Utf8 TokenizerCore.
Local Open Scope go_scope.

(** The key of [mergeRank]: [a + "\x01" + b]. *)
Definition pair_key (a b : bytes) : bytes := a ++ x01 :: b.

Section merges.
Context (mr : gmap bytes Z).

(** The scan for the best pair: [bestRank, bestI], with -1 as [None]. *)
Fixpoint best_pair (i : nat) (syms : list bytes) (best : Z * option nat) : Z * option nat :=
  match syms with
  | a :: ((b :: _) as rest) =>
      let best :=
        match mr !! pair_key a b with
        | Some r => if (r <? best.1)%Z then (r, Some i) else best
        | None => best
        end in
      best_pair (S i) rest best
  | _ => best
  end.

(** The rewriting pass: every non-overlapping occurrence of [a, b], left to right. *)
Fixpoint merge_pass (a b : bytes) (syms : list bytes) : list bytes :=
  match syms with
  | x :: ((y :: t) as rest) =>
      if bool_decide (x = a) && bool_decide (y = b) then (a ++ b) :: merge_pass a b t
      else x :: merge_pass a b rest
  | _ => syms
  end.

(** The loop [for len(syms) >= 2]; a round that finds no pair breaks. *)
Fixpoint bpe_loop (fuel : nat) (syms : list bytes) : run (list bytes) :=
  if (2 <=? length syms)%nat then
    match fuel with
    | O => Fuel
    | S f =>
        match (best_pair 0 syms (max_int, None)).2 with
        | None => Ret syms
        | Some bestI =>
            let* a := index_at syms bestI in
            let* b := index_at syms (bestI + 1) in
            bpe_loop f (merge_pass a b syms)
        end
    end
  else Ret syms.

(** ** Specification *)

Definition adjacent (syms : list bytes) (i : nat) (a b : bytes) : Prop :=
  syms !! i = Some a /\ syms !! (i + 1) = Some b.

(** [a, b] is the lowest-ranked adjacent pair, and its first occurrence is at [i]. *)
Definition lowest (syms : list bytes) (a b : bytes) : Prop :=
  exists i r, adjacent syms i a b /\ mr !! pair_key a b = Some r /\ (r < max_int)%Z /\
    forall j a' b' r', adjacent syms j a' b' -> mr !! pair_key a' b' = Some r' ->
      (r <= r')%Z /\ ((j < i)%nat -> (r < r')%Z).

Inductive merged (a b : bytes) : list bytes -> list bytes -> Prop :=
  | merged_nil : merged a b [] []
  | merged_one x : merged a b [x] [x]
  | merged_hit t t' : merged a b t t' -> merged a b (a :: b :: t) ((a ++ b) :: t')
  | merged_miss x y t t' :
      ~ (x = a /\ y = b) -> merged a b (y :: t) t' -> merged a b (x :: y :: t) (x :: t').

Definition bpe_step (syms syms' : list bytes) : Prop :=
  exists a b, lowest syms a b /\ merged a b syms syms'.

Definition irreducible (syms : list bytes) : Prop :=
  forall i a b r, adjacent syms i a b -> mr !! pair_key a b = Some r -> (max_int <= r)%Z.

(** ** The scan *)

Lemma adjacent_cons x syms i a b : adjacent (x :: syms) (S i) a b <-> adjacent syms i a b.
Proof. done. Qed.

Lemma adjacent_0 x y syms a b : adjacent (x :: y :: syms) 0 a b <-> a = x /\ b = y.
Proof. unfold adjacent. simpl. split; [by intros [[= ->] [= ->]]|by intros [-> ->]]. Qed.

(** [good best seen]: [best] is the best pair among those at positions below [k]. *)
Definition scan_ok (all : list bytes) (k : nat) (best : Z * option nat) : Prop :=
  (forall j a b r, (j < k)%nat -> adjacent all j a b -> mr !! pair_key a b = Some r ->
     (best.1 <= r)%Z) /\
  match best.2 with
  | None => best.1 = max_int
  | Some i =>
      (i < k)%nat /\ (best.1 < max_int)%Z /\
      (exists a b, adjacent all i a b /\ mr !! pair_key a b = Some best.1) /\
      forall j a b r, (j < i)%nat -> adjacent all j a b -> mr !! pair_key a b = Some r ->
        (best.1 < r)%Z
  end.

Lemma scan_ok_step all k a b best :
  adjacent all k a b -> scan_ok all k best ->
  scan_ok all (S k)
    (match mr !! pair_key a b with
     | Some r => if (r <? best.1)%Z then (r, Some k) else best
     | None => best
     end).
Proof.
  intros Hadj [Hmin Hbest].
  assert (Hcase : forall j a' b', (j < S k)%nat -> adjacent all j a' b' ->
    (j < k)%nat \/ (j = k /\ a' = a /\ b' = b)).
  { intros j a' b' Hj [H1 H2]. destruct Hadj as [H3 H4].
    destruct (decide (j = k)) as [->|]; [right|left; lia]. naive_solver. }
  destruct (mr !! pair_key a b) as [r|] eqn:Er; [destruct (r <? best.1)%Z eqn:Elt|]; boolprop.
  - assert (forall j a' b' r', (j < k)%nat -> adjacent all j a' b' ->
      mr !! pair_key a' b' = Some r' -> (r < r')%Z) as Hlt.
    { intros j a' b' r' Hj Ha Hr. specialize (Hmin _ _ _ _ Hj Ha Hr). lia. }
    split; simpl.
    + intros j a' b' r' Hj Ha Hr. destruct (Hcase _ _ _ Hj Ha) as [?|(->&->&->)].
      * specialize (Hlt _ _ _ _ H Ha Hr). lia.
      * simplify_eq. lia.
    + split_and!; [lia| |eauto|done].
      destruct (best.2); [destruct Hbest; lia|]. lia.
  - split.
    + intros j a' b' r' Hj Ha Hr. destruct (Hcase _ _ _ Hj Ha) as [?|(->&->&->)]; [eauto|].
      simplify_eq. lia.
    + destruct best.2; [|done]. destruct Hbest as (?&?&?&?). split_and!; [lia|done..].
  - split.
    + intros j a' b' r' Hj Ha Hr. destruct (Hcase _ _ _ Hj Ha) as [?|(->&->&->)]; [eauto|].
      congruence.
    + destruct best.2; [|done]. destruct Hbest as (?&?&?&?). split_and!; [lia|done..].
Qed.

Lemma best_pair_scan_ok all k syms best :
  drop k all = syms -> scan_ok all k best ->
  scan_ok all (length all) (best_pair k syms best).
Proof.
  revert k best. induction syms as [|a syms IH]; intros k best Hd Hok.
  - simpl. assert (length all <= k)%nat as Hk.
    { apply (f_equal length) in Hd. rewrite length_drop in Hd. simpl in Hd. lia. }
    destruct Hok as [Hmin Hb]. split.
    + intros j a b r Hj. apply Hmin. lia.
    + destruct best.2; [|done]. destruct Hb as (?&?&(a&b&Ha&?)&?). split_and!; eauto.
      destruct Ha as [?%lookup_lt_Some _]. lia.
  - assert (Hk : all !! k = Some a).
    { rewrite <- (take_drop k all), Hd. apply lookup_app_Some. right.
      assert (k < length all)%nat.
      { apply (f_equal length) in Hd. rewrite length_drop in Hd. simpl in Hd. lia. }
      rewrite length_take. split; [lia|]. by replace (k - k `min` length all)%nat with 0%nat by lia. }
    assert (Hd' : drop (S k) all = syms).
    { rewrite <- Nat.add_1_r, <- drop_drop, Hd. done. }
    destruct syms as [|b syms].
    + simpl. apply (IH (S k)); [done|].
      destruct Hok as [Hmin Hb]. split.
      * intros j x y r Hj Ha. destruct (decide (j = k)) as [->|]; [|apply (Hmin j); [lia|done]].
        destruct Ha as [_ Hy%lookup_lt_Some].
        apply (f_equal length) in Hd'. rewrite length_drop in Hd'. simpl in Hd'. lia.
      * destruct best.2; [|done]. destruct Hb as (?&?&?&?). split_and!; [lia|done..].
    + cbn [best_pair]. apply IH; [done|]. apply scan_ok_step; [|done].
      split; [done|]. rewrite <- (Nat.add_0_r (k + 1)), <- lookup_drop.
      by rewrite Nat.add_1_r, Hd'.
Qed.

Lemma best_pair_ok syms : scan_ok syms (length syms) (best_pair 0 syms (max_int, None)).
Proof.
  apply best_pair_scan_ok; [by rewrite drop_0|]. split; [intros; lia|done].
Qed.

Lemma best_pair_None syms :
  (best_pair 0 syms (max_int, None)).2 = None -> irreducible syms.
Proof.
  intros E. destruct (best_pair_ok syms) as [Hmin Hb]. rewrite E in Hb.
  intros i a b r Ha Hr. rewrite <- Hb. eapply Hmin; eauto.
  destruct Ha as [?%lookup_lt_Some _]. done.
Qed.

Lemma best_pair_Some syms i :
  (best_pair 0 syms (max_int, None)).2 = Some i ->
  exists a b, adjacent syms i a b /\ is_Some (mr !! pair_key a b) /\ lowest syms a b.
Proof.
  intros E. destruct (best_pair_ok syms) as [Hmin Hb]. rewrite E in Hb.
  destruct Hb as (Hi & Hlt & (a & b & Ha & Hr) & Hfirst).
  exists a, b. split_and!; [done|eauto|].
  exists i, (best_pair 0 syms (max_int, None)).1. split_and!; [done..|].
  intros j a' b' r' Ha' Hr'. split; [|eauto].
  apply (Hmin j a' b'); [|done..]. destruct Ha' as [?%lookup_lt_Some _]. done.
Qed.

(** ** The rewriting pass *)

Lemma merge_pass_merged a b syms : merged a b syms (merge_pass a b syms).
Proof.
  induction syms as [syms IH] using (induction_ltof1 _ (@length _)). unfold ltof in IH.
  destruct syms as [|x [|y t]]; [constructor..|]. cbn [merge_pass].
  destruct (bool_decide (x = a) && bool_decide (y = b)) eqn:E.
  - boolprop. subst. constructor. apply IH. simpl. lia.
  - constructor; [|apply IH; simpl; lia].
    apply andb_false_iff in E. rewrite !bool_decide_eq_false in E. tauto.
Qed.

Lemma merged_concat a b syms syms' : merged a b syms syms' -> concat syms' = concat syms.
Proof. induction 1; simpl in *; rewrite <- ?app_assoc; congruence. Qed.

Lemma merged_Forall (P : bytes -> Prop) a b syms syms' :
  P (a ++ b) -> merged a b syms syms' -> Forall P syms -> Forall P syms'.
Proof.
  intros Hab. induction 1; intros HF; [done|done| |].
  - constructor; [done|]. apply IHmerged. by do 2 apply Forall_inv_tail in HF.
  - apply Forall_cons in HF as [? HF]. constructor; auto.
Qed.

Lemma merged_length a b syms syms' :
  merged a b syms syms' -> (length syms' <= length syms)%nat /\
  (forall i, adjacent syms i a b -> (length syms' < length syms)%nat).
Proof.
  induction 1 as [|x|t t' Hm [IH1 IH2]|x y t t' Hne Hm [IH1 IH2]]; simpl in *.
  - split; [lia|]. by intros i [??].
  - split; [lia|]. intros i [_ ?%lookup_lt_Some]. simpl in *. lia.
  - split; lia.
  - split; [lia|]. intros [|i] Ha.
    + apply adjacent_0 in Ha as [-> ->]. tauto.
    + apply adjacent_cons in Ha. specialize (IH2 _ Ha). lia.
Qed.

(** ** The loop *)

(** Enough fuel gives a result, which is an irreducible reduct of the input. *)
Lemma bpe_loop_ok fuel syms :
  (length syms <= fuel)%nat ->
  exists syms', bpe_loop fuel syms = Ret syms' /\ rtc bpe_step syms syms' /\ irreducible syms'.
Proof.
  revert syms. induction fuel as [|fuel IH]; intros syms Hf; cbn [bpe_loop].
  - destruct syms; [|simpl in Hf; lia]. exists []. split_and!; [done..|]. by intros i a b r [??].
  - destruct (2 <=? length syms)%nat eqn:E2.
    + destruct (best_pair 0 syms _).2 as [i|] eqn:Eb.
      * destruct (best_pair_Some _ _ Eb) as (a & b & [Ha Hb] & _ & Hlow).
        unfold index_at. rewrite Ha, Hb. simpl.
        pose proof (merge_pass_merged a b syms) as Hm.
        destruct (merged_length _ _ _ _ Hm) as [_ Hlen].
        specialize (Hlen i (conj Ha Hb)).
        destruct (IH (merge_pass a b syms)) as (syms' & -> & ? & ?); [lia|].
        exists syms'. split_and!; [done| |done]. eapply rtc_l; [|done]. by exists a, b.
      * exists syms. split_and!; [done..|]. by apply best_pair_None.
    + boolprop. exists syms. split_and!; [done..|]. intros i a b r [_ ?%lookup_lt_Some]. lia.
Qed.

Lemma bpe_step_concat syms syms' : bpe_step syms syms' -> concat syms' = concat syms.
Proof. intros (a & b & _ & Hm). by eapply merged_concat. Qed.

Lemma bpe_steps_concat syms syms' : rtc bpe_step syms syms' -> concat syms' = concat syms.
Proof.
  induction 1 as [|s1 s2 s3 Hs _ IH]; [done|]. rewrite IH. by apply bpe_step_concat.
Qed.

(** A property of symbols closed under ranked merges is kept by every reduction. *)
Lemma bpe_steps_Forall (P : bytes -> Prop) syms syms' :
  (forall a b, P a -> P b -> is_Some (mr !! pair_key a b) -> P (a ++ b)) ->
  rtc bpe_step syms syms' -> Forall P syms -> Forall P syms'.
Proof.
  intros Hcl. induction 1 as [|s1 s2 s3 (a & b & Hlow & Hm) _ IH]; [done|]. intros HF.
  apply IH. eapply merged_Forall; [|done..].
  destruct Hlow as (i & r & [Ha Hb] & Hr & _). apply Hcl; [| |eauto].
  - by eapply Forall_lookup_1 in Ha.
  - by eapply Forall_lookup_1 in Hb.
Qed.

End merges.

(** ** applyBPE *)

Definition applyBPE (t : Tokenizer) (word : bytes) (out : list Z) : run (list Z) :=
  let syms := sym_of t <$> word in
  if (length syms =? 0)%nat then Ret out else
  let* syms := bpe_loop (mergeRank t) (length syms) syms in
  Ret (out ++ omap (fun s => tokToID t !! s) syms).

(** A vocabulary in which every text the merges can build is a token, and every token
    in symbol space decodes to the bytes it spells. *)
Record vocab_ok (t : Tokenizer) : Prop := {
  vo_maps : maps_ok t;
  vo_bytes b : is_Some (tokToID t !! sym_of t b);
  vo_merges x y :
    is_Some (mergeRank t !! pair_key (syms_of t x) (syms_of t y)) ->
    is_Some (tokToID t !! (syms_of t x ++ syms_of t y));
  vo_tokens bs id : tokToID t !! syms_of t bs = Some id -> Decode t [id] = bs;
}.

Lemma applyBPE_total t word out :
  exists ids, applyBPE t word out = Ret (out ++ ids).
Proof.
  unfold applyBPE. destruct (length (sym_of t <$> word) =? 0)%nat.
  { exists []. by rewrite app_nil_r. }
  destruct (bpe_loop_ok (mergeRank t) (length (sym_of t <$> word)) (sym_of t <$> word))
    as (syms & -> & _); [done|]. simpl. eauto.
Qed.

(** The symbols a well-formed vocabulary can produce. *)
Definition known (t : Tokenizer) (s : bytes) : Prop :=
  exists bs, s = syms_of t bs /\ is_Some (tokToID t !! s).

Lemma known_merge t a b :
  vocab_ok t -> known t a -> known t b -> is_Some (mergeRank t !! pair_key a b) ->
  known t (a ++ b).
Proof.
  intros Hv (x & -> & _) (y & -> & _) Hr. exists (x ++ y).
  rewrite syms_of_app. split; [done|]. by apply (vo_merges t Hv).
Qed.

Lemma known_bytes t word : vocab_ok t -> Forall (known t) (sym_of t <$> word).
Proof.
  intros Hv. apply Forall_fmap, Forall_forall. intros b _. exists [b].
  unfold syms_of. simpl. rewrite app_nil_r. split; [done|]. apply (vo_bytes t Hv).
Qed.

Lemma Decode_known t syms :
  vocab_ok t -> Forall (known t) syms ->
  Decode t (omap (fun s => tokToID t !! s) syms) = symToBytes t (concat syms).
Proof.
  intros Hv. induction 1 as [|s syms (bs & -> & [id Hid]) _ IH]; [done|].
  cbn [omap list_omap concat]. rewrite Hid.
  rewrite symToBytes_syms_of_app, <- IH by apply Hv.
  change (id :: ?l) with ([id] ++ l). rewrite Decode_app. f_equal. by apply (vo_tokens t Hv).
Qed.

Lemma applyBPE_decodes t word out ids :
  vocab_ok t -> applyBPE t word out = Ret ids -> Decode t ids = Decode t out ++ word.
Proof.
  intros Hv. unfold applyBPE. destruct word as [|b word]; [intros [= <-]; by rewrite app_nil_r|].
  set (w := b :: word). set (syms := sym_of t <$> w).
  destruct (bpe_loop_ok (mergeRank t) (length syms) syms) as (syms' & -> & Hsteps & _); [done|].
  cbn. intros [= <-]. rewrite Decode_app. f_equal. rewrite Decode_known; [|done|].
  - rewrite (bpe_steps_concat _ _ _ Hsteps). by apply (symToBytes_syms_of t w), Hv.
  - eapply bpe_steps_Forall; [|done|by apply known_bytes].
    intros a b'. by apply known_merge.
Qed.

(** The ids appended do not depend on what [out] holds already. *)
Lemma applyBPE_out t word : exists ids, forall out, applyBPE t word out = Ret (out ++ ids).
Proof.
  unfold applyBPE. destruct (length (sym_of t <$> word) =? 0)%nat.
  { exists []. intros. by rewrite app_nil_r. }
  destruct (bpe_loop_ok (mergeRank t) (length (sym_of t <$> word)) (sym_of t <$> word))
    as (syms & -> & _); [done|]. simpl. eauto.
Qed.

(** ** Properties *)

(** C21: [applyBPE] terminates on every word, and the ids it appends are those of a symbol
    list reached from the word's bytes by merging, again and again, the lowest-ranked
    adjacent pair, until no adjacent pair has a rank. *)
Theorem applyBPE_refines_merging t word out :
  exists syms,
    rtc (bpe_step (mergeRank t)) (sym_of t <$> word) syms /\
    irreducible (mergeRank t) syms /\
    concat syms = syms_of t word /\
    applyBPE t word out = Ret (out ++ omap (fun s => tokToID t !! s) syms).
Proof.
  unfold applyBPE. destruct word as [|b w].
  { exists []. split_and!; [done| |done|by rewrite app_nil_r]. by intros i a b r [??]. }
  set (syms := sym_of t <$> b :: w).
  destruct (bpe_loop_ok (mergeRank t) (length syms) syms) as (syms' & Hl & Hs & Hi); [done|].
  exists syms'. split_and!; [done..|by rewrite (bpe_steps_concat _ _ _ Hs)|].
  change (length syms =? 0)%nat with false. cbn iota. by rewrite Hl.
Qed.
