(* ===== verification/Pretokenizer.v ===== *)
(** * The pre-tokenizer: [decodeCPs], the character classes, [pretokenizeAndBPE]

    Models the hand-rolled GPT-2/Qwen split of [internal/tokenizer/tokenizer.go]. One
    round of its loop is [pre_step], which reads code points by index exactly where the
    code does (an index out of range would be [Panic]); the theorems show it never is,
    that every round advances, and that the pieces are the text, cut. *)

From S2P Require Import Prelude Utf8 TokenizerCore BPE.
Local Open Scope go_scope.

Record cp := CP { r : rune; off : nat }.

Definition decodeCPs (s : bytes) : list cp := (fun '(r, i) => CP r i) <$> range_string s.

(** ** Character classes *)
Section classes.
Local Open Scope Z_scope.

Definition isNumber (c : rune) : bool := (0x30 <=? c) && (c <=? 0x39).

Definition isSpace (c : rune) : bool :=
  if bool_decide (c ∈ [0x20; 0x09; 0x0A; 0x0D; 0x0B; 0x0C; 0x85; 0xA0; 0x1680; 0x2028;
                       0x2029; 0x202F; 0x205F; 0x3000; 0xFEFF]) then true
  else (0x2000 <=? c) && (c <=? 0x200A).

Definition isNewline (c : rune) : bool := (c =? 0x0A) || (c =? 0x0D).

Definition isLetter (c : rune) : bool :=
  if ((0x61 <=? c) && (c <=? 0x7A)) || ((0x41 <=? c) && (c <=? 0x5A)) then true
  else (0x80 <=? c) && negb (isSpace c).

Definition isPunct (c : rune) : bool := negb (isSpace c) && negb (isLetter c) && negb (isNumber c).

Definition lower (c : rune) : rune :=
  if (0x41 <=? c) && (c <=? 0x5A) then c + 32 else c.

(** The letters of the contractions. *)
Definition ch_s : rune := 0x73.
Definition ch_t : rune := 0x74.
Definition ch_m : rune := 0x6D.
Definition ch_d : rune := 0x64.
Definition ch_r : rune := 0x72.
Definition ch_v : rune := 0x76.
Definition ch_l : rune := 0x6C.
Definition ch_e : rune := 0x65.
Definition quote : rune := 0x27.
End classes.

(** ** The loop body *)

(** [cps[i].r] *)
Definition rune_at (cps : list cp) (i : nat) : run rune :=
  let* c := index_at cps i in Ret (r c).

(** [for j < n && p(cps[j].r) { j++ }] *)
Fixpoint count_while (p : rune -> bool) (l : list cp) : nat :=
  match l with
  | c :: l' => if p (r c) then S (count_while p l') else 0%nat
  | [] => 0%nat
  end.

Definition scan (p : rune -> bool) (cps : list cp) (j : nat) : nat :=
  (j + count_while p (drop j cps))%nat.

(** The whitespace run: its end [j] and the index of its last newline ([-1] as [None]). *)
Fixpoint space_run (l : list cp) (j : nat) (last : option nat) : nat * option nat :=
  match l with
  | c :: l' =>
      if isSpace (r c)
      then space_run l' (S j) (if isNewline (r c) then Some j else last)
      else (j, last)
  | [] => (j, last)
  end.

(** The length of the contraction at [i], or 0. *)
Definition contraction (cps : list cp) (i : nat) (c : rune) : run nat :=
  let n := length cps in
  if (c =? quote)%Z && (i + 1 <? n)%nat then
    let* a := rune_at cps (i + 1) in
    let a := lower a in
    let* b := (if (i + 2 <? n)%nat
               then let* b := rune_at cps (i + 2) in Ret (lower b) else Ret 0%Z) in
    Ret (if (a =? ch_s)%Z || (a =? ch_t)%Z || (a =? ch_m)%Z || (a =? ch_d)%Z then 2%nat
         else if ((a =? ch_r)%Z && (b =? ch_e)%Z) || ((a =? ch_v)%Z && (b =? ch_e)%Z)
                 || ((a =? ch_l)%Z && (b =? ch_l)%Z) then 3%nat
         else 0%nat)
  else Ret 0%nat.

(** One round at [i]: the code point index at which the next round starts. The piece
    handed to [applyBPE] is [bytesOf(i, j)] in every branch. *)
Definition pre_step (cps : list cp) (i : nat) : run nat :=
  let n := length cps in
  let* c := rune_at cps i in
  (* 1) contractions *)
  let* l := contraction cps i c in
  if (0 <? l)%nat then Ret (i + l)%nat else
  (* 2) optional non-(newline/letter/number) prefix + letters *)
  if isLetter c then Ret (scan isLetter cps (i + 1)) else
  let* prefixed := (if negb (isNewline c) && negb (isNumber c) && (i + 1 <? n)%nat
                    then let* d := rune_at cps (i + 1) in Ret (isLetter d)
                    else Ret false) in
  if (prefixed : bool) then Ret (scan isLetter cps (i + 2)) else
  (* 3) single digit *)
  if isNumber c then Ret (i + 1)%nat else
  (* 4) optional leading space + punctuation run + trailing newlines *)
  let* spaced := (if (c =? 0x20)%Z && (i + 1 <? n)%nat
                  then let* d := rune_at cps (i + 1) in Ret (isPunct d)
                  else Ret false) in
  let k := if (spaced : bool) then (i + 1)%nat else i in
  let* ck := rune_at cps k in
  if isPunct ck then Ret (scan isNewline cps (scan isPunct cps k)) else
  (* 5) whitespace run *)
  if isSpace c then
    let '(j, last) := space_run (drop i cps) i None in
    match last with
    | Some l => Ret (l + 1)%nat
    | None =>
        let* more := (if (j <? n)%nat
                      then let* d := rune_at cps j in
                           Ret (negb (isSpace d) && (2 <=? j - i)%nat)
                      else Ret false) in
        Ret (if (more : bool) then (j - 1)%nat else j)
    end
  else
  (* 6) fallback: single code point *)
  Ret (i + 1)%nat.

(** [bytesOf(a, b)]: [text[cps[a].off : cps[b].off]], or to the end of [text]. *)
Definition bytesOf (text : bytes) (cps : list cp) (a b : nat) : run bytes :=
  let* ca := index_at cps a in
  let* eo := (if (b <? length cps)%nat
              then let* cb := index_at cps b in Ret (off cb) else Ret (length text)) in
  if (off ca <=? eo)%nat then Ret (slice text (off ca) eo) else Panic.

Fixpoint pre_loop (fuel : nat) (text : bytes) (cps : list cp) (i : nat) : run (list bytes) :=
  if (i <? length cps)%nat then
    match fuel with
    | O => Fuel
    | S f =>
        let* j := pre_step cps i in
        let* piece := bytesOf text cps i j in
        let* rest := pre_loop f text cps j in
        Ret (piece :: rest)
    end
  else Ret [].

(** The pieces [applyBPE] is called on, in order. *)
Definition pretokens (text : bytes) : run (list bytes) :=
  let cps := decodeCPs text in pre_loop (length cps) text cps 0.

Fixpoint bpe_all (t : Tokenizer) (pieces : list bytes) (out : list Z) : run (list Z) :=
  match pieces with
  | [] => Ret out
  | p :: ps => let* out := applyBPE t p out in bpe_all t ps out
  end.

Definition pretokenizeAndBPE (t : Tokenizer) (text : bytes) (out : list Z) : run (list Z) :=
  let* pieces := pretokens text in bpe_all t pieces out.

(** ** The shape of a piece

    What each branch of the split promises, on the runes of the piece: the alternatives
    of the HF regular expression the code replaces. *)
Inductive shape : list rune -> Prop :=
  | shape_contraction2 a :
      lower a ∈ [ch_s; ch_t; ch_m; ch_d] -> shape [quote; a]
  | shape_contraction3 a b :
      (lower a, lower b) ∈ [(ch_r, ch_e); (ch_v, ch_e); (ch_l, ch_l)] -> shape [quote; a; b]
  | shape_word pre ls :
      (pre = [] \/ exists c, pre = [c] /\ isNewline c = false /\ isNumber c = false) ->
      ls <> [] -> Forall (fun c => isLetter c = true) ls -> shape (pre ++ ls)
  | shape_digit c : isNumber c = true -> shape [c]
  | shape_punct sp ps nls :
      (sp = [] \/ sp = [0x20%Z]) -> ps <> [] -> Forall (fun c => isPunct c = true) ps ->
      Forall (fun c => isNewline c = true) nls -> shape (sp ++ ps ++ nls)
  | shape_space ws :
      ws <> [] -> Forall (fun c => isSpace c = true) ws -> shape ws.

(** ** Facts about the scans *)

Lemma count_while_spec p l :
  (count_while p l <= length l)%nat /\
  Forall (fun c => p (r c) = true) (take (count_while p l) l).
Proof.
  induction l as [|c l [IH1 IH2]]; simpl; [split; [done|constructor]|].
  destruct (p (r c)) eqn:E; simpl; [|split; [lia|constructor]]. split; [lia|by constructor].
Qed.

Lemma scan_spec p cps j :
  (j <= length cps)%nat ->
  (j <= scan p cps j <= length cps)%nat /\
  Forall (fun c => p (r c) = true) (slice cps j (scan p cps j)).
Proof.
  intros Hj. unfold scan, slice.
  destruct (count_while_spec p (drop j cps)) as [H1 H2]. rewrite length_drop in H1.
  split; [lia|]. by replace (j + count_while p (drop j cps) - j)%nat
    with (count_while p (drop j cps)) by lia.
Qed.

Lemma space_run_spec l j last :
  let '(j', last') := space_run l j last in
  j' = (j + count_while isSpace l)%nat /\
  (last' = last \/ exists q, last' = Some q /\ (j <= q < j')%nat).
Proof.
  revert j last. induction l as [|c l IH]; intros j last; simpl; [split; [lia|by left]|].
  destruct (isSpace (r c)) eqn:E; simpl; [|split; [lia|by left]].
  specialize (IH (S j) (if isNewline (r c) then Some j else last)).
  destruct (space_run l _ _) as [j' last'] eqn:Er. destruct IH as [-> Hl].
  split; [lia|]. destruct Hl as [->|(q & -> & ?)]; [|right; exists q; split; [done|lia]].
  destruct (isNewline (r c)); [right; exists j; split; [done|lia]|by left].
Qed.

(** The three kinds of character a word, a punctuation run and a digit consist of. *)
Lemma class_cases c :
  isLetter c = false -> isNumber c = false -> isSpace c = false -> isPunct c = true.
Proof. unfold isPunct. by intros -> -> ->. Qed.

(** ** One round *)

Section step.
Context (cps : list cp).

Definition rs (i j : nat) : list rune := r <$> slice cps i j.

Lemma rs_app i j k : (i <= j <= k)%nat -> rs i j ++ rs j k = rs i k.
Proof. intros. unfold rs. by rewrite <- fmap_app, slice_app. Qed.

Lemma rs_one i c : cps !! i = Some c -> rs i (i + 1) = [r c].
Proof. intros H. unfold rs. by rewrite (slice_one _ _ _ H). Qed.

Lemma rs_not_nil i j : (i < j <= length cps)%nat -> rs i j <> [].
Proof.
  intros H Hn. apply (f_equal length) in Hn. unfold rs in Hn.
  rewrite length_fmap, length_slice in Hn by lia. simpl in Hn. lia.
Qed.

Lemma rs_scan p j :
  (j <= length cps)%nat -> Forall (fun c => p c = true) (rs j (scan p cps j)).
Proof. intros H. unfold rs. rewrite Forall_fmap. by apply scan_spec. Qed.

Lemma scan_gt p j c :
  cps !! j = Some c -> p (r c) = true -> (j < scan p cps j)%nat.
Proof. intros H Hp. unfold scan. rewrite (drop_S _ _ _ H). simpl. rewrite Hp. lia. Qed.

Lemma rune_at_Some i c : cps !! i = Some c -> rune_at cps i = Ret (r c).
Proof. intros H. unfold rune_at, index_at. by rewrite H. Qed.

#[local] Ltac destruct_if n E :=
  match goal with |- context [if ?x then n else _] => destruct x eqn:E end.

(** A contraction found is one that fits, and one of the seven. *)
Lemma contraction_ok i c :
  cps !! i = Some c ->
  exists l, contraction cps i (r c) = Ret l /\
    (l = 0%nat \/ ((0 < l)%nat /\ (i + l <= length cps)%nat /\ shape (rs i (i + l)))).
Proof.
  intros Hc. unfold contraction.
  destruct ((r c =? quote)%Z && _) eqn:E; [|exists 0%nat; eauto]. boolprop.
  destruct (index_at_lt cps (i + 1)) as (ca & Ha & _); [done|].
  rewrite (rune_at_Some _ _ Ha). cbn [run_bind].
  assert (Hrs2 : rs i (i + 2) = [quote; r ca]).
  { rewrite <- (rs_app i (i + 1) (i + 2)) by lia.
    rewrite (rs_one _ _ Hc). replace (i + 2)%nat with (i + 1 + 1)%nat by lia.
    rewrite (rs_one _ _ Ha). simpl. congruence. }
  assert (Htwo : ((lower (r ca) =? ch_s)%Z || (lower (r ca) =? ch_t)%Z
                  || (lower (r ca) =? ch_m)%Z || (lower (r ca) =? ch_d)%Z) = true ->
                 shape (rs i (i + 2))).
  { intros Hb. rewrite Hrs2. apply shape_contraction2.
    rewrite !orb_true_iff, !Z.eqb_eq in Hb. rewrite !elem_of_cons. tauto. }
  destruct (i + 2 <? length cps)%nat eqn:E2; boolprop.
  - destruct (index_at_lt cps (i + 2)) as (cb & Hb & _); [done|].
    rewrite (rune_at_Some _ _ Hb). cbn [run_bind].
    destruct_if 2%nat Es; [exists 2%nat; split; [done|]; right; auto with lia|].
    destruct_if 3%nat El; [|exists 0%nat; eauto].
    exists 3%nat. split; [done|]. right. split_and!; [lia|lia|].
    rewrite <- (rs_app i (i + 2) (i + 3)), Hrs2 by lia.
    replace (i + 3)%nat with (i + 2 + 1)%nat by lia. rewrite (rs_one _ _ Hb).
    apply shape_contraction3.
    rewrite !orb_true_iff, !andb_true_iff, !Z.eqb_eq in El.
    rewrite !elem_of_cons. destruct El as [[[-> ->]|[-> ->]]|[-> ->]]; auto.
  - cbn [run_bind].
    destruct_if 2%nat Es; [exists 2%nat; split; [done|]; right; auto with lia|].
    replace (0 =? ch_e)%Z with false by done. replace (0 =? ch_l)%Z with false by done.
    rewrite !andb_false_r. cbn [orb]. exists 0%nat. eauto.
Qed.

(** The guarded look-ahead [i+1 < n && p(cps[i+1].r)]. *)
Lemma look_ahead (b : bool) (p : rune -> bool) i :
  exists res,
    (if b && (i + 1 <? length cps)%nat
     then let* d := rune_at cps (i + 1) in Ret (p d) else Ret false) = Ret res /\
    (res = true -> b = true /\ exists d, cps !! (i + 1)%nat = Some d /\ p (r d) = true).
Proof.
  destruct b; simpl; [|by exists false].
  destruct (i + 1 <? length cps)%nat eqn:E; [|by exists false]. boolprop.
  destruct (index_at_lt cps (i + 1)) as (d & Hd & _); [done|].
  rewrite (rune_at_Some _ _ Hd). simpl. eexists. split; [done|]. eauto.
Qed.

(** The whitespace branch. *)
Lemma space_branch i c :
  cps !! i = Some c -> isSpace (r c) = true ->
  exists j,
    (let '(j, last) := space_run (drop i cps) i None in
     match last with
     | Some l => Ret (l + 1)%nat
     | None =>
         let* more := (if (j <? length cps)%nat
                       then let* d := rune_at cps j in
                            Ret (negb (isSpace d) && (2 <=? j - i)%nat)
                       else Ret false) in
         Ret (if (more : bool) then (j - 1)%nat else j)
     end) = Ret j /\ (i < j <= length cps)%nat /\ shape (rs i j).
Proof.
  intros Hc Hs.
  assert (Hi : (i < length cps)%nat) by by apply lookup_lt_Some in Hc.
  pose proof (space_run_spec (drop i cps) i None) as H.
  destruct (space_run _ _ _) as [j last]. destruct H as [-> Hl].
  change (i + count_while isSpace (drop i cps))%nat with (scan isSpace cps i) in *.
  pose proof (scan_gt isSpace i c Hc Hs) as Hgt.
  destruct (scan_spec isSpace cps i) as [Hle Hall]; [lia|].
  assert (Hsub : forall j, (i < j <= scan isSpace cps i)%nat -> shape (rs i j)).
  { intros j Hj. apply shape_space; [apply rs_not_nil; lia|].
    assert (Forall (fun c => isSpace c = true) (rs i (scan isSpace cps i))) as HF
      by (apply rs_scan; lia).
    rewrite <- (rs_app i j) in HF by lia. by apply Forall_app in HF as [? _]. }
  destruct Hl as [->|(q & -> & Hq)].
  - destruct (scan isSpace cps i <? length cps)%nat eqn:E; boolprop.
    + destruct (index_at_lt cps (scan isSpace cps i)) as (d & Hd & _); [done|].
      rewrite (rune_at_Some _ _ Hd). cbn [run_bind].
      destruct (_ && _) eqn:E2; boolprop; eexists; split; try done; split; try lia;
        apply Hsub; lia.
    + cbn [run_bind]. eexists. split; [done|]. split; [lia|]. apply Hsub. lia.
  - eexists. split; [done|]. split; [lia|]. apply Hsub. lia.
Qed.

(** A letter and the letters after it. *)
Lemma letters_shape i c :
  cps !! i = Some c -> isLetter (r c) = true ->
  let j := scan isLetter cps (i + 1) in
  (i < j <= length cps)%nat /\ rs i j <> [] /\ Forall (fun c => isLetter c = true) (rs i j).
Proof.
  intros Hc Hl j. assert (i < length cps)%nat by by apply lookup_lt_Some in Hc.
  destruct (scan_spec isLetter cps (i + 1)) as [Hb _]; [lia|]. fold j in Hb.
  split; [lia|]. split; [apply rs_not_nil; lia|].
  rewrite <- (rs_app i (i + 1)) by lia. rewrite (rs_one _ _ Hc). constructor; [done|]. apply rs_scan. lia.
Qed.

(** One round inside the text returns a later index, no index is out of range, and the
    piece it cuts has one of the shapes; in particular the fallback is never reached. *)
Lemma pre_step_ok i :
  (i < length cps)%nat ->
  exists j, pre_step cps i = Ret j /\ (i < j <= length cps)%nat /\ shape (rs i j).
Proof.
  intros Hi. destruct (index_at_lt cps i) as (c & Hc & _); [done|].
  unfold pre_step. rewrite (rune_at_Some _ _ Hc). cbn [run_bind].
  destruct (contraction_ok i c Hc) as (l & -> & Hl). cbn [run_bind].
  destruct (0 <? l)%nat eqn:El; boolprop.
  { destruct Hl as [->|(?&?&?)]; [lia|]. eexists. split; [done|]. split; [lia|done]. }
  destruct (isLetter (r c)) eqn:Elet.
  { destruct (letters_shape i c Hc Elet) as (Hb & Hne & Hall).
    eexists. split; [done|]. split; [lia|]. rewrite <- (app_nil_l (rs _ _)).
    apply shape_word; [by left|done..]. }
  destruct (look_ahead (negb (isNewline (r c)) && negb (isNumber (r c))) isLetter i)
    as (b & -> & Hb). cbn [run_bind]. destruct b.
  { destruct Hb as (Hcls & d & Hd & Hdl); [done|]. boolprop.
    assert (i + 1 < length cps)%nat by by apply lookup_lt_Some in Hd.
    destruct (letters_shape (i + 1) d Hd Hdl) as (Hb & Hne & Hall).
    replace (i + 1 + 1)%nat with (i + 2)%nat in * by lia.
    eexists. split; [done|]. split; [lia|].
    rewrite <- (rs_app i (i + 1)) by lia. rewrite (rs_one _ _ Hc).
    apply shape_word; [right; eauto|done..]. }
  destruct (isNumber (r c)) eqn:En.
  { eexists. split; [done|]. split; [lia|]. rewrite (rs_one _ _ Hc). by apply shape_digit. }
  destruct (look_ahead (r c =? 0x20)%Z isPunct i) as (b & -> & Hb2). cbn [run_bind]. clear Hb.
  set (k := if b then (i + 1)%nat else i).
  assert (exists d, cps !! k = Some d /\ (i <= k)%nat /\
          (rs i k = [] \/ rs i k = [0x20%Z])) as (d & Hd & Hk & Hpre).
  { subst k. destruct b.
    - destruct Hb2 as (Hsp & d & Hd & _); [done|]. boolprop. exists d. split_and!; [done|lia|].
      right. rewrite (rs_one _ _ Hc). congruence.
    - exists c. split_and!; [done|lia|]. left. unfold rs. by rewrite slice_nil. }
  rewrite (rune_at_Some _ _ Hd). cbn [run_bind].
  assert (k < length cps)%nat by by apply lookup_lt_Some in Hd.
  destruct (isPunct (r d)) eqn:Ep.
  { pose proof (scan_gt isPunct k d Hd Ep). destruct (scan_spec isPunct cps k) as [H1 _]; [lia|].
    destruct (scan_spec isNewline cps (scan isPunct cps k)) as [H2 _]; [lia|].
    eexists. split; [done|]. split; [lia|].
    rewrite <- (rs_app i k), <- (rs_app k (scan isPunct cps k)) by lia.
    apply shape_punct; [done|apply rs_not_nil; lia| |]; apply rs_scan; lia. }
  destruct (isSpace (r c)) eqn:Es; [by apply (space_branch i c)|].
  assert (b = false) as ->.
  { destruct b; [|done]. destruct Hb2 as (Hsp & _); [done|]. boolprop. rewrite Hsp in Es. done. }
  subst k. assert (d = c) as -> by congruence. by rewrite (class_cases (r c)) in Ep.
Qed.

End step.

(** ** The pieces are the text *)

Lemma decodeCPs_range text : decodeCPs text = (fun '(r, i) => CP r i) <$> range_at 0 text.
Proof. done. Qed.

(** The byte offset at which code point [i] starts, or the end of the text. *)
Definition bound (text : bytes) (i : nat) : nat :=
  match decodeCPs text !! i with Some c => off c | None => length text end.

Lemma bound_split text i j :
  (i <= j <= length (decodeCPs text))%nat ->
  exists a p b, text = a ++ p ++ b /\ bound text i = length a /\
    bound text j = length (a ++ p) /\ runes p = rs (decodeCPs text) i j.
Proof.
  intros Hij. rewrite decodeCPs_range in Hij. rewrite length_fmap in Hij.
  assert (Hb : forall k a b, text = a ++ b -> range_at (length a) b = drop k (range_at 0 text) ->
    bound text k = length a).
  { intros k a b Heq Hd. unfold bound. rewrite decodeCPs_range, list_lookup_fmap.
    rewrite <- (Nat.add_0_r k), <- lookup_drop, <- Hd, range_at_cons. destruct b as [|c b].
    - rewrite Heq, length_app. simpl. lia.
    - by destruct (decode_rune (c :: b)). }
  destruct (range_at_split i 0 text) as (a & b & Heq & _ & Hbi); [lia|]. simpl in Hbi.
  destruct (range_at_split (j - i) (length a) b) as (p & q & -> & Hp & Hq).
  { rewrite Hbi, length_drop. lia. }
  exists a, p, q. split_and!; [done|by eapply Hb| |].
  - eapply Hb; [by rewrite Heq, app_assoc|]. rewrite length_app, Hq, Hbi, drop_drop.
    f_equal. lia.
  - rewrite (runes_range_at (length a)), Hp, Hbi. unfold rs. rewrite decodeCPs_range.
    unfold slice. rewrite <- fmap_drop, <- fmap_take, <- list_fmap_compose.
    apply list_fmap_ext. by intros ? [].
Qed.

Lemma bytesOf_ok text i j :
  (i < j <= length (decodeCPs text))%nat ->
  exists p, bytesOf text (decodeCPs text) i j = Ret p /\
    p = slice text (bound text i) (bound text j) /\ (bound text i <= bound text j)%nat /\
    runes p = rs (decodeCPs text) i j /\ p <> [].
Proof.
  intros Hij. destruct (bound_split text i j) as (a & p & b & Heq & Hi & Hj & Hr); [lia|].
  assert (Hp : slice text (bound text i) (bound text j) = p).
  { rewrite Hi, Hj, Heq, length_app. unfold slice. rewrite drop_app_length.
    replace (length a + length p - length a)%nat with (length p) by lia.
    by rewrite take_app_length. }
  exists p. split_and!; [|done|rewrite Hi, Hj, length_app; lia|done|].
  - unfold bytesOf. destruct (index_at_lt (decodeCPs text) i) as (ci & Hci & ->); [lia|].
    cbn [run_bind].
    assert (off ci = bound text i) as -> by (unfold bound; by rewrite Hci).
    assert ((if (j <? length (decodeCPs text))%nat
             then let* cb := index_at (decodeCPs text) j in Ret (off cb)
             else Ret (length text)) = Ret (bound text j)) as ->.
    { unfold bound. destruct (j <? _)%nat eqn:E; boolprop.
      - destruct (index_at_lt (decodeCPs text) j) as (cj & Hcj & ->); [lia|].
        by rewrite Hcj.
      - by rewrite lookup_ge_None_2 by lia. }
    cbn [run_bind]. rewrite Hp.
    by rewrite (proj2 (Nat.leb_le _ _)) by (rewrite Hi, Hj, length_app; lia).
  - intros ->. unfold runes in Hr. simpl in Hr. symmetry in Hr.
    apply rs_not_nil in Hr; [done|lia].
Qed.

Lemma pre_loop_ok text fuel i :
  let cps := decodeCPs text in
  (i <= length cps)%nat -> (length cps - i <= fuel)%nat ->
  exists ps, pre_loop fuel text cps i = Ret ps /\
    concat ps = drop (bound text i) text /\ Forall (fun p => p <> [] /\ shape (runes p)) ps.
Proof.
  intros cps. revert i. induction fuel as [|fuel IH]; intros i Hi Hf; cbn [pre_loop].
  - assert (i = length cps) as -> by lia. rewrite Nat.ltb_irrefl. exists [].
    split_and!; [done| |done]. unfold bound.
    by rewrite lookup_ge_None_2, drop_all by (fold cps; lia).
  - destruct (i <? length cps)%nat eqn:E; boolprop.
    + destruct (pre_step_ok cps i E) as (j & -> & Hj & Hs). cbn [run_bind].
      destruct (bytesOf_ok text i j Hj) as (p & Hb & Hp & Hle & Hr & Hne).
      fold cps in Hb. rewrite Hb. cbn [run_bind].
      destruct (IH j) as (ps & -> & Hc & Hps); [lia..|]. cbn [run_bind].
      exists (p :: ps). split_and!; [done| |].
      * cbn [concat]. rewrite Hc, Hp. unfold slice.
        rewrite <- (take_drop (bound text j - bound text i) (drop (bound text i) text)) at 2.
        f_equal. rewrite drop_drop. f_equal. lia.
      * constructor; [|done]. split; [done|]. fold cps in Hr. by rewrite Hr.
    + assert (i = length cps) as -> by lia. exists []. split_and!; [done| |done].
      unfold bound. by rewrite lookup_ge_None_2, drop_all by (fold cps; lia).
Qed.

Lemma pretokens_ok text :
  exists ps, pretokens text = Ret ps /\ concat ps = text /\
    Forall (fun p => p <> [] /\ shape (runes p)) ps.
Proof.
  destruct (pre_loop_ok text (length (decodeCPs text)) 0) as (ps & Hp & Hc & Hs); [lia..|].
  exists ps. split_and!; [done| |done]. rewrite Hc.
  destruct (bound_split text 0 0) as (a & p & b & Heq & H0 & Hp0 & Hr); [lia|].
  unfold bound. destruct text as [|c text]; [done|].
  rewrite decodeCPs_range, range_at_cons. by destruct (decode_rune _).
Qed.

Lemma bpe_all_total t ps out : exists ids, bpe_all t ps out = Ret (out ++ ids).
Proof.
  revert out. induction ps as [|p ps IH]; intros out; cbn [bpe_all].
  - exists []. by rewrite app_nil_r.
  - destruct (applyBPE_total t p out) as [ids ->]. cbn [run_bind].
    destruct (IH (out ++ ids)) as [ids' ->]. exists (ids ++ ids'). by rewrite app_assoc.
Qed.

Lemma pretokenizeAndBPE_total t text out :
  exists ids, pretokenizeAndBPE t text out = Ret (out ++ ids).
Proof.
  unfold pretokenizeAndBPE. destruct (pretokens_ok text) as (ps & -> & _).
  apply bpe_all_total.
Qed.

Lemma bpe_all_decodes t ps out ids :
  vocab_ok t -> bpe_all t ps out = Ret ids -> Decode t ids = Decode t out ++ concat ps.
Proof.
  intros Hv. revert out. induction ps as [|p ps IH]; intros out; cbn [bpe_all].
  - intros [= <-]. simpl. by rewrite app_nil_r.
  - destruct (applyBPE_total t p out) as [ids' E]. rewrite E. cbn [run_bind]. intros H.
    rewrite (IH _ H), (applyBPE_decodes _ _ _ _ Hv E). simpl. by rewrite app_assoc.
Qed.

Lemma pretokenizeAndBPE_decodes t text out ids :
  vocab_ok t -> pretokenizeAndBPE t text out = Ret ids -> Decode t ids = Decode t out ++ text.
Proof.
  intros Hv. unfold pretokenizeAndBPE. destruct (pretokens_ok text) as (ps & -> & Hc & _).
  cbn [run_bind]. intros H. by rewrite (bpe_all_decodes _ _ _ _ Hv H), Hc.
Qed.

(** ** Properties *)

(** The pre-tokenizer terminates on every byte string, valid UTF-8 or not, never
    reads a code point or slices the text out of range, and cuts the text into non-empty
    pieces whose concatenation is the text; each piece has one of the shapes of the
    regular expression it replaces (so the single-code-point fallback is dead code). *)
Lemma pretokens_partition text :
  exists ps, pretokens text = Ret ps /\ concat ps = text /\
    Forall (fun p => p <> [] /\ shape (runes p)) ps.
Proof. apply pretokens_ok. Qed.

Lemma number_not_other c :
  isNumber c = true -> isLetter c = false /\ isSpace c = false /\ isPunct c = false.
Proof.
  intros H. unfold isPunct. rewrite H, andb_false_r. unfold isNumber in H. boolprop.
  assert (Hs : isSpace c = false).
  { unfold isSpace. rewrite bool_decide_eq_false_2.
    - apply andb_false_iff. left. apply Z.leb_gt. lia.
    - rewrite !elem_of_cons, elem_of_nil. lia. }
  split_and!; [|done..]. unfold isLetter. rewrite Hs.
  repeat match goal with |- context [(?a <=? ?b)%Z] => destruct (Z.leb_spec a b); simpl end; lia || done.
Qed.

Lemma shape_number cs c : shape cs -> c ∈ cs -> isNumber c = true -> cs = [c].
Proof.
  intros Hs Hin Hn. destruct (number_not_other c Hn) as (Hl & Hsp & Hp).
  assert (forall p cs', Forall (fun c => p c = true) cs' -> c ∈ cs' -> p c = false -> False) as Habs.
  { intros p cs' HF Hc Hf. eapply Forall_forall in HF; [|done]. simpl in HF. congruence. }
  assert (Hlow : forall l, lower c = l -> isNumber l = true).
  { intros l <-. unfold lower. unfold isNumber in *. boolprop.
    destruct (Z.leb_spec 0x41 c); simpl; [lia|].
    rewrite (proj2 (Z.leb_le _ _)), (proj2 (Z.leb_le _ _)) by lia. done. }
  destruct Hs as [a Ha|a b Hab|pre ls Hpre Hls HF|d Hd|sp ps nls Hsp' Hps HF HF'|ws Hne HF].
  - rewrite !elem_of_cons in Hin. destruct Hin as [->|[->|Hin]]; [done| |by apply elem_of_nil in Hin].
    rewrite !elem_of_cons in Ha.
    destruct Ha as [Ha|[Ha|[Ha|[Ha|Ha]]]]; try (apply Hlow in Ha; done). by apply elem_of_nil in Ha.
  - rewrite !elem_of_cons in Hin.
    rewrite !elem_of_cons in Hab.
    destruct Hin as [->|[->|[->|Hin]]]; [done| | |by apply elem_of_nil in Hin];
      (destruct Hab as [[= Ha Hb]|[[= Ha Hb]|[[= Ha Hb]|Hab]]];
       [apply Hlow in Ha || apply Hlow in Hb; done..|by apply elem_of_nil in Hab]).
  - apply elem_of_app in Hin as [Hin|Hin]; [|exfalso; exact (Habs _ _ HF Hin Hl)].
    destruct Hpre as [->|(d & -> & _ & Hd)]; [by apply elem_of_nil in Hin|].
    apply list_elem_of_singleton in Hin as ->. congruence.
  - by apply list_elem_of_singleton in Hin as ->.
  - apply elem_of_app in Hin as [Hin|Hin].
    { destruct Hsp' as [-> | ->]; [by apply elem_of_nil in Hin|].
      apply list_elem_of_singleton in Hin as ->. done. }
    apply elem_of_app in Hin as [Hin|Hin]; exfalso; [exact (Habs _ _ HF Hin Hp)|].
    refine (Habs _ _ HF' Hin _). unfold isNewline. unfold isNumber in Hn. boolprop.
    apply orb_false_iff. rewrite !Z.eqb_neq. lia.
  - exfalso. exact (Habs _ _ HF Hin Hsp).
Qed.

(** Every ASCII digit is a pre-token of its own: digits are never merged with each other
    or with anything else, whatever the text around them. *)
Lemma pretokens_single_digits text :
  exists ps, pretokens text = Ret ps /\
    Forall (fun p => forall c, c ∈ runes p -> isNumber c = true -> runes p = [c]) ps.
Proof.
  destruct (pretokens_ok text) as (ps & Hp & _ & HF). exists ps. split; [done|].
  eapply Forall_impl; [done|]. intros p [_ Hs] c. by apply shape_number.
Qed.
