(* ===== verification/Regex.v ===== *)
(** * The regular expression the pre-tokenizer stands for

    [pretokenizeAndBPE] splits by hand where the HF tokenizer uses a regular expression
    with a negative look-ahead. [ends] is the meaning of such an expression for a
    backtracking matcher: the lengths of all matches at the start of a text, the preferred
    one first (alternatives in order, repetitions greedy). [qwen] is the expression over
    the character classes of the code, and the split of a text by it is compared with
    [pretokens]. *)

From S2P Require Import Prelude Utf8 TokenizerCore BPE Pretokenizer.
Local Open Scope go_scope.

(** ** Expressions *)
Inductive regex :=
  | Eps
  | Cls (p : rune -> bool)
  | Star (p : rune -> bool)          (** greedy repetition of a class *)
  | NotAhead (p : rune -> bool)      (** [(?!p)] *)
  | Then (a b : regex)
  | Or (a b : regex).

Definition Plus (p : rune -> bool) : regex := Then (Cls p) (Star p).
Definition Opt (a : regex) : regex := Or a Eps.

(** The runes at the start that are in the class. *)
Fixpoint span (p : rune -> bool) (l : list rune) : nat :=
  match l with
  | c :: l' => if p c then S (span p l') else 0%nat
  | [] => 0%nat
  end.

(** [n, n-1, ..., 0] *)
Fixpoint countdown (n : nat) : list nat :=
  match n with O => [0%nat] | S k => S k :: countdown k end.

Fixpoint ends (e : regex) (l : list rune) : list nat :=
  match e with
  | Eps => [0%nat]
  | Cls p => match l with c :: _ => if p c then [1%nat] else [] | [] => [] end
  | Star p => countdown (span p l)
  | NotAhead p => match l with c :: _ => if p c then [] else [0%nat] | [] => [0%nat] end
  | Then a b => n ← ends a l; (fun m => (n + m)%nat) <$> ends b (drop n l)
  | Or a b => ends a l ++ ends b l
  end.

(** The match a backtracking engine finds. *)
Definition first_match (e : regex) (l : list rune) : option nat := head (ends e l).

(** The text cut by successive matches; [None] where none is found or it is empty. *)
Fixpoint split (fuel : nat) (e : regex) (l : list rune) : option (list (list rune)) :=
  match l, fuel with
  | [], _ => Some []
  | _, O => None
  | _, S f =>
      match first_match e l with
      | Some (S n) => cons (take (S n) l) <$> split f e (drop (S n) l)
      | _ => None
      end
  end.

(** ** The expression of the Qwen tokenizer *)
Definition only (c : rune) : rune -> bool := fun x => (x =? c)%Z.
(** [(?i:c)] *)
Definition fold_is (c : rune) : rune -> bool := fun x => (lower x =? c)%Z.

(** [(?i:'s|'t|'re|'ve|'m|'ll|'d)] *)
Definition re_contraction : regex :=
  Or (Then (Cls (only quote)) (Cls (fold_is ch_s)))
  (Or (Then (Cls (only quote)) (Cls (fold_is ch_t)))
  (Or (Then (Cls (only quote)) (Then (Cls (fold_is ch_r)) (Cls (fold_is ch_e))))
  (Or (Then (Cls (only quote)) (Then (Cls (fold_is ch_v)) (Cls (fold_is ch_e))))
  (Or (Then (Cls (only quote)) (Cls (fold_is ch_m)))
  (Or (Then (Cls (only quote)) (Then (Cls (fold_is ch_l)) (Cls (fold_is ch_l))))
      (Then (Cls (only quote)) (Cls (fold_is ch_d)))))))).

(** [[^\r\n\p{L}\p{N}]?\p{L}+] *)
Definition is_prefix (c : rune) : bool := negb (isNewline c) && negb (isLetter c) && negb (isNumber c).
Definition re_word : regex := Then (Opt (Cls is_prefix)) (Plus isLetter).

(** [\p{N}] *)
Definition re_digit : regex := Cls isNumber.

(** [ ?[^\s\p{L}\p{N}]+[\r\n]*] *)
Definition re_punct : regex := Then (Opt (Cls (only 0x20))) (Then (Plus isPunct) (Star isNewline)).

(** [\s*[\r\n]+], [\s+(?!\S)] and [\s+] *)
Definition re_newlines : regex := Then (Star isSpace) (Plus isNewline).
Definition re_trailing : regex := Then (Plus isSpace) (NotAhead (fun c => negb (isSpace c))).
Definition re_spaces : regex := Plus isSpace.

Definition qwen : regex :=
  Or re_contraction (Or re_word (Or re_digit (Or re_punct (Or re_newlines (Or re_trailing re_spaces))))).

Example qwen_splits :
  split 100 qwen [0x49; 0x27; 0x4C; 0x6C; 0x20; 0x70; 0x61; 0x79; 0x20; 0x20; 0x34; 0x32; 0x21; 0x0A; 0x0A; 0x20; 0x20]%Z
  = Some [[0x49]; [0x27; 0x4C; 0x6C]; [0x20; 0x70; 0x61; 0x79]; [0x20]; [0x20]; [0x34]; [0x32];
          [0x21; 0x0A; 0x0A]; [0x20; 0x20]]%Z.
Proof. vm_compute. reflexivity. Qed.

(** Outside ASCII the classes of the code are not those of Unicode: the fullwidth comma
    U+FF0C is a letter, so it does not end the word. *)
Example fullwidth_comma : split 9 qwen [0x4F60; 0xFF0C; 0x597D]%Z = Some [[0x4F60; 0xFF0C; 0x597D]%Z].
Proof. vm_compute. reflexivity. Qed.

(** ** First matches *)
Lemma first_Or a b l :
  first_match (Or a b) l = match first_match a l with Some n => Some n | None => first_match b l end.
Proof. unfold first_match. cbn [ends]. by destruct (ends a l). Qed.

Lemma head_bind {A B} (f : A -> list B) x xs :
  head (y ← x :: xs; f y) = match head (f x) with Some z => Some z | None => head (y ← xs; f y) end.
Proof. cbn. by destruct (f x). Qed.

Lemma head_countdown n : head (countdown n) = Some n.
Proof. by destruct n. Qed.

Lemma head_fmap {A B} (f : A -> B) l : head (f <$> l) = f <$> head l.
Proof. by destruct l. Qed.

Lemma first_Plus p l : first_match (Plus p) l = if (span p l =? 0)%nat then None else Some (span p l).
Proof.
  unfold first_match. destruct l as [|c l]; [done|]. cbn. destruct (p c); [|done]. cbn.
  by rewrite app_nil_r, head_fmap, head_countdown.
Qed.

(** A word after an optional first character. *)
Lemma first_Opt p b l :
  first_match (Then (Opt (Cls p)) b) l =
  match l with
  | c :: t => if p c then match first_match b t with Some n => Some (S n) | None => first_match b l end
              else first_match b l
  | [] => first_match b []
  end.
Proof.
  unfold first_match. destruct l as [|c l].
  { cbn. by rewrite app_nil_r, list_fmap_id. }
  cbn. destruct (p c); cbn; rewrite ?app_nil_r, ?drop_0, ?list_fmap_id; [|done].
  by destruct (ends b l).
Qed.

(** A repetition that never fails after a greedy one. *)
Lemma first_Plus_Star p q l :
  first_match (Then (Plus p) (Star q)) l =
  if (span p l =? 0)%nat then None else Some (span p l + span q (drop (span p l) l))%nat.
Proof.
  pose proof (first_Plus p l) as H. unfold first_match in *.
  change (ends (Then (Plus p) (Star q)) l)
    with (n ← ends (Plus p) l; (fun m => (n + m)%nat) <$> ends (Star q) (drop n l)).
  destruct (ends (Plus p) l) as [|n ns]; cbn [head] in H.
  - by destruct (_ =? 0)%nat.
  - destruct (_ =? 0)%nat; [done|]. injection H as ->. rewrite head_bind, head_fmap. cbn [ends]. by rewrite head_countdown.
Qed.

(** The last newline among the first [m] runes. *)
Fixpoint last_newline (m : nat) (l : list rune) : option nat :=
  match m with
  | O => None
  | S k => if (match l !! k with Some c => isNewline c | None => false end) then Some k else last_newline k l
  end.

Lemma first_Plus_at p l k :
  head ((fun m => (k + m)%nat) <$> ends (Plus p) (drop k l)) =
  match l !! k with Some c => if p c then Some (k + S (span p (drop (S k) l)))%nat else None | None => None end.
Proof.
  rewrite head_fmap. change (head (ends ?e ?l)) with (first_match e l). rewrite first_Plus.
  destruct (l !! k) as [c|] eqn:E; [|by rewrite drop_ge by by apply lookup_ge_None].
  rewrite (drop_S _ _ _ E). cbn. by destruct (p c).
Qed.

Lemma newlines_back m l :
  (match l !! m with Some c => isNewline c | None => false end) = false ->
  head (k ← countdown m; (fun n => (k + n)%nat) <$> ends (Plus isNewline) (drop k l)) = S <$> last_newline m l.
Proof.
  assert (Hstep : forall k, (match l !! k with Some c => isNewline c | None => false end) = false ->
    head ((fun n => (k + n)%nat) <$> ends (Plus isNewline) (drop k l)) = None).
  { intros k H. rewrite first_Plus_at. destruct (l !! k); [by rewrite H|done]. }
  induction m as [|k IH]; intros H; cbn [countdown]; rewrite head_bind, Hstep by done; [done|].
  cbn [last_newline]. destruct (l !! k) as [c|] eqn:E; [|by apply IH].
  destruct (isNewline c) eqn:Ec; [|by apply IH].
  assert (exists ks, countdown k = k :: ks) as [ks ->] by (destruct k; by eexists).
  rewrite head_bind, first_Plus_at, E, Ec.
  assert (span isNewline (drop (S k) l) = 0%nat) as ->; [|by rewrite Nat.add_1_r].
  destruct (l !! S k) as [d|] eqn:Ed; [|by rewrite drop_ge by by apply lookup_ge_None].
  rewrite (drop_S _ _ _ Ed). cbn. by rewrite H.
Qed.

Lemma newline_space c : isNewline c = true -> isSpace c = true.
Proof. unfold isNewline. rewrite orb_true_iff, !Z.eqb_eq. by intros [-> | ->]. Qed.

Lemma span_end p l c : l !! span p l = Some c -> p c = false.
Proof.
  induction l as [|x l IH]; [done|]. cbn. destruct (p x) eqn:E; cbn; [done|]. by intros [= <-].
Qed.

Lemma span_in p l k : (k < span p l)%nat -> exists c, l !! k = Some c /\ p c = true.
Proof.
  revert k. induction l as [|x l IH]; intros k; cbn; [lia|]. destruct (p x) eqn:E; [|lia].
  destruct k as [|k]; [by exists x|]. intros H. apply IH. lia.
Qed.

Lemma span_length p l : (span p l <= length l)%nat.
Proof. induction l as [|x l IH]; cbn; [done|]. destruct (p x); lia. Qed.

Lemma first_newlines l : first_match re_newlines l = S <$> last_newline (span isSpace l) l.
Proof.
  unfold first_match, re_newlines. cbn [ends]. apply newlines_back.
  destruct (l !! _) as [c|] eqn:E; [|done]. apply span_end in E.
  destruct (isNewline c) eqn:Ec; [|done]. apply newline_space in Ec. congruence.
Qed.

Lemma ends_Plus p c l : p c = true -> ends (Plus p) (c :: l) = S <$> countdown (span p l).
Proof. intros H. cbn. rewrite H. cbn. by rewrite app_nil_r. Qed.

Lemma first_trailing l :
  first_match re_trailing l =
  let m := span isSpace l in
  if (m <? length l)%nat then if (2 <=? m)%nat then Some (m - 1)%nat else None
  else if (m =? 0)%nat then None else Some m.
Proof.
  unfold first_match, re_trailing. destruct l as [|c l]; [done|].
  destruct (isSpace c) eqn:Ec; [|cbn; by rewrite Ec].
  change (ends (Then ?a ?b) ?l) with (n ← ends a l; (fun m => (n + m)%nat) <$> ends b (drop n l)).
  rewrite ends_Plus by done. cbn [span]. rewrite Ec. cbv zeta. cbn [length Nat.ltb Nat.leb Nat.eqb].
  pose proof (span_end isSpace l) as He. pose proof (span_in isSpace l) as Hin. pose proof (span_length isSpace l) as Hl.
  set (m := span isSpace l) in *. clearbody m.
  assert (Hat : forall k, ends (NotAhead (fun c => negb (isSpace c))) (drop (S k) (c :: l)) =
    match l !! k with Some d => if isSpace d then [0%nat] else [] | None => [0%nat] end).
  { intros k. cbn [drop]. destruct (l !! k) as [d|] eqn:E; [|by rewrite drop_ge by by apply lookup_ge_None].
    rewrite (drop_S _ _ _ E). cbn. by destruct (isSpace d). }
  destruct (Nat.ltb_spec (S m) (S (length l))) as [Hlt|Hge].
  - destruct (lookup_lt_is_Some_2 l m ltac:(lia)) as [d Hd].
    destruct m as [|k]; cbn [countdown fmap list_fmap]; rewrite head_bind, Hat, Hd, (He d Hd); [done|].
    destruct (Hin k) as (e & Hk & Hs); [lia|].
    destruct k as [|k]; cbn [countdown fmap list_fmap]; rewrite head_bind, Hat, Hk, Hs; cbn; f_equal; lia.
  - assert (l !! m = None) as Hm by (apply lookup_ge_None; lia).
    destruct m as [|k]; cbn [countdown fmap list_fmap]; rewrite head_bind, Hat, Hm; cbn; f_equal; lia.
Qed.

(** ** One round of the code on the rest of the text *)
Definition starts (p : rune -> bool) (l : list rune) : bool := match l with c :: _ => p c | [] => false end.

Definition short (a : rune) : bool := (a =? ch_s)%Z || (a =? ch_t)%Z || (a =? ch_m)%Z || (a =? ch_d)%Z.
Definition long (a b : rune) : bool :=
  ((a =? ch_r)%Z && (b =? ch_e)%Z) || ((a =? ch_v)%Z && (b =? ch_e)%Z) || ((a =? ch_l)%Z && (b =? ch_l)%Z).

Definition contracted (l : list rune) : nat :=
  match l with
  | c :: a :: t =>
      if negb (c =? quote)%Z then 0%nat else
      if short (lower a) then 2%nat
      else match t with b :: _ => if long (lower a) (lower b) then 3%nat else 0%nat | [] => 0%nat end
  | _ => 0%nat
  end.

Definition spaces (l : list rune) : nat :=
  let m := span isSpace l in
  match last_newline m l with
  | Some q => S q
  | None => if (m <? length l)%nat && (2 <=? m)%nat then (m - 1)%nat else m
  end.

(** The length of the piece [pre_step] cuts, read off the rest of the text. *)
Definition step (l : list rune) : nat :=
  match l with
  | [] => 0%nat
  | c :: t =>
      if (0 <? contracted l)%nat then contracted l
      else if isLetter c then S (span isLetter t)
      else if negb (isNewline c) && negb (isNumber c) && starts isLetter t then S (span isLetter t)
      else if isNumber c then 1%nat
      else let k := if (c =? 0x20)%Z && starts isPunct t then 1%nat else 0%nat in
        let u := drop k l in
        if starts isPunct u then (k + (span isPunct u + span isNewline (drop (span isPunct u) u)))%nat
        else if isSpace c then spaces l else 1%nat
  end.

Lemma first_contraction l :
  first_match re_contraction l = if (contracted l =? 0)%nat then None else Some (contracted l).
Proof.
  unfold re_contraction. rewrite !first_Or. unfold first_match. cbn [ends].
  destruct l as [|c [|a t]]; [done| |]; unfold only; cbn; destruct (c =? quote)%Z; try done.
  unfold fold_is, short, long. cbn. generalize (lower a). intros x.
  destruct (Z.eqb_spec x ch_s) as [->|Hs]; [done|]. destruct (Z.eqb_spec x ch_t) as [->|Ht]; [done|].
  destruct (Z.eqb_spec x ch_m) as [->|Hm]; [by destruct t|]. destruct (Z.eqb_spec x ch_d) as [->|Hd]; [by destruct t|].
  destruct t as [|b t]; cbn.
  - destruct (x =? ch_r)%Z, (x =? ch_v)%Z, (x =? ch_l)%Z; done.
  - destruct (x =? ch_r)%Z, (x =? ch_v)%Z, (x =? ch_l)%Z; cbn;
      destruct (lower b =? ch_e)%Z, (lower b =? ch_l)%Z; try done.
Qed.

Lemma span_pos p l : (span p l =? 0)%nat = negb (starts p l).
Proof. destruct l as [|c l]; [done|]. cbn. by destruct (p c). Qed.

Lemma first_word c t :
  first_match re_word (c :: t) =
  if isLetter c || (negb (isNewline c) && negb (isNumber c) && starts isLetter t)
  then Some (S (span isLetter t)) else None.
Proof.
  unfold re_word. rewrite first_Opt, !first_Plus, span_pos. unfold is_prefix. cbn [span].
  destruct (isLetter c) eqn:El; cbn [negb orb]; rewrite ?andb_false_r; cbn; [done|].
  rewrite andb_true_r. destruct (negb _ && negb _); [|done]. cbn. by destruct (starts isLetter t).
Qed.

Lemma first_punct c t :
  first_match re_punct (c :: t) =
  let k := if (c =? 0x20)%Z && starts isPunct t then 1%nat else 0%nat in
  let u := drop k (c :: t) in
  if starts isPunct u then Some (k + (span isPunct u + span isNewline (drop (span isPunct u) u)))%nat else None.
Proof.
  unfold re_punct. rewrite first_Opt, !first_Plus_Star, !span_pos. unfold only. cbv zeta.
  destruct (Z.eqb_spec c 0x20) as [->|Hc]; cbn [andb]; [|rewrite drop_0; by destruct (starts isPunct (c :: t))].
  destruct (starts isPunct t) eqn:Es; cbn [negb]; [|done]. cbn [drop]. rewrite drop_0, Es. done.
Qed.

Lemma step_first l : l <> [] -> first_match qwen l = Some (step l).
Proof.
  destruct l as [|c t]; [done|]. intros _. unfold qwen, step.
  rewrite first_Or, first_contraction. destruct (Nat.eqb_spec (contracted (c :: t)) 0) as [E|E].
  2: { by rewrite (proj2 (Nat.ltb_lt _ _)) by lia. }
  rewrite E. change (0 <? 0)%nat with false. cbn match. rewrite first_Or, first_word.
  destruct (isLetter c) eqn:El; cbn [orb]; [done|].
  destruct (_ && _ && _) eqn:Ew; [done|]. rewrite first_Or. unfold first_match at 1. cbn [ends re_digit].
  destruct (isNumber c) eqn:En; cbn [head]; [done|]. rewrite first_Or, first_punct. cbv zeta.
  set (k := if (c =? 0x20)%Z && starts isPunct t then 1%nat else 0%nat). destruct (starts isPunct (drop k (c :: t))) eqn:Ep; [done|].
  assert (Hs : isSpace c = true).
  { destruct (isSpace c) eqn:Es; [done|]. pose proof (class_cases c El En Es) as Hp. subst k.
    destruct ((c =? 0x20)%Z && starts isPunct t) eqn:E2; cbn in Ep; [|congruence].
    apply andb_true_iff in E2 as [->%Z.eqb_eq _]. done. }
  rewrite Hs, first_Or, first_newlines. unfold spaces.
  destruct (last_newline _ _) as [q|]; [done|]. cbn [fmap option_fmap option_map]. rewrite first_Or, first_trailing.
  unfold re_spaces. rewrite first_Plus. cbv zeta.
  assert ((span isSpace (c :: t) =? 0)%nat = false) as -> by (rewrite span_pos; cbn; by rewrite Hs).
  destruct (_ <? _)%nat; cbn [andb]; [|done]. by destruct (2 <=? _)%nat.
Qed.

(** ** The code does one such round *)
Lemma last_newline_cons m c l :
  last_newline (S m) (c :: l) =
  match last_newline m l with Some q => Some (S q) | None => if isNewline c then Some 0%nat else None end.
Proof.
  induction m as [|m IH]; [done|].
  change (last_newline (S (S m)) (c :: l)) with
    (if (match l !! m with Some c => isNewline c | None => false end) then Some (S m) else last_newline (S m) (c :: l)).
  cbn [last_newline]. destruct (match l !! m with Some c => isNewline c | None => false end); [done|]. exact IH.
Qed.

Lemma space_run_span l j last :
  space_run l j last =
  let m := span isSpace (r <$> l) in
  ((j + m)%nat, match last_newline m (r <$> l) with Some q => Some (j + q)%nat | None => last end).
Proof.
  revert j last. induction l as [|c l IH]; intros j last; cbn [space_run fmap list_fmap span].
  { by rewrite Nat.add_0_r. }
  destruct (isSpace (r c)); [|by rewrite Nat.add_0_r]. rewrite IH. cbv zeta. rewrite last_newline_cons.
  replace (S j + span isSpace (r <$> l))%nat with (j + S (span isSpace (r <$> l)))%nat by lia. f_equal.
  destruct (last_newline _ _); [f_equal; lia|]. destruct (isNewline (r c)); [f_equal; lia|done].
Qed.

Lemma count_while_span p l : count_while p l = span p (r <$> l).
Proof. induction l as [|c l IH]; [done|]. cbn. by rewrite IH. Qed.

Section round.
Context (cps : list cp) (i : nat).

Definition rest : list rune := r <$> drop i cps.

Lemma rest_lookup k : rest !! k = r <$> (cps !! (i + k)%nat).
Proof. unfold rest. by rewrite list_lookup_fmap, lookup_drop. Qed.

Lemma rest_starts p k :
  (if (i + k <? length cps)%nat then let* d := rune_at cps (i + k) in Ret (p d) else Ret false)
  = Ret (starts p (drop k rest)).
Proof.
  pose proof (rest_lookup k) as H. unfold rune_at, index_at. destruct (Nat.ltb_spec (i + k) (length cps)) as [Hlt|Hge].
  - destruct (lookup_lt_is_Some_2 cps _ Hlt) as [d Hd]. rewrite Hd in *. cbn in H. by rewrite (drop_S _ _ _ H).
  - rewrite (lookup_ge_None_2 cps) in H by done. by rewrite drop_ge by by apply lookup_ge_None.
Qed.

Lemma rune_at_rest k c : rest !! k = Some c -> rune_at cps (i + k) = Ret c.
Proof.
  rewrite rest_lookup. intros H. unfold rune_at, index_at. destruct (cps !! (i + k)%nat); [|done]. by injection H as <-.
Qed.

Lemma scan_rest p k : scan p cps (i + k) = (i + (k + span p (drop k rest)))%nat.
Proof. unfold scan, rest. rewrite count_while_span, <- fmap_drop, drop_drop. lia. Qed.

Lemma rest_ltb k : (i + k <? length cps)%nat = (k <? length rest)%nat.
Proof. unfold rest. rewrite length_fmap, length_drop. destruct (Nat.ltb_spec (i + k) (length cps)), (Nat.ltb_spec k (length cps - i)); lia. Qed.

Lemma contraction_rest c t : rest = c :: t -> contraction cps i c = Ret (contracted rest).
Proof.
  intros E. unfold contraction. cbv zeta. rewrite !rest_ltb. unfold contracted.
  assert (H : forall k, rune_at cps (i + k) = match rest !! k with Some x => Ret x | None => rune_at cps (i + k) end).
  { intros k. destruct (rest !! k) eqn:Hk; [by apply rune_at_rest|done]. }
  rewrite E in *. destruct t as [|a t]; [by rewrite andb_false_r|]. change (1 <? length (c :: a :: t))%nat with true.
  rewrite andb_true_r. destruct (c =? quote)%Z; cbn [negb]; [|done]. rewrite (H 1%nat). cbn [lookup list_lookup run_bind].
  unfold short, long. destruct t as [|b t].
  - change (2 <? length [c; a])%nat with false. cbn [run_bind]. destruct (_ || _ || _ || _); [done|]. replace (0 =? ch_e)%Z with false by done. replace (0 =? ch_l)%Z with false by done.
    by rewrite !andb_false_r.
  - change (2 <? length (c :: a :: b :: t))%nat with true. cbn match.
    rewrite (H 2%nat). cbn [lookup list_lookup run_bind]. done.
Qed.

(** The spaces of a text, as the code takes them. *)
Lemma spaces_rest c t :
  rest = c :: t -> isSpace c = true ->
  (let '(j, last) := space_run (drop i cps) i None in
   match last with
   | Some l => Ret (l + 1)%nat
   | None =>
       let* more := (if (j <? length cps)%nat
                     then let* d := rune_at cps j in Ret (negb (isSpace d) && (2 <=? j - i)%nat)
                     else Ret false) in
       Ret (if (more : bool) then (j - 1)%nat else j)
   end) = Ret (i + spaces rest)%nat.
Proof.
  intros E Hs. rewrite space_run_span. fold rest. cbv zeta. unfold spaces.
  destruct (last_newline _ _) as [q|]; [f_equal; lia|]. set (m := span isSpace rest).
  assert (1 <= m)%nat as Hm by (subst m; rewrite E; cbn; rewrite Hs; lia).
  replace (i + m - i)%nat with m by lia.
  pose proof (rest_starts (fun d => negb (isSpace d) && (2 <=? m)%nat) m) as H. cbn beta in H. rewrite H. cbn [run_bind].
  destruct (Nat.ltb_spec m (length rest)) as [Hlt|Hge].
  - destruct (lookup_lt_is_Some_2 rest m Hlt) as [d Hd]. rewrite (drop_S _ _ _ Hd). cbn [starts].
    rewrite (span_end isSpace rest d Hd). cbn [negb andb]. destruct (2 <=? m)%nat; f_equal; lia.
  - rewrite drop_ge by done. done.
Qed.

Lemma look_ahead_rest c t (b : bool) p : rest = c :: t ->
  (if b && (i + 1 <? length cps)%nat then let* d := rune_at cps (i + 1) in Ret (p d) else Ret false)
  = Ret (b && starts p t).
Proof. intros E. destruct b; [|done]. cbn [andb]. rewrite rest_starts, E. cbn [drop]. by rewrite drop_0. Qed.

(** A punctuation run and the newlines after it. *)
Lemma punct_scan k u : drop k rest = u ->
  scan isNewline cps (scan isPunct cps (i + k)) = (i + (k + (span isPunct u + span isNewline (drop (span isPunct u) u))))%nat.
Proof. intros <-. rewrite !scan_rest, drop_drop. lia. Qed.

Lemma pre_step_rest c t : rest = c :: t -> pre_step cps i = Ret (i + step rest)%nat.
Proof.
  intros E.
  assert (Hc : rune_at cps i = Ret c) by (rewrite <- (Nat.add_0_r i); apply rune_at_rest; by rewrite E).
  unfold pre_step. cbv zeta. rewrite Hc. cbn [run_bind]. rewrite (contraction_rest c t E). cbn [run_bind].
  rewrite !(look_ahead_rest c t _ _ E), !scan_rest. cbn [run_bind].
  pose proof (spaces_rest c t E) as Hsp. revert Hsp. pose proof (rune_at_rest 1) as H1.
  unfold step. rewrite E. rewrite E in H1. intros Hsp. cbn [drop]. rewrite ?drop_0.
  destruct (0 <? contracted (c :: t))%nat; [done|]. destruct (isLetter c); [f_equal; lia|].
  destruct (_ && _ && starts isLetter t) eqn:Ew.
  { apply andb_true_iff in Ew as [_ Ew]. destruct t as [|d t]; [done|]. cbn in Ew |- *. rewrite Ew. try rewrite drop_0. f_equal; lia. }
  destruct (isNumber c); [done|].
  destruct ((c =? 0x20)%Z && starts isPunct t) eqn:Es.
  - apply andb_true_iff in Es as [_ Es]. destruct t as [|d t]; [done|]. rewrite (H1 d) by done. cbn [run_bind drop].
    cbn [starts] in *. rewrite Es. f_equal. apply (punct_scan 1 (d :: t)). by rewrite E.
  - rewrite Hc. cbn [run_bind starts]. rewrite drop_0. destruct (isPunct c) eqn:Ep.
    + f_equal. cbn [starts]. rewrite Ep, <- (Nat.add_0_r i) at 1. apply (punct_scan 0 (c :: t)). by rewrite E.
    + cbn [starts]. rewrite Ep. destruct (isSpace c); [by apply Hsp|done].
Qed.

End round.

(** ** The whole split *)
Lemma pre_loop_split text fuel i :
  let cps := decodeCPs text in
  (i <= length cps)%nat -> (length cps - i <= fuel)%nat ->
  exists ps, pre_loop fuel text cps i = Ret ps /\ split fuel qwen (rest cps i) = Some (runes <$> ps).
Proof.
  intros cps. revert i. induction fuel as [|fuel IH]; intros i Hi Hf; cbn [pre_loop].
  - assert (i = length cps) as -> by lia. rewrite Nat.ltb_irrefl. exists []. split; [done|].
    unfold rest. by rewrite drop_ge.
  - destruct (Nat.ltb_spec i (length cps)) as [Hlt|Hge].
    2: { exists []. split; [done|]. unfold rest. by rewrite drop_ge. }
    destruct (pre_step_ok cps i Hlt) as (j & E & Hj & _).
    destruct (rest cps i) as [|c t] eqn:Er.
    { apply (f_equal length) in Er. unfold rest in Er. rewrite length_fmap, length_drop in Er. simpl in Er. lia. }
    pose proof (pre_step_rest cps i c t Er) as Es. pose proof (step_first (rest cps i)) as Hm. rewrite Er in Es, Hm.
    assert (Ej : j = (i + step (c :: t))%nat) by congruence. clear Es. rewrite E. specialize (Hm ltac:(done)). cbn [run_bind].
    destruct (bytesOf_ok text i j Hj) as (p & Hb & _ & _ & Hr & _). fold cps in Hb, Hr. rewrite Hb. cbn [run_bind].
    destruct (IH j) as (ps & -> & Hs); [lia..|]. cbn [run_bind]. exists (p :: ps). split; [done|].
    cbn [split]. rewrite Hm. destruct (step (c :: t)) as [|n] eqn:En; [lia|]. rewrite <- Er.
    assert (take (S n) (rest cps i) = runes p) as ->.
    { rewrite Hr. unfold rest, rs, slice. rewrite <- fmap_take. do 2 f_equal. lia. }
    assert (drop (S n) (rest cps i) = rest cps j) as ->.
    { unfold rest. rewrite <- fmap_drop, drop_drop. do 2 f_equal. lia. }
    rewrite Hs. done.
Qed.

(** C22: the hand-written split is the regular expression it replaces: on every byte string
    the pieces are those of matching the expression again and again from the start, with the
    preference of a backtracking engine (alternatives in order, greedy repetitions, the
    negative look-ahead), over the character classes of the code; the pieces concatenate to
    the text. *)
Theorem pretokens_match_regex text :
  exists ps, pretokens text = Ret ps /\ concat ps = text /\
    split (length (runes text)) qwen (runes text) = Some (runes <$> ps).
Proof.
  destruct (pretokens_ok text) as (ps & Hp & Hc & _). exists ps. split; [done|]. split; [done|].
  unfold pretokens in Hp. destruct (pre_loop_split text (length (decodeCPs text)) 0) as (ps' & E & Hs); [lia..|].
  rewrite Hp in E. injection E as <-. rewrite (runes_range_at 0).
  assert (rest (decodeCPs text) 0 = (range_at 0 text).*1) as E.
  { unfold rest. rewrite drop_0, decodeCPs_range, <- list_fmap_compose. apply list_fmap_ext. by intros ? []. }
  rewrite <- E. replace (length (rest (decodeCPs text) 0)) with (length (decodeCPs text)); [done|].
  unfold rest. by rewrite drop_0, length_fmap.
Qed.
