(* ===== verification/Vocab.v ===== *)
(** * Checking a vocabulary

    [vocab_check] is a decidable test of a tokenizer's tables that implies the
    hypothesis [vocab_ok] of the round-trip theorems, and [toy] is a small concrete
    tokenizer that passes it: the 256 byte tokens, two merges and two specials. *)

From S2P Require Import Prelude Utf8 GoStrings TokenizerCore BPE.

(** A merge key cut at its first separator. *)
Definition split_key (k : bytes) : option (bytes * bytes) :=
  match index_byte k x01 with
  | Some i => Some (take i k, drop (S i) k)
  | None => None
  end.

Definition vocab_check (t : Tokenizer) : bool :=
  bool_decide ((byteToSym t, cpToByte t) = byte_maps ∅)
  && forallb (fun b => bool_decide (is_Some (tokToID t !! sym_of t b))) all_bytes
  && forallb (fun p => bool_decide (Decode t [p.2] = symToBytes t p.1))
       (map_to_list (tokToID t))
  && forallb (fun p => match split_key p.1 with
                       | Some (a, b) => bool_decide (is_Some (tokToID t !! (a ++ b)))
                       | None => true
                       end)
       (map_to_list (mergeRank t)).

Lemma split_key_pair a b : x01 ∉ a -> split_key (pair_key a b) = Some (a, b).
Proof.
  intros Ha. unfold split_key, index_byte, pair_key.
  assert (list_find (x01 =.) (a ++ x01 :: b) = Some (length a, x01)) as ->.
  { apply list_find_Some. split_and!; [|done|].
    - rewrite lookup_app_r, Nat.sub_diag by lia. done.
    - intros j y Hy Hlt <-. rewrite lookup_app_l in Hy by done.
      apply Ha, list_elem_of_lookup. eauto. }
  cbn. rewrite take_app_length. repeat f_equal.
  change (x01 :: b) with ([x01] ++ b). rewrite app_assoc, drop_app_length'; [done|].
  rewrite length_app. simpl. lia.
Qed.

Lemma vocab_check_sound t : vocab_check t = true -> vocab_ok t.
Proof.
  unfold vocab_check. rewrite !andb_true_iff, !forallb_forall, bool_decide_eq_true.
  intros [[[Hm Hb] Ht] Hr]. split; [done| | |].
  - intros b. apply (bool_decide_eq_true_1 _ (Hb b (proj1 (list_elem_of_In _ _) (elem_of_all_bytes b)))).
  - intros x y [r Hk].
    assert (In (pair_key (syms_of t x) (syms_of t y), r) (map_to_list (mergeRank t))) as Hin
      by (apply list_elem_of_In, elem_of_map_to_list; done).
    apply Hr in Hin. cbn [fst] in Hin.
    rewrite split_key_pair in Hin by by apply syms_of_no_sep. by boolprop.
  - intros bs i Hi.
    assert (In (syms_of t bs, i) (map_to_list (tokToID t))) as Hin
      by (apply list_elem_of_In, elem_of_map_to_list; done).
    apply Ht in Hin. cbn [fst snd] in Hin. apply bool_decide_eq_true in Hin. rewrite Hin.
    by apply symToBytes_syms_of.
Qed.

(** ** A concrete tokenizer *)
Definition byte_syms : list bytes := (byte_maps ∅).1.

Definition toy_special : list special :=
  [Special (go "<|im_start|>") 258; Special (go "<|im_end|>") 259].

Definition toy : Tokenizer :=
  let vocab := zip byte_syms (seqZ 0 256) ++ [(go "he", 256%Z); (go "hel", 257%Z)] in
  {| byteToSym := byte_syms;
     cpToByte := (byte_maps ∅).2;
     tokToID := list_to_map (vocab ++ ((fun sp => (sp_str sp, sp_id sp)) <$> toy_special));
     idToTok := ((fun b => [b]) <$> all_bytes) ++ [go "he"; go "hel"] ++ (sp_str <$> toy_special);
     specialF := replicate 258 false ++ [true; true];
     mergeRank := {[ pair_key (go "h") (go "e") := 0%Z; pair_key (go "he") (go "l") := 1%Z ]};
     specials := toy_special |}.

Lemma toy_vocab_ok : vocab_ok toy.
Proof. apply vocab_check_sound. vm_compute. reflexivity. Qed.

Lemma toy_specials_ok :
  Forall (fun sp => Decode toy [sp_id sp] = sp_str sp) (specials toy) /\
  Forall (fun sp => sp_str sp <> []) (specials toy).
Proof. split; repeat constructor; vm_compute; congruence. Qed.
