(* ===== verification/Encode.v ===== *)
(** * Encoding a text: [Encode]

    Models [Encode] of [internal/tokenizer/tokenizer.go]: the text is cut at the special
    literals and the chunks in between are pre-tokenised and BPE-encoded. The
    specification [encodes] cuts the text at the leftmost, then longest, special and
    recurses on the rest; it mentions neither positions nor the order of the list of
    specials. *)

From S2P Require Import Prelude Utf8 GoStrings TokenizerCore BPE Pretokenizer Vocab.
Local Open Scope go_scope.

(** The loop over [t.specials]: [best] (-1 as [None]), [bestID], [bestLen]. *)
Definition special_round (text : bytes) (pos : nat) (st : option nat * Z * nat) (sp : special)
    : option nat * Z * nat :=
  let '(best, bestID, bestLen) := st in
  match index (drop pos text) (sp_str sp) with
  | None => st
  | Some f =>
      let f := (f + pos)%nat in
      let better :=
        match best with
        | None => true
        | Some b => (f <? b)%nat || ((f =? b)%nat && (bestLen <? length (sp_str sp))%nat)
        end in
      if better then (Some f, sp_id sp, length (sp_str sp)) else st
  end.

Definition next_special (t : Tokenizer) (text : bytes) (pos : nat) : option nat * Z * nat :=
  foldl (special_round text pos) (None, (-1)%Z, 0%nat) (specials t).

Fixpoint encode_loop (fuel : nat) (t : Tokenizer) (text : bytes) (pos : nat) (out : list Z)
    : run (list Z) :=
  if (pos <? length text)%nat then
    match fuel with
    | O => Fuel
    | S f =>
        let '(best, bestID, bestLen) := next_special t text pos in
        let chunkEnd := default (length text) best in
        let* out := (if (pos <? chunkEnd)%nat
                     then pretokenizeAndBPE t (slice text pos chunkEnd) out else Ret out) in
        match best with
        | None => Ret out
        | Some b => encode_loop f t text (b + bestLen) (out ++ [bestID])
        end
    end
  else Ret out.

(** One round per byte is enough when no special literal is empty. *)
Definition Encode (t : Tokenizer) (text : bytes) : run (list Z) :=
  encode_loop (length text) t text 0 [].

(** ** Specification *)

Definition occurs_at (text : bytes) (i : nat) (sp : special) : Prop :=
  (i <= length text)%nat /\ has_prefix (drop i text) (sp_str sp) = true.

(** [sp] is the special the text is cut at: leftmost occurrence, longest literal there. *)
Definition first_special (t : Tokenizer) (pre : bytes) (sp : special) (post : bytes) : Prop :=
  let text := pre ++ sp_str sp ++ post in
  sp ∈ specials t /\
  forall sp', sp' ∈ specials t ->
    (forall i, (i < length pre)%nat -> ~ occurs_at text i sp') /\
    (occurs_at text (length pre) sp' -> (length (sp_str sp') <= length (sp_str sp))%nat).

(** A chunk without specials; the empty chunk is not pre-tokenised at all. *)
Definition encodes_chunk (t : Tokenizer) (chunk : bytes) (ids : list Z) : Prop :=
  forall out, (if (0 <? length chunk)%nat then pretokenizeAndBPE t chunk out else Ret out)
              = Ret (out ++ ids).

Inductive encodes (t : Tokenizer) : bytes -> list Z -> Prop :=
  | encodes_plain text ids :
      (forall sp i, sp ∈ specials t -> text <> [] -> ~ occurs_at text i sp) ->
      encodes_chunk t text ids -> encodes t text ids
  | encodes_special pre sp post ids ids' :
      first_special t pre sp post -> encodes_chunk t pre ids -> encodes t post ids' ->
      encodes t (pre ++ sp_str sp ++ post) (ids ++ sp_id sp :: ids').

Definition specials_nonempty (t : Tokenizer) : Prop :=
  Forall (fun sp => sp_str sp <> []) (specials t).

(** ** The choice of the special *)

(** [st] is the best choice among the specials in [sps]. *)
Definition choice_ok (text : bytes) (pos : nat) (sps : list special)
    (st : option nat * Z * nat) : Prop :=
  match st with
  | (None, _, _) => forall sp, sp ∈ sps -> index (drop pos text) (sp_str sp) = None
  | (Some b, id, l) =>
      (exists sp f, sp ∈ sps /\ index (drop pos text) (sp_str sp) = Some f /\
         b = (f + pos)%nat /\ id = sp_id sp /\ l = length (sp_str sp)) /\
      forall sp f, sp ∈ sps -> index (drop pos text) (sp_str sp) = Some f ->
        (b <= f + pos)%nat /\ (b = (f + pos)%nat -> (length (sp_str sp) <= l)%nat)
  end.

Lemma special_round_ok text pos sps st sp :
  choice_ok text pos sps st -> choice_ok text pos (sps ++ [sp]) (special_round text pos st sp).
Proof.
  destruct st as [[best id] l]. unfold special_round.
  destruct (index (drop pos text) (sp_str sp)) as [f|] eqn:Ef.
  - destruct best as [b|]; cbn -[Nat.ltb Nat.eqb].
    + intros [(sp0 & f0 & Hin & Hf0 & -> & -> & ->) Hmin].
      destruct (_ || _) eqn:E.
      * apply orb_true_iff in E. split.
        { exists sp, f. split_and!; [|done..]. apply elem_of_snoc. by right. }
        intros sp' f' [Hin'| ->]%elem_of_snoc Hf'.
        -- destruct (Hmin _ _ Hin' Hf') as [H1 H2].
           destruct E as [E|E]; boolprop; split; try lia; intros; specialize (H2 ltac:(lia)); lia.
        -- simplify_eq. lia.
      * boolprop. split.
        { exists sp0, f0. split_and!; [|done..]. apply elem_of_snoc. by left. }
        intros sp' f' [Hin'| ->]%elem_of_snoc Hf'; [by apply Hmin|].
        simplify_eq. split; [lia|]. intros Heq.
        match goal with H : (_ && _) = false |- _ => apply andb_false_iff in H as [H|H] end;
          boolprop; lia.
    + intros Hnone. split.
      { exists sp, f. split_and!; [|done..]. apply elem_of_snoc. by right. }
      intros sp' f' [Hin'| ->]%elem_of_snoc Hf'.
      * rewrite (Hnone _ Hin') in Hf'. done.
      * simplify_eq. lia.
  - destruct best as [b|]; cbn.
    + intros [(sp0 & f0 & Hin & Hf0 & -> & -> & ->) Hmin]. split.
      { exists sp0, f0. split_and!; [|done..]. apply elem_of_snoc. by left. }
      intros sp' f' [Hin'| ->]%elem_of_snoc Hf'; [by apply Hmin|].
      congruence.
    + intros Hnone sp' [Hin'| ->]%elem_of_snoc; auto.
Qed.

Lemma next_special_ok t text pos : choice_ok text pos (specials t) (next_special t text pos).
Proof.
  unfold next_special. induction (specials t) as [|sp sps IH] using rev_ind.
  - intros sp Hin. by apply not_elem_of_nil in Hin.
  - rewrite foldl_app. simpl. by apply special_round_ok.
Qed.

Lemma index_occurs text pos sp f :
  (pos <= length text)%nat -> index (drop pos text) (sp_str sp) = Some f ->
  occurs_at (drop pos text) f sp /\ forall i, (i < f)%nat -> ~ occurs_at (drop pos text) i sp.
Proof.
  intros Hpos (Hp & Hl & Hm)%index_Some. split; [by split|].
  intros i Hi [_ H]. by rewrite Hm in H.
Qed.

(** The choice at [pos] is the cut of the remaining text. *)
Lemma next_special_None t text pos id l :
  next_special t text pos = (None, id, l) ->
  forall sp i, sp ∈ specials t -> ~ occurs_at (drop pos text) i sp.
Proof.
  intros E sp i Hin [Hi Hp]. pose proof (next_special_ok t text pos) as H. rewrite E in H.
  specialize (H sp Hin). by rewrite (index_None _ _ H i Hi) in Hp.
Qed.

Lemma next_special_Some t text pos b id l :
  (pos <= length text)%nat -> next_special t text pos = (Some b, id, l) ->
  exists sp, drop pos text = slice text pos b ++ sp_str sp ++ drop (b + l) text /\
    id = sp_id sp /\ l = length (sp_str sp) /\ (pos <= b)%nat /\ (b + l <= length text)%nat /\
    first_special t (slice text pos b) sp (drop (b + l) text).
Proof.
  intros Hpos E. pose proof (next_special_ok t text pos) as H. rewrite E in H.
  destruct H as [(sp & f & Hin & Hf & -> & -> & ->) Hmin]. exists sp.
  pose proof (index_bound _ _ _ Hf) as Hb. rewrite length_drop in Hb.
  assert (Hsl : slice text pos (f + pos) = take f (drop pos text))
    by (unfold slice; f_equal; lia).
  assert (Hsplit : drop pos text =
    slice text pos (f + pos) ++ sp_str sp ++ drop (f + pos + length (sp_str sp)) text).
  { rewrite Hsl, (index_split _ _ _ Hf) at 1. do 2 f_equal.
    rewrite drop_drop. f_equal. lia. }
  split_and!; [done|done|done|lia|lia|].
  unfold first_special. rewrite <- Hsplit. split; [done|].
  assert (Hlen : length (slice text pos (f + pos)) = f) by (rewrite length_slice; lia).
  intros sp' Hin'. rewrite Hlen.
  destruct (index (drop pos text) (sp_str sp')) as [f'|] eqn:Ef'.
  - destruct (Hmin _ _ Hin' Ef') as [H1 H2].
    destruct (index_occurs _ _ _ _ Hpos Ef') as [Hocc Hbefore]. split.
    + intros i Hi. apply Hbefore. lia.
    + intros Hocc'. apply H2. destruct (decide (f' = f)); [lia|].
      exfalso. apply (Hbefore f); [lia|done].
  - split.
    + intros i _ [Hi Hp]. by rewrite (index_None _ _ Ef' i Hi) in Hp.
    + intros [Hi Hp]. by rewrite (index_None _ _ Ef' _ Hi) in Hp.
Qed.

(** ** The loop *)

Lemma encodes_chunk_total t chunk : exists ids, encodes_chunk t chunk ids.
Proof.
  unfold encodes_chunk. destruct (0 <? length chunk)%nat.
  - unfold pretokenizeAndBPE. destruct (pretokens_ok chunk) as (ps & -> & _). simpl.
    assert (forall ps, exists ids, forall out, bpe_all t ps out = Ret (out ++ ids)) as H.
    { clear ps. intros ps. induction ps as [|p ps [ids IH]]; simpl.
      - exists []. intros. by rewrite app_nil_r.
      - destruct (applyBPE_out t p) as [ids' Hp]. exists (ids' ++ ids). intros out.
        rewrite Hp. simpl. by rewrite IH, app_assoc. }
    apply H.
  - exists []. intros. by rewrite app_nil_r.
Qed.

Lemma encode_loop_ok t text fuel pos out :
  specials_nonempty t -> (pos <= length text)%nat -> (length text - pos <= fuel)%nat ->
  exists ids, encode_loop fuel t text pos out = Ret (out ++ ids) /\
              encodes t (drop pos text) ids.
Proof.
  intros Hne. revert pos out. induction fuel as [|fuel IH]; intros pos out Hpos Hf;
    cbn [encode_loop]; destruct (pos <? length text)%nat eqn:E; boolprop; try lia.
  1, 3: exists []; rewrite app_nil_r, drop_ge by lia; split; [done|];
    apply encodes_plain; [done|intros o; by rewrite app_nil_r].
  destruct (next_special t text pos) as [[[b|] sid] l] eqn:En; cbn [from_option id].
  - destruct (next_special_Some _ _ _ _ _ _ Hpos En) as
      (sp & Hsplit & -> & -> & Hb1 & Hb2 & Hfirst).
    destruct (encodes_chunk_total t (slice text pos b)) as [ids Hids].
    assert (0 < length (sp_str sp))%nat as Hlt.
    { destruct Hfirst as [Hin _]. eapply Forall_forall in Hne; [|done].
      destruct (sp_str sp); [done|simpl; lia]. }
    pose proof (Hids out) as Hc. rewrite length_slice in Hc by lia.
    replace (0 <? b - pos)%nat with (pos <? b)%nat in Hc
      by (apply eq_bool_prop_intro; rewrite !Is_true_true, !Nat.ltb_lt; lia).
    rewrite Hc. cbn [run_bind].
    destruct (IH (b + length (sp_str sp))%nat ((out ++ ids) ++ [sp_id sp])) as (ids' & -> & Henc);
      [lia..|].
    exists (ids ++ sp_id sp :: ids'). split; [by rewrite <- !app_assoc|].
    rewrite Hsplit. by apply encodes_special.
  - destruct (encodes_chunk_total t (drop pos text)) as [ids Hids].
    pose proof (Hids out) as Hc. rewrite length_drop in Hc.
    rewrite (proj2 (Nat.ltb_lt _ _)) in Hc by lia.
    rewrite (proj2 (Nat.ltb_lt pos _)) by done.
    replace (slice text pos (length text)) with (drop pos text)
      by (unfold slice; by rewrite take_ge by (rewrite length_drop; lia)).
    rewrite Hc. cbn [run_bind]. exists ids. split; [done|].
    apply encodes_plain; [|done]. intros sp i Hin _. by eapply next_special_None.
Qed.

Lemma encodes_chunk_decodes t chunk ids :
  vocab_ok t -> encodes_chunk t chunk ids -> Decode t ids = chunk.
Proof.
  intros Hv H. specialize (H []). destruct (0 <? length chunk)%nat eqn:E.
  - by apply pretokenizeAndBPE_decodes in H.
  - injection H as <-. boolprop. destruct chunk; [done|simpl in *; lia].
Qed.

Lemma encodes_chunk_det t chunk ids ids' :
  encodes_chunk t chunk ids -> encodes_chunk t chunk ids' -> ids = ids'.
Proof. intros H1 H2. specialize (H1 []). specialize (H2 []). simpl in *. congruence. Qed.

Lemma encodes_decodes t text ids :
  vocab_ok t -> Forall (fun sp => Decode t [sp_id sp] = sp_str sp) (specials t) ->
  encodes t text ids -> Decode t ids = text.
Proof.
  intros Hv Hs. induction 1 as [text ids _ Hc|pre sp post ids ids' [Hin _] Hc _ IH].
  - by eapply encodes_chunk_decodes.
  - change (sp_id sp :: ids') with ([sp_id sp] ++ ids'). rewrite !Decode_app, IH.
    rewrite (encodes_chunk_decodes _ _ _ Hv Hc). f_equal. f_equal.
    by eapply Forall_forall in Hs.
Qed.

Lemma occurs_here pre sp post : occurs_at (pre ++ sp_str sp ++ post) (length pre) sp.
Proof. split; [rewrite length_app; lia|]. rewrite drop_app_length. apply has_prefix_app. Qed.

Lemma specials_nonempty_app t sp pre post :
  specials_nonempty t -> sp ∈ specials t -> pre ++ sp_str sp ++ post <> [].
Proof.
  intros Hne Hin [_ [E _]%app_eq_nil]%app_eq_nil. by eapply Forall_forall in Hne.
Qed.

(** The cut is unique when no two specials share a literal. *)
Lemma first_special_det t pre sp post pre' sp' post' :
  NoDup (sp_str <$> specials t) ->
  pre ++ sp_str sp ++ post = pre' ++ sp_str sp' ++ post' ->
  first_special t pre sp post -> first_special t pre' sp' post' ->
  pre = pre' /\ sp = sp' /\ post = post'.
Proof.
  intros Hnd Heq [Hin H] [Hin' H'].
  pose proof (occurs_here pre sp post) as H1. pose proof (occurs_here pre' sp' post') as H2.
  destruct (H sp' Hin') as [Ha Hb]. destruct (H' sp Hin) as [Hc Hd].
  rewrite <- Heq in H2, Hc, Hd.
  assert (length pre = length pre') as Hlen.
  { destruct (lt_eq_lt_dec (length pre) (length pre')) as [[?|?]|?]; [|done|].
    - destruct (Hc (length pre)); done.
    - destruct (Ha (length pre')); done. }
  apply app_inj_1 in Heq as [-> Heq]; [|done]. split; [done|].
  assert (length (sp_str sp) = length (sp_str sp')) as Hl by (specialize (Hb H2); specialize (Hd H1); lia).
  apply app_inj_1 in Heq as [Hstr ->]; [|done]. split; [|done].
  apply list_elem_of_lookup in Hin as [i Hi]. apply list_elem_of_lookup in Hin' as [j Hj].
  assert (i = j) as ->; [|congruence].
  eapply (NoDup_lookup _ _ _ (sp_str sp)) in Hnd; [done| |].
  - by rewrite list_lookup_fmap, Hi.
  - rewrite list_lookup_fmap, Hj. simpl. by rewrite Hstr.
Qed.

Lemma encodes_det t text ids ids' :
  NoDup (sp_str <$> specials t) -> specials_nonempty t ->
  encodes t text ids -> encodes t text ids' -> ids = ids'.
Proof.
  intros Hnd Hne H. revert ids'. induction H as [text ids Hno Hc|pre sp post ids1 ids2 Hf Hc _ IH];
    intros ids' H'.
  - inversion H' as [? ? _ Hc'|pre sp post ? ? [Hin _]]; subst; [by eapply encodes_chunk_det|].
    destruct (Hno sp (length pre)); eauto using specials_nonempty_app, occurs_here.
  - inversion H' as [? ? Hno Hc' Heq|pre' sp' post' ? ? Hf' Hc' Hpost Heq]; subst.
    + destruct Hf as [Hin _]. 
      destruct (Hno sp (length pre)); eauto using specials_nonempty_app, occurs_here.
    + destruct (first_special_det _ _ _ _ _ _ _ Hnd Heq Hf' Hf) as (-> & -> & ->).
      f_equal; [by eapply encodes_chunk_det|]. f_equal. by apply IH.
Qed.

Lemma Encode_ok t text :
  specials_nonempty t -> exists ids, Encode t text = Ret ids /\ encodes t text ids.
Proof.
  intros Hne. destruct (encode_loop_ok t text (length text) 0 [] Hne) as (ids & He & Henc); [lia..|].
  exists ids. by rewrite drop_0 in Henc.
Qed.

(** ** Every id comes from the tables *)
Section ids_from_tables.
#[local] Set Default Proof Using "All".
Context (t : Tokenizer) (P : Z -> Prop).
Context (Htok : forall s id, tokToID t !! s = Some id -> P id).
Context (Hsp : forall sp, sp ∈ specials t -> P (sp_id sp)).

Lemma applyBPE_Forall word out ids : Forall P out -> applyBPE t word out = Ret ids -> Forall P ids.
Proof.
  unfold applyBPE. intros Hout. destruct (_ =? 0)%nat; [by intros [= <-]|].
  destruct (bpe_loop _ _ _) as [syms| |]; cbn [run_bind]; [|done..]. intros [= <-].
  apply Forall_app. split; [done|]. apply Forall_forall. intros id Hin.
  apply list_elem_of_omap in Hin as (s & _ & Hs). by eapply Htok.
Qed.

Lemma bpe_all_Forall ps out ids : Forall P out -> bpe_all t ps out = Ret ids -> Forall P ids.
Proof.
  revert out. induction ps as [|p ps IH]; intros out Hout; cbn [bpe_all]; [by intros [= <-]|].
  destruct (applyBPE t p out) as [out'| |] eqn:E; cbn [run_bind]; [|done..].
  apply IH. by eapply applyBPE_Forall.
Qed.

Lemma next_special_id text pos b id l :
  next_special t text pos = (Some b, id, l) -> P id.
Proof.
  unfold next_special. assert (forall sps st, (forall sp, sp ∈ sps -> sp ∈ specials t) ->
    (forall b, st.1.1 = Some b -> P st.1.2) ->
    forall b, (foldl (special_round text pos) st sps).1.1 = Some b ->
    P (foldl (special_round text pos) st sps).1.2) as H.
  { induction sps as [|sp sps IH]; intros st Hin Hst; [done|]. cbn [foldl]. apply IH.
    { intros sp' ?. apply Hin. by right. }
    destruct st as [[best bid] bl]. unfold special_round. destruct (index _ _); [|done].
    case_match; [|done]. intros ? _. apply Hsp, Hin. by left. }
  intros E. specialize (H (specials t) (None, (-1)%Z, 0%nat)). rewrite E in H.
  by apply (H ltac:(done) ltac:(done) b).
Qed.

Lemma encode_loop_Forall fuel text pos out ids :
  Forall P out -> encode_loop fuel t text pos out = Ret ids -> Forall P ids.
Proof.
  revert pos out. induction fuel as [|f IH]; intros pos out Hout; cbn [encode_loop];
    (destruct (pos <? length text)%nat; [|by intros [= <-]]); [done|].
  destruct (next_special t text pos) as [[best id] l] eqn:En.
  destruct (if _ : bool then _ else _) as [out'| |] eqn:Ec; cbn [run_bind]; [|done..].
  assert (Forall P out') as Hout'.
  { case_match; [|by injection Ec as <-]. unfold pretokenizeAndBPE in Ec.
    destruct (pretokens _) as [ps| |]; [|done..]. by eapply bpe_all_Forall. }
  destruct best as [b|]; [|by intros [= <-]]. apply IH. apply Forall_app. split; [done|].
  constructor; [by eapply next_special_id|constructor].
Qed.

Lemma Encode_Forall text ids : Encode t text = Ret ids -> Forall P ids.
Proof. by apply encode_loop_Forall. Qed.

End ids_from_tables.

(** ** The order of the specials *)

(** The tokenizer with another list of specials. *)
Definition with_specials (t : Tokenizer) (sps : list special) : Tokenizer :=
  {| byteToSym := byteToSym t; cpToByte := cpToByte t; tokToID := tokToID t;
     idToTok := idToTok t; specialF := specialF t; mergeRank := mergeRank t; specials := sps |}.

Lemma bpe_all_with_specials t sps ps out : bpe_all (with_specials t sps) ps out = bpe_all t ps out.
Proof.
  revert out. induction ps as [|p ps IH]; intros out; [done|]. cbn [bpe_all].
  change (applyBPE (with_specials t sps) p out) with (applyBPE t p out).
  destruct (applyBPE t p out); simpl; auto.
Qed.

Lemma encodes_chunk_with_specials t sps chunk ids :
  encodes_chunk t chunk ids -> encodes_chunk (with_specials t sps) chunk ids.
Proof.
  intros H out. rewrite <- (H out). destruct (_ <? _)%nat; [|done].
  unfold pretokenizeAndBPE. destruct (pretokens chunk); [|done..]. apply bpe_all_with_specials.
Qed.

Lemma encodes_with_specials t sps text ids :
  sps ≡ₚ specials t -> encodes t text ids -> encodes (with_specials t sps) text ids.
Proof.
  intros Hp. induction 1 as [text ids Hno Hc|pre sp post ids ids' [Hin Hf] Hc _ IH].
  - apply encodes_plain; [|by apply encodes_chunk_with_specials].
    intros sp i Hin. apply Hno. simpl in Hin. by rewrite Hp in Hin.
  - apply encodes_special; [|by apply encodes_chunk_with_specials|done].
    split; [simpl; by rewrite Hp|]. intros sp' Hin'. apply Hf. simpl in Hin'. by rewrite Hp in Hin'.
Qed.

(** Equally long literals may be listed in any order. *)
Lemma Encode_specials_perm t sps text :
  specials_nonempty t -> NoDup (sp_str <$> specials t) -> sps ≡ₚ specials t ->
  Encode (with_specials t sps) text = Encode t text.
Proof.
  intros Hne Hnd Hp. destruct (Encode_ok t text Hne) as (ids & -> & Henc).
  assert (Hne' : specials_nonempty (with_specials t sps)).
  { unfold specials_nonempty. simpl. by rewrite Hp. }
  destruct (Encode_ok (with_specials t sps) text Hne') as (ids' & -> & Henc').
  f_equal. apply (encodes_det (with_specials t sps) text); [|done|done|].
  - simpl. by rewrite Hp.
  - by apply encodes_with_specials.
Qed.

(** ** Properties *)

(** C20: [Encode] terminates on every text when no special literal is empty, and its ids
    are those of the position-free specification: the text is cut at the leftmost,
    longest special literals, and each chunk in between is pre-tokenised and encoded. *)
Theorem Encode_refines_encodes t text :
  specials_nonempty t -> exists ids, Encode t text = Ret ids /\ encodes t text ids.
Proof. apply Encode_ok. Qed.

Lemma Encode_refines_encodes_witness :
  specials_nonempty toy /\
  exists ids, Encode toy (go "help<|im_end|>\n") = Ret ids /\ encodes toy (go "help<|im_end|>\n") ids.
Proof.
  split; [exact (proj2 toy_specials_ok)|].
  apply (Encode_refines_encodes toy (go "help<|im_end|>\n")). exact (proj2 toy_specials_ok).
Defined.

(** C1: encoding loses nothing: with a vocabulary closed under the merges, decoding the
    ids of a text gives the text back, byte for byte, for every byte string. *)
Theorem Encode_Decode_roundtrip t text :
  vocab_ok t -> specials_nonempty t ->
  Forall (fun sp => Decode t [sp_id sp] = sp_str sp) (specials t) ->
  exists ids, Encode t text = Ret ids /\ Decode t ids = text.
Proof.
  intros Hv Hne Hs. destruct (Encode_ok t text Hne) as (ids & He & Henc).
  exists ids. split; [done|]. by apply encodes_decodes.
Qed.

Lemma Encode_Decode_roundtrip_witness :
  Encode toy (go "help<|im_end|>\n") = Ret [257; 112; 259; 10]%Z /\
  exists ids, Encode toy (go "help<|im_end|>\n") = Ret ids /\
              Decode toy ids = go "help<|im_end|>\n".
Proof.
  split; [vm_compute; reflexivity|].
  apply (Encode_Decode_roundtrip toy (go "help<|im_end|>\n"));
    [exact toy_vocab_ok|exact (proj2 toy_specials_ok)|exact (proj1 toy_specials_ok)].
Defined.

(** An empty special literal makes [Encode] loop for ever: on any non-empty text that
    does not start with another special, no number of rounds produces a result. *)
Lemma Encode_empty_special_diverges t text fuel out :
  text <> [] -> (exists sp, sp ∈ specials t /\ sp_str sp = []) ->
  (forall sp, sp ∈ specials t -> sp_str sp <> [] -> has_prefix text (sp_str sp) = false) ->
  encode_loop fuel t text 0 out = Fuel.
Proof.
  intros Hne (sp0 & Hin0 & Hemp) Hother. revert out.
  assert (exists sid, next_special t text 0 = (Some 0%nat, sid, 0%nat)) as [sid Hnext].
  { pose proof (next_special_ok t text 0) as H.
    destruct (next_special t text 0) as [[[b|] sid] l]; cbn [choice_ok] in H.
    - destruct H as [(sp & f & Hin & Hf & -> & _ & ->) Hmin].
      assert (Hi0 : index (drop 0 text) (sp_str sp0) = Some 0%nat) by (rewrite Hemp; by destruct text).
      destruct (Hmin _ _ Hin0 Hi0) as [Hle _]. assert (f = 0%nat) as -> by lia.
      exists sid. repeat f_equal. destruct (decide (sp_str sp = [])) as [->|Hn]; [done|].
      apply index_Some in Hf as [Hf _]. rewrite !drop_0 in Hf. by rewrite Hother in Hf.
    - specialize (H _ Hin0). rewrite Hemp in H. by destruct text. }
  induction fuel as [|fuel IH]; intros out; cbn [encode_loop];
    (destruct (0 <? length text)%nat eqn:E; boolprop; [|by destruct text; [|simpl in *; lia]]); [done|].
  rewrite Hnext. cbn. apply IH.
Qed.

Lemma Encode_empty_special_diverges_witness :
  encode_loop 1000 (with_specials toy (Special [] 7 :: toy_special)) (go "hi") 0 [] = Fuel.
Proof.
  apply (Encode_empty_special_diverges
           (with_specials toy (Special [] 7 :: toy_special)) (go "hi") 1000 []).
  - discriminate.
  - exists (Special [] 7). split; [by left|done].
  - apply (proj1 (Forall_forall
                    (fun sp => sp_str sp <> [] -> has_prefix (go "hi") (sp_str sp) = false) _)).
    repeat first [apply Forall_nil_2|apply Forall_cons_2];
      first [intros []; reflexivity|intros _; vm_compute; reflexivity].
Defined.
