(* ===== verification/Json.v ===== *)
(** * The part of Go's [encoding/json] the program uses

    Nothing here is code of the repository: it is the meaning of the calls
    [json.Unmarshal] and [json.Marshal] (of the original, v1 package) at the types the
    program uses them at. [parse_json] is the syntax check and the reading of a value;
    a value keeps, for every element of an array or object, the raw text it was read
    from, which is what a [json.RawMessage] field receives. [enc_string] is the string
    encoder with HTML escaping, the default of [Marshal]. *)

From S2P Require Import Prelude Utf8 GoStrings.

(** ** Values *)
Inductive json :=
  | JNull
  | JBool (b : bool)
  | JNum (lit : bytes)
  | JStr (s : bytes)
  | JArr (l : list (bytes * json))
  | JObj (l : list (bytes * (bytes * json))).

(** ** Lexical level *)
Definition is_ws (b : byte) : bool :=
  match b with x20 | x09 | x0a | x0d => true | _ => false end.

Fixpoint skip_ws (s : bytes) : bytes :=
  match s with b :: s' => if is_ws b then skip_ws s' else s | [] => [] end.

Definition hex_val (b : byte) : option Z :=
  let z := bz b in
  (if (0x30 <=? z) && (z <=? 0x39) then Some (z - 0x30)
   else if (0x61 <=? z) && (z <=? 0x66) then Some (z - 0x61 + 10)
   else if (0x41 <=? z) && (z <=? 0x46) then Some (z - 0x41 + 10)
   else None)%Z.

Definition hex4 (a b c d : byte) : option Z :=
  match hex_val a, hex_val b, hex_val c, hex_val d with
  | Some a, Some b, Some c, Some d => Some (((a * 16 + b) * 16 + c) * 16 + d)%Z
  | _, _, _, _ => None
  end.

(** The characters that may follow a backslash, with the byte they stand for. *)
Definition escape_val (b : byte) : option byte :=
  match b with
  | x22 => Some x22 | x5c => Some x5c | x2f => Some x2f
  | x62 => Some x08 | x66 => Some x0c | x6e => Some x0a | x72 => Some x0d | x74 => Some x09
  | _ => None
  end.

(** The text of a string up to its closing quote (the opening one is consumed). *)
Fixpoint scan_str (s : bytes) : option (bytes * bytes) :=
  match s with
  | [] => None
  | x22 :: r => Some ([], r)
  | x5c :: x75 :: a :: b :: c :: d :: r =>
      match hex4 a b c d with
      | Some _ =>
          match scan_str r with
          | Some (raw, rest) => Some (x5c :: x75 :: a :: b :: c :: d :: raw, rest)
          | None => None
          end
      | None => None
      end
  | x5c :: e :: r =>
      match escape_val e with
      | Some _ =>
          match scan_str r with Some (raw, rest) => Some (x5c :: e :: raw, rest) | None => None end
      | None => None
      end
  | b :: r =>
      if (bz b <? 0x20)%Z then None
      else match scan_str r with Some (raw, rest) => Some (b :: raw, rest) | None => None end
  end.

(** [utf16.DecodeRune] *)
Definition utf16_decode (r1 r2 : rune) : rune :=
  (if (0xD800 <=? r1) && (r1 <? 0xDC00) && (0xDC00 <=? r2) && (r2 <? 0xE000)
   then Z.lor (Z.shiftl (r1 - 0xD800) 10) (r2 - 0xDC00) + 0x10000
   else RuneError)%Z.

Definition is_surrogate (r : rune) : bool := ((0xD800 <=? r) && (r <? 0xE000))%Z.

(** [getu4]: the value of a leading escape of four hexadecimal digits, and the rest. *)
Definition getu4 (s : bytes) : option (rune * bytes) :=
  match s with
  | x5c :: x75 :: a :: b :: c :: d :: r => (fun z => (z, r)) <$> hex4 a b c d
  | _ => None
  end.

(** [unquote] of the text between the quotes: escapes resolved, ill-formed UTF-8 and
    unpaired surrogates replaced by U+FFFD. Every round consumes a byte. *)
Fixpoint unquote (fuel : nat) (s : bytes) : bytes :=
  match fuel with
  | O => []
  | S f =>
      match s with
      | [] => []
      | b :: r0 =>
          match getu4 s with
          | Some (rr, r) =>
              if is_surrogate rr then
                match getu4 r with
                | Some (rr1, r') =>
                    let dec := utf16_decode rr rr1 in
                    if (dec =? RuneError)%Z then encode_rune RuneError ++ unquote f r
                    else encode_rune dec ++ unquote f r'
                | None => encode_rune RuneError ++ unquote f r
                end
              else encode_rune rr ++ unquote f r
          | None =>
              match s with
              | x5c :: e :: r => default e (escape_val e) :: unquote f r
              | _ =>
                  if (bz b <? RuneSelf)%Z then b :: unquote f r0
                  else let '(rr, n) := decode_rune s in encode_rune rr ++ unquote f (drop n s)
              end
          end
      end
  end.

(** ** Numbers *)
Definition is_digit (b : byte) : bool := ((0x30 <=? bz b) && (bz b <=? 0x39))%Z.

Fixpoint span_digits (s : bytes) : bytes * bytes :=
  match s with
  | b :: r => if is_digit b then let '(d, r') := span_digits r in (b :: d, r') else ([], s)
  | [] => ([], [])
  end.

(** One or more digits. *)
Definition digits1 (s : bytes) : option (bytes * bytes) :=
  match span_digits s with ([], _) => None | dr => Some dr end.

Definition scan_int (s : bytes) : option (bytes * bytes) :=
  match s with x30 :: r => Some ([x30], r) | _ => digits1 s end.

Definition scan_frac (s : bytes) : option (bytes * bytes) :=
  match s with
  | x2e :: r => (fun '(d, r') => (x2e :: d, r')) <$> digits1 r
  | _ => Some ([], s)
  end.

Definition scan_exp (s : bytes) : option (bytes * bytes) :=
  match s with
  | (x65 | x45) as e :: ((x2b | x2d) as g) :: r => (fun '(d, r') => (e :: g :: d, r')) <$> digits1 r
  | (x65 | x45) as e :: r => (fun '(d, r') => (e :: d, r')) <$> digits1 r
  | _ => Some ([], s)
  end.

Definition scan_num (s : bytes) : option (bytes * bytes) :=
  let '(sign, s) := match s with x2d :: r => ([x2d], r) | _ => ([], s) end in
  '(i, s) ← scan_int s; '(f, s) ← scan_frac s; '(e, s) ← scan_exp s;
  Some (sign ++ i ++ f ++ e, s).

(** [strconv.ParseInt(lit, 10, 64)] of a number literal. *)
Fixpoint dec_value (acc : Z) (s : bytes) : option Z :=
  match s with
  | [] => Some acc
  | b :: r => if is_digit b then dec_value (acc * 10 + (bz b - 0x30)) r else None
  end.

Definition parse_int (lit : bytes) : option Z :=
  z ← match lit with
      | x2d :: [] | [] => None
      | x2d :: r => Z.opp <$> dec_value 0 r
      | _ => dec_value 0 lit
      end;
  if decide (in_int 64 z) then Some z else None.

(** ** Values *)

(** The text consumed between [s] and its suffix [rest]. *)
Definition consumed (s rest : bytes) : bytes := take (length s - length rest) s.

Definition scan_word (w s : bytes) (v : json) : option (json * bytes) :=
  if has_prefix s w then Some (v, drop (length w) s) else None.

(** Values nest at most [maxNestingDepth] deep. *)
Fixpoint pvalue (fuel : nat) (depth : Z) (s : bytes) : option (json * bytes) :=
  match fuel with
  | O => None
  | S f =>
      match s with
      | x7b :: r =>
          if (depth <=? 0)%Z then None else
          match skip_ws r with
          | x7d :: r' => Some (JObj [], r')
          | r' => '(l, r') ← pmembers f (depth - 1) r'; Some (JObj l, r')
          end
      | x5b :: r =>
          if (depth <=? 0)%Z then None else
          match skip_ws r with
          | x5d :: r' => Some (JArr [], r')
          | r' => '(l, r') ← pelems f (depth - 1) r'; Some (JArr l, r')
          end
      | x22 :: r => '(raw, r') ← scan_str r; Some (JStr (unquote (length raw) raw), r')
      | x74 :: _ => scan_word (go "true") s (JBool true)
      | x66 :: _ => scan_word (go "false") s (JBool false)
      | x6e :: _ => scan_word (go "null") s JNull
      | _ => '(lit, r') ← scan_num s; Some (JNum lit, r')
      end
  end
with pelems (fuel : nat) (depth : Z) (s : bytes) : option (list (bytes * json) * bytes) :=
  match fuel with
  | O => None
  | S f =>
      '(v, r) ← pvalue f depth s;
      let e := (consumed s r, v) in
      match skip_ws r with
      | x2c :: r' => '(l, r'') ← pelems f depth (skip_ws r'); Some (e :: l, r'')
      | x5d :: r' => Some ([e], r')
      | _ => None
      end
  end
with pmembers (fuel : nat) (depth : Z) (s : bytes)
    : option (list (bytes * (bytes * json)) * bytes) :=
  match fuel with
  | O => None
  | S f =>
      match s with
      | x22 :: r =>
          '(raw, r) ← scan_str r;
          match skip_ws r with
          | x3a :: r =>
              let s' := skip_ws r in
              '(v, r) ← pvalue f depth s';
              let e := (unquote (length raw) raw, (consumed s' r, v)) in
              match skip_ws r with
              | x2c :: r' => '(l, r'') ← pmembers f depth (skip_ws r'); Some (e :: l, r'')
              | x7d :: r' => Some ([e], r')
              | _ => None
              end
          | _ => None
          end
      | _ => None
      end
  end.

Definition maxNestingDepth : Z := 10000.

(** A whole document. Two calls per byte are enough fuel. *)
Definition parse_json (s : bytes) : option json :=
  let s := skip_ws s in
  '(v, r) ← pvalue (2 * length s + 2) maxNestingDepth s;
  match skip_ws r with [] => Some v | _ => None end.

(** ** Unmarshal at the types of the program

    [None] is a non-nil error: the syntax check failed or a value had the wrong type.
    A JSON [null] leaves a string, integer or struct at its zero value. *)

Definition dec_string (v : json) : option bytes :=
  match v with JStr s => Some s | JNull => Some [] | _ => None end.

Definition dec_int (v : json) : option Z :=
  match v with JNum lit => parse_int lit | JNull => Some 0%Z | _ => None end.

Definition dec_list {A} (dec : json -> option A) (v : json) : option (list A) :=
  match v with
  | JArr l => mapM (fun e => dec e.2) l
  | JNull => Some []
  | _ => None
  end.

(** Names match exactly or under case folding; the folds of U+017F and U+212A are the
    only ones that lead from outside ASCII into it, and every name here is ASCII. *)
Definition fold_rune (r : rune) : rune :=
  (if (0x61 <=? r) && (r <=? 0x7A) then r - 32
   else if r =? 0x17F then 0x53 else if r =? 0x212A then 0x4B else r)%Z.

Definition key_is (name key : bytes) : bool :=
  bool_decide ((fold_rune <$> runes name) = (fold_rune <$> runes key)).

(** The members of an object that set the field [name], in order. *)
Definition fields (name : bytes) (l : list (bytes * (bytes * json))) : list (bytes * json) :=
  (fun kv => kv.2) <$> filter (fun kv => key_is name kv.1 = true) l.

(** A field of a basic type: the last member that is not [null] wins. *)
Definition last_field {A} (dec : json -> option A) (zero : A) (vs : list (bytes * json))
    : option A :=
  foldl (fun acc v => a ← acc; match v.2 with JNull => Some a | j => dec j end)
        (Some zero) vs.

(** A [json.RawMessage] field: the raw text of the last member, [null] included. *)
Definition raw_field (vs : list (bytes * json)) : bytes :=
  match last vs with Some v => v.1 | None => [] end.

Definition dec_struct {A} (dec : list (bytes * (bytes * json)) -> option A) (v : json)
    : option A :=
  match v with JObj l => dec l | JNull => dec [] | _ => None end.

Definition unmarshal {A} (dec : json -> option A) (s : bytes) : option A :=
  v ← parse_json s; dec v.

(** ** Marshal *)

Definition hex_digit (z : Z) : byte :=
  if (z <? 10)%Z then byte_of_Z (48 + z) else byte_of_Z (87 + z).

(** The bytes below 0x80 written as they are ([htmlSafeSet]). *)
Definition html_safe (b : byte) : bool :=
  (0x20 <=? bz b)%Z && negb (bool_decide (b ∈ [x22; x5c; x3c; x3e; x26])).

Definition escape_ascii (b : byte) : bytes :=
  match b with
  | x5c | x22 => [x5c; b]
  | x08 => go "\\b" | x0c => go "\\f" | x0a => go "\\n" | x0d => go "\\r" | x09 => go "\\t"
  | _ => go "\\u00" ++ [hex_digit (Z.shiftr (bz b) 4); hex_digit (Z.land (bz b) 0xF)]
  end.

Fixpoint quote_body (fuel : nat) (s : bytes) : bytes :=
  match fuel with
  | O => []
  | S f =>
      match s with
      | [] => []
      | b :: r =>
          if (bz b <? RuneSelf)%Z then
            (if html_safe b then [b] else escape_ascii b) ++ quote_body f r
          else
            let '(c, n) := decode_rune s in
            (if (c =? RuneError)%Z && (n =? 1)%nat then go "\\ufffd"
             else if (c =? 0x2028)%Z || (c =? 0x2029)%Z
             then go "\\u202" ++ [hex_digit (Z.land c 0xF)]
             else take n s) ++ quote_body f (drop n s)
      end
  end.

Definition enc_string (s : bytes) : bytes := x22 :: quote_body (length s) s ++ [x22].

(** Objects and arrays from encoded parts. *)
Fixpoint join (sep : bytes) (ls : list bytes) : bytes :=
  match ls with
  | [] => []
  | [l] => l
  | l :: ls' => l ++ sep ++ join sep ls'
  end.

Definition enc_obj (fs : list (string * bytes)) : bytes :=
  x7b :: join [x2c] ((fun '(k, v) => enc_string (go k) ++ x3a :: v) <$> fs) ++ [x7d].

Definition enc_arr (es : list bytes) : bytes := x5b :: join [x2c] es ++ [x5d].

(** A leading U+2028 or U+2029: its last byte. *)
Definition line_sep (s : bytes) : option byte :=
  match s with
  | a :: b :: c :: _ =>
      if Byte.eqb a xe2 && Byte.eqb b x80 && (Byte.eqb c xa8 || Byte.eqb c xa9) then Some c
      else None
  | _ => None
  end.

(** [appendCompact] of a raw message: its text without the whitespace outside strings
    and with the HTML-sensitive characters and line separators escaped. [skip] counts the
    bytes of an escaped separator still to be passed over; [in_str] and [esc] say whether
    the position is inside a string and right after a backslash there. *)
Fixpoint compact (skip : nat) (in_str esc : bool) (s : bytes) : bytes :=
  match s with
  | [] => []
  | b :: r =>
      match skip with
      | S k => compact k in_str esc r
      | O =>
          match line_sep s with
          | Some c => go "\\u202" ++ [hex_digit (Z.land (bz c) 0xF)] ++ compact 2 in_str false r
          | None =>
              let in_str' :=
                if esc then in_str else if Byte.eqb b x22 then negb in_str else in_str in
              let esc' := in_str && negb esc && Byte.eqb b x5c in
              if negb in_str && is_ws b then compact 0 in_str' esc' r
              else if bool_decide (b ∈ [x3c; x3e; x26])
              then escape_ascii b ++ compact 0 in_str' esc' r
              else b :: compact 0 in_str' esc' r
          end
      end
  end.

Definition enc_raw (raw : bytes) : option bytes :=
  match parse_json raw with Some _ => Some (compact 0 false false raw) | None => None end.

Example parse_tool :
  unmarshal (dec_struct (fun l => last_field dec_string [] (fields (go "name") l)))
    (go "\n{\qname\q: \qf\\u00e9\q, \qarguments\q: {\qa\q : [1,2.5e3]}}\n")
  = Some (x66 :: [xc3; xa9]).
Proof. vm_compute. reflexivity. Qed.

Example enc_html : enc_string (go "a<b>\n") = go "\qa\\u003cb\\u003e\\n\q".
Proof. vm_compute. reflexivity. Qed.

Example compact_ex : enc_raw (go "{ \qk v\q : [ \q<\q , \q\\\q\q ] }") = Some (go "{\qk v\q:[\q\\u003c\q,\q\\\q\q]}").
Proof. vm_compute. reflexivity. Qed.

(** ** What the encoders never write *)

(** Bytes that escaping removes from marshalled text: control characters and ['<']. *)
Definition plain_byte (b : byte) : bool := (0x20 <=? bz b)%Z && negb (bool_decide (b = x3c)).

Definition plain (s : bytes) : Prop := Forall (fun b => plain_byte b = true) s.

Lemma plain_app s t : plain (s ++ t) <-> plain s /\ plain t.
Proof. apply Forall_app. Qed.

Lemma plain_cons b s : plain_byte b = true -> plain s -> plain (b :: s).
Proof. by constructor. Qed.

Definition plainb (s : bytes) : bool := forallb plain_byte s.

Lemma plainb_ok s : plainb s = true -> plain s.
Proof. unfold plainb, plain. rewrite forallb_forall, Forall_forall. intros H b Hb. apply H. by apply list_elem_of_In. Qed.

Lemma escape_ascii_plain b : plain (escape_ascii b).
Proof.
  apply plainb_ok. revert b. apply byte_forall. vm_compute. reflexivity.
Qed.

Lemma html_safe_plain b : html_safe b = true -> plain_byte b = true.
Proof.
  intros H. pose proof (byte_forall (fun b => implb (html_safe b) (plain_byte b))) as Hall.
  specialize (Hall ltac:(vm_compute; reflexivity) b). cbn beta in Hall. by rewrite H in Hall.
Qed.

Lemma high_plain s : Forall (fun x => (RuneSelf <= bz x)%Z) s -> plain s.
Proof.
  intros H. eapply Forall_impl; [exact H|]. intros b Hb. unfold plain_byte, RuneSelf in *.
  apply andb_true_iff. split; [apply Z.leb_le; lia|].
  apply negb_true_iff, bool_decide_eq_false. intros ->. by apply Hb.
Qed.

Lemma quote_body_plain f s : plain (quote_body f s).
Proof.
  revert s. induction f as [|f IH]; intros s; cbn [quote_body]; [constructor|].
  destruct s as [|b r]; [constructor|].
  destruct (bz b <? RuneSelf)%Z eqn:Eb; boolprop.
  - apply plain_app. split; [|apply IH]. destruct (html_safe b) eqn:Eh.
    + apply plain_cons; [by apply html_safe_plain|constructor].
    + apply escape_ascii_plain.
  - destruct (decode_rune (b :: r)) as [c n] eqn:Ed. apply plain_app. split; [|apply IH].
    destruct ((c =? RuneError)%Z && (n =? 1)%nat) eqn:E1.
    { apply plainb_ok. vm_compute. reflexivity. }
    destruct ((c =? 0x2028)%Z || (c =? 0x2029)%Z) eqn:E2.
    { apply orb_true_iff in E2. rewrite !Z.eqb_eq in E2.
      destruct E2 as [-> | ->]; apply plainb_ok; vm_compute; reflexivity. }
    apply high_plain. eapply decode_rune_high; [done..|].
    apply andb_false_iff in E1. rewrite Z.eqb_neq, Nat.eqb_neq in E1. tauto.
Qed.

Lemma enc_string_plain s : plain (enc_string s).
Proof.
  unfold enc_string. apply plain_cons; [done|]. apply plain_app.
  split; [apply quote_body_plain|]. by apply plain_cons; [|constructor].
Qed.

Lemma join_plain sep ls : plain sep -> Forall plain ls -> plain (join sep ls).
Proof.
  intros Hs. induction 1 as [|l ls Hl _ IH]; [constructor|].
  destruct ls as [|l' ls]; [done|]. cbn [join]. by rewrite !plain_app.
Qed.

Lemma enc_obj_plain fs : Forall (fun f => plain f.2) fs -> plain (enc_obj fs).
Proof.
  intros H. unfold enc_obj. apply plain_cons; [done|]. apply plain_app. split.
  - apply join_plain; [by apply plain_cons; [|constructor]|]. apply Forall_fmap.
    eapply Forall_impl; [exact H|]. intros [k v] Hv. change (plain (enc_string (go k) ++ x3a :: v)). apply plain_app.
    split; [apply enc_string_plain|]. by apply plain_cons.
  - by apply plain_cons; [|constructor].
Qed.

Lemma enc_arr_plain es : Forall plain es -> plain (enc_arr es).
Proof.
  intros H. unfold enc_arr. apply plain_cons; [done|]. apply plain_app. split.
  - by apply join_plain; [apply plain_cons; [|constructor]|].
  - by apply plain_cons; [|constructor].
Qed.

Lemma line_sep_Some s c : line_sep s = Some c -> c = xa8 \/ c = xa9.
Proof.
  destruct s as [|a [|b [|d s]]]; try done. simpl. destruct (_ && _ && _) eqn:E; [|done].
  intros [= <-]. apply andb_true_iff in E as [_ E].
  apply orb_true_iff in E as [E|E]; apply Byte.byte_dec_bl in E; auto.
Qed.

(** Compacting escapes every ['<']. *)
Lemma compact_no_lt skip in_str esc s : x3c ∉ compact skip in_str esc s.
Proof.
  revert skip in_str esc. induction s as [|b s IH]; intros skip in_str esc;
    [apply not_elem_of_nil|]. cbn [compact].
  destruct skip as [|k]; [|apply IH].
  destruct (line_sep (b :: s)) as [c|] eqn:E.
  - rewrite !elem_of_app. intros [H|[H|H]]; [| |by eapply IH].
    + refine (bool_decide_eq_false_1 _ _ H). vm_compute. reflexivity.
    + apply line_sep_Some in E.
      destruct E as [-> | ->]; refine (bool_decide_eq_false_1 _ _ H); vm_compute; reflexivity.
  - destruct (negb in_str && is_ws b); [apply IH|].
    destruct (bool_decide (b ∈ _)) eqn:E1; boolprop.
    + rewrite elem_of_app. intros [H|H]; [|by eapply IH].
      pose proof (escape_ascii_plain b) as Hp. by eapply Forall_forall in Hp; [|exact H].
    + rewrite elem_of_cons. intros [<-|H]; [apply E1; by left|by eapply IH].
Qed.
