(* ===== verification/Chatml.v ===== *)
(** * The ChatML format layer: message types, the [Format] and its load-time constants

    Models [internal/chatml/types.go] and [internal/chatml/chatml.go]. Reading a file of
    the model directory is the parameter [read_file] ([os.ReadFile]; [None] is an error). *)

From S2P Require Import Prelude GoStrings Json TokenizerCore.
Local Open Scope go_scope.

Record ToolCall := { tc_ID : bytes; tc_Name : bytes; tc_ArgumentsJSON : bytes }.

Record Message := {
  Role : bytes;
  Content : bytes;
  ToolCalls : list ToolCall;
  ToolCallID : bytes;
}.

Record ToolDef := { td_Name : bytes; Description : bytes; ParametersJSON : bytes }.

#[export] Instance ToolCall_eq_dec : EqDecision ToolCall.
Proof. solve_decision. Defined.

Record Format := {
  tok : Tokenizer;
  eosIDs : list Z;
  toolOpen : Z;   (** id of the opening marker, -1 if absent *)
  toolClose : Z;
}.

Section load.
Context (read_file : bytes -> option bytes).

Definition eosFromGenerationConfig (dir : bytes) : list Z :=
  match read_file (dir ++ go "/generation_config.json") with
  | None => []
  | Some b =>
      match unmarshal (dec_struct (fun l => Some (raw_field (fields (go "eos_token_id") l)))) b with
      | None | Some [] => []
      | Some eos =>
          match unmarshal (dec_list dec_int) eos with
          | Some list => list
          | None =>
              match unmarshal dec_int eos with
              | Some one => [one]
              | None => []
              end
          end
      end
  end.

Definition Load (dir : bytes) (tok : Tokenizer) : Format :=
  let open := default (-1)%Z (ID tok (go "<tool_call>")) in
  let close := default (-1)%Z (ID tok (go "</tool_call>")) in
  let eos := eosFromGenerationConfig dir in
  let eos := if (length eos =? 0)%nat
             then omap (ID tok) [go "<|im_end|>"; go "<|endoftext|>"] else eos in
  {| tok := tok; eosIDs := eos; toolOpen := open; toolClose := close |}.

End load.

Definition StopTokenIDs (m : Format) : list Z := int32 <$> eosIDs m.

(** ** Where the stop ids come from *)

(** Any configured list, or a single integer, is taken as it is. *)
Lemma eos_configured read_file dir b eos ids :
  read_file (dir ++ go "/generation_config.json") = Some b ->
  unmarshal (dec_struct (fun l => Some (raw_field (fields (go "eos_token_id") l)))) b = Some eos ->
  eos <> [] ->
  unmarshal (dec_list dec_int) eos = Some ids \/
  (unmarshal (dec_list dec_int) eos = None /\
   exists one, unmarshal dec_int eos = Some one /\ ids = [one]) ->
  eosFromGenerationConfig read_file dir = ids.
Proof.
  intros Hr Hu Hne H. unfold eosFromGenerationConfig. rewrite Hr, Hu.
  destruct eos as [|c eos]; [done|].
  destruct H as [->|(-> & one & -> & ->)]; done.
Qed.
