(* ===== verification/Render.v ===== *)
(** * Rendering a conversation as a ChatML prompt: [Render]

    Models [internal/chatml/render.go]. The specification [render_turns] first groups
    the messages into turns (a run of tool results is one turn) and renders each turn;
    [Render] looks at the neighbours of each message instead. *)

From S2P Require Import Prelude GoStrings Json TokenizerCore Chatml.
Local Open Scope go_scope.

Definition im_start : bytes := go "<|im_start|>".
Definition im_end : bytes := go "<|im_end|>".

(** [toolJSON]: the marshalled map has its keys in sorted order; a marshalling error (an
    ill-formed schema) is dropped by the code and gives the empty string. *)
Definition toolJSON (t : ToolDef) : bytes :=
  let params := if (length (ParametersJSON t) =? 0)%nat then go "{}" else ParametersJSON t in
  match enc_raw params with
  | None => []
  | Some p =>
      enc_obj [("function"%string,
                enc_obj ((if bool_decide (Description t = []) then []
                          else [("description"%string, enc_string (Description t))])
                         ++ [("name"%string, enc_string (td_Name t)); ("parameters"%string, p)]));
               ("type"%string, enc_string (go "function"))]
  end.

Definition has_role (role : bytes) (m : Message) : bool := bool_decide (Role m = role).

(** [msgs[i].Role] for an index the code has checked. *)
Definition role_at (msgs : list Message) (i : nat) : bytes :=
  match msgs !! i with Some m => Role m | None => [] end.

Definition render_tool_call (tc : ToolCall) : bytes :=
  let args := if bool_decide (tc_ArgumentsJSON tc = []) then go "{}" else tc_ArgumentsJSON tc in
  go "\n<tool_call>\n{\qname\q: \q" ++ tc_Name tc ++ go "\q, \qarguments\q: " ++ args
  ++ go "}\n</tool_call>".

(** The header: the tool definitions, or a plain system turn. *)
Definition render_header (msgs : list Message) (tools : list ToolDef) : bytes :=
  let system := match msgs with
                | m :: _ => if has_role (go "system") m then Some m else None
                | [] => None
                end in
  if (0 <? length tools)%nat then
    go "<|im_start|>system\n"
    ++ match system with Some m => Content m ++ go "\n\n" | None => [] end
    ++ go "# Tools\n\nYou may call one or more functions to assist with the user query.\n\n"
    ++ go "You are provided with function signatures within <tools></tools> XML tags:\n<tools>"
    ++ concat ((fun t => go "\n" ++ toolJSON t) <$> tools)
    ++ go "\n</tools>\n\nFor each function call, return a json object with function name and arguments within <tool_call></tool_call> XML tags:\n<tool_call>\n{\qname\q: <function-name>, \qarguments\q: <args-json-object>}\n</tool_call><|im_end|>\n"
  else match system with
       | Some m => go "<|im_start|>system\n" ++ Content m ++ go "<|im_end|>\n"
       | None => []
       end.

(** The body of the loop at index [i]: the [switch] on the role. *)
Definition render_message (msgs : list Message) (start i : nat) : bytes :=
  match msgs !! i with
  | None => []
  | Some mm =>
      if has_role (go "user") mm then
        go "<|im_start|>user\n" ++ Content mm ++ go "<|im_end|>\n"
      else if has_role (go "assistant") mm then
        go "<|im_start|>assistant\n" ++ Content mm
        ++ concat (render_tool_call <$> ToolCalls mm) ++ go "<|im_end|>\n"
      else if has_role (go "tool") mm then
        (if (i =? start)%nat || negb (bool_decide (role_at msgs (i - 1) = go "tool"))
         then go "<|im_start|>user\n" else [])
        ++ go "<tool_response>\n" ++ Content mm ++ go "\n</tool_response>\n"
        ++ (if (length msgs <=? i + 1)%nat || negb (bool_decide (role_at msgs (i + 1) = go "tool"))
            then go "<|im_end|>\n" else [])
      else []
  end.

Definition Render (msgs : list Message) (tools : list ToolDef) (enableThinking : bool) : bytes :=
  let hasSystem := match msgs with m :: _ => has_role (go "system") m | [] => false end in
  let start := if hasSystem then 1%nat else 0%nat in
  render_header msgs tools
  ++ concat (render_message msgs start <$> seq start (length msgs - start))
  ++ go "<|im_start|>assistant\n"
  ++ (if enableThinking then [] else go "<think>\n\n</think>\n\n").

(** ** Specification: turns *)

Inductive turn :=
  | TUser (content : bytes)
  | TAssistant (content : bytes) (calls : list ToolCall)
  | TTools (results : list bytes)
  | TOther.

Fixpoint turns (msgs : list Message) : list turn :=
  match msgs with
  | [] => []
  | m :: rest =>
      if has_role (go "user") m then TUser (Content m) :: turns rest
      else if has_role (go "assistant") m then TAssistant (Content m) (ToolCalls m) :: turns rest
      else if has_role (go "tool") m then
        match turns rest with
        | TTools cs :: ts => TTools (Content m :: cs) :: ts
        | ts => TTools [Content m] :: ts
        end
      else TOther :: turns rest
  end.

Definition tool_response (c : bytes) : bytes :=
  go "<tool_response>\n" ++ c ++ go "\n</tool_response>\n".

Definition render_turn (t : turn) : bytes :=
  match t with
  | TUser c => im_start ++ go "user\n" ++ c ++ im_end ++ go "\n"
  | TAssistant c calls =>
      im_start ++ go "assistant\n" ++ c ++ concat (render_tool_call <$> calls) ++ im_end ++ go "\n"
  | TTools cs => im_start ++ go "user\n" ++ concat (tool_response <$> cs) ++ im_end ++ go "\n"
  | TOther => []
  end.

(** The messages after the system message. *)
Definition conversation (msgs : list Message) : list Message :=
  match msgs with
  | m :: rest => if has_role (go "system") m then rest else msgs
  | [] => []
  end.

Definition render_spec (msgs : list Message) (tools : list ToolDef) (enableThinking : bool)
    : bytes :=
  render_header msgs tools ++ concat (render_turn <$> turns (conversation msgs))
  ++ im_start ++ go "assistant\n"
  ++ (if enableThinking then [] else go "<think>\n\n</think>\n\n").

(** ** The loop renders the turns *)

(** Does the next message continue a run of tool results? *)
Definition tool_next (msgs : list Message) : bool :=
  match msgs with m :: _ => has_role (go "tool") m | [] => false end.

(** What the loop writes for [msgs], when the message before was a tool result or not. *)
Fixpoint render_from (after_tool : bool) (msgs : list Message) : bytes :=
  match msgs with
  | [] => []
  | m :: rest =>
      (if has_role (go "user") m then im_start ++ go "user\n" ++ Content m ++ im_end ++ go "\n"
       else if has_role (go "assistant") m then
         im_start ++ go "assistant\n" ++ Content m ++ concat (render_tool_call <$> ToolCalls m)
         ++ im_end ++ go "\n"
       else if has_role (go "tool") m then
         (if after_tool then [] else im_start ++ go "user\n") ++ tool_response (Content m)
         ++ (if tool_next rest then [] else im_end ++ go "\n")
       else [])
      ++ render_from (has_role (go "tool") m) rest
  end.

Lemma lit_start_user : go "<|im_start|>user\n" = im_start ++ go "user\n".
Proof. vm_compute. reflexivity. Qed.
Lemma lit_start_assistant : go "<|im_start|>assistant\n" = im_start ++ go "assistant\n".
Proof. vm_compute. reflexivity. Qed.
Lemma lit_end : go "<|im_end|>\n" = im_end ++ go "\n".
Proof. vm_compute. reflexivity. Qed.

Lemma has_role_tool m : has_role (go "tool") m = true ->
  has_role (go "user") m = false /\ has_role (go "assistant") m = false.
Proof.
  unfold has_role. rewrite !bool_decide_eq_true, !bool_decide_eq_false. intros ->.
  split; intros H; vm_compute in H; discriminate.
Qed.

(** The loop from index [i] on. *)
Lemma render_loop_from msgs start i rest :
  (start <= i)%nat -> drop i msgs = rest ->
  concat (render_message msgs start <$> seq i (length rest)) =
  render_from (negb (i =? start)%nat && bool_decide (role_at msgs (i - 1) = go "tool")) rest.
Proof.
  revert i. induction rest as [|m rest IH]; intros i Hi Hd; [done|].
  assert (Hm : msgs !! i = Some m) by (rewrite <- (Nat.add_0_r i), <- lookup_drop; by rewrite Hd).
  assert (Hd' : drop (S i) msgs = rest)
    by (rewrite <- Nat.add_1_r, <- drop_drop, Hd; done).
  cbn [length seq fmap list_fmap concat render_from]. f_equal.
  - unfold render_message. rewrite Hm, lit_start_user, lit_start_assistant, lit_end, <- ?app_assoc.
    destruct (has_role (go "user") m) eqn:E1; [done|].
    destruct (has_role (go "assistant") m) eqn:E2; [done|].
    destruct (has_role (go "tool") m) eqn:E3; [|done].
    assert (Hopen : (if (i =? start)%nat || negb (bool_decide (role_at msgs (i - 1) = go "tool"))
                     then im_start ++ go "user\n" else [])
      = (if negb (i =? start)%nat && bool_decide (role_at msgs (i - 1) = go "tool")
         then [] else im_start ++ go "user\n")).
    { destruct (i =? start)%nat; [done|]. by destruct (bool_decide _). }
    unfold tool_response. rewrite Hopen, <- !app_assoc. do 4 f_equal.
    rewrite <- Hd'.
    assert (Hnext : ((length msgs <=? i + 1)%nat
                     || negb (bool_decide (role_at msgs (i + 1) = go "tool")))
                    = negb (tool_next (drop (S i) msgs))).
    { unfold role_at, tool_next. rewrite <- (Nat.add_0_r (i + 1)), <- lookup_drop.
      rewrite Nat.add_0_r, Nat.add_1_r.
      destruct (drop (S i) msgs) as [|m' rest'] eqn:Ed; simpl.
      - apply orb_true_iff. left. apply Nat.leb_le.
        apply (f_equal length) in Ed. rewrite length_drop in Ed. simpl in Ed. lia.
      - rewrite (proj2 (Nat.leb_gt _ _)); [done|].
        apply (f_equal length) in Ed. rewrite length_drop in Ed. simpl in Ed. lia. }
    rewrite Hnext. by destruct (tool_next _).
  - rewrite (IH (S i)) by (done || lia). f_equal.
    rewrite (proj2 (Nat.eqb_neq _ _)) by lia. simpl. rewrite Nat.sub_0_r.
    unfold role_at. by rewrite Hm.
Qed.

Lemma turns_tools rest :
  tool_next rest = true -> exists cs ts, turns rest = TTools cs :: ts.
Proof.
  destruct rest as [|m rest]; [done|]. simpl. intros H.
  destruct (has_role_tool m H) as [-> ->]. rewrite H.
  destruct (turns rest) as [|[] ?]; eauto.
Qed.

Lemma turns_not_tools rest :
  tool_next rest = false -> forall cs ts, turns rest <> TTools cs :: ts.
Proof.
  destruct rest as [|m rest]; [done|]. simpl. intros H cs ts. rewrite H.
  destruct (has_role (go "user") m); [done|]. by destruct (has_role (go "assistant") m).
Qed.

(** After a tool result, the run of results that follows lacks its opening. *)
Lemma render_from_turns msgs :
  render_from false msgs = concat (render_turn <$> turns msgs) /\
  render_from true msgs =
    match turns msgs with
    | TTools cs :: ts =>
        concat (tool_response <$> cs) ++ im_end ++ go "\n" ++ concat (render_turn <$> ts)
    | ts => concat (render_turn <$> ts)
    end.
Proof.
  induction msgs as [|m rest [IH1 IH2]]; [done|]. cbn [render_from turns].
  destruct (has_role (go "tool") m) eqn:Et.
  - destruct (has_role_tool m Et) as [-> ->].
    destruct (tool_next rest) eqn:En.
    + destruct (turns_tools rest En) as (cs & ts & Hts). rewrite Hts in IH2 |- *.
      rewrite IH2. cbn [fmap list_fmap concat render_turn].
      split; by rewrite <- ?app_assoc.
    + pose proof (turns_not_tools rest En) as Hn.
      assert (render_from true rest = concat (render_turn <$> turns rest)) as ->.
      { rewrite IH2. destruct (turns rest) as [|[] ?]; try done. by edestruct Hn. }
      destruct (turns rest) as [|[] ?]; try (by edestruct Hn);
        cbn [fmap list_fmap concat render_turn]; split; by rewrite <- ?app_assoc, ?app_nil_r.
  - rewrite IH1.
    destruct (has_role (go "user") m); [by split|].
    destruct (has_role (go "assistant") m); by split.
Qed.

Lemma Render_turns msgs tools think : Render msgs tools think = render_spec msgs tools think.
Proof.
  unfold Render, render_spec. rewrite lit_start_assistant, <- app_assoc. do 2 f_equal.
  rewrite <- (proj1 (render_from_turns _)).
  set (start := if _ : bool then 1%nat else 0%nat).
  assert (conversation msgs = drop start msgs) as ->.
  { subst start. unfold conversation. destruct msgs as [|m rest]; [done|].
    by destruct (has_role (go "system") m). }
  rewrite <- length_drop, (render_loop_from msgs start start (drop start msgs)) by done.
  by rewrite Nat.eqb_refl.
Qed.

(** ** The control markers of a prompt

    [marks s] lists the occurrences of the two turn markers in [s] ([true] opens a turn).
    A marker cannot straddle two strings when the first ends in a character no marker
    contains, or the second starts with one that continues no marker; every literal of
    the template that borders a message's text has such an end. *)
Fixpoint marks (s : bytes) : list bool :=
  match s with
  | [] => []
  | _ :: r =>
      if has_prefix s im_start then true :: marks r
      else if has_prefix s im_end then false :: marks r
      else marks r
  end.

(** No marker character after its first / no marker character at all. *)
Definition no_tail (b : byte) : bool := bool_decide (b ∉ tail im_start ++ tail im_end).
Definition no_char (b : byte) : bool := bool_decide (b ∉ im_start ++ im_end).

Definition starts_ok (l : bytes) : bool := match l with b :: _ => no_tail b | [] => false end.
Definition ends_ok (l : bytes) : bool := match last l with Some b => no_char b | None => false end.

Definition boundary (a b : bytes) : Prop :=
  (forall c, last a = Some c -> no_char c = true) \/
  (forall c b', b = c :: b' -> no_tail c = true).

Lemma has_prefix_boundary a b m :
  (m = im_start \/ m = im_end) -> a <> [] -> boundary a b ->
  has_prefix (a ++ b) m = has_prefix a m.
Proof.
  intros Hm Ha Hb. destruct (has_prefix a m) eqn:E.
  { apply has_prefix_spec in E as [t ->]. rewrite <- app_assoc. apply has_prefix_app. }
  destruct (has_prefix (a ++ b) m) eqn:E'; [exfalso|done].
  apply has_prefix_spec in E' as [t Ht].
  apply app_eq_inv in Ht as [(k & Hak & Hbk)|(k & Hmk & Hbk)].
  - subst a. by rewrite has_prefix_app in E.
  - destruct a as [|x a]; [done|]. destruct k as [|y k].
    { rewrite app_nil_r in Hmk. subst m.
      rewrite <- (app_nil_r (x :: a)) in E at 1. by rewrite has_prefix_app in E. }
    destruct Hb as [Hb|Hb].
    + destruct (last (x :: a)) as [c|] eqn:El; [|by apply last_None in El].
      specialize (Hb c eq_refl). apply bool_decide_eq_true in Hb. apply Hb.
      apply last_Some in El as [a' El]. apply elem_of_app.
      assert (c ∈ m) as Hin.
      { rewrite Hmk, El. apply elem_of_app. left. apply elem_of_snoc. by right. }
      destruct Hm as [-> | ->]; auto.
    + specialize (Hb y (k ++ t) Hbk). apply bool_decide_eq_true in Hb. apply Hb.
      apply elem_of_app. assert (y ∈ tail m) as Hin.
      { rewrite Hmk. simpl. apply elem_of_app. right. by left. }
      destruct Hm as [-> | ->]; auto.
Qed.

Lemma marks_app a b : boundary a b -> marks (a ++ b) = marks a ++ marks b.
Proof.
  induction a as [|x a IH]; intros Hb; [done|].
  assert (Hp : forall m, m = im_start \/ m = im_end ->
    has_prefix (x :: a ++ b) m = has_prefix (x :: a) m).
  { intros m Hm. by rewrite app_comm_cons, (has_prefix_boundary (x :: a) b m). }
  cbn [app marks]. rewrite (Hp im_start), (Hp im_end) by auto.
  rewrite IH.
  - by destruct (has_prefix (x :: a) im_start), (has_prefix (x :: a) im_end).
  - destruct Hb as [Hb|Hb]; [left|by right]. intros c Hc. apply Hb.
    destruct a; [done|]. exact Hc.
Qed.

Lemma marks_app_l a b : ends_ok a = true -> marks (a ++ b) = marks a ++ marks b.
Proof.
  unfold ends_ok. intros H. apply marks_app. left. intros c Hc. by rewrite Hc in H.
Qed.

(** A string that starts like a literal of the template, or is empty. *)
Definition good (b : bytes) : Prop := b = [] \/ starts_ok b = true.

Lemma marks_app_r a b : good b -> marks (a ++ b) = marks a ++ marks b.
Proof.
  intros [->|H]; [by rewrite !app_nil_r|]. apply marks_app. right.
  by intros c b' ->.
Qed.

Lemma good_app a b : good a -> good b -> good (a ++ b).
Proof. intros [->|Ha] Hb; [done|]. right. by destruct a. Qed.

Lemma good_concat ls : Forall good ls -> good (concat ls).
Proof. induction 1; [by left|]. by apply good_app. Qed.

Lemma marks_concat ls : Forall good ls -> marks (concat ls) = concat (marks <$> ls).
Proof.
  induction 1 as [|l ls Hl Hls IH]; [done|]. cbn [concat fmap list_fmap].
  rewrite marks_app_r by by apply good_concat. by rewrite IH.
Qed.

Lemma marks_no_lt s : x3c ∉ s -> marks s = [].
Proof.
  induction s as [|b s IH]; intros Hs; [done|]. apply not_elem_of_cons in Hs as [Hb Hs].
  assert (forall t, has_prefix (b :: s) (x3c :: t) = false) as Hp.
  { intros t. cbn [has_prefix]. by rewrite bool_decide_eq_false_2. }
  cbn [marks].
  assert (im_start = x3c :: tail im_start /\ im_end = x3c :: tail im_end) as [-> ->]
    by (split; vm_compute; reflexivity).
  rewrite !Hp. by apply IH.
Qed.

(** A marker-free message. *)
Definition clean (s : bytes) : Prop := marks s = [].
Definition clean_call (tc : ToolCall) : Prop :=
  clean (tc_Name tc) /\ clean (tc_ArgumentsJSON tc).
Definition clean_message (m : Message) : Prop :=
  clean (Content m) /\ Forall clean_call (ToolCalls m).

(** [lit a mid b]: a text between two literals of the template. *)
Lemma marks_between a t b :
  ends_ok a = true -> good b -> clean t -> marks (a ++ t ++ b) = marks a ++ marks b.
Proof. intros Ha Hb Ht. rewrite marks_app_l, marks_app_r by done. by rewrite Ht. Qed.

#[local] Ltac literal := first [refine (or_intror _) | idtac]; vm_compute; reflexivity.

Lemma good_app_l a b : starts_ok a = true -> good (a ++ b).
Proof. intros H. right. by destruct a. Qed.

Lemma good_call tc : good (render_tool_call tc).
Proof. apply good_app_l. literal. Qed.

Lemma marks_call tc : clean_call tc -> marks (render_tool_call tc) = [].
Proof.
  intros [Hn Ha]. unfold render_tool_call. rewrite marks_between; [|literal| |done].
  - rewrite marks_between; [literal..|]. by destruct (bool_decide _); [literal|].
  - apply good_app_l. literal.
Qed.

Lemma marks_response c : clean c -> marks (tool_response c) = [].
Proof. intros Hc. unfold tool_response. rewrite marks_between; [literal..|done]. Qed.

Lemma good_response c : good (tool_response c).
Proof. apply good_app_l. literal. Qed.

Lemma marks_nil_concat {A} (f : A -> bytes) l :
  (forall x, good (f x)) -> Forall (fun x => marks (f x) = []) l ->
  marks (concat (f <$> l)) = [].
Proof.
  intros Hg Hl. rewrite marks_concat by (apply Forall_fmap, Forall_forall; intros; apply Hg).
  induction Hl as [|x l Hx _ IH]; [done|]. cbn. by rewrite Hx.
Qed.

Lemma good_concat_map {A} (f : A -> bytes) l : (forall x, good (f x)) -> good (concat (f <$> l)).
Proof. intros Hg. apply good_concat, Forall_fmap, Forall_forall. intros; apply Hg. Qed.

Definition clean_turn (t : turn) : Prop :=
  match t with
  | TUser c => clean c
  | TAssistant c calls => clean c /\ Forall clean_call calls
  | TTools cs => Forall clean cs
  | TOther => True
  end.

(** The markers of one turn. *)
Definition turn_marks (t : turn) : list bool :=
  match t with TOther => [] | _ => [true; false] end.

Lemma marks_turn t : clean_turn t -> marks (render_turn t) = turn_marks t.
Proof.
  destruct t as [c|c calls|cs|]; cbn [clean_turn render_turn turn_marks]; intros Hc.
  - rewrite app_assoc, marks_between; [literal..|done].
  - destruct Hc as [Hc Hcalls]. rewrite app_assoc, marks_between; [|literal| |done].
    + rewrite (marks_app_r (concat _)) by literal. rewrite marks_nil_concat; [literal|apply good_call|].
      eapply Forall_impl; [done|]. apply marks_call.
    + apply good_app; [apply good_concat_map, good_call|literal].
  - rewrite app_assoc, marks_app_l by literal. rewrite (marks_app_r (concat _)) by literal.
    rewrite marks_nil_concat; [literal|apply good_response|].
    eapply Forall_impl; [done|]. apply marks_response.
  - done.
Qed.

Lemma good_turn t : good (render_turn t).
Proof. destruct t; [apply good_app_l; literal..|by left]. Qed.

Lemma clean_turns msgs : Forall clean_message msgs -> Forall clean_turn (turns msgs).
Proof.
  induction 1 as [|m rest [Hc Hcalls] _ IH]; [constructor|]. cbn [turns].
  destruct (has_role (go "user") m); [by constructor|].
  destruct (has_role (go "assistant") m); [by constructor|].
  destruct (has_role (go "tool") m); [|by constructor].
  assert (clean_turn (TTools [Content m])) as Hone by by constructor.
  destruct (turns rest) as [|[] ts]; try by constructor.
  apply Forall_cons in IH as [??]. constructor; [by constructor|done].
Qed.


Lemma enc_string_no_lt s : x3c ∉ enc_string s.
Proof.
  intros Hin. pose proof (enc_string_plain s) as H. by eapply Forall_forall in H; [|exact Hin].
Qed.

Lemma join_no_lt sep ls : x3c ∉ sep -> Forall (fun l => x3c ∉ l) ls -> x3c ∉ join sep ls.
Proof.
  intros Hs. induction 1 as [|l ls Hl _ IH]; [apply not_elem_of_nil|].
  destruct ls; [done|]. cbn [join]. rewrite !elem_of_app. tauto.
Qed.

Lemma enc_obj_no_lt fs : Forall (fun f => x3c ∉ f.2) fs -> x3c ∉ enc_obj fs.
Proof.
  intros H. unfold enc_obj. rewrite elem_of_cons, elem_of_app, list_elem_of_singleton.
  intros [?|[Hin|?]]; [done| |done]. revert Hin. apply join_no_lt.
  - by rewrite list_elem_of_singleton.
  - apply Forall_fmap. eapply Forall_impl; [done|]. intros [k v] Hv.
    change (x3c ∉ enc_string (go k) ++ x3a :: v). rewrite elem_of_app, elem_of_cons.
    intros [Hk|[?|?]]; [by apply enc_string_no_lt in Hk|done|done].
Qed.

Lemma toolJSON_no_lt t : x3c ∉ toolJSON t.
Proof.
  unfold toolJSON. destruct (enc_raw _) as [p|] eqn:E; [|apply not_elem_of_nil].
  assert (Hp : x3c ∉ p).
  { unfold enc_raw in E. destruct (parse_json _); [|done]. injection E as <-. apply compact_no_lt. }
  apply enc_obj_no_lt. constructor; [|constructor; [apply enc_string_no_lt|constructor]].
  apply enc_obj_no_lt. apply Forall_app. split.
  - destruct (bool_decide _); [constructor|]. constructor; [apply enc_string_no_lt|constructor].
  - constructor; [apply enc_string_no_lt|by constructor].
Qed.


(** The header is one system turn, or nothing. *)
Definition has_header (msgs : list Message) (tools : list ToolDef) : bool :=
  (0 <? length tools)%nat
  || match msgs with m :: _ => has_role (go "system") m | [] => false end.

Lemma marks_tools (tools : list ToolDef) :
  marks (concat ((fun t => go "\n" ++ toolJSON t) <$> tools)) = [].
Proof.
  apply marks_nil_concat; [intros t; apply good_app_l; literal|].
  apply Forall_forall. intros t _. rewrite marks_app_l by literal.
  rewrite (marks_no_lt (toolJSON t)) by apply toolJSON_no_lt. literal.
Qed.

Lemma marks_header msgs tools :
  Forall clean_message msgs ->
  marks (render_header msgs tools) = (if has_header msgs tools then [true; false] else []).
Proof.
  intros Hc. unfold render_header, has_header.
  set (system := match msgs with
                 | m :: _ => if has_role (go "system") m then Some m else None
                 | [] => None end).
  assert (Hsys : forall m, system = Some m -> clean (Content m)).
  { subst system. intros m Hm. destruct msgs as [|m' ?]; [done|]. destruct (has_role _ _); [|done].
    injection Hm as ->. by apply Forall_inv in Hc as [? _]. }
  destruct (0 <? length tools)%nat eqn:Et; boolprop; cbn [orb].
  - rewrite marks_app_l by literal.
    match goal with |- context [match system with Some m => _ | None => _ end ++ ?r] =>
      assert (Hrest : marks r = [false]);
      [|assert (Hg : good r) by (apply good_app_l; literal); revert Hrest Hg; generalize r] end.
    { rewrite marks_app_l by literal.
      rewrite (marks_app_r _ (concat _ ++ _)) by
        (apply good_app; [apply good_concat_map; intros t; apply good_app_l|]; literal).
      rewrite (marks_app_r (concat _)) by literal. rewrite marks_tools. literal. }
    intros r Hr Hg. destruct system as [m|].
    + rewrite <- app_assoc, (marks_app_r (Content m)) by (apply good_app_l; literal).
      rewrite (Hsys m eq_refl), marks_app_r, Hr by done. literal.
    + simpl app. rewrite Hr. literal.
  - assert (system = None \/ exists m, system = Some m) as [E|[m E]]
      by (destruct system; eauto); rewrite E.
    + subst system. destruct msgs as [|m ?]; [done|]. by destruct (has_role _ _).
    + rewrite marks_between; [|literal..|by apply Hsys].
      subst system. destruct msgs as [|m' ?]; [done|]. destruct (has_role _ _); [literal|done].
Qed.

Lemma clean_conversation msgs : Forall clean_message msgs -> Forall clean_message (conversation msgs).
Proof.
  intros H. unfold conversation. destruct msgs as [|m rest]; [done|].
  destruct (has_role _ _); [by apply Forall_inv_tail in H|done].
Qed.

(** ** Properties *)

(** C25: the loop of [Render], which looks at the neighbours of each message, renders the
    conversation turn by turn: consecutive tool results become one user turn, and the
    prompt ends with the header of an open assistant turn. *)
Theorem Render_refines_turns msgs tools think :
  Render msgs tools think = render_spec msgs tools think.
Proof. apply Render_turns. Qed.

(** C26: if no text of the conversation contains a turn marker, the markers of the prompt
    are exactly those of the template: one opened and closed turn per rendered turn and a
    final open one. Tool definitions need no such assumption: whatever their names,
    descriptions and schemas hold, their JSON contains no marker. *)
Theorem Render_turn_structure msgs tools think :
  Forall clean_message msgs ->
  marks (Render msgs tools think) =
    (if has_header msgs tools then [true; false] else [])
    ++ concat (turn_marks <$> turns (conversation msgs)) ++ [true].
Proof.
  intros Hc. rewrite Render_turns. unfold render_spec.
  rewrite (marks_app_r (render_header _ _)), marks_header by
    (done || (apply good_app; [apply good_concat_map, good_turn|apply good_app_l; literal])).
  f_equal. rewrite marks_app_r by (apply good_app_l; literal). f_equal.
  - rewrite marks_concat by (apply Forall_fmap, Forall_forall; intros; apply good_turn).
    rewrite <- list_fmap_compose. f_equal. apply list_fmap_ext. intros i t Hi. simpl.
    apply marks_turn. eapply Forall_lookup_1; [|done]. by apply clean_turns, clean_conversation.
  - destruct think; literal.
Qed.

Definition witness_msgs : list Message :=
  [Build_Message (go "system") (go "Be brief.") [] [];
   Build_Message (go "user") (go "a<b?") [] [];
   Build_Message (go "assistant") [] [Build_ToolCall (go "call_0") (go "f") (go "{}")] [];
   Build_Message (go "tool") (go "1") [] (go "call_0");
   Build_Message (go "tool") (go "2") [] (go "call_1")].

Lemma Render_turn_structure_witness :
  Forall clean_message witness_msgs /\
  marks (Render witness_msgs [Build_ToolDef (go "f") (go "<|im_end|>") []] false) =
    [true; false] ++ concat (turn_marks <$> turns (conversation witness_msgs)) ++ [true].
Proof.
  assert (Forall clean_message witness_msgs) as H
    by (repeat constructor; vm_compute; reflexivity).
  split; [exact H|].
  apply (Render_turn_structure witness_msgs [Build_ToolDef (go "f") (go "<|im_end|>") []] false H).
Defined.
