(* ===== verification/RuneBuffer.v ===== *)
(** * Holding back a half-finished rune

    The loop shared by [Stream.takeRunes] of [internal/chatml/stream.go] and [takeRunes]
    of [internal/engine/generate.go]: how many leading bytes of a buffer are complete
    runes. Decoding a stream chunk by chunk with it emits, in the end, the same bytes as
    decoding it at once, and never half a character. *)

From S2P Require Import Prelude Utf8.

(** The index [i] at which the loop stops; every round advances, so the length of the
    buffer is enough fuel ([prefix_len_eq]). *)
Fixpoint prefix_len (fuel : nat) (p : bytes) : nat :=
  match fuel with
  | O => 0%nat
  | S f =>
      match p with
      | [] => 0%nat
      | b :: r =>
          if (bz b <? RuneSelf)%Z then S (prefix_len f r)
          else if negb (full_rune p) then 0%nat
          else let '(_, size) := decode_rune p in (size + prefix_len f (drop size p))%nat
      end
  end.

(** [takeRunes]: the text emitted and the bytes retained. *)
Definition take_runes (pending : bytes) : bytes * bytes :=
  let i := prefix_len (length pending) pending in
  if (i =? 0)%nat then ([], pending) else (take i pending, drop i pending).

Definition plen (p : bytes) : nat := prefix_len (length p) p.

Lemma prefix_len_fuel f p : (length p <= f)%nat -> prefix_len f p = plen p.
Proof.
  unfold plen. revert p. induction f as [f IH] using lt_wf_ind. intros p Hf.
  destruct p as [|b r]; [by destruct f|]. destruct f as [|f]; simpl in Hf; [lia|].
  cbn [prefix_len length]. destruct (bz b <? RuneSelf)%Z.
  { rewrite (IH f) by lia. done. }
  destruct (negb (full_rune (b :: r))); [done|].
  pose proof (decode_size (b :: r) ltac:(done)) as Hs.
  destruct (decode_rune (b :: r)) as [c n]. cbn [snd length] in Hs.
  set (q := drop n (b :: r)).
  assert (length q <= length r)%nat by (subst q; rewrite length_drop; simpl; lia).
  rewrite (IH f) by lia. destruct (decide (length r = f)) as [->|]; [by rewrite (IH f) by lia|].
  by rewrite (IH (length r)) by lia.
Qed.

Lemma plen_cons b r :
  plen (b :: r) =
  if (bz b <? RuneSelf)%Z then S (plen r)
  else if negb (full_rune (b :: r)) then 0%nat
  else (snd (decode_rune (b :: r)) + plen (drop (snd (decode_rune (b :: r))) (b :: r)))%nat.
Proof.
  unfold plen at 1. cbn [length prefix_len]. destruct (bz b <? RuneSelf)%Z; [done|].
  destruct (negb _); [done|].
  pose proof (decode_size (b :: r) ltac:(done)) as Hs.
  destruct (decode_rune (b :: r)) as [c n]. cbn [snd length] in Hs |- *.
  rewrite prefix_len_fuel; [done|]. rewrite length_drop. simpl. lia.
Qed.

(** One step of the loop: ASCII and complete sequences alike are [n] bytes of a complete
    rune. *)
Lemma plen_step p :
  p <> [] ->
  (full_rune p = false /\ plen p = 0%nat) \/
  (full_rune p = true /\
   plen p = (snd (decode_rune p) + plen (drop (snd (decode_rune p)) p))%nat).
Proof.
  destruct p as [|b r]; [done|]. intros _. rewrite plen_cons.
  destruct (bz b <? RuneSelf)%Z eqn:E; boolprop.
  - right. rewrite decode_ascii by done. cbn [snd drop]. split; [|by rewrite drop_0].
    unfold full_rune, first. by rewrite (proj2 (Z.ltb_lt _ _)).
  - destruct (full_rune (b :: r)); [by right|by left].
Qed.

(** Induction along the runes of a buffer. *)
Lemma rune_ind (P : bytes -> Prop) :
  P [] ->
  (forall p, p <> [] -> full_rune p = false -> P p) ->
  (forall p n, p <> [] -> full_rune p = true -> n = snd (decode_rune p) ->
     (1 <= n <= length p)%nat -> P (drop n p) -> P p) ->
  forall p, P p.
Proof.
  intros H0 Hpart Hfull p. induction p as [p IH] using (induction_ltof1 _ (@length _)).
  unfold ltof in IH. destruct (decide (p = [])) as [->|Hne]; [done|].
  pose proof (decode_size p Hne) as Hs.
  destruct (full_rune p) eqn:E; [|by apply Hpart].
  apply (Hfull p _ Hne E eq_refl Hs), IH. rewrite length_drop. lia.
Qed.

Lemma plen_bound p : (plen p <= length p)%nat /\ (length p - plen p <= 3)%nat.
Proof.
  induction p as [|p Hne Hf|p n Hne Hf -> Hn [IH1 IH2]] using rune_ind; [unfold plen; simpl; lia| |].
  - destruct (plen_step p Hne) as [[_ ->]|[? _]]; [|congruence].
    pose proof (full_rune_false_length p Hf). lia.
  - destruct (plen_step p Hne) as [[? _]|[_ ->]]; [congruence|].
    rewrite length_drop in IH1, IH2. lia.
Qed.

(** What is retained is the beginning of an incomplete rune. *)
Lemma plen_rest p : plen (drop (plen p) p) = 0%nat.
Proof.
  induction p as [|p Hne Hf|p n Hne Hf Hd Hn IH] using rune_ind; [done| |].
  - destruct (plen_step p Hne) as [[_ E]|[? _]]; [|congruence]. by rewrite E, drop_0, E.
  - destruct (plen_step p Hne) as [[? _]|[_ E]]; [congruence|].
    rewrite E, <- Hd, <- drop_drop. exact IH.
Qed.

(** Feeding more bytes continues where the loop stopped. *)
Lemma plen_app p q : plen (p ++ q) = (plen p + plen (drop (plen p) p ++ q))%nat.
Proof.
  induction p as [|p Hne Hf|p n Hne Hf Hd Hn IH] using rune_ind; [done| |].
  - destruct (plen_step p Hne) as [[_ E]|[? _]]; [|congruence]. by rewrite E, drop_0.
  - destruct (plen_step p Hne) as [[? _]|[_ E]]; [congruence|].
    assert (Hne' : p ++ q <> []) by by destruct p.
    destruct (plen_step (p ++ q) Hne') as [[Hf' _]|[_ E']].
    { by rewrite full_rune_app in Hf'. }
    rewrite E', decode_rune_app, <- Hd, drop_app_le, IH by (done || lia).
    rewrite E, <- Hd, <- drop_drop. lia.
Qed.

(** ** Well-formed text *)

Lemma valid_full p : p <> [] -> valid p -> full_rune p = true.
Proof.
  intros Hne Hv. destruct Hv as [|p r n _ Hd Hok _]; [done|].
  destruct (full_rune p) eqn:Ef; [done|exfalso].
  destruct p as [|b0 q]; [done|]. simpl in Ef, Hd.
  destruct (first b0) as [| |k lo hi] eqn:E; [done|done|].
  destruct (k <=? S (length q))%nat eqn:Ek; [done|]. boolprop.
  rewrite (proj2 (Nat.ltb_lt (S (length q)) k)) in Hd by lia.
  injection Hd as <- <-. tauto.
Qed.

Lemma valid_inv p : p <> [] -> valid p -> valid (drop (snd (decode_rune p)) p).
Proof. intros Hne Hv. destruct Hv as [|p r n _ Hd _ Hv]; [done|]. by rewrite Hd. Qed.

Lemma valid_rune_ok p :
  p <> [] -> valid p -> fst (decode_rune p) <> RuneError \/ snd (decode_rune p) <> 1%nat.
Proof. intros Hne Hv. destruct Hv as [|p r n _ Hd Hok _]; [done|]. by rewrite Hd. Qed.

(** Cutting a well-formed stream where the loop stops leaves both parts well-formed. *)
Lemma plen_valid p q : valid (p ++ q) -> valid (take (plen p) p) /\ valid (drop (plen p) p ++ q).
Proof.
  induction p as [|p Hne Hf|p n Hne Hf Hd Hn IH] using rune_ind; intros Hv; [split; [constructor|done]| |].
  - destruct (plen_step p Hne) as [[_ ->]|[? _]]; [|congruence].
    rewrite drop_0. split; [constructor|done].
  - destruct (plen_step p Hne) as [[? _]|[_ E]]; [congruence|]. rewrite <- Hd in E.
    assert (Hne' : p ++ q <> []) by by destruct p.
    pose proof (valid_inv _ Hne' Hv) as Hv'. pose proof (valid_rune_ok _ Hne' Hv) as Hok.
    rewrite decode_rune_app in Hv', Hok by done. rewrite <- Hd, drop_app_le in Hv' by lia.
    rewrite E, <- drop_drop. destruct (IH Hv') as [IH1 IH2]. split; [|done].
    rewrite <- take_take_drop.
    destruct (decode_rune p) as [c k] eqn:Ek. cbn [fst snd] in *. subst k.
    assert (Hlen : length (take n p) = n) by (rewrite length_take; lia).
    assert (Hnt : take n p <> []) by (intros H; rewrite H in Hlen; simpl in Hlen; lia).
    eapply valid_step; [by destruct (take n p)| |exact Hok|].
    + eapply (decode_rune_prefix _ (drop (plen (drop n p)) (drop n p))); [| |by destruct (take n p)].
      * by rewrite <- app_assoc, take_drop, take_drop.
      * rewrite length_app. lia.
    + rewrite drop_app_le, drop_ge by lia. done.
Qed.

(** The retained bytes of a well-formed stream that has ended are none. *)
Lemma plen_valid_all p : valid p -> plen p = length p.
Proof.
  intros Hv. pose proof (plen_valid p []) as H. rewrite !app_nil_r in H.
  destruct (H Hv) as [_ Hr]. destruct (drop (plen p) p) as [|b r] eqn:E.
  - apply (f_equal length) in E. rewrite length_drop in E. simpl in E.
    destruct (plen_bound p). lia.
  - pose proof (plen_rest p) as Hp. rewrite E in Hp.
    assert (Hf : full_rune (b :: r) = true) by by apply valid_full.
    destruct (plen_step (b :: r)) as [[? _]|[_ E']]; [done|congruence|].
    pose proof (decode_size (b :: r) ltac:(done)). lia.
Qed.

(** ** The stream of deltas *)

Lemma take_runes_eq p : take_runes p = (take (plen p) p, drop (plen p) p).
Proof.
  unfold take_runes. change (prefix_len (length p) p) with (plen p).
  destruct (plen p =? 0)%nat eqn:E; boolprop; [|done]. by rewrite E, drop_0.
Qed.

(** Pushing chunks through the buffer: the texts emitted, and the bytes retained. *)
Fixpoint feed (pending : bytes) (chunks : list bytes) : list bytes * bytes :=
  match chunks with
  | [] => ([], pending)
  | c :: cs =>
      let '(d, pending) := take_runes (pending ++ c) in
      let '(ds, pending) := feed pending cs in
      (d :: ds, pending)
  end.

Lemma feed_lossless pending chunks :
  concat (fst (feed pending chunks)) ++ snd (feed pending chunks) = pending ++ concat chunks.
Proof.
  revert pending. induction chunks as [|c cs IH]; intros pending; cbn [feed].
  { simpl. by rewrite app_nil_r. }
  rewrite take_runes_eq. set (p := pending ++ c). specialize (IH (drop (plen p) p)).
  destruct (feed (drop (plen p) p) cs) as [ds r]. cbn [fst snd concat] in *.
  rewrite <- app_assoc, IH, app_assoc, take_drop. subst p. by rewrite <- app_assoc.
Qed.

(** The chunking does not matter: what has been emitted is what one pass would emit. *)
Lemma feed_plen pending chunks :
  plen pending = 0%nat ->
  concat (fst (feed pending chunks)) =
    take (plen (pending ++ concat chunks)) (pending ++ concat chunks) /\
  plen (snd (feed pending chunks)) = 0%nat.
Proof.
  revert pending. induction chunks as [|c cs IH]; intros pending Hp; cbn [feed].
  { simpl. by rewrite app_nil_r, Hp. }
  rewrite take_runes_eq. set (p := pending ++ c).
  specialize (IH (drop (plen p) p) (plen_rest p)).
  destruct (feed (drop (plen p) p) cs) as [ds r]. cbn [fst snd concat] in *.
  destruct IH as [IH1 IH2]. split; [|done]. rewrite IH1.
  rewrite (app_assoc pending c (concat cs)). fold p. rewrite (plen_app p (concat cs)).
  destruct (plen_bound p) as [Hb _].
  by rewrite <- take_take_drop, (take_app_le p), (drop_app_le p) by done.
Qed.

(** On a well-formed stream every delta is well-formed. *)
Lemma feed_valid pending chunks :
  valid (pending ++ concat chunks) ->
  Forall valid (fst (feed pending chunks)) /\ valid (snd (feed pending chunks)).
Proof.
  revert pending. induction chunks as [|c cs IH]; intros pending Hv; cbn [feed].
  { simpl in *. rewrite app_nil_r in Hv. by split. }
  rewrite take_runes_eq. set (p := pending ++ c).
  cbn [concat] in Hv. rewrite app_assoc in Hv. fold p in Hv.
  apply plen_valid in Hv as [Hd Hr]. specialize (IH _ Hr).
  destruct (feed (drop (plen p) p) cs) as [ds r]. cbn [fst snd] in *.
  destruct IH. split; [by constructor|done].
Qed.

(** At most three bytes are ever held back. *)
Lemma feed_bound pending chunks :
  (length pending <= 3)%nat -> (length (snd (feed pending chunks)) <= 3)%nat.
Proof.
  revert pending. induction chunks as [|c cs IH]; intros pending Hp; cbn [feed]; [done|].
  rewrite take_runes_eq. set (p := pending ++ c).
  specialize (IH (drop (plen p) p)). destruct (feed (drop (plen p) p) cs) as [ds r].
  cbn [snd] in *. apply IH. rewrite length_drop. by destruct (plen_bound p).
Qed.
