(* ===== verification/JsonRoundtrip.v ===== *)
(** * Reading back what [json.Marshal] writes

    The encoders of [Json] produce documents that its parser reads back: strings (with
    ill-formed UTF-8 replaced, as [encoding/json] does), integers, arrays and objects.
    [reads d s v] says that the text [s] is a value [v] nesting at most [d] deep, wherever
    in a document it stands. *)

From S2P Require Import Prelude Utf8 GoStrings RuneBuffer Json.
Local Open Scope go_scope.

(** ** Strings *)

(** A string with its ill-formed bytes replaced by U+FFFD. *)
Fixpoint sanitize (fuel : nat) (s : bytes) : bytes :=
  match fuel with
  | O => []
  | S f =>
      match s with
      | [] => []
      | _ => let '(c, n) := decode_rune s in encode_rune c ++ sanitize f (drop n s)
      end
  end.

Definition to_valid (s : bytes) : bytes := sanitize (length s) s.

Lemma valid_ascii s : forallb (fun b => (bz b <? RuneSelf)%Z) s = true -> valid s.
Proof.
  induction s as [|b s IH]; cbn; [constructor|]. intros [Hb Hs]%andb_true_iff. apply Z.ltb_lt in Hb.
  apply (valid_step (b :: s) (bz b) 1); [done|by apply decode_ascii| |].
  - left. unfold RuneSelf, RuneError in *. lia.
  - cbn [drop]. rewrite drop_0. by apply IH.
Qed.

Lemma to_valid_id s : valid s -> to_valid s = s.
Proof.
  intros Hv. unfold to_valid. assert (forall f, (length s <= f)%nat -> sanitize f s = s) as H; [|by apply H].
  induction Hv as [|p c n Hne Hd Hok Hv IH]; intros f Hf; [by destruct f|].
  destruct f as [|f]; [destruct p; simpl in *; [done|lia]|]. cbn [sanitize].
  pose proof (decode_size p Hne) as Hs. rewrite Hd in *. cbn [snd] in Hs.
  destruct p as [|b p]; [done|]. rewrite IH by (rewrite length_drop; simpl in *; lia).
  rewrite (encode_decode (b :: p) c n) by done. apply take_drop.
Qed.

(** A unit of quoted text: [u] stands for [m]. *)
Definition quotes (u m : bytes) : Prop :=
  (forall r, scan_str (u ++ r) = (fun p => (u ++ p.1, p.2)) <$> scan_str r) /\
  (forall f r, unquote (S f) (u ++ r) = m ++ unquote f r) /\ u <> [].

Lemma getu4_other b r : b <> x5c -> getu4 (b :: r) = None.
Proof. by destruct b. Qed.

Lemma scan_str_byte b r :
  (0x20 <= bz b)%Z -> b <> x22 -> b <> x5c ->
  scan_str (b :: r) = (fun p => (b :: p.1, p.2)) <$> scan_str r.
Proof.
  intros Hb H1 H2. assert (scan_str (b :: r) = if (bz b <? 0x20)%Z then None
    else match scan_str r with Some (raw, rest) => Some (b :: raw, rest) | None => None end) as ->
    by by destruct b.
  rewrite (proj2 (Z.ltb_ge _ _)) by done. by destruct (scan_str r) as [[]|].
Qed.

Lemma unquote_byte f b r :
  b <> x5c -> unquote (S f) (b :: r) =
  if (bz b <? RuneSelf)%Z then b :: unquote f r
  else let '(rr, n) := decode_rune (b :: r) in encode_rune rr ++ unquote f (drop n (b :: r)).
Proof. intros Hb. cbn [unquote]. rewrite getu4_other by done. by destruct b. Qed.

Lemma encode_ascii b : (bz b < RuneSelf)%Z -> encode_rune (bz b) = [b].
Proof.
  intros Hb. rewrite (encode_decode [b] (bz b) 1); [done|done|by apply decode_ascii|].
  left. unfold RuneSelf, RuneError in *. lia.
Qed.

Lemma html_safe_spec b : html_safe b = true -> (0x20 <= bz b)%Z /\ b <> x22 /\ b <> x5c.
Proof.
  unfold html_safe. intros H. boolprop. split; [done|]. split; intros ->; set_solver.
Qed.

Lemma quotes_safe b : html_safe b = true -> (bz b < RuneSelf)%Z -> quotes [b] (encode_rune (bz b)).
Proof.
  intros Hs Ha. apply html_safe_spec in Hs as (H1 & H2 & H3). rewrite encode_ascii by done.
  split_and!; [|intros f r|done].
  - intros r. by apply scan_str_byte.
  - cbn [app]. rewrite unquote_byte by done. by rewrite (proj2 (Z.ltb_lt _ _)).
Qed.

(** An escape of four hexadecimal digits. *)
Lemma quotes_u a b c d z :
  hex4 a b c d = Some z -> is_surrogate z = false -> quotes [x5c; x75; a; b; c; d] (encode_rune z).
Proof.
  intros Hh Hs. split_and!; [|intros f r|done].
  - intros r. cbn [app scan_str]. rewrite Hh. by destruct (scan_str r) as [[]|].
  - cbn [app unquote getu4]. rewrite Hh. cbn [fmap option_fmap option_map]. by rewrite Hs.
Qed.

(** An escape of one character. *)
Lemma quotes_escape e b : escape_val e = Some b -> (bz b < RuneSelf)%Z -> quotes [x5c; e] (encode_rune (bz b)).
Proof.
  intros He Hb. rewrite encode_ascii by done. split_and!; [|intros f r|done].
  - intros r. cbn [app]. assert (scan_str (x5c :: e :: r) =
      match scan_str r with Some (raw, rest) => Some (x5c :: e :: raw, rest) | None => None end) as ->
      by by destruct e.
    by destruct (scan_str r) as [[]|].
  - cbn [app unquote]. assert (getu4 (x5c :: e :: r) = None) as -> by by destruct e.
    by rewrite He.
Qed.

(** What [escape_ascii] writes for every byte that is not written as it is. *)
Definition escape_ok (b : byte) : bool :=
  html_safe b || negb (bz b <? RuneSelf)%Z ||
  match escape_ascii b with
  | [c; e] => bool_decide (c = x5c) && bool_decide (escape_val e = Some b)
  | [c; e; a1; a2; a3; a4] =>
      bool_decide (c = x5c) && bool_decide (e = x75) && bool_decide (hex4 a1 a2 a3 a4 = Some (bz b))
  | _ => false
  end.

Lemma escape_table : forallb escape_ok all_bytes = true.
Proof. vm_compute. reflexivity. Qed.

Lemma quotes_ascii b :
  (bz b < RuneSelf)%Z -> quotes (if html_safe b then [b] else escape_ascii b) (encode_rune (bz b)).
Proof.
  intros Hb. destruct (html_safe b) eqn:Es; [by apply quotes_safe|].
  pose proof (byte_forall escape_ok escape_table b) as H. unfold escape_ok in H. rewrite Es in H.
  rewrite (proj2 (Z.ltb_lt _ _)) in H by done. cbn [orb negb] in H.
  destruct (escape_ascii b) as [|b1 [|e [|a1 [|a2 [|a3 [|a4 [|]]]]]]]; try done; boolprop; subst.
  - by apply quotes_escape.
  - apply quotes_u; [done|].
    unfold is_surrogate. rewrite (proj2 (Z.leb_gt _ _)); [done|]. unfold RuneSelf in Hb. lia.
Qed.

Lemma quotes_high p c n :
  p <> [] -> Forall (fun x => RuneSelf <= bz x)%Z (take n p) -> decode_rune p = (c, n) ->
  (c <> RuneError \/ n <> 1%nat) -> quotes (take n p) (encode_rune c).
Proof.
  intros Hne Hh Hd Hok. pose proof (decode_size p Hne) as Hs. rewrite Hd in Hs. cbn [snd] in Hs.
  set (u := take n p) in *.
  assert (Hlen : length u = n) by (subst u; rewrite length_take; lia).
  assert (Hu : u <> []) by (intros E; rewrite E in Hlen; simpl in Hlen; lia).
  assert (Hdu : decode_rune u = (c, n)).
  { apply (decode_rune_prefix u (drop n p)); [by subst u; rewrite take_drop|lia|done]. }
  assert (Hv : valid u).
  { apply (valid_step u c n); [done..|]. rewrite drop_ge by lia. constructor. }
  split_and!; [intros r|intros f r|done].
  - clear - Hh. induction Hh as [|b l Hb _ IH]; [cbn [app]; by destruct (scan_str r) as [[]|]|].
    assert ((0x20 <= bz b)%Z /\ b <> x22 /\ b <> x5c) as (H1 & H2 & H3).
    { unfold RuneSelf in Hb. split; [lia|]. split; intros ->; vm_compute in Hb; congruence. }
    cbn [app]. rewrite scan_str_byte by done.
    rewrite IH. by destruct (scan_str r) as [[]|].
  - destruct u as [|b u'] eqn:Eu; [done|]. apply Forall_cons in Hh as [Hb _]. cbn [app].
    rewrite unquote_byte by (intros ->; by apply Hb).
    rewrite (proj2 (Z.ltb_ge _ _)) by done. rewrite app_comm_cons, decode_rune_app by by apply valid_full.
    rewrite Hdu, <- Hlen, drop_app_length. done.
Qed.

(** Every step of [quote_body] writes one unit. *)
Lemma quote_body_step f b r :
  exists u, quote_body (S f) (b :: r) = u ++ quote_body f (drop (snd (decode_rune (b :: r))) (b :: r)) /\
    quotes u (encode_rune (fst (decode_rune (b :: r)))).
Proof.
  cbn [quote_body]. destruct (bz b <? RuneSelf)%Z eqn:Eb; boolprop.
  - rewrite decode_ascii by done. cbn [fst snd drop]. rewrite drop_0. eexists. split; [done|].
    by apply quotes_ascii.
  - destruct (decode_rune (b :: r)) as [c n] eqn:Ed. cbn [fst snd]. eexists. split; [done|].
    destruct ((c =? RuneError)%Z && (n =? 1)%nat) eqn:E1.
    { boolprop. subst c. assert (go "\\ufffd" = [x5c; x75; x66; x66; x66; x64]) as -> by (vm_compute; reflexivity).
      apply quotes_u; vm_compute; reflexivity. }
    apply andb_false_iff in E1. rewrite Z.eqb_neq, Nat.eqb_neq in E1.
    destruct ((c =? 0x2028)%Z || (c =? 0x2029)%Z) eqn:E2.
    { apply orb_true_iff in E2. rewrite !Z.eqb_eq in E2.
      assert (go "\\u202" = [x5c; x75; x32; x30; x32]) as -> by (vm_compute; reflexivity).
      destruct E2 as [-> | ->]; apply quotes_u; vm_compute; reflexivity. }
    apply quotes_high; [done| |done|tauto]. eapply decode_rune_high; [done..|tauto].
Qed.

Lemma quote_body_scan f s rest :
  (length s <= f)%nat -> scan_str (quote_body f s ++ x22 :: rest) = Some (quote_body f s, rest).
Proof.
  revert s. induction f as [|f IH]; intros s Hf; [done|]. destruct s as [|b r]; [done|].
  destruct (quote_body_step f b r) as (u & -> & Hsc & _ & _).
  pose proof (decode_size (b :: r) ltac:(done)) as Hs.
  rewrite <- app_assoc, Hsc, IH; [done|]. rewrite length_drop. simpl in *. lia.
Qed.

Lemma quote_body_unquote f s g :
  (length s <= f)%nat -> (length (quote_body f s) <= g)%nat -> unquote g (quote_body f s) = sanitize f s.
Proof.
  revert s g. induction f as [|f IH]; intros s g Hf Hg; [by destruct g|].
  destruct s as [|b r]; [by destruct g|].
  pose proof (decode_size (b :: r) ltac:(done)) as Hs. cbn [sanitize].
  destruct (quote_body_step f b r) as (u & Hq & _ & Hun & Hu). rewrite Hq in *.
  destruct (decode_rune (b :: r)) as [c n]. cbn [fst snd] in *.
  assert (1 <= length u)%nat by (destruct u; [done|simpl; lia]).
  rewrite length_app in Hg. destruct g as [|g]; [lia|]. rewrite Hun, IH; [done| |lia].
  rewrite length_drop. simpl in *. lia.
Qed.

Definition quoted (s : bytes) : bytes := quote_body (length s) s.

Lemma enc_string_app s rest : enc_string s ++ rest = x22 :: quoted s ++ x22 :: rest.
Proof. unfold enc_string, quoted. cbn [app]. by rewrite <- app_assoc. Qed.

Lemma quoted_scan s rest : scan_str (quoted s ++ x22 :: rest) = Some (quoted s, rest).
Proof. by apply quote_body_scan. Qed.

Lemma quoted_unquote s : unquote (length (quoted s)) (quoted s) = to_valid s.
Proof. by apply quote_body_unquote. Qed.

(** ** Integers *)
Lemma digits_spec f z acc :
  (0 <= z < 10 ^ Z.of_nat f)%Z -> (0 < f)%nat ->
  exists b D, digits f z acc = b :: D ++ acc /\ Forall (fun b => is_digit b = true) (b :: D) /\
    (forall a, dec_value a (b :: D) = Some (a * 10 ^ len (b :: D) + z)%Z) /\
    (b = x30 -> D = [] /\ z = 0%Z).
Proof.
  revert z acc. induction f as [|f IH]; intros z acc Hz Hf; [lia|]. cbn [digits].
  pose proof (Z.mod_pos_bound z 10 ltac:(lia)) as Hm. set (d := byte_of_Z (48 + z mod 10)).
  assert (Hd : bz d = (48 + z mod 10)%Z) by (apply bz_byte_of_Z; lia).
  assert (Hdig : is_digit d = true).
  { unfold is_digit. rewrite Hd, (proj2 (Z.leb_le _ _)), (proj2 (Z.leb_le _ _)) by lia. done. }
  destruct (Z.ltb_spec z 10) as [Hlt|Hge].
  - exists d, []. rewrite Z.mod_small in Hd by lia. split_and!; [done|by constructor| |].
    + intros a. cbn [dec_value]. rewrite Hdig, Hd. f_equal. unfold len. cbn [length]. lia.
    + intros E. rewrite E in Hd. vm_compute (bz x30) in Hd. split; [done|lia].
  - assert (0 <= z / 10 < 10 ^ Z.of_nat f)%Z as Hz'.
    { split; [apply Z.div_pos; lia|]. apply Z.div_lt_upper_bound; [lia|].
      rewrite Nat2Z.inj_succ, Z.pow_succ_r in Hz by lia. lia. }
    assert (0 < f)%nat by (destruct f; [simpl in Hz'; lia|lia]).
    destruct (IH (z / 10)%Z (d :: acc) Hz' ltac:(lia)) as (b & D & E & Hall & Hv & H0).
    exists b, (D ++ [d]). split_and!.
    + by rewrite E, <- app_assoc.
    + apply Forall_cons in Hall as [Hb HD]. constructor; [done|]. apply Forall_app. by repeat constructor.
    + intros a. specialize (Hv a). rewrite app_comm_cons.
      assert (forall l a v, dec_value a l = Some v -> dec_value a (l ++ [d]) = Some (v * 10 + (bz d - 48))%Z) as Hsnoc.
      { clear - Hdig. induction l as [|x l IHl]; intros a v; cbn [app dec_value].
        - intros [= ->]. by rewrite Hdig.
        - destruct (is_digit x); [apply IHl|done]. }
      rewrite (Hsnoc _ _ _ Hv), Hd. f_equal. unfold len. rewrite length_app, Nat2Z.inj_add. cbn [length].
      rewrite Z.pow_add_r by lia. pose proof (Z.div_mod z 10 ltac:(lia)). change (10 ^ Z.of_nat 1)%Z with 10%Z. lia.
    + intros Hb. destruct (H0 Hb) as [_ Hz0]. exfalso. assert (z / 10 >= 1)%Z; [|lia].
      apply Z.le_ge, Z.div_le_lower_bound; lia.
Qed.

Lemma span_digits_app D rest :
  Forall (fun b => is_digit b = true) D ->
  (forall b r, rest = b :: r -> is_digit b = false) -> span_digits (D ++ rest) = (D, rest).
Proof.
  intros HD Hr. induction HD as [|b D Hb _ IH]; cbn [app span_digits].
  - destruct rest as [|b r]; [done|]. cbn [span_digits]. by rewrite (Hr b r eq_refl).
  - by rewrite Hb, IH.
Qed.

(** What may follow a value inside a document. *)
Definition stops (rest : bytes) : Prop :=
  rest = [] \/ exists b r, rest = b :: r /\ b ∈ [x2c; x5d; x7d].

Lemma stops_num rest : stops rest ->
  (forall b r, rest = b :: r -> is_digit b = false) /\
  scan_frac rest = Some ([], rest) /\ scan_exp rest = Some ([], rest).
Proof.
  intros [->|(b & r & -> & Hb)]; [done|]. apply list_elem_of_In in Hb.
  repeat destruct Hb as [<-|Hb]; [split_and!; [by intros ? ? [= <- <-]|done..]..|done].
Qed.

(** The digits of a number that is not negative: no zero in front but for 0 itself. *)
Lemma itoa_digits z :
  (0 <= z)%Z -> exists b D, digits (S (Z.to_nat (Z.log2 z))) z [] = b :: D /\
    Forall (fun b => is_digit b = true) (b :: D) /\ dec_value 0 (b :: D) = Some z /\ (b = x30 -> D = []).
Proof.
  intros Hz. destruct (digits_spec (S (Z.to_nat (Z.log2 z))) z []) as (b & D & E & Hall & Hv & H0); [|lia|].
  - split; [done|]. destruct (decide (z = 0)%Z) as [->|]; [done|].
    pose proof (Z.log2_spec z ltac:(lia)) as [_ Hl]. pose proof (Z.log2_nonneg z).
    rewrite Nat2Z.inj_succ, Z2Nat.id by lia. eapply Z.lt_le_trans; [exact Hl|].
    apply Z.pow_le_mono_l. lia.
  - rewrite app_nil_r in E. exists b, D. split_and!; [done|done|by rewrite Hv|]. intros Hb. by destruct (H0 Hb).
Qed.

Lemma itoa_scan z rest :
  in_int 64 z -> stops rest -> scan_num (itoa z ++ rest) = Some (itoa z, rest) /\ parse_int (itoa z) = Some z.
Proof.
  intros Hz Hs. destruct (stops_num rest Hs) as (Hd & Hf & He).
  assert (Habs : forall z, (0 <= z)%Z -> exists b D, digits (S (Z.to_nat (Z.log2 z))) z [] = b :: D /\
    Forall (fun b => is_digit b = true) (b :: D) /\
    dec_value 0 (b :: D) = Some z /\ scan_int (b :: D ++ rest) = Some (b :: D, rest)).
  { intros y Hy. destruct (itoa_digits y Hy) as (b & D & E & Hall & Hv & H0). exists b, D.
    split_and!; [done|done|done|]. destruct (decide (b = x30)) as [->|Hb]; [by rewrite (H0 eq_refl)|].
    assert (scan_int (b :: D ++ rest) = digits1 (b :: D ++ rest)) as -> by by destruct b.
    unfold digits1. rewrite app_comm_cons, span_digits_app by done. done. }
  unfold itoa. destruct (Z.ltb_spec z 0) as [Hneg|Hpos].
  - destruct (Habs (- z)%Z ltac:(lia)) as (b & D & -> & Hall & Hv & Hsc).
    cbn [app]. unfold scan_num. rewrite Hsc. cbn. rewrite Hf. cbn. rewrite He. cbn. rewrite !app_nil_r.
    split; [done|].
    change (parse_int (x2d :: b :: D)) with
      (z ← Z.opp <$> dec_value 0 (b :: D); if decide (in_int 64 z) then Some z else None).
    cbn [dec_value] in Hv. rewrite Hv. cbn. rewrite Z.opp_involutive. by rewrite decide_True.
  - destruct (Habs z Hpos) as (b & D & -> & Hall & Hv & Hsc).
    assert (b <> x2d) as Hb by (apply Forall_cons in Hall as [Hb _]; by intros ->).
    split.
    + assert (scan_num ((b :: D) ++ rest) = '(i, s) ← scan_int (b :: D ++ rest); '(f, s) ← scan_frac s;
        '(e, s) ← scan_exp s; Some ([] ++ i ++ f ++ e, s)) as -> by by destruct b.
      rewrite Hsc. cbn. rewrite Hf. cbn. rewrite He. cbn. by rewrite !app_nil_r.
    + assert (parse_int (b :: D) = z ← dec_value 0 (b :: D); if decide (in_int 64 z) then Some z else None) as ->
        by (by destruct b, D).
      rewrite Hv. cbn. by rewrite decide_True.
Qed.

(** ** Values *)
Definition starts (s : bytes) : Prop :=
  exists b r, s = b :: r /\ is_ws b = false /\ b <> x5d /\ b <> x7d.

Definition reads (d : Z) (s : bytes) (v : json) : Prop :=
  starts s /\
  forall fuel depth rest, (2 * length s <= fuel)%nat -> (d <= depth)%Z -> stops rest ->
    pvalue fuel depth (s ++ rest) = Some (v, rest).

Lemma reads_mono d d' s v : (d <= d')%Z -> reads d s v -> reads d' s v.
Proof. intros Hd [Hs H]. split; [done|]. intros. apply H; [done|lia|done]. Qed.

Lemma reads_length d s v : reads d s v -> (1 <= length s)%nat.
Proof. intros [(b & r & -> & _) _]. simpl. lia. Qed.

Lemma reads_string s : reads 0 (enc_string s) (JStr (to_valid s)).
Proof.
  split; [by exists x22, (quoted s ++ [x22])|]. intros fuel depth rest Hf _ _.
  destruct fuel as [|f]; [simpl in Hf; lia|]. rewrite enc_string_app. cbn [pvalue].
  rewrite quoted_scan. cbn. by rewrite quoted_unquote.
Qed.

Lemma reads_null : reads 0 (go "null") JNull.
Proof.
  assert (go "null" = [x6e; x75; x6c; x6c]) as -> by (vm_compute; reflexivity).
  split; [by eexists _, _|]. intros fuel depth rest Hf _ _. destruct fuel as [|f]; [simpl in Hf; lia|].
  cbn [app pvalue]. unfold scan_word.
  assert (go "null" = [x6e; x75; x6c; x6c]) as -> by (vm_compute; reflexivity). done.
Qed.

Lemma itoa_starts z : exists b r, itoa z = b :: r /\ (is_digit b = true \/ b = x2d).
Proof.
  unfold itoa. destruct (Z.ltb_spec z 0); [by eexists _, _; split; [|right]|].
  destruct (digits_spec (S (Z.to_nat (Z.log2 z))) z []) as (b & D & -> & Hall & _); [|lia|].
  - split; [done|]. destruct (decide (z = 0)%Z) as [->|]; [done|].
    pose proof (Z.log2_spec z ltac:(lia)) as [_ Hl]. pose proof (Z.log2_nonneg z).
    rewrite Nat2Z.inj_succ, Z2Nat.id by lia. eapply Z.lt_le_trans; [exact Hl|].
    apply Z.pow_le_mono_l. lia.
  - apply Forall_cons in Hall as [Hb _]. eexists _, _. split; [done|]. by left.
Qed.

Lemma reads_itoa z : in_int 64 z -> reads 0 (itoa z) (JNum (itoa z)) /\ parse_int (itoa z) = Some z.
Proof.
  intros Hz. destruct (itoa_starts z) as (b & r & E & Hb). split.
  - split.
    { exists b, r. split; [done|]. clear - Hb. destruct Hb as [Hb | ->]; [by destruct b|done]. }
    intros fuel depth rest Hf _ Hs. destruct (itoa_scan z rest Hz Hs) as [Hsc _].
    destruct fuel as [|f]; [rewrite E in Hf; simpl in Hf; lia|].
    rewrite E in *. assert (pvalue (S f) depth ((b :: r) ++ rest) =
      '(lit, r') ← scan_num ((b :: r) ++ rest); Some (JNum lit, r')) as ->.
    { clear - Hb. destruct Hb as [Hb | ->]; [by destruct b|done]. }
    by rewrite Hsc.
  - by apply (itoa_scan z []); [|left].
Qed.

Lemma reads_int z : in_int 64 z -> exists lit, reads 0 (itoa z) (JNum lit) /\ parse_int lit = Some z.
Proof. intros Hz. exists (itoa z). by apply reads_itoa. Qed.

Lemma stops_sep b r : b ∈ [x2c; x5d; x7d] -> stops (b :: r).
Proof. intros H. right. by exists b, r. Qed.

Lemma skip_ws_starts s rest : starts s -> skip_ws (s ++ rest) = s ++ rest.
Proof. intros (b & r & -> & Hb & _). cbn [app skip_ws]. by rewrite Hb. Qed.

Lemma consumed_app s rest : consumed (s ++ rest) rest = s.
Proof.
  unfold consumed. rewrite length_app.
  replace (length s + length rest - length rest)%nat with (length s) by lia. by rewrite take_app_length.
Qed.

(** *** Arrays *)
Lemma join_cons sep l ls : ls <> [] -> join sep (l :: ls) = l ++ sep ++ join sep ls.
Proof. by destruct ls. Qed.

Lemma join_starts sep l ls : starts l -> starts (join sep (l :: ls)).
Proof.
  intros (b & r & -> & H). destruct ls as [|l' ls]; [by exists b, r|].
  exists b, (r ++ sep ++ join sep (l' :: ls)). by split.
Qed.

Lemma pelems_ok d es vs fuel depth rest :
  Forall2 (reads d) es vs -> es <> [] -> (1 + 2 * length (join [x2c] es) <= fuel)%nat -> (d <= depth)%Z ->
  pelems fuel depth (join [x2c] es ++ x5d :: rest) = Some (zip es vs, rest).
Proof.
  intros H. revert fuel. induction H as [|e v es vs Hev Hrest IH]; intros fuel Hne Hf Hd; [done|].
  destruct fuel as [|f]; [lia|]. destruct Hev as [Hst Hev].
  destruct es as [|e' es].
  - apply Forall2_nil_inv_l in Hrest as ->. cbn [join] in *. cbn [pelems].
    rewrite Hev; [|lia|done|apply stops_sep; set_solver]. cbn. by rewrite consumed_app.
  - rewrite join_cons in * by done. rewrite !length_app in Hf. cbn [length] in Hf. cbn [pelems].
    rewrite <- !app_assoc, Hev; [|lia|done|apply stops_sep; set_solver]. cbn [mbind option_bind app].
    rewrite consumed_app. cbn [skip_ws is_ws]. destruct vs as [|v' vs]; [by inversion Hrest|].
    rewrite skip_ws_starts by (inversion Hrest as [|? ? ? ? [Hs _] _]; subst; by apply join_starts).
    rewrite IH; [done|done|lia|done].
Qed.

Lemma reads_arr d es vs :
  (0 <= d)%Z -> Forall2 (reads d) es vs -> reads (d + 1) (enc_arr es) (JArr (zip es vs)).
Proof.
  intros Hd0 H. split; [by exists x5b, (join [x2c] es ++ [x5d])|]. intros fuel depth rest Hf Hd _.
  unfold enc_arr in *. cbn [length app] in *. rewrite length_app in Hf. cbn [length] in Hf.
  destruct fuel as [|f]; [lia|]. rewrite <- app_assoc. cbn [app pvalue].
  rewrite (proj2 (Z.leb_gt _ _)) by lia.
  destruct es as [|e es]; [apply Forall2_nil_inv_l in H as ->; done|].
  assert (starts (join [x2c] (e :: es))) as Hst.
  { inversion H as [|? ? ? ? [Hs _] _]; subst. by apply join_starts. }
  rewrite skip_ws_starts by done.
  pose proof (pelems_ok d (e :: es) vs f (depth - 1) rest H ltac:(done) ltac:(lia) ltac:(lia)) as Hp.
  destruct Hst as (b & r & E & _ & Hb & _). rewrite E in *. cbn [app] in *.
  destruct b; try done; by rewrite Hp.
Qed.

(** *** Objects *)
Definition member_text (f : string * bytes) : bytes := enc_string (go f.1) ++ x3a :: f.2.

Definition members (fs : list (string * bytes)) (vs : list json) : list (bytes * (bytes * json)) :=
  zip_with (fun f v => (to_valid (go f.1), (f.2, v))) fs vs.

Lemma enc_obj_members fs : enc_obj fs = x7b :: join [x2c] (member_text <$> fs) ++ [x7d].
Proof.
  unfold enc_obj. do 3 f_equal. apply list_fmap_ext. intros i [k v] _. done.
Qed.

Lemma member_starts f : starts (member_text f).
Proof. unfold member_text. rewrite enc_string_app. by eexists _, _. Qed.

Lemma pmembers_ok d fs vs fuel depth rest :
  Forall2 (fun f v => reads d f.2 v) fs vs -> fs <> [] ->
  (1 + 2 * length (join [x2c] (member_text <$> fs)) <= fuel)%nat -> (d <= depth)%Z ->
  pmembers fuel depth (join [x2c] (member_text <$> fs) ++ x7d :: rest) = Some (members fs vs, rest).
Proof.
  intros H. revert fuel. induction H as [|f v fs vs Hev Hrest IH]; intros fuel Hne Hf Hd; [done|].
  destruct fuel as [|n]; [lia|]. destruct Hev as [Hst Hev].
  assert (Hone : forall tail, stops tail -> (2 * length (member_text f) <= n)%nat ->
    pmembers (S n) depth (member_text f ++ tail) =
    let e := (to_valid (go f.1), (f.2, v)) in
    match skip_ws tail with
    | x2c :: r' => '(l, r'') ← pmembers n depth (skip_ws r'); Some (e :: l, r'')
    | x7d :: r' => Some ([e], r')
    | _ => None
    end).
  { intros tail Ht Hn. unfold member_text in *. rewrite length_app in Hn. cbn [length] in Hn.
    rewrite <- app_assoc. cbn [app]. rewrite enc_string_app. cbn [pmembers].
    rewrite quoted_scan. cbn [mbind option_bind skip_ws is_ws].
    rewrite skip_ws_starts by done. rewrite Hev by (done || lia). cbn [mbind option_bind].
    by rewrite consumed_app, quoted_unquote. }
  destruct fs as [|f' fs].
  - apply Forall2_nil_inv_l in Hrest as ->. cbn [fmap list_fmap join] in *.
    rewrite Hone; [done|apply stops_sep; set_solver|lia].
  - rewrite !fmap_cons in *. rewrite join_cons in * by done. rewrite !length_app in Hf. cbn [length] in Hf.
    rewrite <- !app_assoc, Hone; [|apply stops_sep; set_solver|lia].
    cbn [app skip_ws is_ws]. cbv zeta. destruct vs as [|v' vs]; [by inversion Hrest|].
    rewrite skip_ws_starts by apply join_starts, member_starts.
    rewrite IH; [done|done|lia|done].
Qed.

Lemma reads_obj d fs vs :
  (0 <= d)%Z -> Forall2 (fun f v => reads d f.2 v) fs vs -> reads (d + 1) (enc_obj fs) (JObj (members fs vs)).
Proof.
  intros Hd0 H. rewrite enc_obj_members. split; [by eexists _, _|]. intros fuel depth rest Hf Hd _.
  cbn [length app] in *. rewrite length_app in Hf. cbn [length] in Hf.
  destruct fuel as [|f]; [lia|]. rewrite <- app_assoc. cbn [app pvalue].
  rewrite (proj2 (Z.leb_gt _ _)) by lia.
  destruct fs as [|e es]; [apply Forall2_nil_inv_l in H as ->; done|].
  assert (starts (join [x2c] (member_text <$> e :: es))) as Hst by apply join_starts, member_starts.
  rewrite skip_ws_starts by done.
  pose proof (pmembers_ok d (e :: es) vs f (depth - 1) rest H ltac:(done) ltac:(lia) ltac:(lia)) as Hp.
  destruct Hst as (b & r & E & _ & _ & Hb). rewrite E in *. cbn [app] in *.
  destruct b; try done; by rewrite Hp.
Qed.

(** A whole document. *)
Lemma reads_parse d s v : (d <= maxNestingDepth)%Z -> reads d s v -> parse_json s = Some v.
Proof.
  intros Hd [Hst H]. pose proof (skip_ws_starts s [] Hst) as Hw. rewrite app_nil_r in Hw.
  pose proof (H (2 * length s + 2)%nat maxNestingDepth [] ltac:(lia) Hd ltac:(by left)) as Hp.
  rewrite app_nil_r in Hp. unfold parse_json. by rewrite Hw, Hp.
Qed.
