(* ===== verification/Stream.v ===== *)
(** * Decoding the engine's ids: the [Stream] state machine

    Models [internal/chatml/stream.go]. A stream hides control tokens, buffers the ids
    between the tool markers and parses them at the closing one, and emits everything
    else as text, complete runes only. The specification says what the whole id list
    means: [visible] selects the ids that are text and [closes] the buffers that are
    parsed; neither mentions the byte buffer. *)

From S2P Require Import Prelude Utf8 GoStrings Json TokenizerCore Vocab Chatml RuneBuffer.
Local Open Scope go_scope.

Record Stream := {
  pending : bytes;
  inTool : bool;
  toolIDs : list Z;
  nTools : Z;
}.

Definition NewStream : Stream := {| pending := []; inTool := false; toolIDs := []; nTools := 0 |}.

(** What [parseTool] reads from the decoded text of a call; [None] when the code returns
    [nil]. *)
Definition parse_call (raw : bytes) : option (bytes * bytes) :=
  let dec l :=
    name ← last_field dec_string [] (fields (go "name") l);
    Some (name, raw_field (fields (go "arguments") l)) in
  match unmarshal (dec_struct dec) raw with
  | None => None
  | Some (name, arguments) =>
      if bool_decide (name = []) then None
      else Some (name, if (0 <? length arguments)%nat then arguments else go "{}")
  end.

Section push.
Context (m : Format).

Definition parseTool (s : Stream) : Stream * option ToolCall :=
  let raw := Decode (tok m) (toolIDs s) in
  match parse_call raw with
  | None => (s, None)
  | Some (name, args) =>
      ({| pending := pending s; inTool := inTool s; toolIDs := toolIDs s; nTools := nTools s + 1 |},
       Some {| tc_ID := go "call_" ++ itoa (nTools s); tc_Name := name; tc_ArgumentsJSON := args |})
  end.

(** [s.takeRunes()] *)
Definition takeRunes (s : Stream) : Stream * bytes :=
  let '(out, rest) := take_runes (pending s) in
  ({| pending := rest; inTool := inTool s; toolIDs := toolIDs s; nTools := nTools s |}, out).

Definition Push (s : Stream) (id : Z) : Stream * bytes * option ToolCall :=
  if (id =? toolOpen m)%Z then
    ({| pending := pending s; inTool := true; toolIDs := []; nTools := nTools s |}, [], None)
  else if (id =? toolClose m)%Z then
    let '(s, tc) :=
      parseTool {| pending := pending s; inTool := false; toolIDs := toolIDs s; nTools := nTools s |} in
    (s, [], tc)
  else if inTool s then
    ({| pending := pending s; inTool := true; toolIDs := toolIDs s ++ [id]; nTools := nTools s |},
     [], None)
  else if IsSpecial (tok m) id then (s, [], None)
  else
    let '(s, text) :=
      takeRunes {| pending := pending s ++ Decode (tok m) [id]; inTool := inTool s;
                   toolIDs := toolIDs s; nTools := nTools s |} in
    (s, text, None).

Definition Flush (s : Stream) : Stream * bytes :=
  if (length (pending s) =? 0)%nat then (s, [])
  else ({| pending := []; inTool := inTool s; toolIDs := toolIDs s; nTools := nTools s |},
        pending s).

(** Pushing a list of ids: the text and tool call of every push. *)
Fixpoint push_all (s : Stream) (ids : list Z) : Stream * list (bytes * option ToolCall) :=
  match ids with
  | [] => (s, [])
  | id :: ids =>
      let '(s, text, tc) := Push s id in
      let '(s, evs) := push_all s ids in
      (s, (text, tc) :: evs)
  end.

(** ** Specification *)

(** Is the id at this point text, given whether a call is open? *)
Definition is_text (open : bool) (id : Z) : bool :=
  negb (id =? toolOpen m)%Z && negb (id =? toolClose m)%Z && negb open
  && negb (IsSpecial (tok m) id).

Definition next_open (open : bool) (id : Z) : bool :=
  if (id =? toolOpen m)%Z then true else if (id =? toolClose m)%Z then false else open.

Fixpoint visible (open : bool) (ids : list Z) : list Z :=
  match ids with
  | [] => []
  | id :: ids =>
      (if is_text open id then [id] else []) ++ visible (next_open open id) ids
  end.

(** The buffer at every closing marker: the ids since the last opening one. *)
Fixpoint closes (open : bool) (buf : list Z) (ids : list Z) : list (list Z) :=
  match ids with
  | [] => []
  | id :: ids =>
      if (id =? toolOpen m)%Z then closes true [] ids
      else if (id =? toolClose m)%Z then buf :: closes false buf ids
      else closes open (if open then buf ++ [id] else buf) ids
  end.

(** Calls are numbered in the order in which they parse. *)
Fixpoint number_calls (n : Z) (calls : list (bytes * bytes)) : list ToolCall :=
  match calls with
  | [] => []
  | (name, args) :: calls =>
      {| tc_ID := go "call_" ++ itoa n; tc_Name := name; tc_ArgumentsJSON := args |}
      :: number_calls (n + 1) calls
  end.

Definition texts (evs : list (bytes * option ToolCall)) : list bytes := fst <$> evs.
Definition calls (evs : list (bytes * option ToolCall)) : list ToolCall := omap snd evs.

(** ** The texts are the chunks of the visible ids, fed through the rune buffer *)

(** [Push] never emits text and a call at once, and emits text only for a text id. *)
Lemma Push_spec s id :
  let '(s', text, tc) := Push s id in
  inTool s' = next_open (inTool s) id /\
  (if is_text (inTool s) id
   then (text, pending s') = take_runes (pending s ++ Decode (tok m) [id])
   else text = [] /\ pending s' = pending s) /\
  toolIDs s' = (if (id =? toolOpen m)%Z then [] else if (id =? toolClose m)%Z then toolIDs s
                else if inTool s then toolIDs s ++ [id] else toolIDs s) /\
  (if negb (id =? toolOpen m)%Z && (id =? toolClose m)%Z
   then match parse_call (Decode (tok m) (toolIDs s)) with
        | Some call => number_calls (nTools s) [call] = [default (Build_ToolCall [] [] []) tc] /\
                       is_Some tc /\ nTools s' = (nTools s + 1)%Z
        | None => tc = None /\ nTools s' = nTools s
        end
   else tc = None /\ nTools s' = nTools s).
Proof.
  unfold Push, is_text, next_open, parseTool, takeRunes. cbn [pending toolIDs inTool nTools].
  destruct (id =? toolOpen m)%Z; [done|].
  destruct (id =? toolClose m)%Z; simpl.
  - destruct (parse_call _) as [[name args]|]; simpl; split_and!; done || by eexists.
  - destruct (inTool s) eqn:Ei; simpl; [done|].
    destruct (IsSpecial (tok m) id); simpl; [done|].
    destruct (take_runes _) as [out rest]. done.
Qed.

(** The empty texts of the other pushes do not matter. *)
Definition chunks (open : bool) (ids : list Z) : list bytes :=
  (fun id => Decode (tok m) [id]) <$> visible open ids.

Lemma push_all_texts s ids :
  let '(s', evs) := push_all s ids in
  let '(ds, rest) := feed (pending s) (chunks (inTool s) ids) in
  filter (fun t => t <> []) (texts evs) = filter (fun t => t <> []) ds /\
  concat (texts evs) = concat ds /\ pending s' = rest.
Proof.
  revert s. induction ids as [|id ids IH]; intros s; cbn [push_all]; [done|].
  pose proof (Push_spec s id) as H. destruct (Push s id) as [[s1 text] tc].
  destruct H as (Hi & Ht & _ & _). specialize (IH s1).
  destruct (push_all s1 ids) as [s' evs]. unfold chunks in *. cbn [visible]. rewrite <- Hi.
  destruct (is_text (inTool s) id).
  - cbn [app fmap list_fmap feed]. rewrite <- Ht.
    destruct (feed (pending s1) _) as [ds rest]. destruct IH as (H1 & H2 & H3).
    cbn [texts fmap list_fmap fst concat]. unfold texts in *. rewrite H2.
    split_and!; [|done..]. rewrite !filter_cons. by case_decide; rewrite H1.
  - destruct Ht as [-> <-]. cbn [app].
    destruct (feed (pending s1) _) as [ds rest]. destruct IH as (H1 & H2 & H3).
    cbn [texts fmap list_fmap fst concat]. unfold texts in *. by rewrite filter_cons.
Qed.

Lemma concat_chunks open ids : concat (chunks open ids) = Decode (tok m) (visible open ids).
Proof.
  unfold chunks. induction (visible open ids) as [|id l IH]; [done|].
  cbn [fmap list_fmap concat]. rewrite IH. change (id :: l) with ([id] ++ l).
  by rewrite Decode_app.
Qed.

Lemma Flush_eq s : snd (Flush s) = pending s /\ pending (fst (Flush s)) = [].
Proof. unfold Flush. destruct (pending s) eqn:E; simpl; by rewrite ?E. Qed.

(** ** The calls are the parses of the buffers, numbered *)
Lemma push_all_calls s ids :
  calls (snd (push_all s ids)) =
    number_calls (nTools s)
      (omap (fun buf => parse_call (Decode (tok m) buf)) (closes (inTool s) (toolIDs s) ids)).
Proof.
  revert s. induction ids as [|id ids IH]; intros s; cbn [push_all closes]; [done|].
  pose proof (Push_spec s id) as H. destruct (Push s id) as [[s1 text] tc].
  destruct H as (Hi & _ & Hb & Hc). specialize (IH s1).
  destruct (push_all s1 ids) as [s' evs]. cbn [snd calls omap list_omap] in *.
  unfold next_open in Hi. unfold calls in *. rewrite Hi, Hb in IH.
  destruct (id =? toolOpen m)%Z; [destruct Hc as [-> Hn]; by rewrite Hn in IH|].
  destruct (id =? toolClose m)%Z; cbn [negb andb] in Hc.
  - cbn [omap list_omap]. destruct (parse_call _) as [[name args]|].
    + destruct Hc as (Hcall & [call ->] & Hn). cbn [number_calls default from_option] in *.
      injection Hcall as Hcall. rewrite Hn in IH. by rewrite IH, <- Hcall.
    + destruct Hc as [-> Hn]. by rewrite Hn in IH.
  - destruct Hc as [-> Hn]. rewrite Hn in IH. rewrite IH. by destruct (inTool s).
Qed.

End push.

(** ** Properties *)

Lemma push_all_decode m ids :
  let '(s', evs) := push_all m NewStream ids in
  let whole := Decode (tok m) (visible m false ids) in
  concat (texts evs) = take (plen whole) whole /\ pending s' = drop (plen whole) whole.
Proof.
  pose proof (push_all_texts m NewStream ids) as H.
  destruct (push_all m NewStream ids) as [s' evs]. cbn [NewStream pending inTool] in H.
  rewrite <- concat_chunks.
  destruct (feed_plen [] (chunks m false ids) eq_refl) as [Hp _].
  pose proof (feed_lossless [] (chunks m false ids)) as Hl.
  destruct (feed [] (chunks m false ids)) as [ds rest]. cbn [fst snd app] in *.
  destruct H as (_ & Ht & ->). rewrite Ht. split; [done|].
  apply (app_inv_head (concat ds)). rewrite Hl, Hp. by rewrite take_drop.
Qed.

Lemma push_all_valid m ids :
  valid (Decode (tok m) (visible m false ids)) ->
  let '(s', evs) := push_all m NewStream ids in
  Forall valid (texts evs) /\ snd (Flush s') = [].
Proof.
  intros Hv. pose proof (push_all_texts m NewStream ids) as H.
  pose proof (push_all_decode m ids) as Hd.
  destruct (push_all m NewStream ids) as [s' evs]. cbn [NewStream pending inTool] in H.
  destruct Hd as [_ Hp]. split.
  - destruct (feed_valid [] (chunks m false ids)) as [Hall _].
    { simpl. by rewrite concat_chunks. }
    destruct (feed [] (chunks m false ids)) as [ds rest]. destruct H as (Hf & _ & _).
    apply Forall_forall. intros t Hin. destruct (decide (t = [])) as [->|Hne]; [constructor|].
    assert (t ∈ filter (fun t => t <> []) (texts evs)) as Hin' by by apply list_elem_of_filter.
    rewrite Hf in Hin'. apply list_elem_of_filter in Hin' as [_ Hin'].
    by eapply Forall_forall in Hall.
  - rewrite (proj1 (Flush_eq s')), Hp, (plen_valid_all _ Hv). apply drop_ge. lia.
Qed.


(** No delta ever holds half a character: if the whole decode is well-formed UTF-8,
    so is every single delta, and nothing is left to flush. *)
Lemma Stream_never_splits_runes m ids :
  valid (Decode (tok m) (visible m false ids)) ->
  let '(s', evs) := push_all m NewStream ids in
  Forall valid (texts evs) /\ snd (Flush s') = [].
Proof. apply push_all_valid. Qed.

Definition toy_format : Format :=
  {| tok := toy; eosIDs := [259%Z]; toolOpen := 300; toolClose := 301 |}.

Lemma Stream_never_splits_runes_witness :
  texts (snd (push_all toy_format NewStream [104; 195; 169; 258; 33]%Z)) =
    [go "h"; []; [xc3; xa9]; []; go "!"] /\
  (let '(s', evs) := push_all toy_format NewStream [104; 195; 169; 258; 33]%Z in
   Forall valid (texts evs) /\ snd (Flush s') = []).
Proof.
  split; [vm_compute; reflexivity|].
  apply (Stream_never_splits_runes toy_format [104; 195; 169; 258; 33]%Z).
  apply (valid_step _ 104 1); [discriminate|vm_compute; reflexivity|left; discriminate|].
  apply (valid_step _ 233 2); [discriminate|vm_compute; reflexivity|left; discriminate|].
  apply (valid_step _ 33 1); [discriminate|vm_compute; reflexivity|left; discriminate|].
  constructor.
Defined.

(** C24: the tool calls of a response are the parses of the ids between the markers, in
    order, numbered [call_0], [call_1], ... over those that parse; a call that is never
    closed, or does not parse, yields nothing. *)
Theorem Stream_calls_refine m ids :
  calls (snd (push_all m NewStream ids)) =
  number_calls 0
    (omap (fun buf => parse_call (Decode (tok m) buf)) (closes m false [] ids)).
Proof. apply (push_all_calls m NewStream ids). Qed.

Lemma closes_open m open buf ids rest :
  Forall (fun id => id <> toolOpen m /\ id <> toolClose m) ids ->
  closes m open buf (ids ++ rest) = closes m open (if open then buf ++ ids else buf) rest.
Proof.
  revert buf. induction ids as [|id ids IH]; intros buf; [by destruct open; rewrite ?app_nil_r|].
  intros [[H1 H2] Hids]%Forall_cons. cbn [app closes].
  rewrite (proj2 (Z.eqb_neq _ _) H1), (proj2 (Z.eqb_neq _ _) H2), IH by done.
  destruct open; [|done]. by rewrite <- app_assoc.
Qed.

(** The buffer of a call survives its closing marker, so a stray second closing marker
    reports the same call again, under a new id. *)
Lemma Stream_stray_close_repeats_call m ids name args :
  toolOpen m <> toolClose m ->
  Forall (fun id => id <> toolOpen m /\ id <> toolClose m) ids ->
  parse_call (Decode (tok m) ids) = Some (name, args) ->
  calls (snd (push_all m NewStream (toolOpen m :: ids ++ [toolClose m; toolClose m]))) =
    [Build_ToolCall (go "call_0") name args; Build_ToolCall (go "call_1") name args].
Proof.
  intros Hne Hids Hp. rewrite push_all_calls. cbn [NewStream inTool toolIDs nTools closes].
  rewrite Z.eqb_refl, closes_open by done. cbn [app closes].
  rewrite (proj2 (Z.eqb_neq (toolClose m) (toolOpen m))), Z.eqb_refl by congruence.
  cbn [omap list_omap]. rewrite Hp. vm_compute itoa. cbn [number_calls].
  reflexivity.
Qed.

Definition call_ids : list Z := bz <$> go "{\qname\q: \qf\q, \qarguments\q: {\qx\q:1}}".

Lemma Stream_stray_close_repeats_call_witness :
  calls (snd (push_all toy_format NewStream (300 :: call_ids ++ [301; 301])%Z)) =
    [Build_ToolCall (go "call_0") (go "f") (go "{\qx\q:1}");
     Build_ToolCall (go "call_1") (go "f") (go "{\qx\q:1}")].
Proof.
  apply (Stream_stray_close_repeats_call toy_format call_ids).
  - discriminate.
  - apply (bool_decide_eq_true_1 _). vm_compute. reflexivity.
  - vm_compute. reflexivity.
Defined.
