(* ===== verification/Client.v ===== *)
(** * The transport tier: errors, the engine's events and the [Client]

    Models [internal/engine/client.go] and the types of [internal/engine/types.go]. The
    engine behind the gRPC connection is a parameter: a [Client] holds, for every
    request, what the service answers. Messages of the generated stubs appear with the
    fields the code reads. *)

From Stdlib Require Import Floats.SpecFloat.
From S2P Require Import Prelude GoStrings Chatml.
Local Open Scope go_scope.

(** ** Errors

    An [error] is its text and the sentinel it wraps, if any. *)
Inductive sentinel := ErrPromptTooLong | ErrOverCapacity | ErrEngineInternal.

#[export] Instance sentinel_eq_dec : EqDecision sentinel.
Proof. solve_decision. Defined.

Definition sentinel_text (s : sentinel) : bytes :=
  match s with
  | ErrPromptTooLong => go "prompt exceeds context window"
  | ErrOverCapacity => go "engine over capacity"
  | ErrEngineInternal => go "engine internal error"
  end.

Record error := { wraps : option sentinel; Error : bytes }.

(** [fmt.Errorf("%w: %s", s, msg)] *)
Definition wrap_error (s : sentinel) (msg : bytes) : error :=
  {| wraps := Some s; Error := sentinel_text s ++ go ": " ++ msg |}.

Definition new_error (msg : bytes) : error := {| wraps := None; Error := msg |}.

Definition errors_Is (e : error) (s : sentinel) : bool := bool_decide (wraps e = Some s).

(** ** Messages *)

(** A sampling parameter as the wire's binary32. *)
Abbreviation float64 := spec_float.
Abbreviation float32 := spec_float.

Record GenerateRequest := {
  InputIds : list Z;
  pb_MaxTokens : Z;
  pb_Temperature : float32;
  pb_TopP : float32;
  StopTokenIds : list Z;
}.

Record pb_Error := { GetCode : Z; GetMessage : bytes }.

Definition ERROR_CODE_OVER_CAPACITY : Z := 1.
Definition ERROR_CODE_INTERNAL : Z := 2.

Inductive pb_event :=
  | EvTokenId (id : Z)
  | EvDone (finish_reason : bytes) (prompt_tokens completion_tokens : Z)
  | EvError (e : pb_Error)
  | EvUnset.  (** an event kind this client does not know *)

(** The answers of [Recv], in order; then it reports the end of the stream ([None],
    [io.EOF]) or an error. *)
Record rpc_stream := { events : list pb_event; ending : option error }.

Record ModelInfo := { info_ID : bytes; MaxCtx : Z; info_VocabSize : Z }.

Record Stats := { st_FinishReason : bytes; st_PromptTokens : Z; st_CompletionTokens : Z }.

Record Request := {
  Messages : list Message;
  Tools : list ToolDef;
  EnableThinking : bool;
  MaxTokens : Z;
  Temperature : option float64;
  TopP : option float64;
  IgnoreEOS : bool;
  RawPrompt : bytes;
  InputIDs : list Z;
}.

Record Result := {
  Text : bytes;
  res_ToolCalls : list ToolCall;
  FinishReason : bytes;
  PromptTokens : Z;
  CompletionTokens : Z;
}.

(** The generated client: the answer to the [k]-th [GetModel] call and to a [Generate]
    call. *)
Record Client := {
  cli_GetModel : nat -> result error ModelInfo;
  cli_Generate : GenerateRequest -> result error rpc_stream;
}.

(** ** Operations *)

Definition errorFor (e : pb_Error) : error :=
  if (GetCode e =? ERROR_CODE_OVER_CAPACITY)%Z then wrap_error ErrOverCapacity (GetMessage e)
  else wrap_error ErrEngineInternal (GetMessage e).

Definition GetModel (c : Client) (k : nat) : result error ModelInfo :=
  let! mi := cli_GetModel c k in
  Ok {| info_ID := info_ID mi; MaxCtx := MaxCtx mi; info_VocabSize := info_VocabSize mi |}.

(** The receive loop of [stream]: the callback acts on the state [S] of the caller. *)
Fixpoint recv_loop {S} (onToken : option (Z -> S -> S)) (evs : list pb_event)
    (ending : option error) (s : S) : S * result error Stats :=
  match evs with
  | [] =>
      match ending with
      | None =>
          (s, Ok {| st_FinishReason := go "stop"; st_PromptTokens := 0; st_CompletionTokens := 0 |})
      | Some err => (s, Err err)
      end
  | EvTokenId id :: evs =>
      recv_loop onToken evs ending (match onToken with Some f => f id s | None => s end)
  | EvDone reason prompt completion :: _ =>
      (s, Ok {| st_FinishReason := reason; st_PromptTokens := prompt;
                st_CompletionTokens := completion |})
  | EvError e :: _ => (s, Err (errorFor e))
  | EvUnset :: evs => recv_loop onToken evs ending s
  end.

Definition stream {S} (c : Client) (g : GenerateRequest) (onToken : option (Z -> S -> S)) (s : S)
    : S * result error Stats :=
  match cli_Generate c g with
  | Err err => (s, Err err)
  | Ok st => recv_loop onToken (events st) (ending st) s
  end.

(** ** What a stream says *)

(** The ids delivered: those before the first terminal event. *)
Fixpoint tokens (evs : list pb_event) : list Z :=
  match evs with
  | EvTokenId id :: evs => id :: tokens evs
  | EvUnset :: evs => tokens evs
  | _ => []
  end.

(** Its outcome: the first terminal event, or how the connection ended. *)
Definition is_terminal (e : pb_event) : bool :=
  match e with EvDone _ _ _ | EvError _ => true | _ => false end.

Definition terminal (evs : list pb_event) (ending : option error) : result error Stats :=
  match list_find (fun e => is_terminal e = true) evs, ending with
  | Some (_, EvDone reason prompt completion), _ => Ok (Build_Stats reason prompt completion)
  | Some (_, EvError e), _ => Err (errorFor e)
  | _, None => Ok (Build_Stats (go "stop") 0 0)
  | _, Some err => Err err
  end.

Lemma recv_loop_spec {S} (f : Z -> S -> S) evs fin s :
  recv_loop (Some f) evs fin s = (foldl (fun s id => f id s) s (tokens evs), terminal evs fin).
Proof.
  revert s. induction evs as [|e evs IH]; intros s; [by destruct fin|].
  destruct e as [id|reason p c|e|]; [|done|done|]; cbn [recv_loop tokens foldl]; rewrite IH; f_equal.
  all: unfold terminal; cbn [list_find is_terminal]; case_decide; [done|];
    by destruct (list_find _ evs) as [[i []]|].
Qed.

(** ** Polling for readiness *)
Section wait_ready.
Context (c : Client) (aliveCheck : option (nat -> option error)).
(** [now 0]: the time at the call; [now (S k)]: the time at the check of round [k]. *)
Context (now : nat -> Z).

Definition poll_period : Z := 300 * 10 ^ 6.

Fixpoint wait_loop (fuel : nat) (timeout deadline : Z) (k : nat) : run (result error ModelInfo) :=
  match fuel with
  | O => Fuel
  | S f =>
      match GetModel c k with
      | Ok info => Ret (Ok info)
      | Err _ =>
          match (match aliveCheck with Some check => check k | None => None end) with
          | Some exitErr => Ret (Err exitErr)
          | None =>
              if (deadline <? now (S k))%Z then
                Ret (Err (new_error (go "engine did not become ready within "
                                     ++ duration_string timeout)))
              else wait_loop f timeout deadline (S k)
          end
      end
  end.

(** A round sleeps [poll_period], so this many rounds pass the deadline. *)
Definition wait_rounds (timeout : Z) : nat := (Z.to_nat (timeout / poll_period) + 2)%nat.

Definition WaitReady (timeout : Z) : run (result error ModelInfo) :=
  wait_loop (wait_rounds timeout) timeout (now 0%nat + timeout) 0.

(** What round [k] decides, if it does. *)
Definition round_outcome (timeout : Z) (k : nat) : option (result error ModelInfo) :=
  match cli_GetModel c k, (match aliveCheck with Some check => check k | None => None end) with
  | Ok info, _ => Some (Ok info)
  | Err _, Some exitErr => Some (Err exitErr)
  | Err _, None =>
      if (now 0%nat + timeout <? now (S k))%Z
      then Some (Err (new_error (go "engine did not become ready within "
                                 ++ duration_string timeout)))
      else None
  end.

Lemma wait_loop_step f timeout k :
  wait_loop (S f) timeout (now 0%nat + timeout) k =
  match round_outcome timeout k with
  | Some r => Ret r
  | None => wait_loop f timeout (now 0%nat + timeout) (S k)
  end.
Proof.
  cbn [wait_loop]. unfold round_outcome, GetModel. destruct (cli_GetModel c k) as [[]|e]; [done|].
  cbn [rbind]. destruct aliveCheck as [check|]; [destruct (check k); [done|]|]; by case_match.
Qed.

Lemma wait_loop_first f timeout k n r :
  (n < f)%nat -> (forall j, (j < n)%nat -> round_outcome timeout (k + j) = None) ->
  round_outcome timeout (k + n) = Some r ->
  wait_loop f timeout (now 0%nat + timeout) k = Ret r.
Proof.
  revert f k. induction n as [|n IH]; intros f k Hf Hno Hr; (destruct f as [|f]; [lia|]).
  - rewrite wait_loop_step. rewrite Nat.add_0_r in Hr. by rewrite Hr.
  - rewrite wait_loop_step. specialize (Hno 0%nat ltac:(lia)) as H0. rewrite Nat.add_0_r in H0.
    rewrite H0. apply IH; [lia| |by rewrite Nat.add_succ_comm].
    intros j Hj. rewrite Nat.add_succ_comm. apply Hno. lia.
Qed.

(** A clock that [time.Sleep] advances by at least the period between two checks. *)
Definition clock_ok : Prop :=
  (now 0%nat <= now 1%nat)%Z /\ forall k, (now (S k) + poll_period <= now (S (S k)))%Z.

Lemma clock_progress k : clock_ok -> (now 0%nat + Z.of_nat k * poll_period <= now (S k))%Z.
Proof. intros [H0 H]. induction k as [|k IH]; [lia|]. specialize (H k). lia. Qed.

Lemma last_round_decides timeout :
  clock_ok -> (0 <= timeout)%Z ->
  is_Some (round_outcome timeout (Z.to_nat (timeout / poll_period) + 1)).
Proof.
  intros Hc Ht. set (k := (Z.to_nat (timeout / poll_period) + 1)%nat).
  pose proof (clock_progress k Hc) as Hk.
  assert (timeout < Z.of_nat k * poll_period)%Z.
  { pose proof (Z.mul_succ_div_gt timeout poll_period ltac:(done)) as Hd.
    assert (0 <= timeout / poll_period)%Z by (apply Z.div_pos; [lia|done]).
    subst k. unfold poll_period in *. lia. }
  unfold round_outcome. destruct (cli_GetModel c k); [done|].
  destruct (match aliveCheck with Some check => check k | None => None end); [done|].
  rewrite (proj2 (Z.ltb_lt _ _)) by lia. done.
Qed.

(** The first deciding round among [n]. *)
Lemma first_round timeout n :
  is_Some (round_outcome timeout n) ->
  exists k r, (k <= n)%nat /\ round_outcome timeout k = Some r /\
    forall j, (j < k)%nat -> round_outcome timeout j = None.
Proof.
  induction n as [n IH] using lt_wf_ind. intros [r Hr].
  destruct (decide (Exists (fun j => is_Some (round_outcome timeout j)) (seq 0 n))) as [He|He].
  - apply Exists_exists in He as (j & Hj%elem_of_seq & Hs).
    destruct (IH j) as (k & r' & ? & ? & ?); [lia|done|]. exists k, r'. split; [lia|done].
  - exists n, r. split_and!; [lia|done|]. intros j Hj. apply eq_None_not_Some. intros Hs.
    apply He, Exists_exists. exists j. rewrite elem_of_seq. split; [lia|done].
Qed.

(** ** Properties *)

(** [WaitReady] returns, within the number of rounds the timeout allows, and with what
    the first deciding round says: the model's metadata if the engine answers, else the
    exit error if the process died, else the timeout error once the deadline passed. *)
Lemma WaitReady_first_outcome timeout :
  clock_ok -> (0 <= timeout)%Z ->
  exists k r, (k < wait_rounds timeout)%nat /\
    (forall j, (j < k)%nat -> round_outcome timeout j = None) /\
    round_outcome timeout k = Some r /\ WaitReady timeout = Ret r.
Proof.
  intros Hc Ht. destruct (first_round timeout _ (last_round_decides timeout Hc Ht)) as (k & r & Hk & Hr & Hj).
  exists k, r. unfold wait_rounds in *. split_and!; [lia|done..|].
  apply (wait_loop_first _ _ 0 k); [unfold wait_rounds; lia|done..].
Qed.

End wait_ready.

(** An engine that answers at the third call, with a clock of exact periods. *)
Definition slow_client : Client :=
  {| cli_GetModel := fun k => if (k <? 2)%nat then Err (new_error (go "connection refused"))
                              else Ok (Build_ModelInfo (go "qwen3") 4096 151936);
     cli_Generate := fun _ => Err (new_error []) |}.

Definition exact_clock (k : nat) : Z := (Z.of_nat (k - 1) * poll_period)%Z.

Lemma WaitReady_first_outcome_witness :
  WaitReady slow_client None exact_clock (1800 * 10 ^ 9) = Ret (Ok (Build_ModelInfo (go "qwen3") 4096 151936)) /\
  exists k r, (k < wait_rounds (1800 * 10 ^ 9))%nat /\
    (forall j, (j < k)%nat -> round_outcome slow_client None exact_clock (1800 * 10 ^ 9) j = None) /\
    round_outcome slow_client None exact_clock (1800 * 10 ^ 9) k = Some r /\
    WaitReady slow_client None exact_clock (1800 * 10 ^ 9) = Ret r.
Proof.
  split; [vm_compute; reflexivity|]. apply WaitReady_first_outcome; [|discriminate].
  split; [vm_compute; discriminate|]. intros k. unfold exact_clock, poll_period. lia.
Defined.
