(* ===== verification/Generate.v ===== *)
(** * The text tier: [Generator]

    Models [internal/engine/generate.go]: building the engine's request, the length
    policy, and the two drivers [Generate] and [Complete]. A callback acts on the state
    [S] of the caller; a nil callback is [None]. *)

From Stdlib Require Import Floats.SpecFloat.
From S2P Require Import Prelude Utf8 GoStrings TokenizerCore BPE Pretokenizer Vocab Encode.
From S2P Require Import Json Chatml Render RuneBuffer Stream Client.
Local Open Scope go_scope.

Record Generator := {
  conn : Client;
  cm : Format;
  gtok : Tokenizer;
  maxCtx : Z;
}.

Definition NewGenerator (conn : Client) (cm : Format) (tok : Tokenizer) (maxCtx : Z) : Generator :=
  {| conn := conn; cm := cm; gtok := tok; maxCtx := maxCtx |}.

(** The conversion [float32(x)]: the nearest binary32, ties to even. *)
Definition to_float32 (x : float64) : float32 :=
  match x with
  | S754_finite s m e => binary_normalize 24 128 (if s then Z.neg m else Z.pos m) e s
  | _ => x
  end.

Definition float32_one : float32 := S754_finite false 8388608 (-23).

Example to_float32_ex :
  to_float32 (S754_finite false 6305039478318694 (-53)) = S754_finite false 11744051 (-24) /\
  to_float32 (S754_finite false 4503599627370496 (-52)) = float32_one.
Proof. split; vm_compute; reflexivity. Qed.

(** ** The length policy *)
Definition resolveMaxTokens (g : Generator) (promptLen requested : Z) : result error Z :=
  let room := int64 (maxCtx g - promptLen) in
  if (room <? 1)%Z then
    Err (wrap_error ErrPromptTooLong
           (go "prompt is " ++ itoa promptLen ++ go " tokens, context window is "
            ++ itoa (maxCtx g)))
  else if (requested <=? 0)%Z || (room <? requested)%Z then Ok room
  else Ok requested.

(** The ids of the prompt, by precedence. *)
Definition prompt_ids (g : Generator) (req : Request) : run (list Z) :=
  if (0 <? length (InputIDs req))%nat then Ret (InputIDs req)
  else if negb (bool_decide (RawPrompt req = [])) then Encode (gtok g) (RawPrompt req)
  else Encode (gtok g) (Render (Messages req) (Tools req) (EnableThinking req)).

Definition buildRequest (g : Generator) (req : Request) : run (result error GenerateRequest) :=
  let* ids := prompt_ids g req in
  match resolveMaxTokens g (len ids) (MaxTokens req) with
  | Err err => Ret (Err err)
  | Ok maxTokens =>
      Ret (Ok {| InputIds := int32 <$> ids;
                 pb_MaxTokens := int32 maxTokens;
                 pb_TopP := match TopP req with Some p => to_float32 p | None => float32_one end;
                 StopTokenIds := if IgnoreEOS req then [] else StopTokenIDs (cm g);
                 pb_Temperature := match Temperature req with
                                   | Some t => to_float32 t
                                   | None => S754_zero false
                                   end |})
  end.

(** ** [Generate] *)
Definition empty_result : Result :=
  {| Text := []; res_ToolCalls := []; FinishReason := []; PromptTokens := 0; CompletionTokens := 0 |}.

Definition add_text (res : Result) (text : bytes) : Result :=
  {| Text := Text res ++ text; res_ToolCalls := res_ToolCalls res; FinishReason := FinishReason res;
     PromptTokens := PromptTokens res; CompletionTokens := CompletionTokens res |}.

Definition add_call (res : Result) (tc : ToolCall) : Result :=
  {| Text := Text res; res_ToolCalls := res_ToolCalls res ++ [tc]; FinishReason := FinishReason res;
     PromptTokens := PromptTokens res; CompletionTokens := CompletionTokens res |}.

Definition finish (res : Result) (stats : Stats) : Result :=
  {| Text := Text res; res_ToolCalls := res_ToolCalls res;
     FinishReason := st_FinishReason stats; PromptTokens := st_PromptTokens stats;
     CompletionTokens := st_CompletionTokens stats |}.

Definition set_reason (res : Result) (reason : bytes) : Result :=
  {| Text := Text res; res_ToolCalls := res_ToolCalls res; FinishReason := reason;
     PromptTokens := PromptTokens res; CompletionTokens := CompletionTokens res |}.

Definition nonempty (t : bytes) : bool := negb (bool_decide (t = [])).

Section drivers.
Context {S : Type} (g : Generator).

(** The callback of [Generate] on every token: push it, aggregate, notify. *)
Definition on_token (onDelta : option (bytes -> option ToolCall -> S -> S)) (id : Z)
    (st : Stream * Result * S) : Stream * Result * S :=
  let '(stream, res, s) := st in
  let '(stream, text, tc) := Push (cm g) stream id in
  let res := if nonempty text then add_text res text else res in
  let res := match tc with Some tc => add_call res tc | None => res end in
  let s := match onDelta with
           | Some f =>
               if nonempty text || match tc with Some _ => true | None => false end
               then f text tc s else s
           | None => s
           end in
  (stream, res, s).

Definition Generate (req : Request) (onDelta : option (bytes -> option ToolCall -> S -> S)) (s : S)
    : run (S * result error Result) :=
  let* greq := buildRequest g req in
  match greq with
  | Err err => Ret (s, Err err)
  | Ok greq =>
      let '((strm, res, s), stats) :=
        stream (conn g) greq (Some (on_token onDelta)) (NewStream, empty_result, s) in
      match stats with
      | Err err => Ret (s, Err err)
      | Ok stats =>
          let '(_, tail) := Flush strm in
          let '(res, s) :=
            if nonempty tail
            then (add_text res tail, match onDelta with Some f => f tail None s | None => s end)
            else (res, s) in
          let res := finish res stats in
          let res := if (0 <? length (res_ToolCalls res))%nat
                     then set_reason res (go "tool_calls") else res in
          Ret (s, Ok res)
      end
  end.

(** ** [Complete] *)
Definition on_raw_token (onDelta : option (bytes -> S -> S)) (id : Z) (st : bytes * Result * S)
    : bytes * Result * S :=
  let '(pending, res, s) := st in
  let '(text, pending) := take_runes (pending ++ Decode (gtok g) [id]) in
  if nonempty text
  then (pending, add_text res text, match onDelta with Some f => f text s | None => s end)
  else (pending, res, s).

Definition Complete (req : Request) (onDelta : option (bytes -> S -> S)) (s : S)
    : run (S * result error Result) :=
  let* greq := buildRequest g req in
  match greq with
  | Err err => Ret (s, Err err)
  | Ok greq =>
      let '((pending, res, s), stats) :=
        stream (conn g) greq (Some (on_raw_token onDelta)) ([], empty_result, s) in
      match stats with
      | Err err => Ret (s, Err err)
      | Ok stats =>
          let '(res, s) :=
            if (0 <? length pending)%nat
            then (add_text res pending, match onDelta with Some f => f pending s | None => s end)
            else (res, s) in
          Ret (s, Ok (finish res stats))
      end
  end.

End drivers.

(** ** The deltas a caller is notified of *)
Definition delta : Type := bytes * option ToolCall.

Definition is_delta (d : delta) : bool :=
  nonempty d.1 || match d.2 with Some _ => true | None => false end.

Definition deltas (evs : list delta) : list delta := filter (fun d => is_delta d = true) evs.

Definition tail_delta (tail : bytes) : list delta := if nonempty tail then [(tail, None)] else [].

Definition notify {S} (onDelta : option (bytes -> option ToolCall -> S -> S)) (s : S)
    (ds : list delta) : S :=
  match onDelta with Some f => foldl (fun s d => f d.1 d.2 s) s ds | None => s end.

Definition notify_text {S} (onDelta : option (bytes -> S -> S)) (s : S) (ds : list bytes) : S :=
  match onDelta with Some f => foldl (fun s d => f d s) s ds | None => s end.

Lemma notify_app {S} onDelta (s : S) ds ds' :
  notify onDelta s (ds ++ ds') = notify onDelta (notify onDelta s ds) ds'.
Proof. unfold notify. destruct onDelta; [|done]. by rewrite foldl_app. Qed.

Lemma notify_text_app {S} onDelta (s : S) ds ds' :
  notify_text onDelta s (ds ++ ds') = notify_text onDelta (notify_text onDelta s ds) ds'.
Proof. unfold notify_text. destruct onDelta; [|done]. by rewrite foldl_app. Qed.

Definition aggregate (res : Result) (evs : list delta) : Result :=
  {| Text := Text res ++ concat (texts evs); res_ToolCalls := res_ToolCalls res ++ calls evs;
     FinishReason := FinishReason res; PromptTokens := PromptTokens res;
     CompletionTokens := CompletionTokens res |}.

Lemma nonempty_false t : nonempty t = false -> t = [].
Proof. unfold nonempty. intros ?. by boolprop. Qed.

Lemma fold_on_token {S} g onDelta ids strm res (s : S) :
  foldl (fun st id => on_token g onDelta id st) (strm, res, s) ids =
  let '(strm', evs) := push_all (cm g) strm ids in
  (strm', aggregate res evs, notify onDelta s (deltas evs)).
Proof.
  revert strm res s. induction ids as [|id ids IH]; intros strm res s.
  { unfold aggregate, deltas, notify. simpl. rewrite !app_nil_r. by destruct res, onDelta. }
  cbn [foldl push_all]. unfold on_token at 2.
  destruct (Push (cm g) strm id) as [[strm1 text] tc]. rewrite IH.
  destruct (push_all (cm g) strm1 ids) as [strm' evs]. f_equal; [f_equal|].
  - unfold aggregate, texts, calls. cbn [fmap list_fmap fst snd concat omap list_omap].
    destruct (nonempty text) eqn:E; [|apply nonempty_false in E as ->];
      destruct tc; simpl; by rewrite <- ?app_assoc.
  - unfold deltas. rewrite filter_cons. destruct onDelta as [f|]; [|done].
    change (nonempty text || _) with (is_delta (text, tc)).
    destruct (decide (is_delta (text, tc) = true)) as [E|E]; [by rewrite E|].
    by rewrite (not_true_is_false _ E).
Qed.

(** Every delta carries something, and together they are the aggregate. *)
Lemma deltas_texts evs : concat (fst <$> deltas evs) = concat (texts evs).
Proof.
  unfold deltas, texts. induction evs as [|[t tc] evs IH]; [done|].
  rewrite filter_cons. case_decide as Hd; cbn [fmap list_fmap fst concat]; [by rewrite IH|].
  rewrite IH. unfold is_delta in Hd. cbn [fst snd] in Hd.
  apply not_true_iff_false, orb_false_iff in Hd as [Hd _].
  apply nonempty_false in Hd as ->. done.
Qed.

Lemma deltas_calls evs : omap snd (deltas evs) = calls evs.
Proof.
  unfold deltas, calls. induction evs as [|[t tc] evs IH]; [done|].
  rewrite filter_cons. case_decide as Hd; cbn [omap list_omap snd].
  - destruct tc; [f_equal|]; exact IH.
  - unfold is_delta in Hd. apply not_true_iff_false, orb_false_iff in Hd as [_ Hd].
    cbn [snd] in Hd. destruct tc; [done|]. exact IH.
Qed.

Lemma deltas_ok evs : Forall (fun d => is_delta d = true) (deltas evs).
Proof. apply Forall_forall. intros d Hd. by apply list_elem_of_filter in Hd as [? _]. Qed.

(** ** What a request delivers *)

(** [g] sends [greq] for [req], and the engine answers with [st]. *)
Definition answers (g : Generator) (req : Request) (greq : GenerateRequest) (st : rpc_stream) : Prop :=
  buildRequest g req = Ret (Ok greq) /\ cli_Generate (conn g) greq = Ok st.

(** The tokens and the outcome of the answer. *)
Definition answer_ids (st : rpc_stream) : list Z := tokens (events st).
Definition outcome (st : rpc_stream) : result error Stats := terminal (events st) (ending st).

(** The whole result of a chat completion, as a function of the answer. *)
Definition chat_result (m : Format) (st : rpc_stream) (stats : Stats) : Result :=
  let tcs := number_calls 0
    (omap (fun buf => parse_call (Decode (tok m) buf)) (closes m false [] (answer_ids st))) in
  {| Text := Decode (tok m) (visible m false (answer_ids st));
     res_ToolCalls := tcs;
     FinishReason := if (0 <? length tcs)%nat then go "tool_calls" else st_FinishReason stats;
     PromptTokens := st_PromptTokens stats;
     CompletionTokens := st_CompletionTokens stats |}.

Definition raw_result (t : Tokenizer) (st : rpc_stream) (stats : Stats) : Result :=
  {| Text := Decode t (answer_ids st); res_ToolCalls := [];
     FinishReason := st_FinishReason stats; PromptTokens := st_PromptTokens stats;
     CompletionTokens := st_CompletionTokens stats |}.

(** The deltas of a chat completion: those of the tokens, then the flushed tail. *)
Definition token_deltas (m : Format) (ids : list Z) : list delta := deltas (snd (push_all m NewStream ids)).
Definition flushed (m : Format) (ids : list Z) : bytes :=
  snd (Flush (fst (push_all m NewStream ids))).
Definition chat_deltas (m : Format) (ids : list Z) : list delta :=
  token_deltas m ids ++ tail_delta (flushed m ids).

Lemma Generate_eq {S} g req onDelta (s : S) greq st :
  answers g req greq st ->
  Generate g req onDelta s =
  match outcome st with
  | Ok stats =>
      Ret (notify onDelta s (chat_deltas (cm g) (answer_ids st)), Ok (chat_result (cm g) st stats))
  | Err err => Ret (notify onDelta s (token_deltas (cm g) (answer_ids st)), Err err)
  end.
Proof.
  intros [Hb Hc]. unfold Generate, stream. rewrite Hb. cbn [run_bind]. rewrite Hc, recv_loop_spec.
  fold (outcome st) (answer_ids st). rewrite fold_on_token.
  pose proof (push_all_decode (cm g) (answer_ids st)) as Ht.
  pose proof (push_all_calls (cm g) NewStream (answer_ids st)) as Hcalls.
  unfold chat_deltas, token_deltas, flushed.
  destruct (push_all (cm g) NewStream (answer_ids st)) as [strm evs]. cbn [fst snd] in *.
  destruct Ht as [Ht Hp]. destruct (outcome st) as [stats|err]; [|done].
  pose proof (Flush_eq strm) as [Hf _]. destruct (Flush strm) as [strm' tail]. cbn [snd] in *.
  subst tail. rewrite Hp. set (whole := Decode _ _) in *.
  assert (Hres : forall r, r = aggregate empty_result evs ->
    (let res := finish (add_text r (drop (plen whole) whole)) stats in
     if (0 <? length (res_ToolCalls res))%nat then set_reason res (go "tool_calls") else res)
    = chat_result (cm g) st stats).
  { intros r ->. unfold chat_result. fold whole. cbn [NewStream nTools inTool toolIDs] in Hcalls.
    rewrite <- Hcalls. unfold finish, add_text, set_reason, aggregate, empty_result.
    cbn [Text res_ToolCalls PromptTokens CompletionTokens FinishReason app]. rewrite Ht, take_drop. by destruct (0 <? _)%nat. }
  unfold tail_delta. destruct (nonempty (drop (plen whole) whole)) eqn:E.
  - rewrite notify_app, <- (Hres _ eq_refl). by destruct onDelta.
  - rewrite app_nil_r. f_equal. f_equal. rewrite <- (Hres _ eq_refl).
    rewrite (nonempty_false _ E). unfold add_text. by rewrite app_nil_r.
Qed.

Lemma chat_deltas_text m ids : concat (fst <$> chat_deltas m ids) = Decode (tok m) (visible m false ids).
Proof.
  unfold chat_deltas, token_deltas, flushed. rewrite fmap_app, concat_app, deltas_texts.
  pose proof (push_all_decode m ids) as H. destruct (push_all m NewStream ids) as [s evs].
  destruct H as [Ht Hp]. cbn [fst snd]. rewrite (proj1 (Flush_eq s)), Ht, Hp.
  set (whole := Decode _ _). unfold tail_delta. destruct (nonempty (drop (plen whole) whole)) eqn:E.
  - simpl. by rewrite app_nil_r, take_drop.
  - simpl. apply nonempty_false in E. rewrite <- E at 1. by rewrite take_drop.
Qed.

Lemma chat_deltas_calls m ids :
  omap snd (chat_deltas m ids) =
  number_calls 0 (omap (fun buf => parse_call (Decode (tok m) buf)) (closes m false [] ids)).
Proof.
  unfold chat_deltas, token_deltas. rewrite omap_app, deltas_calls, push_all_calls.
  unfold tail_delta. destruct (nonempty _); simpl; by rewrite app_nil_r.
Qed.

Lemma chat_deltas_ok m ids : Forall (fun d => is_delta d = true) (chat_deltas m ids).
Proof.
  apply Forall_app. split; [apply deltas_ok|]. unfold tail_delta.
  destruct (nonempty _) eqn:E; [|constructor]. constructor; [|constructor]. unfold is_delta. cbn. by rewrite E.
Qed.

Lemma chat_deltas_valid m ids :
  valid (Decode (tok m) (visible m false ids)) -> Forall (fun d => valid d.1) (chat_deltas m ids).
Proof.
  intros Hv. pose proof (push_all_valid m ids Hv) as H.
  unfold chat_deltas, token_deltas, flushed. destruct (push_all m NewStream ids) as [s evs].
  destruct H as [Ht Hf]. cbn [fst snd]. rewrite Hf, app_nil_r. apply Forall_forall.
  intros d Hd. apply list_elem_of_filter in Hd as [_ Hd]. eapply Forall_forall in Ht; [exact Ht|].
  by apply list_elem_of_fmap_2.
Qed.

(** ** [Complete] delivers the decode of the ids *)
Definition raw_chunks (t : Tokenizer) (ids : list Z) : list bytes := (fun id => Decode t [id]) <$> ids.

Definition raw_feed (t : Tokenizer) (ids : list Z) : list bytes * bytes := feed [] (raw_chunks t ids).

Definition raw_deltas (t : Tokenizer) (ids : list Z) : list bytes :=
  filter (fun d => nonempty d = true) (fst (raw_feed t ids) ++ [snd (raw_feed t ids)]).

Lemma concat_nonempty ls : concat (filter (fun d => nonempty d = true) ls) = concat ls.
Proof.
  induction ls as [|l ls IH]; [done|]. rewrite filter_cons. case_decide as Hd; cbn [concat]; [by rewrite IH|].
  apply not_true_is_false, nonempty_false in Hd as ->. done.
Qed.

Lemma fold_on_raw_token {S} g onDelta ids pending res (s : S) :
  foldl (fun st id => on_raw_token g onDelta id st) (pending, res, s) ids =
  let '(ds, rest) := feed pending (raw_chunks (gtok g) ids) in
  (rest, add_text res (concat ds), notify_text onDelta s (filter (fun d => nonempty d = true) ds)).
Proof.
  revert pending res s. induction ids as [|id ids IH]; intros pending res s.
  { unfold add_text. simpl. rewrite app_nil_r. destruct res, onDelta; done. }
  cbn [foldl raw_chunks fmap list_fmap feed]. unfold on_raw_token at 2.
  destruct (take_runes _) as [text rest]. destruct (nonempty text) eqn:E.
  - rewrite IH. fold (raw_chunks (gtok g) ids).
    destruct (feed rest (raw_chunks (gtok g) ids)) as [ds rest']. f_equal; [f_equal|].
    + unfold add_text. simpl. by rewrite <- app_assoc.
    + rewrite filter_cons, decide_True by done. by destruct onDelta.
  - rewrite IH. fold (raw_chunks (gtok g) ids).
    destruct (feed rest (raw_chunks (gtok g) ids)) as [ds rest'].
    rewrite filter_cons, decide_False by (by rewrite E). by rewrite (nonempty_false _ E).
Qed.

Lemma concat_raw_chunks t ids : concat (raw_chunks t ids) = Decode t ids.
Proof.
  unfold raw_chunks. induction ids as [|id ids IH]; [done|].
  cbn [fmap list_fmap concat]. rewrite IH. change (id :: ids) with ([id] ++ ids).
  by rewrite (Decode_app t [id]).
Qed.

Lemma raw_deltas_text t ids : concat (raw_deltas t ids) = Decode t ids.
Proof.
  unfold raw_deltas, raw_feed. rewrite concat_nonempty, concat_snoc, feed_lossless. apply concat_raw_chunks.
Qed.

Lemma raw_deltas_valid t ids : valid (Decode t ids) -> Forall valid (raw_deltas t ids).
Proof.
  intros Hv. destruct (feed_valid [] (raw_chunks t ids)) as [Hd Hr]; [by rewrite concat_raw_chunks|].
  apply Forall_forall. intros d Hin. apply list_elem_of_filter in Hin as [_ Hin].
  apply elem_of_snoc in Hin as [Hin | ->]; [|done]. by eapply Forall_forall in Hd.
Qed.

Lemma filter_nonempty ls : Forall (fun d => d <> []) (filter (fun d => nonempty d = true) ls).
Proof. apply Forall_forall. intros d Hd Hnil. subst d. by apply list_elem_of_filter in Hd as [? _]. Qed.

Lemma raw_deltas_nonempty t ids : Forall (fun d => d <> []) (raw_deltas t ids).
Proof. apply filter_nonempty. Qed.

Definition raw_token_deltas (t : Tokenizer) (ids : list Z) : list bytes :=
  filter (fun d => nonempty d = true) (fst (raw_feed t ids)).

Lemma Complete_eq {S} g req onDelta (s : S) greq st :
  answers g req greq st ->
  Complete g req onDelta s =
  match outcome st with
  | Ok stats =>
      Ret (notify_text onDelta s (raw_deltas (gtok g) (answer_ids st)),
           Ok (raw_result (gtok g) st stats))
  | Err err => Ret (notify_text onDelta s (raw_token_deltas (gtok g) (answer_ids st)), Err err)
  end.
Proof.
  intros [Hb Hc]. unfold Complete, stream. rewrite Hb. cbn [run_bind]. rewrite Hc, recv_loop_spec.
  fold (outcome st) (answer_ids st). rewrite fold_on_raw_token.
  pose proof (raw_deltas_text (gtok g) (answer_ids st)) as Ht.
  unfold raw_deltas, raw_token_deltas, raw_feed in *.
  destruct (feed [] (raw_chunks (gtok g) (answer_ids st))) as [ds rest]. cbn [fst snd] in *.
  destruct (outcome st) as [stats|err]; [|done].
  rewrite concat_nonempty, concat_snoc in Ht. unfold raw_result. rewrite <- Ht, filter_app, notify_text_app.
  destruct rest as [|b rest]; cbn [length].
  - simpl. rewrite app_nil_r. by destruct onDelta.
  - simpl. by destruct onDelta.
Qed.

(** ** The request sent *)

Lemma resolveMaxTokens_eq g promptLen requested :
  in_int 32 (maxCtx g) -> (0 <= promptLen < 2 ^ 62)%Z ->
  resolveMaxTokens g promptLen requested =
  if (maxCtx g <=? promptLen)%Z then
    Err (wrap_error ErrPromptTooLong
           (go "prompt is " ++ itoa promptLen ++ go " tokens, context window is "
            ++ itoa (maxCtx g)))
  else Ok (if (requested <=? 0)%Z then maxCtx g - promptLen
           else Z.min requested (maxCtx g - promptLen))%Z.
Proof.
  unfold in_int. intros Hm Hp. unfold resolveMaxTokens, int64.
  rewrite wrap_id by (unfold in_int; lia).
  destruct (Z.leb_spec (maxCtx g) promptLen), (Z.ltb_spec (maxCtx g - promptLen) 1); try lia; [done|].
  destruct (Z.leb_spec requested 0); cbn [orb]; [done|].
  destruct (Z.ltb_spec (maxCtx g - promptLen) requested); f_equal; lia.
Qed.

(** The text the prompt ids are made from, when the caller gives no ids. *)
Definition prompt_text (req : Request) : bytes :=
  if negb (bool_decide (RawPrompt req = [])) then RawPrompt req
  else Render (Messages req) (Tools req) (EnableThinking req).

(** A tokenizer whose ids fit the wire and whose specials decode to their literals. *)
Record wire_ok (t : Tokenizer) : Prop := {
  wo_vocab : vocab_ok t;
  wo_nonempty : specials_nonempty t;
  wo_specials : Forall (fun sp => Decode t [sp_id sp] = sp_str sp) (specials t);
  wo_tokens s id : tokToID t !! s = Some id -> in_int 32 id;
  wo_special_ids : Forall (fun sp => in_int 32 (sp_id sp)) (specials t);
}.

Lemma int32_ids ids : Forall (in_int 32) ids -> int32 <$> ids = ids.
Proof.
  induction 1 as [|id ids Hid _ IH]; [done|]. cbn [fmap list_fmap]. rewrite IH. f_equal.
  by apply wrap_id.
Qed.

Lemma prompt_ids_text g req :
  wire_ok (gtok g) -> InputIDs req = [] ->
  exists ids, prompt_ids g req = Ret ids /\ Decode (gtok g) ids = prompt_text req /\ int32 <$> ids = ids.
Proof.
  intros [Hv Hne Hs Ht Hi] He. unfold prompt_ids, prompt_text. rewrite He. cbn [length].
  set (text := if _ : bool then RawPrompt req else _).
  assert (exists ids, Encode (gtok g) text = Ret ids /\ Decode (gtok g) ids = text /\
                      int32 <$> ids = ids) as (ids & E & Hd & Hw).
  { destruct (Encode_ok (gtok g) text Hne) as (ids & E & Henc). exists ids.
    split_and!; [done|by eapply encodes_decodes|]. apply int32_ids.
    eapply (Encode_Forall (gtok g)); [done| |done]. intros sp Hsp. by eapply Forall_forall in Hi. }
  exists ids. split; [|done]. subst text. by destruct (negb _).
Qed.

(** ** Totality *)

Lemma buildRequest_total g req :
  specials_nonempty (gtok g) -> exists r, buildRequest g req = Ret r.
Proof.
  intros Hne. assert (exists ids, prompt_ids g req = Ret ids) as [ids Hp].
  { unfold prompt_ids. destruct (0 <? _)%nat; [by eexists|].
    destruct (negb _); edestruct (Encode_ok (gtok g)) as (? & ? & _); eauto. }
  unfold buildRequest. rewrite Hp. cbn [run_bind]. destruct (resolveMaxTokens _ _ _); by eexists.
Qed.

(** Whatever happens, [Generate] returns, having notified some deltas. *)
Lemma Generate_total g req :
  specials_nonempty (gtok g) ->
  exists ds r, Forall (fun d => is_delta d = true) ds /\
    forall S onDelta (s : S), Generate g req onDelta s = Ret (notify onDelta s ds, r).
Proof.
  intros Hne. destruct (buildRequest_total g req Hne) as [[greq|err] Hb];
    [destruct (cli_Generate (conn g) greq) as [st|err] eqn:Hc|].
  - assert (answers g req greq st) as Ha by by split.
    destruct (outcome st) as [stats|err] eqn:Ho.
    + exists (chat_deltas (cm g) (answer_ids st)), (Ok (chat_result (cm g) st stats)).
      split; [apply chat_deltas_ok|]. intros S onDelta s. by rewrite (Generate_eq _ _ _ _ _ _ Ha), Ho.
    + exists (token_deltas (cm g) (answer_ids st)), (Err err).
      split; [apply deltas_ok|]. intros S onDelta s. by rewrite (Generate_eq _ _ _ _ _ _ Ha), Ho.
  - exists [], (Err err). split; [constructor|]. intros S onDelta s. unfold Generate, stream.
    rewrite Hb. cbn [run_bind]. rewrite Hc. by destruct onDelta.
  - exists [], (Err err). split; [constructor|]. intros S onDelta s. unfold Generate.
    rewrite Hb. by destruct onDelta.
Qed.

Lemma Complete_total g req :
  specials_nonempty (gtok g) ->
  exists ds r, Forall (fun d => d <> []) ds /\
    forall S onDelta (s : S), Complete g req onDelta s = Ret (notify_text onDelta s ds, r).
Proof.
  intros Hne. destruct (buildRequest_total g req Hne) as [[greq|err] Hb];
    [destruct (cli_Generate (conn g) greq) as [st|err] eqn:Hc|].
  - assert (answers g req greq st) as Ha by by split.
    destruct (outcome st) as [stats|err] eqn:Ho.
    + exists (raw_deltas (gtok g) (answer_ids st)), (Ok (raw_result (gtok g) st stats)).
      split; [apply raw_deltas_nonempty|].
      intros S onDelta s. by rewrite (Complete_eq _ _ _ _ _ _ Ha), Ho.
    + exists (raw_token_deltas (gtok g) (answer_ids st)), (Err err).
      split; [apply filter_nonempty|].
      intros S onDelta s. by rewrite (Complete_eq _ _ _ _ _ _ Ha), Ho.
  - exists [], (Err err). split; [constructor|]. intros S onDelta s. unfold Complete, stream.
    rewrite Hb. cbn [run_bind]. rewrite Hc. by destruct onDelta.
  - exists [], (Err err). split; [constructor|]. intros S onDelta s. unfold Complete.
    rewrite Hb. by destruct onDelta.
Qed.

(** ** Properties *)

(** C12: a chat completion delivers exactly what the engine's ids mean: the aggregated text
    is the decode of the visible ids, the calls are those between the markers, the finish
    reason is overridden exactly when there are calls; the callback saw the same text and
    calls piece by piece, every piece carrying something, and no piece holding half a
    character when the whole text is well-formed. *)
Theorem Generate_delivers {S} g req onDelta (s : S) greq st stats :
  answers g req greq st -> outcome st = Ok stats ->
  let ds := chat_deltas (cm g) (answer_ids st) in
  let res := chat_result (cm g) st stats in
  Generate g req onDelta s = Ret (notify onDelta s ds, Ok res) /\
  concat (fst <$> ds) = Text res /\ omap snd ds = res_ToolCalls res /\
  Forall (fun d => is_delta d = true) ds /\
  (valid (Text res) -> Forall (fun d => valid d.1) ds).
Proof.
  intros Ha Ho ds res. rewrite (Generate_eq _ _ _ _ _ _ Ha), Ho. subst ds res.
  split_and!; [done|apply chat_deltas_text|apply chat_deltas_calls|apply chat_deltas_ok|].
  apply chat_deltas_valid.
Qed.

(** A raw completion delivers the decode of all the ids, none hidden, in non-empty
    pieces that are well-formed when the whole text is. *)
Lemma Complete_delivers {S} g req onDelta (s : S) greq st stats :
  answers g req greq st -> outcome st = Ok stats ->
  let ds := raw_deltas (gtok g) (answer_ids st) in
  let res := raw_result (gtok g) st stats in
  Complete g req onDelta s = Ret (notify_text onDelta s ds, Ok res) /\
  concat ds = Text res /\ Forall (fun d => d <> []) ds /\
  (valid (Text res) -> Forall valid ds).
Proof.
  intros Ha Ho ds res. rewrite (Complete_eq _ _ _ _ _ _ Ha), Ho. subst ds res.
  split_and!; [done|apply raw_deltas_text|apply raw_deltas_nonempty|apply raw_deltas_valid].
Qed.

(** C27: the length policy: the budget sent fits the context window and the request, it is
    the whole remaining window when none was asked for, and the only refusal is a prompt
    that leaves no room. *)
Theorem buildRequest_length_policy g req ids :
  prompt_ids g req = Ret ids -> in_int 32 (maxCtx g) -> (len ids < 2 ^ 62)%Z ->
  match buildRequest g req with
  | Ret (Ok greq) =>
      (1 <= pb_MaxTokens greq <= maxCtx g - len (InputIds greq))%Z /\
      pb_MaxTokens greq = (if (MaxTokens req <=? 0)%Z then maxCtx g - len ids
                           else Z.min (MaxTokens req) (maxCtx g - len ids))%Z
  | Ret (Err err) => (maxCtx g <= len ids)%Z /\ errors_Is err ErrPromptTooLong = true
  | _ => False
  end.
Proof.
  intros Hp Hm Hl. unfold buildRequest. rewrite Hp. cbn [run_bind].
  rewrite resolveMaxTokens_eq by (done || (unfold len in *; lia)).
  destruct (Z.leb_spec (maxCtx g) (len ids)); [by split; [|vm_compute]|].
  cbn [pb_MaxTokens InputIds]. unfold len in *. rewrite length_fmap.
  assert (in_int 32 (if (MaxTokens req <=? 0)%Z then maxCtx g - Z.of_nat (length ids)
    else Z.min (MaxTokens req) (maxCtx g - Z.of_nat (length ids)))).
  { unfold in_int in *. destruct (Z.leb_spec (MaxTokens req) 0); lia. }
  unfold int32. rewrite wrap_id by done. split; [|done].
  destruct (Z.leb_spec (MaxTokens req) 0); lia.
Qed.

(** The engine is given the prompt: unless the prompt is too long, the ids sent decode
    to the raw prompt, or to the rendered conversation if there is none. *)
Lemma buildRequest_sends_prompt g req :
  wire_ok (gtok g) -> InputIDs req = [] ->
  exists ids, prompt_ids g req = Ret ids /\
    forall greq, buildRequest g req = Ret (Ok greq) ->
      InputIds greq = ids /\ Decode (gtok g) (InputIds greq) = prompt_text req /\
      StopTokenIds greq = if IgnoreEOS req then [] else StopTokenIDs (cm g).
Proof.
  intros Hw He. destruct (prompt_ids_text g req Hw He) as (ids & Hp & Hd & Hi).
  exists ids. split; [done|]. intros greq. unfold buildRequest. rewrite Hp. cbn [run_bind].
  destruct (resolveMaxTokens _ _ _); [|done]. intros [= <-]. cbn. by rewrite Hi.
Qed.

(** Ids supplied by the caller are sent modulo 2^32: an id outside the 32-bit range
    reaches the engine as a different one. *)
Lemma buildRequest_truncates_ids g req greq i id :
  InputIDs req !! i = Some id -> buildRequest g req = Ret (Ok greq) ->
  exists id', InputIds greq !! i = Some id' /\ in_int 32 id' /\ (id' mod 2 ^ 32 = id mod 2 ^ 32)%Z.
Proof.
  intros Hi. unfold buildRequest, prompt_ids.
  assert (0 <? length (InputIDs req) = true)%nat as ->.
  { apply Nat.ltb_lt. apply lookup_lt_Some in Hi. lia. }
  cbn [run_bind]. destruct (resolveMaxTokens _ _ _); [|done]. intros [= <-]. cbn [InputIds].
  exists (int32 id). rewrite list_lookup_fmap, Hi. split_and!; [done|by apply wrap_range|].
  unfold int32, wrap. rewrite Zminus_mod_idemp_l. f_equal. lia.
Qed.

(** ** Witnesses *)

Lemma toy_wire_ok : wire_ok toy.
Proof.
  split; [apply toy_vocab_ok|apply toy_specials_ok|apply toy_specials_ok| |].
  - apply map_Forall_lookup. apply (bool_decide_eq_true_1 _). vm_compute. reflexivity.
  - apply (bool_decide_eq_true_1 _). vm_compute. reflexivity.
Qed.

(** An engine that answers every request with one call, an accented letter split over two
    tokens, and the stop token. *)
Definition toy_events : list pb_event :=
  EvTokenId <$> (104 :: 300 :: call_ids ++ [301; 195])%Z.

Definition toy_stream : rpc_stream :=
  {| events := toy_events ++ [EvUnset; EvTokenId 169; EvTokenId 259; EvDone (go "stop") 1 5];
     ending := None |}.

Definition toy_client : Client :=
  {| cli_GetModel := fun _ => Ok (Build_ModelInfo (go "toy") 64 260);
     cli_Generate := fun _ => Ok toy_stream |}.

Definition toy_generator : Generator := NewGenerator toy_client toy_format toy 64.

Definition toy_request : Request :=
  {| Messages := []; Tools := []; EnableThinking := false; MaxTokens := 100;
     Temperature := None; TopP := None; IgnoreEOS := false; RawPrompt := go "hel";
     InputIDs := [] |}.

Definition toy_greq : GenerateRequest :=
  {| InputIds := [257%Z]; pb_MaxTokens := 63; pb_Temperature := S754_zero false;
     pb_TopP := float32_one; StopTokenIds := [259%Z] |}.

Lemma toy_answers : answers toy_generator toy_request toy_greq toy_stream.
Proof. split; vm_compute; reflexivity. Qed.

Lemma Generate_delivers_witness :
  Text (chat_result toy_format toy_stream (Build_Stats (go "stop") 1 5)) = x68 :: [xc3; xa9] /\
  FinishReason (chat_result toy_format toy_stream (Build_Stats (go "stop") 1 5)) = go "tool_calls" /\
  Generate toy_generator toy_request (Some (fun t tc l => l ++ [(t, tc)])) [] =
    Ret (notify (Some (fun t tc l => l ++ [(t, tc)])) [] (chat_deltas toy_format (answer_ids toy_stream)),
         Ok (chat_result toy_format toy_stream (Build_Stats (go "stop") 1 5))).
Proof.
  split; [vm_compute; reflexivity|]. split; [vm_compute; reflexivity|].
  apply (Generate_delivers toy_generator toy_request _ [] toy_greq toy_stream (Build_Stats (go "stop") 1 5)).
  - exact toy_answers.
  - vm_compute. reflexivity.
Defined.

Lemma Complete_delivers_witness :
  concat (raw_deltas toy (answer_ids toy_stream))
    = go "h" ++ Decode toy call_ids ++ [xc3; xa9] ++ go "<|im_end|>" /\
  Complete toy_generator toy_request (Some (fun t l => l ++ [t])) [] =
    Ret (notify_text (Some (fun t l => l ++ [t])) [] (raw_deltas toy (answer_ids toy_stream)),
         Ok (raw_result toy toy_stream (Build_Stats (go "stop") 1 5))).
Proof.
  split; [vm_compute; reflexivity|].
  apply (Complete_delivers toy_generator toy_request _ [] toy_greq toy_stream (Build_Stats (go "stop") 1 5)).
  - exact toy_answers.
  - vm_compute. reflexivity.
Defined.

Lemma buildRequest_length_policy_witness :
  match buildRequest toy_generator toy_request with
  | Ret (Ok greq) =>
      (1 <= pb_MaxTokens greq <= 64 - len (InputIds greq))%Z /\ pb_MaxTokens greq = 63%Z
  | Ret (Err err) => (64 <= 1)%Z /\ errors_Is err ErrPromptTooLong = true
  | _ => False
  end.
Proof.
  apply (buildRequest_length_policy toy_generator toy_request [257%Z]);
    [vm_compute; reflexivity|split; vm_compute; congruence|vm_compute; reflexivity].
Defined.

Lemma buildRequest_sends_prompt_witness :
  exists ids, prompt_ids toy_generator toy_request = Ret ids /\
    forall greq, buildRequest toy_generator toy_request = Ret (Ok greq) ->
      InputIds greq = ids /\ Decode toy (InputIds greq) = go "hel" /\
      StopTokenIds greq = [259%Z].
Proof.
  apply (buildRequest_sends_prompt toy_generator toy_request); [exact toy_wire_ok|reflexivity].
Defined.

Definition big_id_request : Request :=
  {| Messages := []; Tools := []; EnableThinking := false; MaxTokens := 1;
     Temperature := None; TopP := None; IgnoreEOS := true; RawPrompt := [];
     InputIDs := [2 ^ 32 + 104]%Z |}.

Example buildRequest_truncates_ids_ex :
  exists id', [104%Z] !! 0%nat = Some id' /\ in_int 32 id' /\ (id' mod 2 ^ 32 = (2 ^ 32 + 104) mod 2 ^ 32)%Z.
Proof.
  apply (buildRequest_truncates_ids toy_generator big_id_request
    (Build_GenerateRequest [104%Z] 1 (S754_zero false) float32_one []) 0 (2 ^ 32 + 104)%Z);
    vm_compute; reflexivity.
Qed.
