(* ===== verification/OpenAI.v ===== *)
(** * The OpenAI wire types

    Models [internal/server/types.go]: the request types as the JSON binding fills them
    in, the flattening of a message's content, and the response types with the JSON
    [json.Marshal] writes for them (field order, [omitempty] and [null] as declared by
    the struct tags). *)

From S2P Require Import Prelude Utf8 GoStrings Json Client.
Local Open Scope go_scope.

(** ** Requests *)
Record ToolCallFunction := { f_Name : bytes; f_Arguments : bytes }.

Record ToolCall := { o_ID : bytes; o_Type : bytes; o_Function : ToolCallFunction }.

Record ChatMessage := {
  m_Role : bytes;
  m_Content : bytes;  (** raw JSON; empty when the field is absent *)
  m_Name : bytes;
  m_ToolCalls : list ToolCall;
  m_ToolCallID : bytes;
}.

Record FunctionDef := { fd_Name : bytes; fd_Description : bytes; fd_Parameters : bytes }.

Record Tool := { t_Type : bytes; t_Function : FunctionDef }.

Record StreamOptions := { IncludeUsage : bool }.

Record ChatRequest := {
  c_Model : bytes;
  c_Messages : list ChatMessage;
  c_Tools : list Tool;
  c_Stream : bool;
  c_StreamOptions : option StreamOptions;
  c_MaxTokens : Z;
  c_MaxCompletionTokens : Z;
  c_Temperature : option float64;
  c_TopP : option float64;
  c_IgnoreEOS : bool;
  c_EnableThinking : option bool;
}.

Record CompletionRequest := {
  r_Model : bytes;
  r_Prompt : bytes;  (** raw JSON; empty when the field is absent *)
  r_MaxTokens : Z;
  r_Temperature : option float64;
  r_TopP : option float64;
  r_Stream : bool;
  r_StreamOptions : option StreamOptions;
  r_IgnoreEOS : bool;
}.

(** One element of a multimodal content array: its type and text. *)
Definition dec_part : json -> option (bytes * bytes) :=
  dec_struct (fun l =>
    ty ← last_field dec_string [] (fields (go "type") l);
    text ← last_field dec_string [] (fields (go "text") l);
    Some (ty, text)).

(** [ChatMessage.Text] of the raw content. *)
Definition content_text (content : bytes) : bytes :=
  if (length content =? 0)%nat || bool_decide (content = go "null") then [] else
  match unmarshal dec_string content with
  | Some s => s
  | None =>
      match unmarshal (dec_list dec_part) content with
      | Some parts =>
          foldl (fun out p => if bool_decide (p.1 = go "text") then out ++ p.2 else out) [] parts
      | None => []
      end
  end.

Definition ChatMessage_Text (m : ChatMessage) : bytes := content_text (m_Content m).

Example content_text_ex :
  content_text <$>
    [go "null"; go "\qhi\q"; [];
     go "[{\qtype\q:\qtext\q,\qtext\q:\qa\q},{\qtype\q:\qimage_url\q},{\qtext\q:\qb\q,\qtype\q:\qtext\q}]";
     go "7"]
  = [[]; go "hi"; []; go "ab"; []].
Proof. vm_compute. reflexivity. Qed.

(** ** Responses *)
Record Usage := { u_PromptTokens : Z; u_CompletionTokens : Z; u_TotalTokens : Z }.

Record RespMessage := { p_Role : bytes; p_Content : option bytes; p_ToolCalls : list ToolCall }.

Record Choice := {
  h_Index : Z;
  h_Message : option RespMessage;
  h_Delta : option RespMessage;
  h_FinishReason : option bytes;
}.

Record ChatCompletion := {
  cc_ID : bytes;
  cc_Object : bytes;
  cc_Created : Z;
  cc_Model : bytes;
  cc_Choices : list Choice;
  cc_Usage : option Usage;
}.

Record CompletionChoice := { k_Index : Z; k_Text : bytes; k_FinishReason : option bytes }.

Record Completion := {
  co_ID : bytes;
  co_Object : bytes;
  co_Created : Z;
  co_Model : bytes;
  co_Choices : list CompletionChoice;
  co_Usage : option Usage;
}.

Record Model := { md_ID : bytes; md_Object : bytes; md_Created : Z; md_OwnedBy : bytes }.

Record ModelList := { ml_Object : bytes; ml_Data : list Model }.

(** *** [json.Marshal] *)
Definition enc_opt_string (s : option bytes) : bytes :=
  match s with Some s => enc_string s | None => go "null" end.

(** A field written only when it is present. *)
Definition omit {A} (key : string) (enc : A -> bytes) (v : option A) : list (string * bytes) :=
  match v with Some v => [(key, enc v)] | None => [] end.

Definition omit_nil {A} (l : list A) : option (list A) := match l with [] => None | _ => Some l end.

Definition enc_list {A} (enc : A -> bytes) (l : list A) : bytes := enc_arr (enc <$> l).

Definition enc_ToolCall (tc : ToolCall) : bytes :=
  enc_obj [("id", enc_string (o_ID tc)); ("type", enc_string (o_Type tc));
           ("function", enc_obj [("name", enc_string (f_Name (o_Function tc)));
                                 ("arguments", enc_string (f_Arguments (o_Function tc)))])].

Definition enc_RespMessage (m : RespMessage) : bytes :=
  enc_obj ([("role", enc_string (p_Role m)); ("content", enc_opt_string (p_Content m))]
           ++ omit "tool_calls" (enc_list enc_ToolCall) (omit_nil (p_ToolCalls m))).

Definition enc_Usage (u : Usage) : bytes :=
  enc_obj [("prompt_tokens", itoa (u_PromptTokens u));
           ("completion_tokens", itoa (u_CompletionTokens u));
           ("total_tokens", itoa (u_TotalTokens u))].

Definition enc_Choice (c : Choice) : bytes :=
  enc_obj ([("index", itoa (h_Index c))]
           ++ omit "message" enc_RespMessage (h_Message c)
           ++ omit "delta" enc_RespMessage (h_Delta c)
           ++ [("finish_reason", enc_opt_string (h_FinishReason c))]).

Definition enc_ChatCompletion (cc : ChatCompletion) : bytes :=
  enc_obj ([("id", enc_string (cc_ID cc)); ("object", enc_string (cc_Object cc));
            ("created", itoa (cc_Created cc)); ("model", enc_string (cc_Model cc));
            ("choices", enc_list enc_Choice (cc_Choices cc))]
           ++ omit "usage" enc_Usage (cc_Usage cc)).

Definition enc_CompletionChoice (c : CompletionChoice) : bytes :=
  enc_obj [("index", itoa (k_Index c)); ("text", enc_string (k_Text c));
           ("finish_reason", enc_opt_string (k_FinishReason c))].

Definition enc_Completion (c : Completion) : bytes :=
  enc_obj ([("id", enc_string (co_ID c)); ("object", enc_string (co_Object c));
            ("created", itoa (co_Created c)); ("model", enc_string (co_Model c));
            ("choices", enc_list enc_CompletionChoice (co_Choices c))]
           ++ omit "usage" enc_Usage (co_Usage c)).

Definition enc_Model (m : Model) : bytes :=
  enc_obj [("id", enc_string (md_ID m)); ("object", enc_string (md_Object m));
           ("created", itoa (md_Created m)); ("owned_by", enc_string (md_OwnedBy m))].

Definition enc_ModelList (l : ModelList) : bytes :=
  enc_obj [("object", enc_string (ml_Object l)); ("data", enc_list enc_Model (ml_Data l))].

Example enc_chunk_ex :
  enc_ChatCompletion
    {| cc_ID := go "x"; cc_Object := go "chat.completion.chunk"; cc_Created := 17; cc_Model := go "m";
       cc_Choices := [{| h_Index := 0; h_Message := None;
                         h_Delta := Some (Build_RespMessage (go "assistant") None []);
                         h_FinishReason := None |}];
       cc_Usage := None |}
  = go "{\qid\q:\qx\q,\qobject\q:\qchat.completion.chunk\q,\qcreated\q:17,\qmodel\q:\qm\q,\qchoices\q:[{\qindex\q:0,\qdelta\q:{\qrole\q:\qassistant\q,\qcontent\q:null},\qfinish_reason\q:null}]}".
Proof. vm_compute. reflexivity. Qed.

(** ** Marshalled values are single lines *)
Lemma itoa_plain z : plain (itoa z).
Proof.
  assert (forall f z acc, (0 <= z)%Z -> plain acc -> plain (digits f z acc)) as H.
  { induction f as [|f IH]; intros z' acc Hz Ha; [done|]. cbn [digits].
    assert (plain (byte_of_Z (48 + z' mod 10) :: acc)) as Ha'.
    { constructor; [|done]. pose proof (Z.mod_pos_bound z' 10 ltac:(lia)). unfold plain_byte.
      rewrite bz_byte_of_Z by lia. rewrite (proj2 (Z.leb_le _ _)) by lia.
      rewrite bool_decide_eq_false_2; [done|]. intros E.
      apply (f_equal bz) in E. rewrite bz_byte_of_Z in E by lia. vm_compute (bz x3c) in E. lia. }
    destruct (z' <? 10)%Z; [done|]. apply IH; [apply Z.div_pos; lia|done]. }
  unfold itoa. destruct (Z.ltb_spec z 0); [apply plain_cons; [done|]|]; apply H; constructor || lia.
Qed.

Lemma enc_opt_string_plain s : plain (enc_opt_string s).
Proof. destruct s; [apply enc_string_plain|apply plainb_ok; vm_compute; reflexivity]. Qed.

Lemma omit_plain {A} key (enc : A -> bytes) v :
  (forall a, plain (enc a)) -> Forall (fun f => plain f.2) (omit key enc v).
Proof. intros H. destruct v; simpl; repeat constructor. apply H. Qed.

Lemma enc_list_plain {A} (enc : A -> bytes) l : (forall a, plain (enc a)) -> plain (enc_list enc l).
Proof. intros H. apply enc_arr_plain, Forall_fmap, Forall_forall. intros x _. apply H. Qed.

#[export] Hint Resolve itoa_plain enc_string_plain enc_opt_string_plain : flash.

(** An object whose parts are plain is plain; [flash] knows the basic encoders. *)
Ltac plain_obj :=
  apply enc_obj_plain;
  repeat match goal with
  | |- Forall _ (_ ++ _) => apply Forall_app; split
  | |- Forall _ (_ :: _) => apply Forall_cons; split
  | |- Forall _ [] => apply Forall_nil_2
  end; cbn [snd]; auto with flash.

Lemma enc_ToolCall_plain tc : plain (enc_ToolCall tc).
Proof. plain_obj. plain_obj. Qed.

Lemma enc_RespMessage_plain m : plain (enc_RespMessage m).
Proof. plain_obj. apply omit_plain. intros l. apply enc_list_plain, enc_ToolCall_plain. Qed.

Lemma enc_Usage_plain u : plain (enc_Usage u).
Proof. plain_obj. Qed.

Lemma enc_Choice_plain c : plain (enc_Choice c).
Proof. plain_obj; apply omit_plain, enc_RespMessage_plain. Qed.

Lemma enc_ChatCompletion_plain cc : plain (enc_ChatCompletion cc).
Proof. plain_obj; [apply enc_list_plain, enc_Choice_plain|apply omit_plain, enc_Usage_plain]. Qed.

Lemma enc_CompletionChoice_plain c : plain (enc_CompletionChoice c).
Proof. plain_obj. Qed.

Lemma enc_Completion_plain c : plain (enc_Completion c).
Proof. plain_obj; [apply enc_list_plain, enc_CompletionChoice_plain|apply omit_plain, enc_Usage_plain]. Qed.
