(* ===== verification/Sse.v ===== *)
(** * Reading a server-sent event stream

    What a client of the streaming endpoints does with the bytes it receives, after the
    WHATWG specification of [text/event-stream]: lines end at CR, LF or CRLF, a [data]
    field adds its value to the event and a blank line dispatches it. The handlers'
    theorems are stated on what this reader returns. *)

From S2P Require Import Prelude GoStrings Json.
Local Open Scope go_scope.

(** The terminated lines of [s]; what follows the last terminator is dropped. *)
Fixpoint sse_lines (cur : bytes) (s : bytes) : list bytes :=
  match s with
  | [] => []
  | b :: r =>
      if Byte.eqb b x0a then cur :: sse_lines [] r
      else if Byte.eqb b x0d then
        cur :: match r with
               | c :: r' => if Byte.eqb c x0a then sse_lines [] r' else sse_lines [] r
               | [] => []
               end
      else sse_lines (cur ++ [b]) r
  end.

(** The value of a [data] line, a leading space removed. *)
Definition data_value (line : bytes) : option bytes :=
  if has_prefix line (go "data:") then
    Some (match drop 5 line with b :: r => if Byte.eqb b x20 then r else b :: r | [] => [] end)
  else None.

(** [data]: the values collected for the event being read. *)
Fixpoint dispatch (data : list bytes) (lines : list bytes) : list bytes :=
  match lines with
  | [] => []
  | line :: rest =>
      if (length line =? 0)%nat then
        match data with [] => dispatch [] rest | _ => join [x0a] data :: dispatch [] rest end
      else match data_value line with
           | Some v => dispatch (data ++ [v]) rest
           | None => dispatch data rest
           end
  end.

Definition sse_read (s : bytes) : list bytes := dispatch [] (sse_lines [] s).

Lemma sse_lines_plain cur p rest :
  plain p -> sse_lines cur (p ++ x0a :: rest) = (cur ++ p) :: sse_lines [] rest.
Proof.
  intros Hp. revert cur. induction Hp as [|b p Hb _ IH]; intros cur; cbn [app sse_lines].
  { rewrite app_nil_r. done. }
  assert (Byte.eqb b x0a = false /\ Byte.eqb b x0d = false) as [-> ->].
  { revert Hb. clear. destruct b; intros Hb; by vm_compute in Hb || (split; reflexivity). }
  rewrite IH. by rewrite <- app_assoc.
Qed.

(** One event of a single-line payload is read back, whatever follows. *)
Lemma sse_read_event p rest :
  plain p -> sse_read (go "data: " ++ p ++ go "\n\n" ++ rest) = p :: sse_read rest.
Proof.
  intros Hp. unfold sse_read.
  assert (go "\n\n" = [x0a; x0a]) as -> by (vm_compute; reflexivity).
  rewrite app_assoc. cbn [app]. rewrite sse_lines_plain.
  2: { apply plain_app. split; [apply plainb_ok; vm_compute; reflexivity|done]. }
  cbn [app sse_lines]. change (Byte.eqb x0a x0a) with true. cbn [app dispatch].
  assert (length (go "data: " ++ p) =? 0 = false)%nat as ->.
  { rewrite length_app. vm_compute (length (go "data: ")). done. }
  assert (data_value (go "data: " ++ p) = Some p) as ->.
  { unfold data_value. assert (go "data: " = go "data:" ++ [x20]) as -> by (vm_compute; reflexivity).
    rewrite <- app_assoc, has_prefix_app. change 5%nat with (length (go "data:")).
    by rewrite drop_app_length. }
  done.
Qed.
