(* ===== verification/Server.v ===== *)
(** * The OpenAI-compatible HTTP handlers

    Models [internal/server/completions.go] and [internal/server/server.go]. A handler is
    the sequence of effects it has on the response: headers set, a JSON body written with
    a status, bytes written to the stream, flushes. What gin's binding made of the request
    body is an argument here, given by [Binding] in [Routes]; the random
    words, the clock, whether the writer can flush and whether the client has gone when
    generation failed are the [Env]. *)

From S2P Require Import Prelude Utf8 GoStrings TokenizerCore Json Chatml Render Stream Client.
From S2P Require Import Generate OpenAI.
Local Open Scope go_scope.

Record Server := { gen : Generator; model : bytes }.

Definition New (gen : Generator) (model : bytes) : Server := {| gen := gen; model := model |}.

Record Env := {
  rand1 : Z;      (** the two draws of [rand.Uint64] *)
  rand2 : Z;
  unix_now : Z;
  can_flush : bool;
  ctx_err : bool; (** [c.Request.Context().Err() != nil] when [Generate] has failed *)
}.

Inductive effect :=
  | SetHeader (k v : bytes)
  | JSON (status : Z) (body : bytes)
  | Plain (status : Z) (body : bytes)  (** [c.String] *)
  | Write (b : bytes)
  | Flush.

(** ** Ids *)

(** [%016x] *)
Fixpoint hex_digits (n : nat) (z : Z) (acc : bytes) : bytes :=
  match n with
  | O => acc
  | S n => hex_digits n (z / 16) (hex_digit (z mod 16) :: acc)
  end.

Definition newID (env : Env) : bytes :=
  go "chatcmpl-" ++ hex_digits 16 (rand1 env) [] ++ hex_digits 16 (rand2 env) [].

(** ** Errors *)
Definition StatusOK : Z := 200.
Definition StatusBadRequest : Z := 400.
Definition StatusInternalServerError : Z := 500.
Definition StatusBadGateway : Z := 502.
Definition StatusServiceUnavailable : Z := 503.

Definition classifyError (err : error) : Z * bytes :=
  if errors_Is err ErrPromptTooLong then (StatusBadRequest, go "invalid_request_error")
  else if errors_Is err ErrOverCapacity then (StatusServiceUnavailable, go "overloaded_error")
  else (StatusBadGateway, go "engine_error").

(** [gin.H{"error": gin.H{"message": msg, "type": typ}}] *)
Definition error_body (msg typ : bytes) : bytes :=
  enc_obj [("error", enc_obj [("message", enc_string msg); ("type", enc_string typ)])].

Definition unsupported_body : bytes :=
  enc_obj [("error", enc_obj [("message", enc_string (go "streaming unsupported"))])].

(** ** Decoding requests *)
Definition decode_message (m : ChatMessage) : Message :=
  {| Role := m_Role m; Content := ChatMessage_Text m; ToolCallID := m_ToolCallID m;
     Chatml.ToolCalls :=
       (fun tc => {| tc_ID := o_ID tc; tc_Name := f_Name (o_Function tc);
                     tc_ArgumentsJSON := f_Arguments (o_Function tc) |}) <$> m_ToolCalls m |}.

Definition decode_tool (t : Tool) : ToolDef :=
  {| td_Name := fd_Name (t_Function t); Description := fd_Description (t_Function t);
     ParametersJSON := fd_Parameters (t_Function t) |}.

Definition decode (req : ChatRequest) : Request :=
  let maxTokens := if (0 <? c_MaxCompletionTokens req)%Z then c_MaxCompletionTokens req
                   else c_MaxTokens req in
  {| Messages := decode_message <$> c_Messages req;
     Tools := decode_tool <$> c_Tools req;
     EnableThinking := match c_EnableThinking req with Some b => b | None => false end;
     MaxTokens := maxTokens;
     Temperature := c_Temperature req;
     TopP := c_TopP req;
     IgnoreEOS := c_IgnoreEOS req;
     RawPrompt := [];
     InputIDs := [] |}.

Definition raw_request (req : CompletionRequest) (prompt : bytes) (ids : list Z) : Request :=
  {| Messages := []; Tools := []; EnableThinking := false;
     MaxTokens := r_MaxTokens req; Temperature := r_Temperature req; TopP := r_TopP req;
     IgnoreEOS := r_IgnoreEOS req; RawPrompt := prompt; InputIDs := ids |}.

Definition decodeCompletion (req : CompletionRequest) : result error Request :=
  match unmarshal dec_string (r_Prompt req) with
  | Some s => Ok (raw_request req s [])
  | None =>
      match unmarshal (dec_list dec_int) (r_Prompt req) with
      | Some ids => Ok (raw_request req [] ids)
      | None => Err (new_error (go "prompt must be a string or an array of token ids"))
      end
  end.

Definition toolCalls (tcs : list Chatml.ToolCall) : list ToolCall :=
  (fun tc => {| o_ID := tc_ID tc; o_Type := go "function";
                o_Function := {| f_Name := tc_Name tc; f_Arguments := tc_ArgumentsJSON tc |} |}) <$> tcs.

Definition usage (res : Result) : Usage :=
  {| u_PromptTokens := PromptTokens res; u_CompletionTokens := CompletionTokens res;
     u_TotalTokens := int64 (PromptTokens res + CompletionTokens res) |}.

(** A server-sent event: [fmt.Fprintf(c.Writer, "data: %s\n\n", b)]. *)
Definition sse_event (b : bytes) : bytes := go "data: " ++ b ++ go "\n\n".

Definition done_event : bytes := go "data: [DONE]\n\n".

Definition sse_headers : list effect :=
  [SetHeader (go "Content-Type") (go "text/event-stream");
   SetHeader (go "Cache-Control") (go "no-cache");
   SetHeader (go "Connection") (go "keep-alive")].

Section handlers.
Context (s : Server) (env : Env).

Definition listModels : list effect :=
  [JSON StatusOK (enc_ModelList
    {| ml_Object := go "list";
       ml_Data := [{| md_ID := model s; md_Object := go "model"; md_Created := unix_now env;
                      md_OwnedBy := go "flashqwen" |}] |})].

Definition json_error (err : error) : list effect :=
  let '(status, typ) := classifyError err in [JSON status (error_body (Error err) typ)].

(** The end of a stream whose generation failed. *)
Definition stream_error (err : error) : list effect :=
  if ctx_err env then [] else
  let '(_, typ) := classifyError err in
  [Write (sse_event (error_body (Error err) typ)); Write done_event; Flush].

(** *** Chat completions *)
Definition chat_message (res : Result) : RespMessage :=
  if (0 <? length (res_ToolCalls res))%nat then
    {| p_Role := go "assistant"; p_ToolCalls := toolCalls (res_ToolCalls res);
       p_Content := if nonempty (Text res) then Some (Text res) else None |}
  else {| p_Role := go "assistant"; p_ToolCalls := []; p_Content := Some (Text res) |}.

Definition blockingChat (req : Request) : run (list effect) :=
  let* (_, r) := Generate (gen s) req None tt in
  match r with
  | Err err => Ret (json_error err)
  | Ok res =>
      Ret [JSON StatusOK (enc_ChatCompletion
        {| cc_ID := newID env; cc_Object := go "chat.completion"; cc_Created := unix_now env;
           cc_Model := model s;
           cc_Choices := [{| h_Index := 0; h_Message := Some (chat_message res); h_Delta := None;
                             h_FinishReason := Some (FinishReason res) |}];
           cc_Usage := Some (usage res) |})]
  end.

Definition chat_chunk (choices : list Choice) (u : option Usage) : ChatCompletion :=
  {| cc_ID := newID env; cc_Object := go "chat.completion.chunk"; cc_Created := unix_now env;
     cc_Model := model s; cc_Choices := choices; cc_Usage := u |}.

Definition delta_chunk (delta : RespMessage) (reason : option bytes) : ChatCompletion :=
  chat_chunk [{| h_Index := 0; h_Message := None; h_Delta := Some delta; h_FinishReason := reason |}] None.

Definition chunk (delta : RespMessage) (reason : option bytes) (tr : list effect) : list effect :=
  tr ++ [Write (sse_event (enc_ChatCompletion (delta_chunk delta reason))); Flush].

Definition role_message : RespMessage := {| p_Role := go "assistant"; p_Content := None; p_ToolCalls := [] |}.

Definition sendRole (st : bool * list effect) : bool * list effect :=
  let '(roleSent, tr) := st in
  if roleSent then st else (true, chunk role_message None tr).

Definition on_chat_delta (text : bytes) (tc : option Chatml.ToolCall) (st : bool * list effect)
    : bool * list effect :=
  let '(roleSent, tr) := sendRole st in
  let tr := if nonempty text
            then chunk {| p_Role := []; p_Content := Some text; p_ToolCalls := [] |} None tr
            else tr in
  let tr := match tc with
            | Some tc => chunk {| p_Role := []; p_Content := None; p_ToolCalls := toolCalls [tc] |} None tr
            | None => tr
            end in
  (roleSent, tr).

Definition streamChat (req : Request) (includeUsage : bool) : run (list effect) :=
  if negb (can_flush env) then
    Ret (sse_headers ++ [JSON StatusInternalServerError unsupported_body])
  else
    let* (st, r) := Generate (gen s) req (Some on_chat_delta) (false, sse_headers) in
    match r with
    | Err err => Ret (snd st ++ stream_error err)
    | Ok res =>
        let '(_, tr) := sendRole st in
        let tr := chunk {| p_Role := []; p_Content := None; p_ToolCalls := [] |}
                        (Some (FinishReason res)) tr in
        let tr := if includeUsage
                  then tr ++ [Write (sse_event (enc_ChatCompletion
                                (chat_chunk [] (Some (usage res)))))] else tr in
        Ret (tr ++ [Write done_event; Flush])
    end.

Definition invalid_request (msg : bytes) : list effect :=
  [JSON StatusBadRequest (error_body msg (go "invalid_request_error"))].

Definition include_usage (o : option StreamOptions) : bool :=
  match o with Some o => IncludeUsage o | None => false end.

(** [bound]: what [c.ShouldBindJSON] returned. *)
Definition chatCompletions (bound : result error ChatRequest) : run (list effect) :=
  match bound with
  | Err err => Ret (invalid_request (Error err))
  | Ok req =>
      if (length (c_Messages req) =? 0)%nat then Ret (invalid_request (go "messages is required"))
      else if c_Stream req then streamChat (decode req) (include_usage (c_StreamOptions req))
      else blockingChat (decode req)
  end.

(** *** Raw completions *)
Definition text_completion (choices : list CompletionChoice) (u : option Usage) : Completion :=
  {| co_ID := newID env; co_Object := go "text_completion"; co_Created := unix_now env;
     co_Model := model s; co_Choices := choices; co_Usage := u |}.

Definition text_choice (text : bytes) (reason : option bytes) : CompletionChoice :=
  {| k_Index := 0; k_Text := text; k_FinishReason := reason |}.

Definition blockingCompletion (req : Request) : run (list effect) :=
  let* (_, r) := Complete (gen s) req None tt in
  match r with
  | Err err => Ret (json_error err)
  | Ok res =>
      Ret [JSON StatusOK (enc_Completion
        (text_completion [text_choice (Text res) (Some (FinishReason res))] (Some (usage res))))]
  end.

Definition send (cc : Completion) (tr : list effect) : list effect :=
  tr ++ [Write (sse_event (enc_Completion cc)); Flush].

Definition textChunk (text : bytes) (reason : option bytes) (tr : list effect) : list effect :=
  send (text_completion [text_choice text reason] None) tr.

Definition on_text_delta (text : bytes) (tr : list effect) : list effect :=
  if nonempty text then textChunk text None tr else tr.

Definition streamCompletion (req : Request) (includeUsage : bool) : run (list effect) :=
  if negb (can_flush env) then
    Ret (sse_headers ++ [JSON StatusInternalServerError unsupported_body])
  else
    let* (tr, r) := Complete (gen s) req (Some on_text_delta) sse_headers in
    match r with
    | Err err => Ret (tr ++ stream_error err)
    | Ok res =>
        let tr := textChunk [] (Some (FinishReason res)) tr in
        let tr := if includeUsage then send (text_completion [] (Some (usage res))) tr else tr in
        Ret (tr ++ [Write done_event; Flush])
    end.

Definition completions (bound : result error CompletionRequest) : run (list effect) :=
  match bound with
  | Err err => Ret (invalid_request (Error err))
  | Ok req =>
      if (length (r_Prompt req) =? 0)%nat then Ret (invalid_request (go "prompt is required"))
      else
        match decodeCompletion req with
        | Err err => Ret (invalid_request (Error err))
        | Ok er =>
            if r_Stream req then streamCompletion er (include_usage (r_StreamOptions req))
            else blockingCompletion er
        end
  end.

End handlers.
