(* ===== verification/ServerSpec.v ===== *)
(** * What the handlers send

    The theorems on the handlers of [Server]: the sequence of server-sent events of the
    streaming endpoints, its agreement with the blocking ones, the classification of
    failures, and that every request is answered exactly once. *)

From S2P Require Import Prelude Utf8 GoStrings TokenizerCore Vocab Encode Json Chatml Render.
From S2P Require Import RuneBuffer Stream Client Generate OpenAI Sse Server.
Local Open Scope go_scope.

(** ** The body of a stream *)
Definition write_body (tr : list effect) : bytes :=
  concat (omap (fun e => match e with Write b => Some b | _ => None end) tr).

Definition is_stream_effect (e : effect) : bool := match e with Write _ | Flush => true | _ => false end.

Lemma write_body_app tr tr' : write_body (tr ++ tr') = write_body tr ++ write_body tr'.
Proof. unfold write_body. by rewrite omap_app, concat_app. Qed.

Lemma sse_read_done rest : sse_read (done_event ++ rest) = go "[DONE]" :: sse_read rest.
Proof.
  assert (done_event = go "data: " ++ go "[DONE]" ++ go "\n\n") as -> by (vm_compute; reflexivity).
  rewrite <- !app_assoc. apply sse_read_event, plainb_ok. vm_compute. reflexivity.
Qed.

Lemma sse_read_events {A} (enc : A -> bytes) (xs : list A) rest :
  (forall x, plain (enc x)) ->
  sse_read (concat ((fun x => sse_event (enc x)) <$> xs) ++ rest) = (enc <$> xs) ++ sse_read rest.
Proof.
  intros Hp. induction xs as [|x xs IH]; [done|]. cbn [fmap list_fmap concat app].
  unfold sse_event at 1. rewrite <- !app_assoc, sse_read_event by done. by rewrite IH.
Qed.

Lemma sse_read_all {A} (enc : A -> bytes) (xs : list A) :
  (forall x, plain (enc x)) ->
  sse_read (concat ((fun x => sse_event (enc x)) <$> xs) ++ done_event) = (enc <$> xs) ++ [go "[DONE]"].
Proof.
  intros Hp. rewrite sse_read_events by done. rewrite <- (app_nil_r done_event). by rewrite sse_read_done.
Qed.

Lemma error_body_plain msg typ : plain (error_body msg typ).
Proof. plain_obj. plain_obj. Qed.

(** The events that end a failed stream. *)
Lemma stream_error_body env err :
  sse_read (write_body (stream_error env err)) =
  if ctx_err env then [] else [error_body (Error err) (snd (classifyError err)); go "[DONE]"].
Proof.
  unfold stream_error. destruct (ctx_err env); [done|]. destruct (classifyError err) as [st typ].
  unfold write_body. cbn [omap list_omap concat snd]. rewrite app_nil_r.
  unfold sse_event. rewrite <- !app_assoc, sse_read_event by apply error_body_plain.
  rewrite <- (app_nil_r done_event). by rewrite sse_read_done.
Qed.

Lemma stream_error_effects env err : Forall (fun e => is_stream_effect e = true) (stream_error env err).
Proof. unfold stream_error. destruct (ctx_err env); [constructor|]. destruct (classifyError err). by repeat constructor. Qed.

(** Events, each followed by a flush. *)
Definition flushed_events {A} (enc : A -> bytes) (xs : list A) : list effect :=
  concat ((fun x => [Write (sse_event (enc x)); Flush]) <$> xs).

Lemma flushed_events_app {A} (enc : A -> bytes) xs ys :
  flushed_events enc (xs ++ ys) = flushed_events enc xs ++ flushed_events enc ys.
Proof. unfold flushed_events. by rewrite fmap_app, concat_app. Qed.

Lemma flushed_events_body {A} (enc : A -> bytes) xs :
  write_body (flushed_events enc xs) = concat ((fun x => sse_event (enc x)) <$> xs).
Proof.
  induction xs as [|x xs IH]; [done|]. change (x :: xs) with ([x] ++ xs).
  rewrite flushed_events_app, write_body_app, fmap_app, concat_app, IH.
  unfold write_body. simpl. by rewrite !app_nil_r.
Qed.

Lemma flushed_events_effects {A} (enc : A -> bytes) xs :
  Forall (fun e => is_stream_effect e = true) (flushed_events enc xs).
Proof.
  induction xs as [|x xs IH]; [constructor|]. change (x :: xs) with ([x] ++ xs).
  rewrite flushed_events_app. apply Forall_app. split; [by repeat constructor|done].
Qed.

(** ** The chunks of a chat stream *)

Definition text_message (text : bytes) : RespMessage :=
  {| p_Role := []; p_Content := Some text; p_ToolCalls := [] |}.
Definition call_message (tc : Chatml.ToolCall) : RespMessage :=
  {| p_Role := []; p_Content := None; p_ToolCalls := toolCalls [tc] |}.
Definition end_message : RespMessage := {| p_Role := []; p_Content := None; p_ToolCalls := [] |}.

Definition delta_messages (d : delta) : list RespMessage :=
  (if nonempty d.1 then [text_message d.1] else [])
  ++ match d.2 with Some tc => [call_message tc] | None => [] end.

Section streams.
Context (s : Server) (env : Env).

Definition message_chunk (m : RespMessage) : ChatCompletion := delta_chunk s env m None.

(** The role chunk comes with the first delta. *)
Definition opening (ds : list delta) : list RespMessage :=
  match ds with [] => [] | _ => role_message :: concat (delta_messages <$> ds) end.

Definition chat_stream (ds : list delta) (res : Result) (includeUsage : bool) : list ChatCompletion :=
  (message_chunk <$> (role_message :: concat (delta_messages <$> ds)))
  ++ [delta_chunk s env end_message (Some (FinishReason res))]
  ++ (if includeUsage then [chat_chunk s env [] (Some (usage res))] else []).

Lemma chunk_eq m tr : chunk s env m None tr = tr ++ flushed_events enc_ChatCompletion [message_chunk m].
Proof. done. Qed.

Lemma on_chat_delta_sent d tr :
  on_chat_delta s env d.1 d.2 (true, tr) =
  (true, tr ++ flushed_events enc_ChatCompletion (message_chunk <$> delta_messages d)).
Proof.
  destruct d as [text [tc|]]; unfold on_chat_delta, sendRole, delta_messages; cbn [fst snd];
    destruct (nonempty text); cbn [app fmap list_fmap]; rewrite ?chunk_eq, <- ?app_assoc, ?app_nil_r; done.
Qed.

Lemma notify_sent ds tr :
  notify (Some (on_chat_delta s env)) (true, tr) ds =
  (true, tr ++ flushed_events enc_ChatCompletion (message_chunk <$> concat (delta_messages <$> ds))).
Proof.
  unfold notify. revert tr. induction ds as [|d ds IH]; intros tr; [by rewrite app_nil_r|].
  cbn [foldl]. rewrite on_chat_delta_sent, IH. cbn [fmap list_fmap concat].
  by rewrite fmap_app, flushed_events_app, <- app_assoc.
Qed.

Lemma on_chat_delta_first d tr :
  on_chat_delta s env d.1 d.2 (false, tr) = on_chat_delta s env d.1 d.2 (true, chunk s env role_message None tr).
Proof. done. Qed.

Lemma notify_fresh ds tr :
  notify (Some (on_chat_delta s env)) (false, tr) ds =
  (negb (bool_decide (ds = [])), tr ++ flushed_events enc_ChatCompletion (message_chunk <$> opening ds)).
Proof.
  destruct ds as [|d ds]; [unfold notify; simpl; by rewrite app_nil_r|].
  change (notify (Some (on_chat_delta s env)) (on_chat_delta s env d.1 d.2 (false, tr)) ds =
    (true, tr ++ flushed_events enc_ChatCompletion (message_chunk <$> opening (d :: ds)))).
  rewrite on_chat_delta_first.
  change (notify (Some (on_chat_delta s env)) (true, chunk s env role_message None tr) (d :: ds) =
    (true, tr ++ flushed_events enc_ChatCompletion (message_chunk <$> opening (d :: ds)))).
  rewrite notify_sent, chunk_eq, <- app_assoc, <- flushed_events_app. done.
Qed.

Lemma sendRole_fresh ds tr :
  sendRole s env (notify (Some (on_chat_delta s env)) (false, tr) ds) =
  (true, tr ++ flushed_events enc_ChatCompletion
           (message_chunk <$> (role_message :: concat (delta_messages <$> ds)))).
Proof.
  rewrite notify_fresh. destruct ds as [|d ds]; [|done].
  cbn [opening fmap list_fmap concat]. rewrite app_nil_r. done.
Qed.

Lemma streamChat_ok req includeUsage greq st stats :
  can_flush env = true -> answers (gen s) req greq st -> outcome st = Ok stats ->
  streamChat s env req includeUsage =
  Ret (sse_headers ++ flushed_events enc_ChatCompletion
         (message_chunk <$> (role_message :: concat (delta_messages <$> chat_deltas (cm (gen s)) (answer_ids st))))
       ++ flushed_events enc_ChatCompletion
            [delta_chunk s env end_message (Some (FinishReason (chat_result (cm (gen s)) st stats)))]
       ++ (if includeUsage
           then [Write (sse_event (enc_ChatCompletion
                   (chat_chunk s env [] (Some (usage (chat_result (cm (gen s)) st stats))))))] else [])
       ++ [Write done_event; Flush]).
Proof.
  intros Hf Ha Ho. unfold streamChat. rewrite Hf. cbn [negb].
  rewrite (Generate_eq _ _ _ _ _ _ Ha), Ho. cbn [run_bind]. rewrite sendRole_fresh.
  unfold chunk. f_equal. destruct includeUsage; rewrite <- ?app_assoc; done.
Qed.

Lemma chat_stream_body ds res (includeUsage : bool) :
  write_body (sse_headers ++ flushed_events enc_ChatCompletion
         (message_chunk <$> (role_message :: concat (delta_messages <$> ds)))
       ++ flushed_events enc_ChatCompletion [delta_chunk s env end_message (Some (FinishReason res))]
       ++ (if includeUsage
           then [Write (sse_event (enc_ChatCompletion (chat_chunk s env [] (Some (usage res)))))] else [])
       ++ [Write done_event; Flush])
  = concat ((fun c => sse_event (enc_ChatCompletion c)) <$> chat_stream ds res includeUsage) ++ done_event.
Proof.
  rewrite !write_body_app, !flushed_events_body. unfold chat_stream.
  rewrite !fmap_app, !concat_app, <- !app_assoc.
  change (write_body sse_headers) with (@nil byte). cbn [app]. f_equal. f_equal.
  destruct includeUsage; unfold write_body; simpl; by rewrite ?app_nil_r.
Qed.

End streams.

(** ** Reading a chat stream back *)
Definition chunk_delta (cc : ChatCompletion) : option RespMessage :=
  match cc_Choices cc with [c] => h_Delta c | _ => None end.
Definition chunk_text (cc : ChatCompletion) : bytes :=
  match chunk_delta cc with Some m => default [] (p_Content m) | None => [] end.
Definition chunk_calls (cc : ChatCompletion) : list ToolCall :=
  match chunk_delta cc with Some m => p_ToolCalls m | None => [] end.
Definition chunk_reasons (cc : ChatCompletion) : list bytes :=
  omap h_FinishReason (cc_Choices cc).
Definition chunk_roles (cc : ChatCompletion) : list bytes :=
  match chunk_delta cc with
  | Some m => if nonempty (p_Role m) then [p_Role m] else []
  | None => []
  end.

Lemma concat_fmap_app {A B} (f : A -> list B) xs ys :
  concat (f <$> (xs ++ ys)) = concat (f <$> xs) ++ concat (f <$> ys).
Proof. by rewrite fmap_app, concat_app. Qed.

(** A reading of the chunks that the role, finish and usage chunks do not contribute to
    collects what the deltas carry. *)
Lemma chat_stream_collect {B} s env (f : ChatCompletion -> list B) (g : delta -> list B) ds res u :
  f (message_chunk s env role_message) = [] ->
  f (delta_chunk s env end_message (Some (FinishReason res))) = [] ->
  f (chat_chunk s env [] (Some (usage res))) = [] ->
  (forall d, concat (f <$> (message_chunk s env <$> delta_messages d)) = g d) ->
  concat (f <$> chat_stream s env ds res u) = concat (g <$> ds).
Proof.
  intros Hr He Hu Hd. unfold chat_stream. rewrite !concat_fmap_app.
  cbn [fmap list_fmap concat]. rewrite Hr, He. cbn [app].
  assert (concat (f <$> (if u then [chat_chunk s env [] (Some (usage res))] else [])) = []) as ->.
  { destruct u; [|done]. simpl. by rewrite Hu. }
  rewrite app_nil_r. induction ds as [|d ds IH]; [done|].
  cbn [fmap list_fmap concat]. rewrite fmap_app, concat_fmap_app. f_equal; [apply Hd|exact IH].
Qed.

Lemma concat_calls (ds : list delta) :
  concat ((fun d : delta => match d.2 with Some tc => toolCalls [tc] | None => [] end) <$> ds)
  = toolCalls (omap snd ds).
Proof. induction ds as [|[t [tc|]] ds IH]; [done| |exact IH]. simpl. f_equal. exact IH. Qed.

Lemma chat_stream_text s env ds res u :
  concat (chunk_text <$> chat_stream s env ds res u) = concat (fst <$> ds).
Proof.
  apply chat_stream_collect; try done. intros [t [tc|]]; unfold delta_messages; cbn [fst snd];
    destruct (nonempty t) eqn:E; try (apply nonempty_false in E; subst t);
    cbn; by rewrite ?app_nil_r.
Qed.

Lemma chat_stream_calls s env ds res u :
  concat (chunk_calls <$> chat_stream s env ds res u) = toolCalls (omap snd ds).
Proof.
  rewrite <- concat_calls. apply chat_stream_collect; try done.
  intros [t [tc|]]; unfold delta_messages; cbn [fst snd]; by destruct (nonempty t).
Qed.

Lemma chat_stream_roles s env ds res u :
  concat (chunk_roles <$> chat_stream s env ds res u) = [go "assistant"].
Proof.
  unfold chat_stream. rewrite !concat_fmap_app. cbn [fmap list_fmap concat].
  assert (concat (chunk_roles <$> (message_chunk s env <$> concat (delta_messages <$> ds))) = []) as H.
  { induction ds as [|[t tc] ds IH]; [done|]. cbn [fmap list_fmap concat].
    rewrite fmap_app, concat_fmap_app, IH, app_nil_r. unfold delta_messages. cbn [fst snd].
    by destruct (nonempty t), tc. }
  rewrite H. by destruct u.
Qed.

(** ** Completion streams *)
Definition text_chunk (s : Server) (env : Env) (text : bytes) (reason : option bytes) : Completion :=
  text_completion s env [text_choice text reason] None.

Definition completion_stream (s : Server) (env : Env) (ds : list bytes) (res : Result)
    (includeUsage : bool) : list Completion :=
  ((fun d => text_chunk s env d None) <$> ds) ++ [text_chunk s env [] (Some (FinishReason res))]
  ++ (if includeUsage then [text_completion s env [] (Some (usage res))] else []).

Lemma notify_text_sent s env ds tr :
  Forall (fun d => d <> []) ds ->
  notify_text (Some (on_text_delta s env)) tr ds =
  tr ++ flushed_events enc_Completion ((fun d => text_chunk s env d None) <$> ds).
Proof.
  unfold notify_text. intros Hne. revert tr. induction Hne as [|d ds Hd _ IH]; intros tr;
    [by rewrite app_nil_r|].
  cbn [foldl]. unfold on_text_delta at 2. unfold nonempty. rewrite bool_decide_eq_false_2 by done.
  cbn [negb]. rewrite IH. unfold textChunk, send. rewrite <- app_assoc. done.
Qed.

Lemma streamCompletion_ok s env req includeUsage greq st stats :
  can_flush env = true -> answers (gen s) req greq st -> outcome st = Ok stats ->
  let t := gtok (gen s) in
  streamCompletion s env req includeUsage =
  Ret (sse_headers ++ flushed_events enc_Completion
         (completion_stream s env (raw_deltas t (answer_ids st)) (raw_result t st stats) includeUsage)
       ++ [Write done_event; Flush]).
Proof.
  intros Hf Ha Ho t. unfold streamCompletion. rewrite Hf. cbn [negb].
  rewrite (Complete_eq _ _ _ _ _ _ Ha), Ho. cbn [run_bind].
  rewrite notify_text_sent by apply raw_deltas_nonempty. unfold textChunk, send, completion_stream.
  rewrite !flushed_events_app. f_equal.
  destruct includeUsage; rewrite <- !app_assoc; done.
Qed.

(** The text of a completion chunk. *)
Definition completion_text (c : Completion) : bytes := concat (k_Text <$> co_Choices c).
Definition completion_reasons (c : Completion) : list bytes := omap k_FinishReason (co_Choices c).

Lemma completion_stream_text s env ds res u :
  concat (completion_text <$> completion_stream s env ds res u) = concat ds.
Proof.
  unfold completion_stream. rewrite !concat_fmap_app.
  assert (concat (completion_text <$> ((fun d => text_chunk s env d None) <$> ds)) = concat ds) as ->.
  { induction ds as [|d ds IH]; [done|]. cbn [fmap list_fmap concat]. f_equal; [|exact IH].
    unfold completion_text. simpl. by rewrite app_nil_r. }
  destruct u; simpl; by rewrite app_nil_r.
Qed.

Lemma chat_stream_reasons s env ds res u :
  concat (chunk_reasons <$> chat_stream s env ds res u) = [FinishReason res].
Proof.
  unfold chat_stream. rewrite !concat_fmap_app.
  assert (forall ms, concat (chunk_reasons <$> (message_chunk s env <$> ms)) = []) as ->.
  { induction ms as [|m ms IH]; [done|exact IH]. }
  by destruct u.
Qed.

(** ** Properties *)

(** C10: the server-sent events of a successful chat stream, as a client reads them: the
    role chunk once and first, then the text and tool-call chunks, one finish reason, the
    usage chunk if asked for, and [[DONE]]. Concatenated, the texts of the chunks are the
    whole text of the result and their calls are all its calls. *)
Theorem streamChat_protocol s env req includeUsage greq st stats :
  can_flush env = true -> answers (gen s) req greq st -> outcome st = Ok stats ->
  let res := chat_result (cm (gen s)) st stats in
  let chunks := chat_stream s env (chat_deltas (cm (gen s)) (answer_ids st)) res includeUsage in
  exists effs, streamChat s env req includeUsage = Ret (sse_headers ++ effs) /\
    Forall (fun e => is_stream_effect e = true) effs /\
    sse_read (write_body effs) = (enc_ChatCompletion <$> chunks) ++ [go "[DONE]"] /\
    head chunks = Some (message_chunk s env role_message) /\
    concat (chunk_roles <$> chunks) = [go "assistant"] /\
    concat (chunk_text <$> chunks) = Text res /\
    concat (chunk_calls <$> chunks) = toolCalls (res_ToolCalls res) /\
    concat (chunk_reasons <$> chunks) = [FinishReason res].
Proof.
  intros Hf Ha Ho res chunks. rewrite (streamChat_ok _ _ _ _ _ _ _ Hf Ha Ho). eexists. split; [done|].
  split_and!; [| |done|apply chat_stream_roles| | |apply chat_stream_reasons].
  - rewrite !Forall_app. split_and!; [apply flushed_events_effects..| |by repeat constructor].
    destruct includeUsage; by repeat constructor.
  - rewrite <- sse_read_all by apply enc_ChatCompletion_plain. f_equal.
    unfold chunks. rewrite <- chat_stream_body. by rewrite (write_body_app sse_headers).
  - unfold chunks. rewrite chat_stream_text. apply chat_deltas_text.
  - unfold chunks. rewrite chat_stream_calls. f_equal. apply chat_deltas_calls.
Qed.

(** C28: a chat stream whose generation fails: the deltas that were delivered (the role
    chunk first, if there were any), then, unless the client has gone, the error with the
    engine's message and [[DONE]]; never a finish reason. *)
Theorem streamChat_failure s env req includeUsage greq st err :
  can_flush env = true -> answers (gen s) req greq st -> outcome st = Err err ->
  let ds := token_deltas (cm (gen s)) (answer_ids st) in
  exists effs, streamChat s env req includeUsage = Ret (sse_headers ++ effs) /\
    Forall (fun e => is_stream_effect e = true) effs /\
    sse_read (write_body effs) =
      (enc_ChatCompletion <$> (message_chunk s env <$> opening ds))
      ++ (if ctx_err env then []
          else [error_body (Error err) (snd (classifyError err)); go "[DONE]"]).
Proof.
  intros Hf Ha Ho ds. unfold streamChat. rewrite Hf. cbn [negb].
  rewrite (Generate_eq _ _ _ _ _ _ Ha), Ho. cbn [run_bind]. rewrite notify_fresh. cbn [snd].
  eexists. split; [by rewrite <- app_assoc|]. split.
  - apply Forall_app. split; [apply flushed_events_effects|apply stream_error_effects].
  - rewrite write_body_app, flushed_events_body, (sse_read_events enc_ChatCompletion) by
      apply enc_ChatCompletion_plain.
    by rewrite stream_error_body.
Qed.

(** What a client reads of a successful stream. *)
Lemma streamChat_read s env req includeUsage greq st stats :
  can_flush env = true -> answers (gen s) req greq st -> outcome st = Ok stats ->
  exists effs, streamChat s env req includeUsage = Ret (sse_headers ++ effs) /\
    sse_read (write_body effs) =
      (enc_ChatCompletion <$> chat_stream s env (chat_deltas (cm (gen s)) (answer_ids st)) (chat_result (cm (gen s)) st stats) includeUsage)
      ++ [go "[DONE]"].
Proof.
  intros Hf Ha Ho. rewrite (streamChat_ok _ _ _ _ _ _ _ Hf Ha Ho). eexists. split; [done|].
  rewrite <- sse_read_all by apply enc_ChatCompletion_plain. f_equal. rewrite <- chat_stream_body. by rewrite (write_body_app sse_headers).
Qed.

(** C13: the blocking endpoint returns what the stream carries. For a request whose
    generation succeeds and a connection that can flush, the chunks a client reads back from
    what [streamChat] writes, usage included, and the one body of [blockingChat] agree: the
    body has one choice whose message has the concatenated texts of the chunks ([null] only
    when there are calls and no text), all their calls and their role, their finish reason,
    and the token counts of the last chunk. *)
Theorem blockingChat_agrees_with_stream s env req greq st stats :
  can_flush env = true -> answers (gen s) req greq st -> outcome st = Ok stats ->
  exists effs chunks cc m reason,
    streamChat s env req true = Ret (sse_headers ++ effs) /\
    sse_read (write_body effs) = (enc_ChatCompletion <$> chunks) ++ [go "[DONE]"] /\
    blockingChat s env req = Ret [JSON StatusOK (enc_ChatCompletion cc)] /\
    cc_Choices cc = [Build_Choice 0 (Some m) None (Some reason)] /\
    default [] (p_Content m) = concat (chunk_text <$> chunks) /\
    p_ToolCalls m = concat (chunk_calls <$> chunks) /\
    [p_Role m] = concat (chunk_roles <$> chunks) /\
    [reason] = concat (chunk_reasons <$> chunks) /\
    Some (cc_Usage cc) = last (cc_Usage <$> chunks) /\
    (p_Content m = None -> p_ToolCalls m <> []).
Proof.
  intros Hf Ha Ho. destruct (streamChat_read s env req true greq st stats Hf Ha Ho) as (effs & Es & Er).
  set (res := chat_result (cm (gen s)) st stats) in *. eexists effs, _, _, (chat_message res), (FinishReason res).
  split; [exact Es|]. split; [exact Er|]. unfold blockingChat. rewrite (Generate_eq _ _ _ _ _ _ Ha), Ho. cbn [run_bind].
  rewrite chat_stream_text, chat_stream_calls, chat_stream_roles, chat_stream_reasons.
  rewrite chat_deltas_text, chat_deltas_calls.
  change (number_calls 0 _) with (res_ToolCalls res). change (Decode _ _) with (Text res).
  split; [done|]. split; [done|].
  assert (last (cc_Usage <$> chat_stream s env (chat_deltas (cm (gen s)) (answer_ids st)) res true)
          = Some (Some (usage res))) as ->.
  { unfold chat_stream. rewrite app_assoc, fmap_app. apply last_snoc. }
  unfold chat_message. destruct (res_ToolCalls res) as [|tc tcs]; cbn [length p_Content p_ToolCalls p_Role default];
    [by split_and!|].
  split_and!; [|done..]. change (Nat.ltb _ _) with true. cbn [p_Content].
  destruct (nonempty (Text res)) eqn:E; [done|]. by rewrite (nonempty_false _ E).
Qed.

(** The events of a successful completion stream: one chunk per piece of text, the
    finish reason, the usage chunk if asked for, and [[DONE]]; the texts concatenate to the
    decode of the engine's ids, which is the text of the blocking endpoint. *)
Lemma streamCompletion_protocol s env req includeUsage greq st stats :
  can_flush env = true -> answers (gen s) req greq st -> outcome st = Ok stats ->
  let t := gtok (gen s) in
  let res := raw_result t st stats in
  let chunks := completion_stream s env (raw_deltas t (answer_ids st)) res includeUsage in
  exists effs, streamCompletion s env req includeUsage = Ret (sse_headers ++ effs) /\
    Forall (fun e => is_stream_effect e = true) effs /\
    sse_read (write_body effs) = (enc_Completion <$> chunks) ++ [go "[DONE]"] /\
    concat (completion_text <$> chunks) = Decode t (answer_ids st) /\
    concat (completion_reasons <$> chunks) = [st_FinishReason stats] /\
    blockingCompletion s env req = Ret [JSON StatusOK (enc_Completion
      (text_completion s env
         [text_choice (Decode t (answer_ids st)) (Some (st_FinishReason stats))] (Some (usage res))))].
Proof.
  intros Hf Ha Ho t res chunks. rewrite (streamCompletion_ok _ _ _ _ _ _ _ Hf Ha Ho).
  eexists. split; [done|]. split_and!.
  - apply Forall_app. split; [apply flushed_events_effects|by repeat constructor].
  - rewrite write_body_app, flushed_events_body. by apply (sse_read_all enc_Completion), enc_Completion_plain.
  - unfold chunks. rewrite completion_stream_text. apply raw_deltas_text.
  - unfold chunks, completion_stream. rewrite !concat_fmap_app.
    assert (forall ds, concat (completion_reasons <$> ((fun d => text_chunk s env d None) <$> ds)) = []) as ->.
    { induction ds as [|d ds IH]; [done|exact IH]. }
    by destruct includeUsage.
  - unfold blockingCompletion. by rewrite (Complete_eq _ _ _ _ _ _ Ha), Ho.
Qed.

(** An answer to a request: one JSON body, or an event stream; a refusal to stream is one
    JSON body after the stream's headers. *)
Inductive one_response : list effect -> Prop :=
  | response_json status body : one_response [JSON status body]
  | response_plain status body : one_response [Plain status body]
  | response_unsupported : one_response (sse_headers ++ [JSON StatusInternalServerError unsupported_body])
  | response_stream effs :
      Forall (fun e => is_stream_effect e = true) effs -> one_response (sse_headers ++ effs).

Lemma blocking_one_response s env req :
  specials_nonempty (gtok (gen s)) ->
  (exists tr, blockingChat s env req = Ret tr /\ one_response tr) /\
  (exists tr, blockingCompletion s env req = Ret tr /\ one_response tr).
Proof.
  intros Hne. unfold blockingChat, blockingCompletion.
  destruct (Generate_total (gen s) req Hne) as (ds & r & _ & ->).
  destruct (Complete_total (gen s) req Hne) as (ds' & r' & _ & ->).
  cbn [run_bind]. unfold json_error. split; case_match; subst; eexists; (split; [done|]);
    try constructor; destruct (classifyError _); constructor.
Qed.

Lemma stream_one_response s env req u :
  specials_nonempty (gtok (gen s)) ->
  (exists tr, streamChat s env req u = Ret tr /\ one_response tr) /\
  (exists tr, streamCompletion s env req u = Ret tr /\ one_response tr).
Proof.
  intros Hne. unfold streamChat, streamCompletion.
  destruct (can_flush env); cbn [negb]; [|split; eexists; (split; [done|]); constructor].
  destruct (Generate_total (gen s) req Hne) as (ds & r & _ & ->).
  destruct (Complete_total (gen s) req Hne) as (ds' & r' & Hds' & ->).
  cbn [run_bind]. rewrite notify_text_sent by done. split.
  - destruct r as [res|err].
    + rewrite sendRole_fresh. unfold chunk. eexists. split; [done|].
      destruct u; rewrite <- !app_assoc; constructor; rewrite !Forall_app;
        (split; [apply flushed_events_effects|by repeat constructor]).
    + rewrite notify_fresh. cbn [snd]. eexists. split; [done|]. rewrite <- app_assoc. constructor.
      apply Forall_app. split; [apply flushed_events_effects|apply stream_error_effects].
  - destruct r' as [res|err]; eexists; (split; [done|]).
    + unfold textChunk, send. destruct u; rewrite <- !app_assoc; constructor; rewrite !Forall_app;
        (split; [apply flushed_events_effects|by repeat constructor]).
    + rewrite <- app_assoc. constructor.
      apply Forall_app. split; [apply flushed_events_effects|apply stream_error_effects].
Qed.

(** The handlers always return and answer every request exactly once: no path writes a
    second body, and no path falls through without one. *)
Lemma handlers_answer_once s env chat raw :
  specials_nonempty (gtok (gen s)) ->
  (exists tr, chatCompletions s env chat = Ret tr /\ one_response tr) /\
  (exists tr, completions s env raw = Ret tr /\ one_response tr).
Proof.
  intros Hne. split.
  - unfold chatCompletions. destruct chat as [req|err]; [|eexists; split; [done|constructor]].
    destruct (_ =? 0)%nat; [eexists; split; [done|constructor]|].
    destruct (c_Stream req); [by apply stream_one_response|by apply blocking_one_response].
  - unfold completions. destruct raw as [req|err]; [|eexists; split; [done|constructor]].
    destruct (_ =? 0)%nat; [eexists; split; [done|constructor]|].
    destruct (decodeCompletion req) as [er|err]; [|eexists; split; [done|constructor]].
    destruct (r_Stream req); [by apply stream_one_response|by apply blocking_one_response].
Qed.

Lemma outcome_error evs e rest fin :
  Forall (fun ev => is_terminal ev = false) evs ->
  terminal (evs ++ EvError e :: rest) fin = Err (errorFor e).
Proof.
  intros H. unfold terminal.
  assert (list_find (fun ev => is_terminal ev = true) (evs ++ EvError e :: rest)
          = Some (length evs, EvError e)) as ->; [|done].
  apply list_find_Some. split_and!; [by rewrite lookup_app_r, Nat.sub_diag|done|].
  intros j y Hy Hj. rewrite lookup_app_l in Hy by done.
  eapply Forall_lookup_1 in H; [|done]. by rewrite H.
Qed.

(** Failures of a blocking request, end to end: an engine error becomes 503 when its
    code is over-capacity and 502 otherwise, with the engine's message at the end of the
    body's message; a prompt that fills the context window becomes 400. *)
Lemma blocking_error_status s env req :
  (forall greq st evs e rest,
     answers (gen s) req greq st -> events st = evs ++ EvError e :: rest ->
     Forall (fun ev => is_terminal ev = false) evs ->
     let '(status, text, typ) :=
       if (GetCode e =? ERROR_CODE_OVER_CAPACITY)%Z
       then (503%Z, go "engine over capacity: ", go "overloaded_error")
       else (502%Z, go "engine internal error: ", go "engine_error") in
     let answer := Ret [JSON status (error_body (text ++ GetMessage e) typ)] in
     blockingChat s env req = answer /\ blockingCompletion s env req = answer) /\
  (forall ids, prompt_ids (gen s) req = Ret ids -> in_int 32 (maxCtx (gen s)) ->
     (maxCtx (gen s) <= len ids < 2 ^ 62)%Z ->
     let answer := Ret [JSON 400 (error_body
       (go "prompt exceeds context window: prompt is " ++ itoa (len ids)
        ++ go " tokens, context window is " ++ itoa (maxCtx (gen s)))
       (go "invalid_request_error"))] in
     blockingChat s env req = answer /\ blockingCompletion s env req = answer).
Proof.
  split.
  - intros greq st evs e rest Ha Hev Hevs.
    assert (Ho : outcome st = Err (errorFor e)) by (unfold outcome; rewrite Hev; by apply outcome_error).
    unfold blockingChat, blockingCompletion.
    rewrite (Generate_eq _ _ _ _ _ _ Ha), (Complete_eq _ _ _ _ _ _ Ha), Ho. cbn [run_bind].
    unfold errorFor. destruct (GetCode e =? _)%Z; unfold json_error, wrap_error; cbn [classifyError].
    all: split; do 4 f_equal; cbn [Error]; rewrite app_assoc; f_equal; vm_compute; reflexivity.
  - intros ids Hp Hm Hl. unfold blockingChat, blockingCompletion, Generate, Complete, buildRequest.
    rewrite Hp. cbn [run_bind]. rewrite resolveMaxTokens_eq by (done || unfold len in *; lia).
    rewrite (proj2 (Z.leb_le _ _)) by lia. cbn [run_bind]. unfold json_error, wrap_error.
    cbn [classifyError].
    split; do 4 f_equal; cbn [Error sentinel_text]; rewrite !app_assoc; do 3 f_equal; vm_compute; reflexivity.
Qed.

(** *** Identifiers *)
Lemma hex_digit_inj x y : (0 <= x < 16)%Z -> (0 <= y < 16)%Z -> hex_digit x = hex_digit y -> x = y.
Proof.
  intros Hx Hy H. apply (f_equal bz) in H. unfold hex_digit in H.
  destruct (Z.ltb_spec x 10), (Z.ltb_spec y 10); rewrite !bz_byte_of_Z in H by lia; lia.
Qed.

Lemma hex_digits_app n z acc : hex_digits n z acc = hex_digits n z [] ++ acc.
Proof.
  revert z acc. induction n as [|n IH]; intros z acc; [done|]. cbn [hex_digits].
  rewrite IH, (IH _ [_]), <- app_assoc. done.
Qed.

Lemma hex_digits_length n z : length (hex_digits n z []) = n.
Proof.
  revert z. induction n as [|n IH]; intros z; [done|]. cbn [hex_digits].
  rewrite hex_digits_app, length_app, IH. simpl. lia.
Qed.

Lemma hex_digits_inj n x y :
  (0 <= x < 16 ^ Z.of_nat n)%Z -> (0 <= y < 16 ^ Z.of_nat n)%Z ->
  hex_digits n x [] = hex_digits n y [] -> x = y.
Proof.
  revert x y. induction n as [|n IH]; intros x y Hx Hy; [simpl in *; lia|]. cbn [hex_digits].
  rewrite hex_digits_app, (hex_digits_app n (y / 16)). intros [H1 H2]%app_inj_2; [|done].
  injection H2 as H2. rewrite Nat2Z.inj_succ, Z.pow_succ_r in Hx, Hy by lia.
  apply hex_digit_inj in H2; [|apply Z.mod_pos_bound; lia..].
  apply IH in H1; [| |].
  - rewrite (Z.div_mod x 16), (Z.div_mod y 16) by lia. congruence.
  - split; [apply Z.div_pos; lia|apply Z.div_lt_upper_bound; lia].
  - split; [apply Z.div_pos; lia|apply Z.div_lt_upper_bound; lia].
Qed.

(** Two requests share an id only if their 128 random bits agree. *)
Lemma newID_injective env env' :
  (0 <= rand1 env < 2 ^ 64)%Z -> (0 <= rand2 env < 2 ^ 64)%Z ->
  (0 <= rand1 env' < 2 ^ 64)%Z -> (0 <= rand2 env' < 2 ^ 64)%Z ->
  newID env = newID env' -> rand1 env = rand1 env' /\ rand2 env = rand2 env'.
Proof.
  intros H1 H2 H3 H4. unfold newID. intros H. apply (app_inj_1 _ _ _ _ eq_refl) in H as [_ H].
  apply app_inj_1 in H as [Ha Hb]; [|by rewrite !hex_digits_length].
  by split; apply (hex_digits_inj 16).
Qed.

(** A completion request whose prompt is empty - the empty string, [null] or the empty
    list of ids - passes validation and is completed from a chat template: the prompt the
    engine gets is the header of an assistant turn. *)
Lemma empty_prompt_uses_template g req :
  r_Prompt req ∈ [go "\q\q"; go "null"; go "[]"] ->
  length (r_Prompt req) <> 0%nat /\
  exists er, decodeCompletion req = Ok er /\
    prompt_ids g er = Encode (gtok g) (go "<|im_start|>assistant\n<think>\n\n</think>\n\n").
Proof.
  assert (Render [] [] false = go "<|im_start|>assistant\n<think>\n\n</think>\n\n") as Hr
    by (vm_compute; reflexivity).
  intros Hp. unfold decodeCompletion. split.
  - apply list_elem_of_In in Hp. by repeat destruct Hp as [<-|Hp].
  - assert (exists er, decodeCompletion req = Ok er /\ RawPrompt er = [] /\ InputIDs er = [] /\
      Messages er = [] /\ Tools er = [] /\ EnableThinking er = false) as (er & He & E1 & E2 & E3 & E4 & E5).
    { unfold decodeCompletion. apply list_elem_of_In in Hp.
      repeat destruct Hp as [<-|Hp]; [by vm_compute (unmarshal _ _); eexists..|done]. }
    exists er. split; [done|]. unfold prompt_ids. by rewrite E1, E2, E3, E4, E5, Hr.
Qed.

(** ** Witnesses *)
Definition toy_server : Server := New toy_generator (go "toy").

Definition toy_env : Env :=
  {| rand1 := 11; rand2 := 22; unix_now := 1700000000; can_flush := true; ctx_err := false |}.

Definition toy_stats : Stats := Build_Stats (go "stop") 1 5.

Lemma toy_outcome : outcome toy_stream = Ok toy_stats.
Proof. vm_compute. reflexivity. Qed.

Lemma streamChat_protocol_witness :
  exists effs, streamChat toy_server toy_env toy_request true = Ret (sse_headers ++ effs) /\
    Forall (fun e => is_stream_effect e = true) effs /\
    sse_read (write_body effs) =
      (enc_ChatCompletion <$> chat_stream toy_server toy_env (chat_deltas toy_format (answer_ids toy_stream))
                                (chat_result toy_format toy_stream toy_stats) true) ++ [go "[DONE]"].
Proof.
  destruct (streamChat_protocol toy_server toy_env toy_request true toy_greq toy_stream toy_stats
    eq_refl toy_answers toy_outcome) as (effs & H1 & H2 & H3 & _).
  exists effs. exact (conj H1 (conj H2 H3)).
Defined.

(** An engine that fails after one token. *)
Definition failing_stream : rpc_stream :=
  {| events := [EvTokenId 104; EvError (Build_pb_Error 1 (go "out of KV cache")); EvTokenId 105];
     ending := None |}.

Definition failing_server : Server :=
  New (NewGenerator {| cli_GetModel := cli_GetModel toy_client; cli_Generate := fun _ => Ok failing_stream |}
         toy_format toy 64) (go "toy").

Lemma failing_answers : answers (gen failing_server) toy_request toy_greq failing_stream.
Proof. split; vm_compute; reflexivity. Qed.

Lemma streamChat_failure_witness :
  token_deltas toy_format (answer_ids failing_stream) = [(go "h", None)] /\
  exists effs, streamChat failing_server toy_env toy_request true = Ret (sse_headers ++ effs) /\
    Forall (fun e => is_stream_effect e = true) effs /\
    sse_read (write_body effs) =
      (enc_ChatCompletion <$> (message_chunk failing_server toy_env <$>
         opening (token_deltas toy_format (answer_ids failing_stream))))
      ++ [error_body (go "engine over capacity: out of KV cache") (go "overloaded_error"); go "[DONE]"].
Proof.
  split; [vm_compute; reflexivity|].
  apply (streamChat_failure failing_server toy_env toy_request true toy_greq failing_stream
    (errorFor (Build_pb_Error 1 (go "out of KV cache")))).
  - reflexivity.
  - exact failing_answers.
  - reflexivity.
Defined.

Lemma blockingChat_agrees_with_stream_witness :
  exists effs chunks cc m reason, streamChat toy_server toy_env toy_request true = Ret (sse_headers ++ effs) /\
    sse_read (write_body effs) = (enc_ChatCompletion <$> chunks) ++ [go "[DONE]"] /\
    blockingChat toy_server toy_env toy_request = Ret [JSON StatusOK (enc_ChatCompletion cc)] /\
    cc_Choices cc = [Build_Choice 0 (Some m) None (Some reason)] /\
    default [] (p_Content m) = concat (chunk_text <$> chunks).
Proof.
  destruct (blockingChat_agrees_with_stream toy_server toy_env toy_request toy_greq toy_stream toy_stats
    eq_refl toy_answers toy_outcome) as (effs & chunks & cc & m & reason & H1 & H2 & H3 & H4 & H5 & _).
  exists effs, chunks, cc, m, reason. exact (conj H1 (conj H2 (conj H3 (conj H4 H5)))).
Defined.

Lemma streamCompletion_protocol_witness :
  exists effs, streamCompletion toy_server toy_env toy_request true = Ret (sse_headers ++ effs) /\
    Forall (fun e => is_stream_effect e = true) effs /\
    sse_read (write_body effs) =
      (enc_Completion <$> completion_stream toy_server toy_env (raw_deltas toy (answer_ids toy_stream))
                            (raw_result toy toy_stream toy_stats) true) ++ [go "[DONE]"].
Proof.
  destruct (streamCompletion_protocol toy_server toy_env toy_request true toy_greq toy_stream toy_stats
    eq_refl toy_answers toy_outcome) as (effs & H1 & H2 & H3 & _).
  exists effs. exact (conj H1 (conj H2 H3)).
Defined.

Lemma blocking_error_status_witness :
  let answer := Ret [JSON 503 (error_body (go "engine over capacity: out of KV cache") (go "overloaded_error"))] in
  blockingChat failing_server toy_env toy_request = answer /\
  blockingCompletion failing_server toy_env toy_request = answer.
Proof.
  apply (proj1 (blocking_error_status failing_server toy_env toy_request) toy_greq failing_stream
    [EvTokenId 104] (Build_pb_Error 1 (go "out of KV cache")) [EvTokenId 105]).
  - exact failing_answers.
  - reflexivity.
  - repeat constructor.
Defined.

Lemma empty_prompt_uses_template_witness :
  length (go "null") <> 0%nat /\
  exists er, decodeCompletion (Build_CompletionRequest [] (go "null") 5 None None false None false) = Ok er /\
    prompt_ids toy_generator er = Encode toy (go "<|im_start|>assistant\n<think>\n\n</think>\n\n").
Proof.
  apply (empty_prompt_uses_template toy_generator
    (Build_CompletionRequest [] (go "null") 5 None None false None false)).
  apply (bool_decide_eq_true_1 _). vm_compute. reflexivity.
Defined.
