(* ===== verification/ClientView.v ===== *)
(** * What a client of the API sees

    The end-to-end statement on the streaming endpoints: a client that splits the body into
    server-sent events, parses each payload as JSON and appends the content it finds there
    ends up with the text the engine's ids decode to. *)

From S2P Require Import Prelude Utf8 GoStrings TokenizerCore Vocab Encode Json JsonRoundtrip Chatml.
From S2P Require Import Stream Client Generate OpenAI Sse Server ServerSpec.
Local Open Scope go_scope.

(** ** The client *)

(** The last member of that name, decoded; a default if there is none or it is [null]. *)
Definition member {A} (dec : json -> option A) (zero : A) (name : bytes) : json -> option A :=
  dec_struct (fun l => last_field dec zero (fields name l)).

Definition delta_content : json -> option bytes := member dec_string [] (go "content").
Definition choice_content : json -> option bytes := member delta_content [] (go "delta").
Definition choice_text : json -> option bytes := member dec_string [] (go "text").

(** The text of a payload: that of its choices in order. *)
Definition payload_text (choice : json -> option bytes) (payload : bytes) : option bytes :=
  (fun ts : list bytes => concat ts) <$> unmarshal (member (dec_list choice) [] (go "choices")) payload.

(** The client skips payloads it cannot parse, such as [[DONE]]. *)
Definition client_text (choice : json -> option bytes) (body : bytes) : bytes :=
  concat (omap (payload_text choice) (sse_read body)).

(** ** Fields of written objects *)
Lemma members_cons k s v fs vs :
  members ((k, s) :: fs) (v :: vs) = (to_valid (go k), (s, v)) :: members fs vs.
Proof. done. Qed.

Lemma members_app fs fs' vs vs' :
  length fs = length vs -> members (fs ++ fs') (vs ++ vs') = members fs vs ++ members fs' vs'.
Proof. intros H. unfold members. by apply zip_with_app. Qed.

Lemma fields_cons n k e l :
  fields n ((k, e) :: l) = if key_is n k then e :: fields n l else fields n l.
Proof.
  unfold fields. rewrite filter_cons. destruct (key_is n k) eqn:E.
  - by rewrite decide_True.
  - by rewrite decide_False by (cbn; by rewrite E).
Qed.

Lemma fields_app n l l' : fields n (l ++ l') = fields n l ++ fields n l'.
Proof. unfold fields. by rewrite filter_app, fmap_app. Qed.

Lemma last_field_one {A} (dec : json -> option A) zero e :
  dec JNull = Some zero -> last_field dec zero [e] = dec e.2.
Proof. intros H. unfold last_field. cbn. by destruct (e.2). Qed.

(** [s] is read as a value that satisfies [P]. *)
Definition reads_as (d : Z) (s : bytes) (P : json -> Prop) : Prop := exists v, reads d s v /\ P v.

Lemma reads_as_mono d d' s P : (d <= d')%Z -> reads_as d s P -> reads_as d' s P.
Proof. intros Hd (v & Hv & HP). exists v. split; [by eapply reads_mono|done]. Qed.

Lemma reads_as_string s : reads_as 0 (enc_string s) (fun v => dec_string v = Some (to_valid s)).
Proof. eexists. split; [apply reads_string|done]. Qed.

Lemma reads_as_opt_string s :
  reads_as 0 (enc_opt_string s) (fun v => dec_string v = Some (to_valid (default [] s))).
Proof. destruct s; eexists; (split; [apply reads_string || apply reads_null|done]). Qed.

Lemma reads_as_int z : in_int 64 z -> reads_as 0 (itoa z) (fun _ => True).
Proof. intros H. destruct (reads_int z H) as (lit & Hl & _). by eexists. Qed.

Lemma reads_as_list {A} (enc : A -> bytes) d (P : A -> json -> Prop) l :
  (0 <= d)%Z -> (forall a, a ∈ l -> reads_as d (enc a) (P a)) ->
  reads_as (d + 1) (enc_list enc l) (fun v => exists es, v = JArr es /\ Forall2 P l es.*2).
Proof.
  intros Hd H. assert (exists vs, Forall2 (reads d) (enc <$> l) vs /\ Forall2 P l vs) as (vs & H1 & H2).
  { induction l as [|a l IH]; [by exists []|].
    destruct (H a) as (v & Hr & Hp); [by left|]. destruct IH as (vs & H1 & H2); [intros b Hb; apply H; by right|].
    exists (v :: vs). by split; constructor. }
  exists (JArr (zip (enc <$> l) vs)). split; [by apply reads_arr|]. eexists. split; [done|].
  rewrite snd_zip; [done|]. apply Forall2_length in H1. lia.
Qed.

(** A list whose elements decode decodes. *)
Lemma dec_list_Forall2 {A B} (dec : json -> option B) (f : A -> B) l (es : list (bytes * json)) :
  Forall2 (fun a v => dec v = Some (f a)) l es.*2 -> dec_list dec (JArr es) = Some (f <$> l).
Proof.
  cbn [dec_list]. revert l. induction es as [|e es IH]; intros l H; cbn in H.
  - by apply Forall2_nil_inv_r in H as ->.
  - apply Forall2_cons_inv_r in H as (a & l' & Hd & Hl & ->). cbn [mapM fmap list_fmap].
    cbn [dec_list] in IH. cbn. rewrite Hd. cbn. by rewrite (IH _ Hl).
Qed.

(** Objects, looking for the member [name]. *)
Definition absent (name : bytes) : list (string * bytes) -> Prop :=
  Forall (fun f => key_is name (to_valid (go f.1)) = false).

Definition readable (d : Z) : list (string * bytes) -> Prop :=
  Forall (fun f => reads_as d f.2 (fun _ => True)).

Lemma readable_values d fs : readable d fs -> exists vs, Forall2 (fun f v => reads d f.2 v) fs vs.
Proof.
  induction 1 as [|f fs (v & Hv & _) _ [vs IH]]; [by exists []|]. exists (v :: vs). by constructor.
Qed.

Lemma absent_fields name fs vs : absent name fs -> fields name (members fs vs) = [].
Proof.
  intros H. revert vs. induction H as [|[k s] fs Hk _ IH]; intros vs; [done|].
  destruct vs as [|v vs]; [done|]. rewrite members_cons, fields_cons. cbn [fst] in Hk. by rewrite Hk, IH.
Qed.

Lemma reads_as_obj d pre post :
  (0 <= d)%Z -> readable d (pre ++ post) -> reads_as (d + 1) (enc_obj (pre ++ post)) (fun _ => True).
Proof. intros Hd H. destruct (readable_values d _ H) as [vs Hvs]. eexists. split; [by apply reads_obj|done]. Qed.

Lemma reads_as_member {A} (dec : json -> option A) zero name d k s x pre post :
  (0 <= d)%Z -> dec JNull = Some zero ->
  readable d pre -> absent name pre -> readable d post -> absent name post ->
  key_is name (to_valid (go k)) = true -> reads_as d s (fun v => dec v = Some x) ->
  reads_as (d + 1) (enc_obj (pre ++ (k, s) :: post)) (fun v => member dec zero name v = Some x).
Proof.
  intros Hd H0 Hpre Apre Hpost Apost Hk (v & Hv & Hx).
  destruct (readable_values d pre Hpre) as [vs Hvs]. destruct (readable_values d post Hpost) as [ws Hws].
  eexists. split.
  - apply (reads_obj d _ (vs ++ v :: ws)); [done|]. apply Forall2_app; [done|]. by constructor.
  - unfold member, dec_struct. rewrite members_app by by eapply Forall2_length.
    rewrite fields_app, absent_fields, members_cons, fields_cons, Hk, absent_fields by done.
    cbn [app]. by rewrite last_field_one.
Qed.

Lemma readable_omit {A} d key (enc : A -> bytes) v :
  (forall a, reads_as d (enc a) (fun _ => True)) -> readable d (omit key enc v).
Proof. intros H. destruct v; [|constructor]. constructor; [apply H|constructor]. Qed.

Lemma absent_omit {A} name key (enc : A -> bytes) v :
  key_is name (to_valid (go key)) = false -> absent name (omit key enc v).
Proof. intros H. destruct v; [|constructor]. by constructor. Qed.

Lemma reads_as_any d d' s P : (d <= d')%Z -> reads_as d s P -> reads_as d' s (fun _ => True).
Proof. intros Hd (v & Hv & _). exists v. split; [by eapply reads_mono|done]. Qed.

(** The members other than the wanted one. *)
#[local] Ltac readable_step :=
  first [ eapply reads_as_any; [|apply reads_as_string]; lia
        | eapply reads_as_any; [|apply reads_as_opt_string]; lia
        | eapply reads_as_any; [|apply reads_as_int; done]; lia ].
#[local] Ltac members_tac :=
  repeat (apply Forall_nil_2 || apply Forall_cons_2); cbn [fst snd];
  try match goal with
  | |- key_is _ _ = _ => vm_compute; reflexivity
  | |- reads_as _ _ _ => readable_step
  end.

(** ** The response types *)
Lemma reads_ToolCall tc : reads_as 2 (enc_ToolCall tc) (fun _ => True).
Proof.
  apply (reads_as_obj 1 [] _); [lia|]. cbn [app]. members_tac.
  apply (reads_as_obj 0 [] _); [lia|]. cbn [app]. members_tac.
Qed.

Lemma reads_RespMessage m :
  reads_as 4 (enc_RespMessage m) (fun v => delta_content v = Some (to_valid (default [] (p_Content m)))).
Proof.
  apply (reads_as_member _ _ _ 3 "content" _ _ [_]); [lia|reflexivity|members_tac|members_tac| | |vm_compute; reflexivity|].
  - apply readable_omit. intros l. eapply (reads_as_any 3); [done|].
    apply (reads_as_list enc_ToolCall 2 (fun _ _ => True)); [done|]. intros tc _. apply reads_ToolCall.
  - apply absent_omit. vm_compute. reflexivity.
  - eapply reads_as_mono; [|apply reads_as_opt_string]. lia.
Qed.

(** The choice of a chunk of a stream. *)
Lemma reads_Choice c m :
  in_int 64 (h_Index c) -> h_Message c = None -> h_Delta c = Some m ->
  reads_as 5 (enc_Choice c) (fun v => choice_content v = Some (to_valid (default [] (p_Content m)))).
Proof.
  intros Hi Hm Hd. unfold enc_Choice. rewrite Hm, Hd. cbn [omit app].
  apply (reads_as_member _ _ _ 4 "delta" _ _ [_]); [lia|reflexivity|members_tac|members_tac|members_tac|members_tac|vm_compute; reflexivity|].
  apply reads_RespMessage.
Qed.

Lemma reads_CompletionChoice c :
  in_int 64 (k_Index c) ->
  reads_as 1 (enc_CompletionChoice c) (fun v => choice_text v = Some (to_valid (k_Text c))).
Proof.
  intros Hi. apply (reads_as_member _ _ _ 0 "text" _ _ [_]); [lia|reflexivity|members_tac|members_tac|members_tac|members_tac|vm_compute; reflexivity|].
  apply reads_as_string.
Qed.

Definition usage_ok (u : Usage) : Prop :=
  in_int 64 (u_PromptTokens u) /\ in_int 64 (u_CompletionTokens u) /\ in_int 64 (u_TotalTokens u).

Lemma reads_Usage u : usage_ok u -> reads_as 1 (enc_Usage u) (fun _ => True).
Proof. intros (? & ? & ?). apply (reads_as_obj 0 [] _); [lia|]. cbn [app]. members_tac. Qed.

Lemma readable_usage d u : (1 <= d)%Z -> (forall v, u = Some v -> usage_ok v) -> readable d (omit "usage" enc_Usage u).
Proof.
  intros Hd Hu. destruct u as [u|]; [|constructor]. constructor; [|constructor].
  eapply reads_as_any; [done|]. by apply reads_Usage, Hu.
Qed.

(** A completion of either kind whose choices can be read. *)
Lemma payload_choices {A} (enc : A -> bytes) d choice text l pre post :
  (0 <= d < 9999)%Z ->
  readable (d + 1) pre -> absent (go "choices") pre -> readable (d + 1) post -> absent (go "choices") post ->
  (forall a, a ∈ l -> reads_as d (enc a) (fun v => choice v = Some (text a))) ->
  payload_text choice (enc_obj (pre ++ ("choices", enc_list enc l) :: post)) = Some (concat (text <$> l)).
Proof.
  intros Hd Hpre Apre Hpost Apost Hl.
  assert (reads_as (d + 1) (enc_list enc l) (fun v => dec_list choice v = Some (text <$> l))) as Hlist.
  { destruct (reads_as_list enc d (fun a v => choice v = Some (text a)) l) as (v & Hv & es & -> & Hes); [lia|done|].
    eexists. split; [exact Hv|]. by apply dec_list_Forall2. }
  destruct (reads_as_member (dec_list choice) [] (go "choices") (d + 1) "choices" _ _ pre post
    ltac:(lia) eq_refl Hpre Apre Hpost Apost ltac:(vm_compute; reflexivity) Hlist) as (v & Hv & Hm).
  unfold payload_text, unmarshal. erewrite reads_parse; [| |exact Hv]. 
  - cbn. by rewrite Hm.
  - unfold maxNestingDepth. lia.
Qed.

Lemma payload_done choice : payload_text choice (go "[DONE]") = None.
Proof.
  unfold payload_text, unmarshal.
  replace (parse_json (go "[DONE]")) with (@None json) by (vm_compute; reflexivity). done.
Qed.

(** What the client takes from a chunk. *)
Definition read_choice (c : Choice) : bytes :=
  to_valid (match h_Delta c with Some m => default [] (p_Content m) | None => [] end).
Definition read_chunk (cc : ChatCompletion) : bytes := concat (read_choice <$> cc_Choices cc).
Definition read_completion (c : Completion) : bytes := concat ((fun c => to_valid (k_Text c)) <$> co_Choices c).

Lemma payload_chunk cc :
  in_int 64 (cc_Created cc) -> (forall u, cc_Usage cc = Some u -> usage_ok u) ->
  Forall (fun c => h_Index c = 0%Z /\ h_Message c = None /\ is_Some (h_Delta c)) (cc_Choices cc) ->
  payload_text choice_content (enc_ChatCompletion cc) = Some (read_chunk cc).
Proof.
  intros Hc Hu Hl. apply (payload_choices enc_Choice 5 choice_content read_choice _ [_; _; _; _]).
  - done.
  - members_tac.
  - members_tac.
  - by apply readable_usage.
  - apply absent_omit. vm_compute. reflexivity.
  - intros c Hin. eapply Forall_forall in Hl as (Hi & Hm & [m Hd]); [|exact Hin].
    unfold read_choice. rewrite Hd. apply reads_Choice; [by rewrite Hi|done|done].
Qed.

Lemma payload_completion c :
  in_int 64 (co_Created c) -> (forall u, co_Usage c = Some u -> usage_ok u) ->
  Forall (fun c => k_Index c = 0%Z) (co_Choices c) ->
  payload_text choice_text (enc_Completion c) = Some (read_completion c).
Proof.
  intros Hc Hu Hl. apply (payload_choices enc_CompletionChoice 1 choice_text (fun c => to_valid (k_Text c)) _ [_; _; _; _]).
  - done.
  - members_tac.
  - members_tac.
  - by apply readable_usage.
  - apply absent_omit. vm_compute. reflexivity.
  - intros k Hin. eapply Forall_forall in Hl as Hi; [|exact Hin]. cbn in Hi.
    apply reads_CompletionChoice. by rewrite Hi.
Qed.

Lemma client_text_chunks {A} choice (enc : A -> bytes) (read : A -> bytes) xs body :
  sse_read body = (enc <$> xs) ++ [go "[DONE]"] ->
  Forall (fun x => payload_text choice (enc x) = Some (read x)) xs ->
  client_text choice body = concat (read <$> xs).
Proof.
  intros Hs H. unfold client_text. rewrite Hs, omap_app. cbn [omap list_omap].
  rewrite payload_done, app_nil_r. f_equal. clear Hs.
  induction H as [|x xs Hx _ IH]; [done|]. cbn [fmap list_fmap omap list_omap]. by rewrite Hx, IH.
Qed.

Lemma to_valid_all ds : Forall valid ds -> concat (to_valid <$> ds) = concat ds.
Proof. induction 1 as [|d ds Hd _ IH]; [done|]. cbn. by rewrite to_valid_id, IH. Qed.

(** ** The texts of the streams *)
Section streams.
Context (s : Server) (env : Env) (Hnow : in_int 64 (unix_now env)).

Lemma usage_in_range res :
  in_int 64 (PromptTokens res) -> in_int 64 (CompletionTokens res) -> usage_ok (usage res).
Proof. intros H1 H2. unfold usage_ok, usage. cbn. split_and!; [done|done|by apply wrap_range]. Qed.

Lemma client_chat ds res u body :
  in_int 64 (PromptTokens res) -> in_int 64 (CompletionTokens res) ->
  sse_read body = (enc_ChatCompletion <$> chat_stream s env ds res u) ++ [go "[DONE]"] ->
  client_text choice_content body = concat (to_valid <$> (fst <$> ds)).
Proof using Hnow.
  intros Hp Hc Hs. pose proof (usage_in_range res Hp Hc) as Hu.
  rewrite (client_text_chunks _ enc_ChatCompletion read_chunk _ _ Hs).
  - rewrite <- list_fmap_compose. apply (chat_stream_collect s env read_chunk); try reflexivity.
    intros [t [tc|]]; unfold delta_messages; cbn [fst snd]; destruct (nonempty t) eqn:E;
      try (apply nonempty_false in E; subst t); cbn; unfold read_chunk; cbn; by rewrite ?app_nil_r.
  - unfold chat_stream. rewrite !Forall_app. split_and!.
    + apply Forall_fmap, Forall_forall. intros m _. apply payload_chunk; [done|done|]. by repeat constructor.
    + constructor; [|constructor]. apply payload_chunk; [done|done|]. by repeat constructor.
    + destruct u; [|constructor]. constructor; [|constructor]. apply payload_chunk; [done| |constructor].
      by intros ? [= <-].
Qed.

Lemma client_completion ds res u body :
  in_int 64 (PromptTokens res) -> in_int 64 (CompletionTokens res) ->
  sse_read body = (enc_Completion <$> completion_stream s env ds res u) ++ [go "[DONE]"] ->
  client_text choice_text body = concat (to_valid <$> ds).
Proof using Hnow.
  intros Hp Hc Hs. pose proof (usage_in_range res Hp Hc) as Hu.
  rewrite (client_text_chunks _ enc_Completion read_completion _ _ Hs).
  - unfold completion_stream. rewrite !concat_fmap_app, <- list_fmap_compose.
    assert (concat (read_completion ∘ (fun d => text_chunk s env d None) <$> ds) = concat (to_valid <$> ds)) as ->.
    { f_equal. apply list_fmap_ext. intros i d _. unfold read_completion. cbn. by rewrite app_nil_r. }
    destruct u; cbn; by rewrite ?app_nil_r.
  - unfold completion_stream. rewrite !Forall_app. split_and!.
    + apply Forall_fmap, Forall_forall. intros d _. apply payload_completion; [done|done|]. by repeat constructor.
    + constructor; [|constructor]. apply payload_completion; [done|done|]. by repeat constructor.
    + destruct u; [|constructor]. constructor; [|constructor]. apply payload_completion; [done| |constructor].
      by intros ? [= <-].
Qed.

End streams.

(** C11: end to end: a client that splits the body of a successful stream into events, parses
    each payload as JSON and appends the contents of its choices has, at the end of a chat
    stream, the text of [Generate]'s result - the decoded answer without the spans of its
    tool calls -, and, at the end of a completion stream, the decode of all the engine's ids;
    each when that text is well-formed UTF-8. It is not when the token budget cuts a
    character: then the JSON encoder replaces the bytes that are left. *)
Theorem client_reads_streams s env req includeUsage greq st stats :
  can_flush env = true -> answers (gen s) req greq st -> outcome st = Ok stats ->
  in_int 64 (unix_now env) -> in_int 64 (st_PromptTokens stats) -> in_int 64 (st_CompletionTokens stats) ->
  let text := Text (chat_result (cm (gen s)) st stats) in
  let raw := Decode (gtok (gen s)) (answer_ids st) in
  (valid text -> exists effs, streamChat s env req includeUsage = Ret (sse_headers ++ effs) /\
     client_text choice_content (write_body effs) = text) /\
  (valid raw -> exists effs, streamCompletion s env req includeUsage = Ret (sse_headers ++ effs) /\
     client_text choice_text (write_body effs) = raw).
Proof.
  intros Hf Ha Ho Hn Hp Hc text raw. split; intros Hv; eexists.
  - split; [by apply (streamChat_ok _ _ _ _ _ _ _ Hf Ha Ho)|].
    rewrite (client_chat s env Hn (chat_deltas (cm (gen s)) (answer_ids st))
      (chat_result (cm (gen s)) st stats) includeUsage); [|done|done|].
    + rewrite to_valid_all by by apply Forall_fmap, chat_deltas_valid. apply chat_deltas_text.
    + rewrite <- sse_read_all by apply enc_ChatCompletion_plain. f_equal.
      rewrite <- chat_stream_body. by rewrite (write_body_app sse_headers).
  - split; [by apply (streamCompletion_ok _ _ _ _ _ _ _ Hf Ha Ho)|].
    rewrite (client_completion s env Hn (raw_deltas (gtok (gen s)) (answer_ids st))
      (raw_result (gtok (gen s)) st stats) includeUsage); [|done|done|].
    + rewrite to_valid_all by by apply raw_deltas_valid. apply raw_deltas_text.
    + rewrite write_body_app, flushed_events_body. by apply (sse_read_all enc_Completion), enc_Completion_plain.
Qed.

(** ** Witness *)
Lemma client_reads_streams_witness :
  exists effs, streamChat toy_server toy_env toy_request true = Ret (sse_headers ++ effs) /\
    client_text choice_content (write_body effs) = Text (chat_result toy_format toy_stream toy_stats).
Proof.
  apply (client_reads_streams toy_server toy_env toy_request true toy_greq toy_stream toy_stats
    eq_refl toy_answers toy_outcome).
  - split; vm_compute; congruence.
  - split; vm_compute; congruence.
  - split; vm_compute; congruence.
  - replace (Text _) with [x68; xc3; xa9] by (vm_compute; reflexivity).
    apply (valid_step _ 0x68 1); [done|reflexivity|left; done|].
    apply (valid_step _ 0xe9 2); [done|vm_compute; reflexivity|left; done|]. constructor.
Defined.
