(* ===== verification/Binding.v ===== *)
(** * Reading a request body

    What [encoding/json] makes of a body at the request types of
    [internal/server/types.go]: their struct tags as decoders. A field is set by the member
    of its name (up to case); an unknown member is ignored; [null] leaves a field, and makes
    a pointer or a slice [nil]. A document that repeats a member of one object is outside
    the model ([no_repeats]): there Go merges into what it has already decoded. The round
    trip with the bodies of a client shows that the decoders read every field back. *)

From Stdlib Require Import Floats.SpecFloat.
From S2P Require Import Prelude Utf8 GoStrings Json JsonRoundtrip Client OpenAI ClientView.
Local Open Scope go_scope.

(** ** Values of the basic types *)
Definition dec_bool (v : json) : option bool :=
  match v with JBool b => Some b | JNull => Some false | _ => None end.

(** [strconv.ParseFloat(lit, 64)] of a number literal: the nearest binary64, ties to even;
    an overflow is an error. The exponent saturates at 10000 as there. *)
Fixpoint exp_value (acc : Z) (s : bytes) : Z :=
  match s with
  | [] => acc
  | b :: r => exp_value (if (acc <? 10000)%Z then acc * 10 + (bz b - 0x30) else acc)%Z r
  end.

Definition split_exp (s : bytes) : Z :=
  match s with
  | (x65 | x45) :: x2d :: r => (- exp_value 0 r)%Z
  | (x65 | x45) :: x2b :: r | (x65 | x45) :: r => exp_value 0 r
  | _ => 0%Z
  end.

(** [m * 10^e], rounded. *)
Definition round_decimal (neg : bool) (m e : Z) : float64 :=
  match m with
  | Z.pos p =>
      if (0 <=? e)%Z then
        binary_normalize 53 1024 ((if neg then Z.neg p else Z.pos p) * 10 ^ e) 0 neg
      else SFdiv 53 1024 (S754_finite neg p 0) (S754_finite false (Z.to_pos (10 ^ (- e))) 0)
  | _ => S754_zero neg
  end.

Definition parse_float (lit : bytes) : option float64 :=
  let '(neg, s) := match lit with x2d :: r => (true, r) | _ => (false, lit) end in
  '(i, s) ← scan_int s; '(f, s) ← scan_frac s;
  m ← dec_value 0 (i ++ drop 1 f);
  match round_decimal neg m (split_exp s - len (drop 1 f)) with
  | S754_infinity _ => None
  | x => Some x
  end.

Definition dec_float (v : json) : option float64 :=
  match v with JNum lit => parse_float lit | _ => None end.

Example parse_float_ex :
  parse_float (go "0.7") = Some (S754_finite false 6305039478318694 (-53)) /\
  parse_float (go "-1.50e1") = Some (S754_finite true 8444249301319680 (-49)) /\
  parse_float (go "1") = Some (S754_finite false 4503599627370496 (-52)) /\
  parse_float (go "5e-324") = Some (S754_finite false 1 (-1074)) /\
  parse_float (go "-0") = Some (S754_zero true) /\ parse_float (go "1e309") = None.
Proof. vm_compute. done. Qed.

(** ** Fields *)

(** A pointer field: [null] makes it [nil]. *)
Definition ptr_field {A} (dec : json -> option A) (vs : list (bytes * json)) : option (option A) :=
  foldl (fun acc v => _ ← acc; match v.2 with JNull => Some None | j => Some <$> dec j end) (Some None) vs.

(** A slice field. *)
Definition list_field {A} (dec : json -> option A) (vs : list (bytes * json)) : option (list A) :=
  foldl (fun acc v => _ ← acc; dec_list dec v.2) (Some []) vs.

(** No object has two members that set the same field. *)
Definition fold_key (k : bytes) : list rune := fold_rune <$> runes k.

Fixpoint no_repeats (v : json) : bool :=
  match v with
  | JArr l => forallb (fun e => no_repeats e.2) l
  | JObj l => bool_decide (NoDup ((fun m => fold_key m.1) <$> l)) && forallb (fun m => no_repeats m.2.2) l
  | _ => true
  end.

(** ** The request types *)
Definition dec_ToolCallFunction : json -> option ToolCallFunction :=
  dec_struct (fun l =>
    name ← last_field dec_string [] (fields (go "name") l);
    args ← last_field dec_string [] (fields (go "arguments") l);
    Some {| f_Name := name; f_Arguments := args |}).

Definition dec_ToolCall : json -> option ToolCall :=
  dec_struct (fun l =>
    id ← last_field dec_string [] (fields (go "id") l);
    ty ← last_field dec_string [] (fields (go "type") l);
    f ← last_field dec_ToolCallFunction {| f_Name := []; f_Arguments := [] |} (fields (go "function") l);
    Some {| o_ID := id; o_Type := ty; o_Function := f |}).

Definition dec_ChatMessage : json -> option ChatMessage :=
  dec_struct (fun l =>
    role ← last_field dec_string [] (fields (go "role") l);
    name ← last_field dec_string [] (fields (go "name") l);
    calls ← list_field dec_ToolCall (fields (go "tool_calls") l);
    id ← last_field dec_string [] (fields (go "tool_call_id") l);
    Some {| m_Role := role; m_Content := raw_field (fields (go "content") l); m_Name := name;
            m_ToolCalls := calls; m_ToolCallID := id |}).

Definition dec_FunctionDef : json -> option FunctionDef :=
  dec_struct (fun l =>
    name ← last_field dec_string [] (fields (go "name") l);
    desc ← last_field dec_string [] (fields (go "description") l);
    Some {| fd_Name := name; fd_Description := desc; fd_Parameters := raw_field (fields (go "parameters") l) |}).

Definition dec_Tool : json -> option Tool :=
  dec_struct (fun l =>
    ty ← last_field dec_string [] (fields (go "type") l);
    f ← last_field dec_FunctionDef {| fd_Name := []; fd_Description := []; fd_Parameters := [] |}
          (fields (go "function") l);
    Some {| t_Type := ty; t_Function := f |}).

Definition dec_StreamOptions : json -> option StreamOptions :=
  dec_struct (fun l =>
    u ← last_field dec_bool false (fields (go "include_usage") l); Some {| IncludeUsage := u |}).

Definition dec_ChatRequest : json -> option ChatRequest :=
  dec_struct (fun l =>
    model ← last_field dec_string [] (fields (go "model") l);
    messages ← list_field dec_ChatMessage (fields (go "messages") l);
    tools ← list_field dec_Tool (fields (go "tools") l);
    stream ← last_field dec_bool false (fields (go "stream") l);
    opts ← ptr_field dec_StreamOptions (fields (go "stream_options") l);
    max ← last_field dec_int 0%Z (fields (go "max_tokens") l);
    maxc ← last_field dec_int 0%Z (fields (go "max_completion_tokens") l);
    temp ← ptr_field dec_float (fields (go "temperature") l);
    top ← ptr_field dec_float (fields (go "top_p") l);
    ign ← last_field dec_bool false (fields (go "ignore_eos") l);
    think ← ptr_field dec_bool (fields (go "enable_thinking") l);
    Some {| c_Model := model; c_Messages := messages; c_Tools := tools; c_Stream := stream;
            c_StreamOptions := opts; c_MaxTokens := max; c_MaxCompletionTokens := maxc;
            c_Temperature := temp; c_TopP := top; c_IgnoreEOS := ign; c_EnableThinking := think |}).

Definition dec_CompletionRequest : json -> option CompletionRequest :=
  dec_struct (fun l =>
    model ← last_field dec_string [] (fields (go "model") l);
    max ← last_field dec_int 0%Z (fields (go "max_tokens") l);
    temp ← ptr_field dec_float (fields (go "temperature") l);
    top ← ptr_field dec_float (fields (go "top_p") l);
    stream ← last_field dec_bool false (fields (go "stream") l);
    opts ← ptr_field dec_StreamOptions (fields (go "stream_options") l);
    ign ← last_field dec_bool false (fields (go "ignore_eos") l);
    Some {| r_Model := model; r_Prompt := raw_field (fields (go "prompt") l); r_MaxTokens := max;
            r_Temperature := temp; r_TopP := top; r_Stream := stream; r_StreamOptions := opts;
            r_IgnoreEOS := ign |}).

Example dec_ChatRequest_ex :
  (fun r => (c_Stream r, c_MaxTokens r, m_Role <$> c_Messages r, content_text <$> (m_Content <$> c_Messages r),
             IncludeUsage <$> c_StreamOptions r, c_Temperature r)) <$>
  unmarshal dec_ChatRequest
    (go "{\qmessages\q: [{\qrole\q:\quser\q,\qcontent\q:\qhi\q}], \qSTREAM\q: true, \qmax_tokens\q: 7, \qstream_options\q: {}, \qtemperature\q: null, \qseed\q: 1}")
  = Some (true, 7%Z, [go "user"], [go "hi"], Some false, None) /\
  unmarshal dec_ChatRequest (go "{\qmessages\q:[{\qrole\q:7}]}") = None /\
  unmarshal dec_ChatRequest (go "{\qmax_tokens\q:1.5}") = None.
Proof. vm_compute. done. Qed.

(** ** The body a client writes

    All fields in order, those with nothing to say left out; raw JSON goes in as it is and
    [float_text] writes the numbers of the sampling parameters. *)
Definition wire := list (string * option bytes).

Definition present (w : wire) : list (string * bytes) :=
  omap (fun f => (fun s => (f.1, s)) <$> f.2) w.

Definition opt_raw (s : bytes) : option bytes := match s with [] => None | _ => Some s end.
Definition opt_string (s : bytes) : option bytes := enc_string <$> opt_raw s.
Definition enc_bool (b : bool) : bytes := if b then go "true" else go "false".

Definition wire_ChatMessage (m : ChatMessage) : bytes :=
  enc_obj (present [("role", Some (enc_string (m_Role m))); ("content", opt_raw (m_Content m));
                    ("name", opt_string (m_Name m));
                    ("tool_calls", enc_list enc_ToolCall <$> omit_nil (m_ToolCalls m));
                    ("tool_call_id", opt_string (m_ToolCallID m))]).

Definition wire_FunctionDef (f : FunctionDef) : bytes :=
  enc_obj (present [("name", Some (enc_string (fd_Name f))); ("description", opt_string (fd_Description f));
                    ("parameters", opt_raw (fd_Parameters f))]).

Definition wire_Tool (t : Tool) : bytes :=
  enc_obj (present [("type", Some (enc_string (t_Type t))); ("function", Some (wire_FunctionDef (t_Function t)))]).

Definition wire_StreamOptions (o : StreamOptions) : bytes :=
  enc_obj (present [("include_usage", Some (enc_bool (IncludeUsage o)))]).

Section wire.
Context (float_text : float64 -> bytes).

Definition wire_ChatRequest (r : ChatRequest) : bytes :=
  enc_obj (present
    [("model", Some (enc_string (c_Model r))); ("messages", Some (enc_list wire_ChatMessage (c_Messages r)));
     ("tools", enc_list wire_Tool <$> omit_nil (c_Tools r)); ("stream", Some (enc_bool (c_Stream r)));
     ("stream_options", wire_StreamOptions <$> c_StreamOptions r);
     ("max_tokens", Some (itoa (c_MaxTokens r))); ("max_completion_tokens", Some (itoa (c_MaxCompletionTokens r)));
     ("temperature", float_text <$> c_Temperature r); ("top_p", float_text <$> c_TopP r);
     ("ignore_eos", Some (enc_bool (c_IgnoreEOS r))); ("enable_thinking", enc_bool <$> c_EnableThinking r)]).

Definition wire_CompletionRequest (r : CompletionRequest) : bytes :=
  enc_obj (present
    [("model", Some (enc_string (r_Model r))); ("prompt", opt_raw (r_Prompt r));
     ("max_tokens", Some (itoa (r_MaxTokens r))); ("temperature", float_text <$> r_Temperature r);
     ("top_p", float_text <$> r_TopP r); ("stream", Some (enc_bool (r_Stream r)));
     ("stream_options", wire_StreamOptions <$> r_StreamOptions r); ("ignore_eos", Some (enc_bool (r_IgnoreEOS r)))]).
End wire.

(** ** Objects with optional members *)

(** [s] is read as a value without repeats that satisfies [P]. *)
Definition reads_ok (d : Z) (s : bytes) (P : json -> Prop) : Prop :=
  reads_as d s (fun v => no_repeats v = true /\ P v).

(** A member that is written reads as [P]. *)
Definition member_ok (d : Z) (s : option bytes) (P : bytes -> json -> Prop) : Prop :=
  match s with Some s => reads_ok d s (P s) | None => True end.

Definition entries (ks : list string) (es : list (option (bytes * json))) : list (bytes * (bytes * json)) :=
  omap (fun f => (fun e => (to_valid (go f.1), e)) <$> f.2) (zip ks es).

Definition distinct (ks : list string) : bool := bool_decide (NoDup ((fun k => fold_key (to_valid (go k))) <$> ks)).

(** What was read for a member. *)
Definition entry_ok (s : option bytes) (P : bytes -> json -> Prop) (e : option (bytes * json)) : Prop :=
  match s, e with
  | Some s, Some (s', v) => s' = s /\ P s v
  | None, None => True
  | _, _ => False
  end.

Lemma reads_ok_mono d d' s P : (d <= d')%Z -> reads_ok d s P -> reads_ok d' s P.
Proof. apply reads_as_mono. Qed.

Lemma reads_ok_weaken d s (P P' : json -> Prop) : (forall v, P v -> P' v) -> reads_ok d s P -> reads_ok d s P'.
Proof. intros H (v & Hv & Hr & Hp). exists v. auto. Qed.

Lemma entries_elem ks es m :
  m ∈ entries ks es -> exists k e, k ∈ ks /\ Some e ∈ es /\ m = (to_valid (go k), e).
Proof.
  unfold entries. intros Hm. apply list_elem_of_omap in Hm as ([k e] & Hke & Hm). cbn in Hm.
  destruct e as [e|]; [|done]. injection Hm as <-. exists k, e.
  apply elem_of_zip_l in Hke as Hk. apply elem_of_zip_r in Hke as He. done.
Qed.

Lemma entries_no_repeats ks es :
  distinct ks = true -> (forall e, Some e ∈ es -> no_repeats e.2 = true) ->
  no_repeats (JObj (entries ks es)) = true.
Proof.
  unfold distinct. rewrite bool_decide_eq_true. intros Hd He. cbn [no_repeats]. apply andb_true_iff. split.
  - apply bool_decide_eq_true. clear He. revert es. induction ks as [|k ks IH]; intros [|e es]; [constructor..|].
    apply NoDup_cons in Hd as [Hk Hd]. unfold entries. cbn [zip zip_with omap list_omap].
    destruct e as [e|]; cbn [fst snd fmap option_fmap option_map]; [|by apply IH]. cbn [fmap list_fmap fst].
    apply NoDup_cons. split; [|by apply IH]. intros H. apply Hk. apply list_elem_of_fmap in H as (m & -> & Hm).
    apply entries_elem in Hm as (k' & e' & Hk' & _ & ->). apply list_elem_of_fmap. by exists k'.
  - apply forallb_forall. intros m Hm%list_elem_of_In. apply entries_elem in Hm as (k & e & _ & Hin & ->). by apply He.
Qed.

(** The members read for a wire object. *)
Lemma reads_wire d (w : wire) (Ps : list (bytes -> json -> Prop)) :
  (0 <= d)%Z -> distinct w.*1 = true -> Forall2 (fun f P => member_ok d f.2 P) w Ps ->
  reads_ok (d + 1) (enc_obj (present w)) (fun v => exists es, v = JObj (entries w.*1 es) /\
    Forall3 entry_ok w.*2 Ps es).
Proof.
  intros Hd Hk H.
  assert (exists vs es, Forall2 (fun f v => reads d f.2 v) (present w) vs /\ members (present w) vs = entries w.*1 es /\
    (forall e, Some e ∈ es -> no_repeats e.2 = true) /\ Forall3 entry_ok w.*2 Ps es) as (vs & es & H1 & H2 & H3 & H4).
  { clear Hk. induction H as [|[k s] P w Ps Hf _ (vs & es & H1 & H2 & H3 & H4)].
    - exists [], []. split; [constructor|]. split; [done|]. split; [by intros ? ?%not_elem_of_nil|constructor].
    - destruct s as [s|]; cbn in Hf.
      + destruct Hf as (v & Hv & Hr & Hp). exists (v :: vs), (Some (s, v) :: es). cbn.
        split; [by constructor|]. split; [exact (f_equal (cons (to_valid (go k), (s, v))) H2)|]. split; [|by constructor].
        intros e [[= ->] | He]%elem_of_cons; [done|by apply H3].
      + exists vs, (None :: es). split; [done|]. split; [done|]. split; [|by constructor].
        intros e [? | He]%elem_of_cons; [done|by apply H3]. }
  exists (JObj (members (present w) vs)). split; [by apply reads_obj|]. rewrite H2.
  split; [by apply entries_no_repeats|by exists es].
Qed.

Lemma list_empty_forall {A} (l : list A) : (forall x, x ∉ l) -> l = [].
Proof. destruct l as [|x l]; [done|]. intros H. destruct (H x). by left. Qed.

(** Looking a member up. *)
Definition opt_list {A} (o : option A) : list A := match o with Some x => [x] | None => [] end.

Lemma fields_entries ks es i k e :
  distinct ks = true -> ks !! i = Some k -> es !! i = Some e -> to_valid (go k) = go k ->
  fields (go k) (entries ks es) = opt_list e.
Proof.
  unfold distinct. rewrite bool_decide_eq_true. intros Hd Hk He Hv. revert ks es Hd Hk He.
  assert (Hno : forall ks es, fold_key (to_valid (go k)) ∉ (fun k => fold_key (to_valid (go k))) <$> ks ->
    fields (go k) (entries ks es) = []).
  { intros ks es Hn. unfold fields. replace (filter _ _) with (@nil (bytes * (bytes * json))); [done|]. symmetry.
    apply list_empty_forall. intros m [Hkey Hm]%list_elem_of_filter. apply entries_elem in Hm as (k' & e' & Hk' & _ & ->).
    apply Hn, list_elem_of_fmap. exists k'. split; [|done]. unfold key_is in Hkey. apply bool_decide_eq_true in Hkey.
    unfold fold_key. by rewrite Hv, Hkey. }
  induction i as [|i IH]; intros [|k' ks] [|e' es] Hd Hk He; try done; cbn in Hk, He;
    apply NoDup_cons in Hd as [Hn Hd].
  - injection Hk as ->. injection He as ->. unfold entries. cbn [zip zip_with omap list_omap].
    destruct e as [e|]; cbn [fst snd fmap option_fmap option_map]; [|by apply Hno].
    rewrite fields_cons. unfold key_is. rewrite Hv, bool_decide_true by done. cbn [opt_list]. f_equal. by apply Hno.
  - unfold entries. cbn [zip zip_with omap list_omap].
    destruct e' as [e'|]; cbn [fst snd fmap option_fmap option_map]; [|by apply IH].
    rewrite fields_cons. replace (key_is (go k) (to_valid (go k'))) with false; [by apply IH|].
    symmetry. unfold key_is. apply bool_decide_eq_false. intros Heq. apply Hn. apply list_elem_of_fmap. exists k.
    split; [|by eapply list_elem_of_lookup_2]. unfold fold_key. by rewrite Hv, Heq.
Qed.

(** ** Reading the fields back *)

(** The value decodes to [x] (and is not [null], which would not be looked at). *)
Definition decodes {A} (dec : json -> option A) (o : option A) : bytes -> json -> Prop :=
  fun _ v => v <> JNull /\ dec v = o.

Lemma last_entry {A} (dec : json -> option A) zero s x e :
  entry_ok s (decodes dec (Some x)) e -> (s = None -> x = zero) -> last_field dec zero (opt_list e) = Some x.
Proof.
  destruct s as [s|], e as [[s' v]|]; cbn; [|done..|].
  - intros (-> & Hn & Hd) _. unfold last_field. cbn. by destruct v.
  - intros _ H. unfold last_field. cbn. by rewrite H.
Qed.

Lemma ptr_entry {A} (dec : json -> option A) (enc : A -> bytes) o e :
  entry_ok (enc <$> o) (decodes dec o) e -> ptr_field dec (opt_list e) = Some o.
Proof.
  destruct o as [x|], e as [[s' v]|]; cbn; [|done..].
  intros (_ & Hn & Hd). unfold ptr_field. cbn. destruct v; [done|rewrite Hd; done..].
Qed.

Lemma list_entry {A} (dec : json -> option A) s l e :
  entry_ok s (decodes (dec_list dec) (Some l)) e -> (s = None -> l = []) -> list_field dec (opt_list e) = Some l.
Proof.
  destruct s as [s|], e as [[s' v]|]; cbn; [|done..|].
  - intros (_ & _ & Hd) _. unfold list_field. cbn. by rewrite Hd.
  - intros _ H. unfold list_field. cbn. by rewrite H.
Qed.

Lemma raw_entry raw P e : entry_ok (opt_raw raw) P e -> raw_field (opt_list e) = raw.
Proof. destruct raw as [|b r], e as [[s' v]|]; cbn; try done. by intros [-> _]. Qed.

Lemma member_string s : valid s -> member_ok 0 (Some (enc_string s)) (decodes dec_string (Some s)).
Proof. intros H. eexists. split; [apply reads_string|]. split; [done|]. split; [done|]. by rewrite to_valid_id. Qed.

Lemma member_opt_string s : valid s -> member_ok 0 (opt_string s) (decodes dec_string (Some s)).
Proof. intros H. unfold opt_string. destruct s as [|b s]; [done|]. by apply member_string. Qed.

Lemma member_int z : in_int 64 z -> member_ok 0 (Some (itoa z)) (decodes dec_int (Some z)).
Proof. intros H. destruct (reads_int z H) as (lit & Hl & Hp). eexists. split; [exact Hl|]. done. Qed.

Lemma reads_bool b : reads 0 (enc_bool b) (JBool b).
Proof.
  assert (go "true" = [x74; x72; x75; x65]) as Et by (vm_compute; reflexivity).
  assert (go "false" = [x66; x61; x6c; x73; x65]) as Ef by (vm_compute; reflexivity).
  unfold enc_bool. destruct b; rewrite ?Et, ?Ef; (split; [by eexists _, _|]); intros fuel depth rest Hf _ _;
    (destruct fuel as [|f]; [simpl in Hf; lia|]); cbn [app pvalue]; unfold scan_word; by rewrite ?Et, ?Ef.
Qed.

Lemma member_bool b : member_ok 0 (Some (enc_bool b)) (decodes dec_bool (Some b)).
Proof. eexists. split; [apply reads_bool|]. done. Qed.

Lemma member_opt_bool o : member_ok 0 (enc_bool <$> o) (decodes dec_bool o).
Proof. destruct o as [b|]; [|done]. apply member_bool. Qed.

Lemma member_ok_mono d d' s P : (d <= d')%Z -> member_ok d s P -> member_ok d' s P.
Proof. intros Hd. destruct s; [|done]. by apply reads_ok_mono. Qed.

Lemma reads_list {A} (enc : A -> bytes) (dec : json -> option A) d l :
  (0 <= d)%Z -> (forall a, a ∈ l -> member_ok d (Some (enc a)) (decodes dec (Some a))) ->
  member_ok (d + 1) (Some (enc_list enc l)) (decodes (dec_list dec) (Some l)).
Proof.
  intros Hd H. destruct (reads_as_list enc d (fun a v => no_repeats v = true /\ dec v = Some a) l) as (v & Hv & es & -> & Hes).
  { done. } { intros a Ha. destruct (H a Ha) as (v & Hv & Hr & _ & Hdec). by exists v. }
  exists (JArr es). split; [exact Hv|]. split; [|split; [done|]].
  - cbn [no_repeats]. apply forallb_forall. intros e He. apply list_elem_of_In in He.
    pose proof (list_elem_of_fmap_2 snd es e He) as Hi. apply list_elem_of_lookup in Hi as [i Hi].
    destruct (Forall2_lookup_r _ _ _ _ _ Hes Hi) as (a & _ & Hn & _). done.
  - rewrite (dec_list_Forall2 dec id l); [by rewrite list_fmap_id|]. eapply Forall2_impl; [exact Hes|]. by intros ? ? [_ ?].
Qed.

Lemma member_omit_nil {A} (enc : A -> bytes) (dec : json -> option A) d l :
  (0 <= d)%Z -> (forall a, a ∈ l -> member_ok d (Some (enc a)) (decodes dec (Some a))) ->
  member_ok (d + 1) (enc_list enc <$> omit_nil l) (decodes (dec_list dec) (Some l)).
Proof. intros Hd H. destruct l as [|a l]; [done|]. by apply reads_list. Qed.

(** *** The request types *)
Definition raw_depth : Z := 9000.

(** A raw field is absent or one JSON value. *)
Definition raw_ok (raw : bytes) : Prop := member_ok raw_depth (opt_raw raw) (fun _ _ => True).

Definition call_ok (tc : ToolCall) : Prop :=
  valid (o_ID tc) /\ valid (o_Type tc) /\ valid (f_Name (o_Function tc)) /\ valid (f_Arguments (o_Function tc)).

Definition message_ok (m : ChatMessage) : Prop :=
  valid (m_Role m) /\ raw_ok (m_Content m) /\ valid (m_Name m) /\
  Forall call_ok (m_ToolCalls m) /\ valid (m_ToolCallID m).

Definition tool_ok (t : Tool) : Prop :=
  valid (t_Type t) /\ valid (fd_Name (t_Function t)) /\ valid (fd_Description (t_Function t)) /\
  raw_ok (fd_Parameters (t_Function t)).

(** One lemma about all members of an object: [tac] proves that each is read. *)
#[local] Ltac member_tac :=
  first [ apply member_string | apply member_opt_string | apply member_int | apply member_bool
        | apply member_opt_bool ]; (done || tauto).
#[local] Ltac members :=
  repeat match goal with
  | |- Forall2 _ (_ :: _) _ => eapply Forall2_cons_2
  | |- Forall2 _ [] _ => eapply Forall2_nil_2
  end; cbn [snd]; (eapply member_ok_mono; [|first [eassumption | member_tac]]; unfold raw_depth; lia).
#[local] Ltac entries_of H :=
  repeat match type of H with
  | Forall3 _ (_ :: _) _ _ =>
      let e := fresh "e" in let es := fresh "es" in let He := fresh "He" in
      inversion H as [|? ? e ? ? es He ?H']; subst; clear H; rename H' into H
  | Forall3 _ [] _ _ => inversion H; subst; clear H
  end.

(** Each field of the object is looked up and decoded. *)
#[local] Ltac lookup_field k ks es i :=
  first [ rewrite (fields_entries ks es i k _ ltac:(vm_compute; reflexivity) eq_refl eq_refl ltac:(vm_compute; reflexivity))
        | let i := eval compute in (S i) in lookup_field k ks es i ].
#[local] Ltac absent_tac := intros; first [ done | match goal with H : _ = None |- ?x = _ => by destruct x end ].
#[local] Ltac decode_fields :=
  split; [done|]; cbn [fmap list_fmap fst];
  repeat match goal with
  | |- context [fields (go ?k) (entries ?ks ?es)] => lookup_field k ks es 0%nat
  end;
  repeat match goal with
  | H : entry_ok ?s (decodes ?dec (Some ?x)) ?e |- context [last_field ?dec ?z (opt_list ?e)] =>
      rewrite (last_entry dec z s x e H) by absent_tac; clear H
  | H : entry_ok _ (decodes ?dec _) ?e |- context [ptr_field ?dec (opt_list ?e)] =>
      rewrite (ptr_entry dec _ _ e H); clear H
  | H : entry_ok ?s _ ?e |- context [list_field ?dec (opt_list ?e)] =>
      rewrite (list_entry dec s _ e H) by absent_tac; clear H
  | H : entry_ok (opt_raw ?raw) ?P ?e |- context [raw_field (opt_list ?e)] =>
      rewrite (raw_entry raw P e H); clear H
  end.
#[local] Ltac object_back d :=
  eapply reads_ok_weaken; [|eapply (reads_wire d); [unfold raw_depth; lia|vm_compute; reflexivity|members]];
  let v := fresh in let es := fresh in let H := fresh in
  intros v (es & -> & H); cbn in H; entries_of H.

Lemma reads_ToolCall_back tc : call_ok tc ->
  member_ok 2 (Some (enc_ToolCall tc)) (decodes dec_ToolCall (Some tc)).
Proof.
  intros (H1 & H2 & H3 & H4).
  assert (member_ok 1 (Some (enc_obj (present [("name", Some (enc_string (f_Name (o_Function tc))));
    ("arguments", Some (enc_string (f_Arguments (o_Function tc))))])))
    (decodes dec_ToolCallFunction (Some (o_Function tc)))) as Hf.
  { object_back 0%Z. unfold dec_ToolCallFunction, dec_struct. decode_fields. cbn. by destruct (o_Function tc). }
  change (enc_ToolCall tc) with (enc_obj (present [("id", Some (enc_string (o_ID tc)));
    ("type", Some (enc_string (o_Type tc)));
    ("function", Some (enc_obj (present [("name", Some (enc_string (f_Name (o_Function tc))));
      ("arguments", Some (enc_string (f_Arguments (o_Function tc))))])))])).
  object_back 1%Z. unfold dec_ToolCall, dec_struct. decode_fields. cbn. by destruct tc.
Qed.

Lemma reads_ChatMessage m : message_ok m ->
  member_ok (raw_depth + 1) (Some (wire_ChatMessage m)) (decodes dec_ChatMessage (Some m)).
Proof.
  intros (H1 & H2 & H3 & H4 & H5). unfold raw_ok in H2.
  pose proof (member_omit_nil enc_ToolCall dec_ToolCall 2 (m_ToolCalls m) ltac:(lia)
    ltac:(intros tc Htc; apply reads_ToolCall_back; by eapply Forall_forall in H4)) as Hc.
  object_back raw_depth. unfold dec_ChatMessage, dec_struct. decode_fields. cbn. by destruct m.
Qed.

Lemma reads_Tool t : tool_ok t -> member_ok (raw_depth + 2) (Some (wire_Tool t)) (decodes dec_Tool (Some t)).
Proof.
  intros (H1 & H2 & H3 & H4). unfold raw_ok in H4.
  assert (member_ok (raw_depth + 1) (Some (wire_FunctionDef (t_Function t))) (decodes dec_FunctionDef (Some (t_Function t)))) as Hf.
  { object_back raw_depth. unfold dec_FunctionDef, dec_struct. decode_fields. cbn. by destruct (t_Function t). }
  replace (raw_depth + 2)%Z with (raw_depth + 1 + 1)%Z by lia.
  object_back (raw_depth + 1)%Z. unfold dec_Tool, dec_struct. decode_fields. cbn. by destruct t.
Qed.

Lemma reads_StreamOptions o :
  member_ok 1 (Some (wire_StreamOptions o)) (decodes dec_StreamOptions (Some o)).
Proof. object_back 0%Z. unfold dec_StreamOptions, dec_struct. decode_fields. cbn. by destruct o. Qed.

(** *** Whole requests *)
Section requests.
Context (float_text : float64 -> bytes).

(** [float_text] writes [x] as a number literal that reads back as [x]. *)
Definition float_ok (x : float64) : Prop :=
  reads 0 (float_text x) (JNum (float_text x)) /\ parse_float (float_text x) = Some x.

Definition opt_ok {A} (P : A -> Prop) (o : option A) : Prop := match o with Some x => P x | None => True end.

Record chat_ok (r : ChatRequest) : Prop := {
  ok_model : valid (c_Model r);
  ok_messages : Forall message_ok (c_Messages r);
  ok_tools : Forall tool_ok (c_Tools r);
  ok_max : in_int 64 (c_MaxTokens r) /\ in_int 64 (c_MaxCompletionTokens r);
  ok_sampling : opt_ok float_ok (c_Temperature r) /\ opt_ok float_ok (c_TopP r);
}.

Record completion_ok (r : CompletionRequest) : Prop := {
  okc_model : valid (r_Model r);
  okc_prompt : raw_ok (r_Prompt r);
  okc_max : in_int 64 (r_MaxTokens r);
  okc_sampling : opt_ok float_ok (r_Temperature r) /\ opt_ok float_ok (r_TopP r);
}.

Lemma member_float o : opt_ok float_ok o -> member_ok 0 (float_text <$> o) (decodes dec_float o).
Proof. destruct o as [x|]; [|done]. intros [Hr Hp]. eexists. split; [exact Hr|]. done. Qed.

Lemma member_StreamOptions o : member_ok 1 (wire_StreamOptions <$> o) (decodes dec_StreamOptions o).
Proof. destruct o; [|done]. apply reads_StreamOptions. Qed.

Lemma reads_ChatRequest r : chat_ok r ->
  member_ok (raw_depth + 4) (Some (wire_ChatRequest float_text r)) (decodes dec_ChatRequest (Some r)).
Proof.
  intros [H1 H2 H3 [H4 H5] [H6 H7]]. rewrite Forall_forall in H2. rewrite Forall_forall in H3.
  pose proof (reads_list wire_ChatMessage dec_ChatMessage (raw_depth + 1) (c_Messages r) ltac:(unfold raw_depth; lia)
    ltac:(intros m Hm; by apply reads_ChatMessage, H2)) as Hm.
  pose proof (member_omit_nil wire_Tool dec_Tool (raw_depth + 2) (c_Tools r) ltac:(unfold raw_depth; lia)
    ltac:(intros t Ht; by apply reads_Tool, H3)) as Ht.
  pose proof (member_StreamOptions (c_StreamOptions r)) as Ho.
  pose proof (member_float _ H6) as Htemp. pose proof (member_float _ H7) as Htop.
  replace (raw_depth + 4)%Z with (raw_depth + 3 + 1)%Z by lia.
  object_back (raw_depth + 3)%Z. unfold dec_ChatRequest, dec_struct. decode_fields. cbn. by destruct r.
Qed.

Lemma reads_CompletionRequest r : completion_ok r ->
  member_ok (raw_depth + 1) (Some (wire_CompletionRequest float_text r)) (decodes dec_CompletionRequest (Some r)).
Proof.
  intros [H1 H2 H3 [H4 H5]]. unfold raw_ok in H2.
  pose proof (member_StreamOptions (r_StreamOptions r)) as Ho.
  pose proof (member_float _ H4) as Htemp. pose proof (member_float _ H5) as Htop.
  object_back raw_depth. unfold dec_CompletionRequest, dec_struct. decode_fields. cbn. by destruct r.
Qed.

(** A document that decodes, read from its text. *)
Lemma reads_document {A} (dec : json -> option A) d s x :
  (d <= maxNestingDepth)%Z -> member_ok d (Some s) (decodes dec (Some x)) ->
  exists doc, parse_json s = Some doc /\ no_repeats doc = true /\ dec doc = Some x.
Proof. intros Hd (doc & Hr & Hn & _ & Hx). exists doc. split; [by eapply reads_parse|done]. Qed.

End requests.
