(* ===== verification/Routes.v ===== *)
(** * The HTTP service

    Models [Server.Run] of [internal/server/server.go]: the four routes, the body handed to
    their handlers, and what gin does around them. Gin is not code of the repository: its
    binding and its dispatch are the operations of [gin], and [GinOk] is what the program
    relies on. *)

From Stdlib Require Import Floats.SpecFloat.
From S2P Require Import Prelude Utf8 GoStrings TokenizerCore Vocab Encode Json JsonRoundtrip Chatml Client.
From S2P Require Import Generate OpenAI Sse Server ServerSpec ClientView Binding.
Local Open Scope go_scope.

Record HttpRequest := { method : bytes; path : bytes; body : bytes }.

(** A handler, of the request's body. *)
Definition handler := bytes -> run (list effect).

(** A route table: method, path and handler. *)
Definition routes := list (bytes * bytes * handler).

Record gin := {
  bind_chat : bytes -> result error ChatRequest;              (** [c.ShouldBindJSON] *)
  bind_completion : bytes -> result error CompletionRequest;
  dispatch : routes -> bytes -> bytes -> option handler;      (** [None]: gin's own answer *)
}.

(** The binding decodes a JSON document with [encoding/json]; a path without parameters is
    matched as it is. *)
Definition binds {A} (bind : bytes -> result error A) (dec : json -> option A) : Prop :=
  forall body doc, parse_json body = Some doc -> no_repeats doc = true ->
    match dec doc with Some r => bind body = Ok r | None => exists err, bind body = Err err end.

Class GinOk (g : gin) : Prop := {
  bind_chat_ok : binds (bind_chat g) dec_ChatRequest;
  bind_completion_ok : binds (bind_completion g) dec_CompletionRequest;
  dispatch_found : forall rs m p h, NoDup rs.*1 -> (m, p, h) ∈ rs -> dispatch g rs m p = Some h;
  dispatch_sound : forall rs m p h, dispatch g rs m p = Some h -> (m, p, h) ∈ rs;
}.

Section service.
Context (g : gin) (s : Server) (env : Env).

Definition GET : bytes := go "GET".
Definition POST : bytes := go "POST".

(** [Server.Run], its route table. *)
Definition Run_routes : routes :=
  [(GET, go "/healthz", fun _ => Ret [Plain StatusOK (go "ok")]);
   (GET, go "/v1/models", fun _ => Ret (listModels s env));
   (POST, go "/v1/chat/completions", fun body => chatCompletions s env (bind_chat g body));
   (POST, go "/v1/completions", fun body => completions s env (bind_completion g body))].

(** A request to the service. *)
Definition Run (r : HttpRequest) : option (run (list effect)) :=
  (fun h : handler => h (body r)) <$> dispatch g Run_routes (method r) (path r).

Lemma routes_distinct : NoDup Run_routes.*1.
Proof. apply (bool_decide_eq_true_1 _). vm_compute. reflexivity. Qed.

Context {Hg : GinOk g}.

Lemma Run_found m p h b : (m, p, h) ∈ Run_routes -> Run {| method := m; path := p; body := b |} = Some (h b).
Proof using Hg. intros Hin. unfold Run. cbn [method path body]. by rewrite (dispatch_found _ _ _ _ routes_distinct Hin). Qed.

Lemma Run_chat b : Run {| method := POST; path := go "/v1/chat/completions"; body := b |}
  = Some (chatCompletions s env (bind_chat g b)).
Proof using Hg. apply (Run_found _ _ (fun body => chatCompletions s env (bind_chat g body))). do 2 right. by left. Qed.

Lemma Run_completion b : Run {| method := POST; path := go "/v1/completions"; body := b |}
  = Some (completions s env (bind_completion g b)).
Proof using Hg. apply (Run_found _ _ (fun body => completions s env (bind_completion g body))). do 3 right. by left. Qed.

(** Binding the body of a client. *)
Lemma bound {A} (bind : bytes -> result error A) (dec : json -> option A) d b r :
  binds bind dec -> (d <= maxNestingDepth)%Z -> member_ok d (Some b) (decodes dec (Some r)) -> bind b = Ok r.
Proof.
  intros Hb Hd Hm. destruct (reads_document dec d b r Hd Hm) as (doc & Hp & Hn & Hdec).
  pose proof (Hb b doc Hp Hn) as H. by rewrite Hdec in H.
Qed.

End service.

(** ** What the handlers take from a request *)
Lemma unmarshal_string t : valid t -> unmarshal dec_string (enc_string t) = Some t.
Proof.
  intros H. unfold unmarshal. erewrite reads_parse; [| |apply reads_string]; [|done]. cbn. by rewrite to_valid_id.
Qed.

Lemma content_text_string t : valid t -> content_text (enc_string t) = t.
Proof.
  intros H. unfold content_text. rewrite bool_decide_eq_false_2.
  - cbn [length enc_string orb Nat.eqb]. by rewrite unmarshal_string.
  - assert (go "null" = [x6e; x75; x6c; x6c]) as -> by (vm_compute; reflexivity). done.
Qed.

Lemma unmarshal_ids ids :
  Forall (in_int 64) ids -> unmarshal dec_string (enc_list itoa ids) = None /\
  unmarshal (dec_list dec_int) (enc_list itoa ids) = Some ids.
Proof.
  intros H. rewrite Forall_forall in H.
  destruct (reads_list itoa dec_int 0 ids ltac:(lia) ltac:(intros z Hz; by apply member_int, H)) as (v & Hv & _ & Hn & Hd).
  unfold unmarshal. erewrite reads_parse; [| |exact Hv]; [|done]. cbn [mbind option_bind]. split; [|exact Hd].
  destruct v; cbn in Hd |- *; done.
Qed.

(** ** Properties *)

(** C14: the service answers every request on its four routes exactly once: whatever the
    method, path and body, the handler gin dispatches to returns, with one JSON or text
    body or one event stream and never two answers or none; and a body that is JSON but not
    a request, or a chat without messages, is refused with status 400, whatever the model
    and the engine. *)
Theorem requests_answered_once g s env :
  GinOk g -> specials_nonempty (gtok (gen s)) ->
  (forall req, match Run g s env req with
    | Some r => exists tr, r = Ret tr /\ one_response tr
    | None => (method req, path req) ∉ (Run_routes g s env).*1
    end) /\
  (forall b doc, parse_json b = Some doc -> no_repeats doc = true ->
    (dec_ChatRequest doc = None \/ (exists r, dec_ChatRequest doc = Some r /\ c_Messages r = []) ->
       exists msg, Run g s env {| method := POST; path := go "/v1/chat/completions"; body := b |}
         = Some (Ret [JSON 400 (error_body msg (go "invalid_request_error"))])) /\
    (dec_CompletionRequest doc = None \/ (exists r, dec_CompletionRequest doc = Some r /\ r_Prompt r = []) ->
       exists msg, Run g s env {| method := POST; path := go "/v1/completions"; body := b |}
         = Some (Ret [JSON 400 (error_body msg (go "invalid_request_error"))]))).
Proof.
  intros Hg Hne. split; [|intros b doc Hp Hn; rewrite Run_chat, Run_completion by done; split].
  - intros [m p b]. destruct (Run g s env _) as [r|] eqn:E; unfold Run in E; cbn [method path body] in *.
    + destruct (dispatch _ _ _ _) as [h|] eqn:Eh; [|done]. injection E as <-. apply dispatch_sound in Eh.
      unfold Run_routes in Eh. rewrite !elem_of_cons in Eh.
      destruct (handlers_answer_once s env (bind_chat g b) (bind_completion g b) Hne) as [Hc Hr].
      destruct Eh as [[= _ _ ->]|[[= _ _ ->]|[[= _ _ ->]|[[= _ _ ->]|Eh]]]]; [..|by apply not_elem_of_nil in Eh]; try done;
        (eexists; split; [done|constructor]).
    + intros Hin. apply list_elem_of_fmap in Hin as ([[m' p'] h] & [= -> ->] & Hin).
      rewrite (dispatch_found _ _ _ _ (routes_distinct g s env) Hin) in E. done.
  - pose proof (bind_chat_ok b doc Hp Hn) as Hb. intros [Hd|(r & Hd & Hm)]; rewrite Hd in Hb.
    + destruct Hb as [err ->]. by exists (Error err).
    + rewrite Hb. cbn [chatCompletions]. rewrite Hm. by eexists.
  - pose proof (bind_completion_ok b doc Hp Hn) as Hb. intros [Hd|(r & Hd & Hm)]; rewrite Hd in Hb.
    + destruct Hb as [err ->]. by exists (Error err).
    + rewrite Hb. cbn [completions]. rewrite Hm. by eexists.
Qed.


(** ** Witnesses *)
Definition plain_bind {A} (dec : json -> option A) (b : bytes) : result error A :=
  match unmarshal dec b with Some r => Ok r | None => Err (new_error (go "invalid request")) end.

Definition plain_dispatch (rs : routes) (m p : bytes) : option handler :=
  (fun e => e.2.2) <$> list_find (fun e => e.1 = (m, p)) rs.

Definition plain_gin : gin :=
  {| bind_chat := plain_bind dec_ChatRequest; bind_completion := plain_bind dec_CompletionRequest;
     dispatch := plain_dispatch |}.

Lemma plain_binds {A} (dec : json -> option A) : binds (plain_bind dec) dec.
Proof.
  intros b doc Hp _. unfold plain_bind, unmarshal. rewrite Hp. cbn. destruct (dec doc); [done|by eexists].
Qed.

#[export] Instance plain_gin_ok : GinOk plain_gin.
Proof.
  split; [apply plain_binds..| |].
  - intros rs m p h Hnd Hin. cbn [dispatch plain_gin]. unfold plain_dispatch.
    apply list_elem_of_lookup in Hin as [i Hi].
    replace (list_find _ rs) with (Some (i, (m, p, h))); [done|]. symmetry. apply list_find_Some.
    split; [done|]. split; [done|]. intros j y Hj Hlt Heq.
    assert (rs.*1 !! j = rs.*1 !! i) as E by (rewrite !list_lookup_fmap, Hj, Hi; cbn; by rewrite Heq).
    rewrite list_lookup_fmap, Hj in E. cbn in E. pose proof (NoDup_lookup rs.*1 j i y.1 Hnd) as Hn.
    rewrite !list_lookup_fmap, Hj, Hi in Hn. cbn in Hn. rewrite Heq in Hn. specialize (Hn eq_refl eq_refl). lia.
  - intros rs m p h. cbn [dispatch plain_gin]. unfold plain_dispatch.
    destruct (list_find _ rs) as [[i [k h']]|] eqn:E; [|done]. apply list_find_Some in E as (Hi & Hk & _).
    cbn in *. intros [= <-]. subst k. by eapply list_elem_of_lookup_2.
Qed.

Lemma requests_answered_once_witness :
  exists msg, Run plain_gin toy_server toy_env
    {| method := POST; path := go "/v1/chat/completions"; body := go "{\qmessages\q:[]}" |}
  = Some (Ret [JSON 400 (error_body msg (go "invalid_request_error"))]).
Proof.
  destruct (requests_answered_once plain_gin toy_server toy_env plain_gin_ok (proj2 toy_specials_ok)) as [_ H].
  destruct (H (go "{\qmessages\q:[]}") (JObj [(go "messages", (go "[]", JArr []))])) as [Hc _].
  - vm_compute. reflexivity.
  - vm_compute. reflexivity.
  - apply Hc. right. eexists. split; vm_compute; reflexivity.
Defined.

(** A conversation of one message at temperature 1, to be streamed. *)
Definition float_1 : float64 := S754_finite false 4503599627370496 (-52).
Definition toy_float_text (x : float64) : bytes := itoa 1.

Lemma toy_float_ok : float_ok toy_float_text float_1.
Proof. split; [by apply reads_itoa|vm_compute; reflexivity]. Qed.

Definition toy_chat : ChatRequest :=
  {| c_Model := go "toy";
     c_Messages := [{| m_Role := go "user"; m_Content := enc_string (go "hi"); m_Name := []; m_ToolCalls := [];
                       m_ToolCallID := [] |}];
     c_Tools := []; c_Stream := true; c_StreamOptions := Some {| IncludeUsage := true |};
     c_MaxTokens := 5; c_MaxCompletionTokens := 0; c_Temperature := Some float_1; c_TopP := None;
     c_IgnoreEOS := false; c_EnableThinking := None |}.

Lemma toy_chat_ok : chat_ok toy_float_text toy_chat.
Proof.
  split; cbn.
  - by apply valid_ascii.
  - constructor; [|constructor]. split; [by apply valid_ascii|]. split; [|split; [by apply valid_ascii|split; [constructor|by apply valid_ascii]]].
    unfold raw_ok. change (member_ok raw_depth (Some (enc_string (go "hi"))) (fun _ _ => True)).
    destruct (member_string (go "hi")) as (v & Hv & Hn & _); [by apply valid_ascii|].
    exists v. split; [|done]. by apply (reads_mono 0).
  - constructor.
  - split; split; by vm_compute.
  - split; [apply toy_float_ok|done].
Qed.

