(* ===== verification/Flags.v ===== *)
(** * Flags: Go's [flag] package and the part of [strconv] behind it

    What [fs.Parse] makes of the arguments of [serve] and [chat]: a [FlagSet] maps names to
    typed values, each [Set] from its text by [strconv.ParseInt] (base 0), [ParseFloat] or
    [ParseBool]. The specification says which command lines [spell] a list of settings and
    what they set; [Parse] accepts exactly these. *)

From Stdlib Require Import Floats.SpecFloat.
From S2P Require Import Prelude GoStrings Json JsonRoundtrip Client Binding.
Local Open Scope go_scope.

(** ** [strconv] *)
Definition lower (b : byte) : Z := Z.lor (bz b) 0x20.
Definition is_hex_letter (b : byte) : bool := ((0x61 <=? lower b) && (lower b <=? 0x66))%Z.
Definition is_letter (b : byte) : bool := ((0x61 <=? lower b) && (lower b <=? 0x7a))%Z.
Definition is_underscore (b : byte) : bool := Byte.eqb b x5f.

(** [underscoreOK]: an underscore stands between two digits, or between the base prefix
    and a digit. *)
Inductive saw := SawStart | SawDigit | SawUnderscore | SawOther.

Fixpoint underscores_ok (hex : bool) (i : saw) (s : bytes) : bool :=
  match s with
  | [] => match i with SawUnderscore => false | _ => true end
  | c :: s =>
      if is_digit c || (hex && is_hex_letter c) then underscores_ok hex SawDigit s
      else if is_underscore c then
        match i with SawDigit => underscores_ok hex SawUnderscore s | _ => false end
      else match i with SawUnderscore => false | _ => underscores_ok hex SawOther s end
  end.

(** The letters of the base prefixes. *)
Definition prefix_base (c : byte) : option Z :=
  if (lower c =? 0x62)%Z then Some 2%Z
  else if (lower c =? 0x6f)%Z then Some 8%Z
  else if (lower c =? 0x78)%Z then Some 16%Z
  else None.

Definition unsigned (s : bytes) : bool * bytes :=
  match s with x2d :: r => (true, r) | x2b :: r => (false, r) | _ => (false, s) end.

Definition underscoreOK (s : bytes) : bool :=
  let s := (unsigned s).2 in
  match s with
  | x30 :: c :: r =>
      match prefix_base c with
      | Some base => underscores_ok (base =? 16)%Z SawDigit r
      | None => underscores_ok false SawStart s
      end
  | _ => underscores_ok false SawStart s
  end.

Definition bad_underscore (s : bytes) : bool := existsb is_underscore s && negb (underscoreOK s).

(** [ParseUint(s, 0, 64)], before the range is checked. *)
Definition digit_val (c : byte) : option Z :=
  if is_digit c then Some (bz c - 0x30)%Z
  else if is_letter c then Some (lower c - 0x61 + 10)%Z else None.

Fixpoint uint_value (base acc : Z) (s : bytes) : option Z :=
  match s with
  | [] => Some acc
  | c :: r =>
      if is_underscore c then uint_value base acc r
      else d ← digit_val c; if (d <? base)%Z then uint_value base (acc * base + d) r else None
  end.

Definition split_base (s : bytes) : Z * bytes :=
  match s with
  | x30 :: r =>
      match r with
      | c :: d :: r' => match prefix_base c with Some base => (base, d :: r') | None => (8%Z, r) end
      | _ => (8%Z, r)
      end
  | _ => (10%Z, s)
  end.

Definition ParseUint (s : bytes) : option Z :=
  match s with
  | [] => None
  | _ =>
      let '(base, r) := split_base s in
      v ← uint_value base 0 r; if bad_underscore s then None else Some v
  end.

(** [ParseInt(s, 0, 64)]. *)
Definition ParseInt (s : bytes) : option Z :=
  let '(neg, r) := unsigned s in
  v ← ParseUint r;
  let z := if (neg : bool) then (- v)%Z else v in
  if decide (in_int 64 z) then Some z else None.

Definition ParseBool (s : bytes) : option bool :=
  if bool_decide (s ∈ [go "1"; go "t"; go "T"; go "true"; go "TRUE"; go "True"]) then Some true
  else if bool_decide (s ∈ [go "0"; go "f"; go "F"; go "false"; go "FALSE"; go "False"]) then Some false
  else None.

(** [ParseFloat(s, 64)]: [special] and [readFloat] with the rounding of its result. *)
Definition to_lower (b : byte) : Z :=
  if ((0x41 <=? bz b) && (bz b <=? 0x5a))%Z then (bz b + 0x20)%Z else bz b.
Definition folds_to (s word : bytes) : bool := bool_decide (to_lower <$> s = bz <$> word).

Definition special (s : bytes) : option float64 :=
  let '(neg, r) := unsigned s in
  if folds_to r (go "inf") || folds_to r (go "infinity") then Some (S754_infinity neg)
  else if folds_to s (go "nan") then Some S754_nan
  else None.

(** The mantissa: its digits as a number, how many are behind the point, whether there are
    any, and what follows. *)
Fixpoint mantissa (hex dot digits : bool) (m frac : Z) (s : bytes) : Z * Z * bool * bytes :=
  match s with
  | [] => (m, frac, digits, [])
  | c :: r =>
      if is_underscore c then mantissa hex dot digits m frac r
      else if Byte.eqb c x2e && negb dot then mantissa hex true digits m frac r
      else
        match digit_val c with
        | Some d =>
            if (d <? (if hex then 16 else 10))%Z then
              mantissa hex dot true (m * (if hex then 16 else 10) + d) (if dot then frac + 1 else frac)%Z r
            else (m, frac, digits, s)
        | None => (m, frac, digits, s)
        end
  end.

(** The exponent after its letter, which must end the text. *)
Definition exponent (s : bytes) : option Z :=
  let '(neg, r) := unsigned s in
  match r with
  | c :: _ =>
      if is_digit c && forallb (fun c => is_digit c || is_underscore c) r then
        let e := exp_value 0 (filter (fun c => is_underscore c = false) r) in
        Some (if (neg : bool) then - e else e)%Z
      else None
  | [] => None
  end.

Definition round_hex (neg : bool) (m e : Z) : float64 :=
  match m with
  | Z.pos p => binary_normalize 53 1024 (if neg then Z.neg p else Z.pos p) e neg
  | _ => S754_zero neg
  end.

Definition readFloat (s : bytes) : option float64 :=
  let '(neg, r) := unsigned s in
  let '(hex, r) := match r with
                   | x30 :: c :: d :: r' => if (lower c =? 0x78)%Z then (true, d :: r') else (false, r)
                   | _ => (false, r)
                   end in
  let '(m, frac, digits, rest) := mantissa hex false false 0 0 r in
  if negb digits then None else
  e ← match rest with
      | [] => if (hex : bool) then None else Some 0%Z
      | c :: rest => if (lower c =? (if hex then 0x70 else 0x65))%Z then exponent rest else None
      end;
  if bad_underscore s then None
  else Some (if hex then round_hex neg m (e - 4 * frac) else round_decimal neg m (e - frac)).

Definition ParseFloat (s : bytes) : option float64 :=
  match special s with
  | Some x => Some x
  | None => x ← readFloat s; match x with S754_infinity _ => None | _ => Some x end
  end.

Example ParseInt_ex :
  ParseInt <$> [go "16"; go "-7"; go "+0x1F"; go "010"; go "1_000"; go "0b_11"; go "0"; go "9223372036854775807"] =
    [Some 16; Some (-7); Some 31; Some 8; Some 1000; Some 3; Some 0; Some 9223372036854775807]%Z /\
  ParseInt <$> [[]; go "-"; go "0x"; go "08"; go "1__0"; go "1_"; go " 1"; go "9223372036854775808"] = replicate 8 None.
Proof. vm_compute. done. Qed.

Example ParseFloat_ex :
  ParseFloat (go "0.9") = Some (S754_finite false 8106479329266893 (-53)) /\
  ParseFloat (go ".9e0") = ParseFloat (go "0.9") /\ ParseFloat (go "9_0.e-2") = ParseFloat (go "0.9") /\
  ParseFloat (go "0x1.8p1") = Some (S754_finite false 6755399441055744 (-51)) /\
  ParseFloat (go "-Inf") = Some (S754_infinity true) /\ ParseFloat (go "NaN") = Some S754_nan /\
  ParseFloat <$> [[]; go "."; go "1e"; go "1e309"; go "0x1"; go "1.2.3"; go "-nan"; go "_1"; go "0,9"] = replicate 9 None.
Proof. vm_compute. done. Qed.

(** ** [flag] *)

(** The value of a flag, of the type it was declared with. *)
Inductive value := VString (s : bytes) | VInt (z : Z) | VFloat (x : float64) | VBool (b : bool).

Definition value_Set (v : value) (text : bytes) : option value :=
  match v with
  | VString _ => Some (VString text)
  | VInt _ => VInt <$> ParseInt text
  | VFloat _ => VFloat <$> ParseFloat text
  | VBool _ => VBool <$> ParseBool text
  end.

Definition IsBoolFlag (v : value) : bool := match v with VBool _ => true | _ => false end.

(** The declared flags with their current values. *)
Notation FlagSet := (gmap bytes value).

Inductive flag_error :=
  | ErrHelp
  | BadSyntax (arg : bytes)
  | NotDefined (name : bytes)
  | NeedsArgument (name : bytes)
  | InvalidValue (text name : bytes).

(** A round of [Parse]: a flag was set, the flags are at an end, or an error. *)
Inductive round := Seen (fs : FlagSet) (args : list bytes) | NoMore (args : list bytes) | Bad (err : flag_error).

Definition cut_value (name : bytes) : bytes * option bytes :=
  match name with
  | [] => ([], None)
  | c :: r =>
      match index_byte r x3d with
      | Some i => (c :: take i r, Some (drop (S i) r))
      | None => (name, None)
      end
  end.

Definition set_flag (fs : FlagSet) (name : bytes) (v : value) (text : bytes) (args : list bytes) : round :=
  match value_Set v text with
  | Some v => Seen (<[name := v]> fs) args
  | None => Bad (InvalidValue text name)
  end.

(** [s] is the argument, [name] what follows its dashes. *)
Definition named_flag (fs : FlagSet) (s name : bytes) (args : list bytes) : round :=
  match name with
  | [] | x2d :: _ | x3d :: _ => Bad (BadSyntax s)
  | _ =>
      let '(name, text) := cut_value name in
      match fs !! name with
      | None => Bad (if bool_decide (name ∈ [go "help"; go "h"]) then ErrHelp else NotDefined name)
      | Some v =>
          match text, args with
          | Some text, _ => set_flag fs name v text args
          | None, _ =>
              if IsBoolFlag v then set_flag fs name v (go "true") args
              else match args with
                   | text :: args => set_flag fs name v text args
                   | [] => Bad (NeedsArgument name)
                   end
          end
      end
  end.

Definition parseOne (fs : FlagSet) (args : list bytes) : round :=
  match args with
  | (x2d :: c :: r) as s :: rest =>
      if Byte.eqb c x2d then
        match r with [] => NoMore rest | _ => named_flag fs s r rest end
      else named_flag fs s (c :: r) rest
  | _ => NoMore args
  end.

(** Every round consumes an argument. *)
Fixpoint parse_loop (fuel : nat) (fs : FlagSet) (args : list bytes) : run (result flag_error (FlagSet * list bytes)) :=
  match parseOne fs args with
  | NoMore args => Ret (Ok (fs, args))
  | Bad err => Ret (Err err)
  | Seen fs args => match fuel with O => Fuel | S f => parse_loop f fs args end
  end.

(** The values set, and [fs.Args()]: what is left. *)
Definition Parse (fs : FlagSet) (args : list bytes) : run (result flag_error (FlagSet * list bytes)) :=
  parse_loop (length args) fs args.

(** The exit code of a [FlagSet] with [flag.ExitOnError]. *)
Definition exit_code (err : flag_error) : Z := match err with ErrHelp => 0 | _ => 2 end.

(** ** Command lines that spell settings *)

(** [-name], [-name=text] or [-name text], with one dash or two. *)
Inductive form := Alone | Joined (text : bytes) | Spaced (text : bytes).
Record setting := { two_dashes : bool; name_of : bytes; form_of : form }.

Definition spell (s : setting) : list bytes :=
  let flag := (if two_dashes s then go "--" else go "-") ++ name_of s in
  match form_of s with
  | Alone => [flag]
  | Joined text => [flag ++ go "=" ++ text]
  | Spaced text => [flag; text]
  end.

(** A flag without a text is a boolean one; the text of a boolean one is joined to it. *)
Definition set_by (v : value) (f : form) : option value :=
  match f with
  | Alone => if IsBoolFlag v then Some (VBool true) else None
  | Joined text => value_Set v text
  | Spaced text => if IsBoolFlag v then None else value_Set v text
  end.

(** The settings of a command line in order: the last one of a flag wins. *)
Fixpoint apply (fs : FlagSet) (l : list setting) : option FlagSet :=
  match l with
  | [] => Some fs
  | s :: l => v ← fs !! name_of s; v' ← set_by v (form_of s); apply (<[name_of s := v']> fs) l
  end.

(** Arguments that end the flags: none, a first one that is not a flag, or a [--], which is
    not one of the arguments left. *)
Inductive operands : list bytes -> list bytes -> Prop :=
  | op_none : operands [] []
  | op_dashes rest : operands (go "--" :: rest) rest
  | op_other s rest : (forall c r, s <> x2d :: c :: r) -> operands (s :: rest) (s :: rest).

(** A name that can be spelled. *)
Definition name_ok (name : bytes) : Prop :=
  match name with [] => False | c :: r => c <> x2d /\ c <> x3d /\ x3d ∉ r end.

#[export] Instance name_ok_dec name : Decision (name_ok name).
Proof. destruct name; cbn; apply _. Defined.

Definition names_ok (fs : FlagSet) : Prop := forall name, is_Some (fs !! name) -> name_ok name.

(** ** [Parse] accepts exactly these *)
Lemma go_dash : go "-" = [x2d].
Proof. vm_compute. reflexivity. Qed.

Lemma go_dashes : go "--" = [x2d; x2d].
Proof. vm_compute. reflexivity. Qed.

Lemma go_equals : go "=" = [x3d].
Proof. vm_compute. reflexivity. Qed.

Lemma index_byte_None s b : b ∉ s -> index_byte s b = None.
Proof.
  intros H. unfold index_byte. rewrite (proj2 (list_find_None _ _)); [done|].
  apply Forall_forall. by intros c Hc <-.
Qed.

Lemma index_byte_app s b r : b ∉ s -> index_byte (s ++ b :: r) b = Some (length s).
Proof.
  intros H. unfold index_byte. assert (list_find (b =.) (s ++ b :: r) = Some (length s, b)) as ->; [|done].
  apply list_find_Some. split; [by apply list_lookup_middle|]. split; [done|]. intros j c Hc Hj <-. apply H.
  rewrite lookup_app_l in Hc by done. by eapply list_elem_of_lookup_2.
Qed.

Lemma index_byte_Some s b i : index_byte s b = Some i -> s = take i s ++ b :: drop (S i) s /\ b ∉ take i s.
Proof.
  unfold index_byte. intros ([j c] & Hf & [= ->])%fmap_Some. apply list_find_Some in Hf as (Hj & <- & Hb). cbn [fst] in *.
  split; [by rewrite take_drop_middle|]. intros (k & Hk)%list_elem_of_lookup_1.
  apply lookup_take_Some in Hk as [Hk Hlt]. by apply (Hb k b).
Qed.

Lemma cut_value_alone name : name_ok name -> cut_value name = (name, None).
Proof. destruct name as [|c r]; [done|]. intros (_ & _ & H). cbn. by rewrite index_byte_None. Qed.

Lemma cut_value_joined name text : name_ok name -> cut_value (name ++ x3d :: text) = (name, Some text).
Proof.
  destruct name as [|c r]; [done|]. intros (_ & _ & H). cbn [app cut_value]. rewrite index_byte_app by done.
  rewrite take_app_length. by rewrite drop_app_ge, Nat.sub_succ_l, Nat.sub_diag by lia.
Qed.

(** Dashes: what [parseOne] reads as the name. *)
Lemma parseOne_dashes fs (two : bool) c r rest :
  c <> x2d ->
  parseOne fs ((((if two then go "--" else go "-") : bytes) ++ c :: r) :: rest) =
  named_flag fs ((if two then go "--" else go "-") ++ c :: r) (c :: r) rest.
Proof.
  intros Hc. rewrite go_dash, go_dashes. destruct two; cbn [app parseOne]; [done|].
  destruct (Byte.eqb c x2d) eqn:E; [|done]. by apply Byte.byte_dec_bl in E.
Qed.

Lemma set_flag_Some fs name v text v' args :
  value_Set v text = Some v' -> set_flag fs name v text args = Seen (<[name := v']> fs) args.
Proof. intros H. unfold set_flag. by rewrite H. Qed.

Lemma named_flag_cut fs s c r args :
  c <> x2d -> c <> x3d ->
  named_flag fs s (c :: r) args =
  let '(name, text) := cut_value (c :: r) in
  match fs !! name with
  | None => Bad (if bool_decide (name ∈ [go "help"; go "h"]) then ErrHelp else NotDefined name)
  | Some v =>
      match text, args with
      | Some text, _ => set_flag fs name v text args
      | None, _ =>
          if IsBoolFlag v then set_flag fs name v (go "true") args
          else match args with
               | text :: args => set_flag fs name v text args
               | [] => Bad (NeedsArgument name)
               end
      end
  end.
Proof. by destruct c. Qed.

Lemma parseOne_spell fs s v v' rest :
  names_ok fs -> fs !! name_of s = Some v -> set_by v (form_of s) = Some v' ->
  parseOne fs (spell s ++ rest) = Seen (<[name_of s := v']> fs) rest.
Proof.
  intros Hok Hv Hset. assert (Hname := Hok _ (mk_is_Some _ _ Hv)).
  destruct s as [two name f]. cbn [two_dashes name_of form_of] in *.
  pose proof (cut_value_alone name Hname) as Halone. pose proof (cut_value_joined name) as Hjoin.
  destruct name as [|c r]; [done|]. destruct Hname as (Hc1 & Hc2 & Hr).
  unfold spell. cbn [two_dashes name_of form_of]. rewrite go_equals.
  destruct f as [|text|text]; cbn [app set_by] in *; rewrite <- ?app_assoc; cbn [app];
    rewrite parseOne_dashes, named_flag_cut by done.
  - rewrite Halone, Hv. destruct (IsBoolFlag v) eqn:E; [|done]. destruct v; try done.
    apply set_flag_Some. by injection Hset as <-.
  - rewrite (Hjoin text) by done. rewrite Hv. by apply set_flag_Some.
  - rewrite Halone, Hv. destruct (IsBoolFlag v); [done|]. by apply set_flag_Some.
Qed.

Lemma set_flag_inv fs name v text args fs' args' :
  set_flag fs name v text args = Seen fs' args' ->
  args' = args /\ exists v', value_Set v text = Some v' /\ fs' = <[name := v']> fs.
Proof. unfold set_flag. destruct (value_Set v text) as [v'|] eqn:E; [|done]. intros [= <- <-]. eauto. Qed.

(** What a round that sets a flag has read. *)
Definition read_setting (fs : FlagSet) (args : list bytes) (fs' : FlagSet) (args' : list bytes) : Prop :=
  exists s v v', args = spell s ++ args' /\ fs !! name_of s = Some v /\ set_by v (form_of s) = Some v' /\
    fs' = <[name_of s := v']> fs.

Lemma cut_value_inv name n text :
  cut_value name = (n, text) ->
  name = match text with Some text => n ++ go "=" ++ text | None => n end.
Proof.
  rewrite go_equals. destruct name as [|c r]; cbn; [by intros [= <- <-]|].
  destruct (index_byte r x3d) eqn:E; [|by intros [= <- <-]]. intros [= <- <-].
  apply index_byte_Some in E as [E _]. cbn. by rewrite <- E.
Qed.

Lemma named_flag_not_end fs s name args rest : named_flag fs s name args <> NoMore rest.
Proof.
  destruct name as [|c r]; [done|]. destruct (decide (c = x2d \/ c = x3d)) as [[-> | ->]|Hc]; [done..|].
  rewrite named_flag_cut by tauto. destruct (cut_value (c :: r)) as [n text]. unfold set_flag.
  repeat case_match; done.
Qed.

Lemma named_flag_inv fs two name args fs' args' :
  named_flag fs ((if two : bool then go "--" else go "-") ++ name) name args = Seen fs' args' ->
  read_setting fs (((if two then go "--" else go "-") ++ name) :: args) fs' args'.
Proof.
  destruct name as [|c r]; [done|]. intros H.
  assert (c <> x2d /\ c <> x3d) as [H1 H2] by (split; intros ->; done).
  rewrite named_flag_cut in H by done.
  destruct (cut_value (c :: r)) as [n text] eqn:E. apply cut_value_inv in E. rewrite E.
  destruct (fs !! n) as [v|] eqn:Hv; [|done]. destruct text as [text|].
  { apply set_flag_inv in H as (-> & v' & Hset & ->). exists {| two_dashes := two; name_of := n; form_of := Joined text |}, v, v'.
    split; [|done]. unfold spell. cbn [two_dashes name_of form_of app]. by rewrite <- app_assoc. }
  destruct (IsBoolFlag v) eqn:Hb.
  - apply set_flag_inv in H as (-> & v' & Hset & ->).
    exists {| two_dashes := two; name_of := n; form_of := Alone |}, v, v'. split; [done|]. split; [done|]. split; [|done].
    cbn. rewrite Hb. by destruct v.
  - destruct args as [|text args]; [done|]. apply set_flag_inv in H as (-> & v' & Hset & ->).
    exists {| two_dashes := two; name_of := n; form_of := Spaced text |}, v, v'. split; [done|]. split; [done|]. split; [|done].
    cbn. by rewrite Hb.
Qed.

Lemma parseOne_inv fs args :
  match parseOne fs args with
  | Seen fs' args' => read_setting fs args fs' args'
  | NoMore rest => operands args rest
  | Bad _ => True
  end.
Proof.
  destruct args as [|s rest]; [constructor|]. destruct s as [|b [|c r]]; [by constructor|by destruct b; constructor|].
  destruct (decide (b = x2d)) as [-> |Hb]; [|by destruct b; try done; constructor].
  cbn [parseOne]. destruct (Byte.eqb c x2d) eqn:E.
  - apply Byte.byte_dec_bl in E as ->. destruct r as [|c r].
    + rewrite <- go_dashes. constructor.
    + pose proof (named_flag_inv fs true (c :: r) rest) as H. cbn [app] in H. rewrite go_dashes in H. cbn [app] in H.
      destruct (named_flag _ _ _ _) eqn:E; [by apply H|by apply named_flag_not_end in E|done].
  - pose proof (named_flag_inv fs false (c :: r) rest) as H. rewrite go_dash in H. cbn [app] in H.
    destruct (named_flag _ _ _ _) eqn:E2; [by apply H|by apply named_flag_not_end in E2|done].
Qed.

Lemma parseOne_operands fs args rest : operands args rest -> parseOne fs args = NoMore rest.
Proof.
  intros [|rest'|s rest' H]; [done|by rewrite go_dashes|].
  destruct s as [|b [|c r]]; [done|by destruct b|]. destruct b; try done. by destruct (H c r).
Qed.

Lemma length_spell s : (0 < length (spell s))%nat.
Proof. unfold spell. destruct (form_of s); cbn; lia. Qed.

Lemma names_ok_insert fs name : names_ok fs -> is_Some (fs !! name) -> forall v : value, names_ok (<[name := v]> fs).
Proof.
  intros H Hn v n. destruct (decide (n = name)) as [-> |Hne]; [auto|]. rewrite lookup_insert_ne by done. apply H.
Qed.

Lemma parse_loop_spelled fuel l : forall fs fs' args rest,
  names_ok fs -> apply fs l = Some fs' -> operands args rest -> (length l <= fuel)%nat ->
  parse_loop fuel fs (concat (spell <$> l) ++ args) = Ret (Ok (fs', rest)).
Proof.
  revert fuel. induction l as [|s l IH]; intros fuel fs fs' args rest Hok Ha Ho Hf; cbn [fmap list_fmap concat app].
  - injection Ha as <-. apply (parseOne_operands fs) in Ho. destruct fuel; cbn [parse_loop]; by rewrite Ho.
  - cbn [apply] in Ha. destruct (fs !! name_of s) as [v|] eqn:Hv; [|done]. cbn in Ha.
    destruct (set_by v (form_of s)) as [v'|] eqn:Hs; [|done]. cbn in Ha.
    destruct fuel as [|fuel]; [cbn in Hf; lia|]. cbn [parse_loop]. rewrite <- app_assoc.
    rewrite (parseOne_spell fs s v v') by done. apply IH; [|done..|cbn in Hf; lia].
    apply names_ok_insert; [done|]. by eexists.
Qed.

Lemma length_spelled l : (length l <= length (concat (spell <$> l)))%nat.
Proof.
  induction l as [|s l IH]; [done|]. rewrite fmap_cons. cbn [concat length]. rewrite length_app. pose proof (length_spell s). lia.
Qed.

Lemma Parse_spelled fs fs' l args rest :
  names_ok fs -> apply fs l = Some fs' -> operands args rest ->
  Parse fs (concat (spell <$> l) ++ args) = Ret (Ok (fs', rest)).
Proof.
  intros Hok Ha Ho. apply parse_loop_spelled; [done..|]. rewrite length_app. pose proof (length_spelled l). lia.
Qed.

(** The other way, and that there is always an outcome. *)
Lemma parse_loop_total fuel : forall fs args,
  (length args <= fuel)%nat ->
  match parse_loop fuel fs args with
  | Ret (Ok (fs', rest)) =>
      exists l args', args = concat (spell <$> l) ++ args' /\ apply fs l = Some fs' /\ operands args' rest
  | Ret (Err _) => True
  | _ => False
  end.
Proof.
  induction fuel as [|f IH]; intros fs args Hf; cbn [parse_loop];
    pose proof (parseOne_inv fs args) as H; destruct (parseOne fs args) as [fs1 args1|rest|err]; try done;
    try (by exists [], args).
  - destruct H as (s & v & v' & -> & _). rewrite length_app in Hf. pose proof (length_spell s). lia.
  - destruct H as (s & v & v' & -> & Hv & Hs & ->). rewrite length_app in Hf. pose proof (length_spell s).
    specialize (IH (<[name_of s := v']> fs) args1 ltac:(lia)).
    destruct (parse_loop f _ args1) as [[[fs2 rest]|err]| |]; try done.
    destruct IH as (l & args' & -> & Ha & Ho). exists (s :: l), args'. split; [cbn; by rewrite <- app_assoc|].
    split; [|done]. cbn. rewrite Hv. cbn. by rewrite Hs.
Qed.

Lemma Parse_inv fs args :
  (exists err, Parse fs args = Ret (Err err)) \/
  exists fs' rest l args', Parse fs args = Ret (Ok (fs', rest)) /\
    args = concat (spell <$> l) ++ args' /\ apply fs l = Some fs' /\ operands args' rest.
Proof.
  pose proof (parse_loop_total (length args) fs args ltac:(lia)) as H. unfold Parse.
  destruct (parse_loop _ _ _) as [[[fs' rest]|err]| |]; try done; [right|left; eauto].
  destruct H as (l & args' & H). by exists fs', rest, l, args'.
Qed.

(** ** The command lines refused *)

(** A request for help: [-h] or [-help], with one dash or two, with a text or without. *)
Definition help_flag (arg : bytes) : Prop :=
  exists (two : bool) n tail, n ∈ [go "help"; go "h"] /\ (tail = [] \/ exists text, tail = go "=" ++ text) /\
    arg = (if two then go "--" else go "-") ++ n ++ tail.

(** No flag is called so. *)
Definition no_help (fs : FlagSet) : Prop := fs !! go "help" = None /\ fs !! go "h" = None.

Lemma no_help_apply l : forall fs fs', apply fs l = Some fs' -> no_help fs -> no_help fs'.
Proof.
  induction l as [|s l IH]; intros fs fs' Ha Hn; cbn [apply] in Ha; [by injection Ha as <-|].
  destruct (fs !! name_of s) as [v|] eqn:Hv; [|done]. cbn in Ha. destruct (set_by v (form_of s)) as [v'|]; [|done].
  apply (IH _ _ Ha). destruct Hn as [H1 H2]. split; rewrite lookup_insert_ne; [done|congruence|done|congruence].
Qed.

Lemma no_help_name fs n : no_help fs -> n ∈ [go "help"; go "h"] -> fs !! n = None.
Proof. intros [H1 H2] Hn. apply elem_of_cons in Hn as [-> |Hn]; [done|]. by apply list_elem_of_singleton in Hn as ->. Qed.

Lemma parseOne_help fs arg more : no_help fs -> help_flag arg -> parseOne fs (arg :: more) = Bad ErrHelp.
Proof.
  intros Hno (two & n & tail & Hn & Ht & ->). pose proof (no_help_name fs n Hno Hn) as Hfs.
  assert (name_ok n) as Hok by (apply elem_of_cons in Hn as [-> |Hn];
    [|apply list_elem_of_singleton in Hn as ->]; apply (bool_decide_unpack _); vm_compute; done).
  assert (exists text, cut_value (n ++ tail) = (n, text)) as [text Hc].
  { destruct Ht as [-> |[text ->]]; [rewrite app_nil_r; eexists; by apply cut_value_alone|].
    rewrite go_equals. eexists. by apply cut_value_joined. }
  destruct n as [|c r]; [done|]. destruct Hok as (H1 & H2 & _). cbn [app] in *.
  rewrite parseOne_dashes, named_flag_cut by done. rewrite Hc, Hfs. by rewrite bool_decide_true.
Qed.

Lemma named_flag_help fs (two : bool) name args :
  named_flag fs ((if two then go "--" else go "-") ++ name) name args = Bad ErrHelp ->
  help_flag ((if two then go "--" else go "-") ++ name).
Proof.
  destruct name as [|c r]; [done|]. intros H.
  assert (c <> x2d /\ c <> x3d) as [H1 H2] by (split; intros ->; done).
  rewrite named_flag_cut in H by done. destruct (cut_value (c :: r)) as [n text] eqn:E.
  apply cut_value_inv in E. rewrite E. exists two, n, (match text with Some t => go "=" ++ t | None => [] end).
  split; [|split].
  - destruct (fs !! n) as [v|]; [|by destruct (bool_decide_reflect (n ∈ [go "help"; go "h"]))].
    unfold set_flag in H. repeat case_match; done.
  - destruct text; eauto.
  - destruct text; [done|by rewrite app_nil_r].
Qed.

Lemma parseOne_help_inv fs args : parseOne fs args = Bad ErrHelp -> exists arg more, args = arg :: more /\ help_flag arg.
Proof.
  destruct args as [|s rest]; [done|]. intros H. exists s, rest. split; [done|].
  destruct s as [|b [|c r]]; [done|by destruct b|]. destruct (decide (b = x2d)) as [-> |Hb]; [|by destruct b].
  cbn [parseOne] in H. destruct (Byte.eqb c x2d) eqn:E.
  - apply Byte.byte_dec_bl in E as ->. destruct r as [|c r]; [done|].
    apply (named_flag_help fs true (c :: r) rest). by rewrite go_dashes.
  - apply (named_flag_help fs false (c :: r) rest). by rewrite go_dash.
Qed.

(** A refused command line: settings up to an argument that is refused. *)
Lemma parse_loop_refused fuel : forall fs args err,
  parse_loop fuel fs args = Ret (Err err) ->
  exists l fs' args', args = concat (spell <$> l) ++ args' /\ apply fs l = Some fs' /\ parseOne fs' args' = Bad err.
Proof.
  induction fuel as [|f IH]; intros fs args err H; cbn [parse_loop] in H;
    pose proof (parseOne_inv fs args) as Hr; destruct (parseOne fs args) as [fs1 args1|rest|e] eqn:E; try done.
  - injection H as ->. by exists [], fs, args.
  - destruct Hr as (s & v & v' & -> & Hv & Hs & ->). destruct (IH _ _ _ H) as (l & fs' & args' & -> & Ha & Hb).
    exists (s :: l), fs', args'. split; [cbn; by rewrite <- app_assoc|]. split; [|done]. cbn. rewrite Hv. cbn. by rewrite Hs.
  - injection H as ->. by exists [], fs, args.
Qed.

Lemma parse_loop_refuses fuel l : forall fs fs' args err,
  names_ok fs -> apply fs l = Some fs' -> parseOne fs' args = Bad err -> (length l <= fuel)%nat ->
  parse_loop fuel fs (concat (spell <$> l) ++ args) = Ret (Err err).
Proof.
  revert fuel. induction l as [|s l IH]; intros fuel fs fs' args err Hok Ha Hb Hf; cbn [fmap list_fmap concat app].
  - injection Ha as <-. destruct fuel; cbn [parse_loop]; by rewrite Hb.
  - cbn [apply] in Ha. destruct (fs !! name_of s) as [v|] eqn:Hv; [|done]. cbn in Ha.
    destruct (set_by v (form_of s)) as [v'|] eqn:Hs; [|done]. cbn in Ha.
    destruct fuel as [|fuel]; [cbn in Hf; lia|]. cbn [parse_loop]. rewrite <- app_assoc.
    rewrite (parseOne_spell fs s v v') by done. eapply IH; [|done..|cbn in Hf; lia].
    apply names_ok_insert; [done|]. by eexists.
Qed.

(** Help, and nothing else, ends the program with 0. *)
Lemma Parse_help fs fs' l arg more :
  names_ok fs -> no_help fs -> apply fs l = Some fs' -> help_flag arg ->
  Parse fs (concat (spell <$> l) ++ arg :: more) = Ret (Err ErrHelp).
Proof.
  intros Hok Hno Ha Hh. eapply parse_loop_refuses; [done..|by apply parseOne_help; [eapply no_help_apply|]|].
  rewrite length_app. pose proof (length_spelled l). lia.
Qed.

Lemma Parse_refused fs args err :
  Parse fs args = Ret (Err err) ->
  (exists l fs' arg more, args = concat (spell <$> l) ++ arg :: more /\ apply fs l = Some fs' /\ help_flag arg) \/
  exit_code err = 2%Z.
Proof.
  intros (l & fs' & args' & -> & Ha & Hb)%parse_loop_refused. destruct err; try by right.
  apply parseOne_help_inv in Hb as (arg & more & -> & Hh). left. by exists l, fs', arg, more.
Qed.

(** ** Numbers read back *)
Lemma uint_value_digits D : forall a v,
  Forall (fun b => is_digit b = true) D -> dec_value a D = Some v -> uint_value 10 a D = Some v.
Proof.
  induction D as [|c D IH]; intros a v HD H; [done|]. apply Forall_cons in HD as [Hc HD]. cbn [uint_value dec_value] in *.
  rewrite Hc in H. assert (is_underscore c = false) as -> by by destruct c. unfold digit_val. rewrite Hc. cbn.
  unfold is_digit in Hc. boolprop. destruct (Z.ltb_spec (bz c - 0x30) 10); [by apply IH|lia].
Qed.

Lemma digits_no_underscore D : Forall (fun b => is_digit b = true) D -> existsb is_underscore D = false.
Proof. induction 1 as [|c D Hc _ IH]; [done|]. cbn. rewrite IH. by destruct c. Qed.

Lemma split_base_decimal b D :
  is_digit b = true -> (b = x30 -> D = []) -> uint_value (split_base (b :: D)).1 0 (split_base (b :: D)).2 = uint_value 10 0 (b :: D).
Proof. intros Hb H0. destruct (decide (b = x30)) as [-> |Hne]; [by rewrite H0|]. by destruct b. Qed.

Lemma ParseUint_itoa z : (0 <= z)%Z -> ParseUint (itoa z) = Some z.
Proof.
  intros Hz. unfold itoa. rewrite (proj2 (Z.ltb_ge z 0)) by done.
  destruct (itoa_digits z Hz) as (b & D & -> & HD & Hv & H0). pose proof (Forall_inv HD) as Hb.
  unfold ParseUint. pose proof (split_base_decimal b D Hb H0) as Hs. destruct (split_base (b :: D)) as [base r].
  cbn [fst snd] in Hs. rewrite Hs, (uint_value_digits _ _ z) by done. cbn [mbind option_bind].
  unfold bad_underscore. by rewrite digits_no_underscore.
Qed.

Lemma ParseInt_itoa z : in_int 64 z -> ParseInt (itoa z) = Some z.
Proof.
  intros Hz. unfold ParseInt. destruct (Z.ltb_spec z 0) as [Hneg|Hpos].
  - unfold itoa. rewrite (proj2 (Z.ltb_lt z 0)) by done. cbn [unsigned].
    pose proof (ParseUint_itoa (- z) ltac:(lia)) as H. unfold itoa in H. rewrite (proj2 (Z.ltb_ge (- z) 0)) in H by lia.
    rewrite H. cbn. by rewrite Z.opp_involutive, decide_True.
  - assert (unsigned (itoa z) = (false, itoa z)) as ->.
    { unfold itoa. rewrite (proj2 (Z.ltb_ge z 0)) by done. destruct (itoa_digits z Hpos) as (b & D & -> & HD & _).
      apply Forall_inv in HD. by destruct b. }
    rewrite ParseUint_itoa by done. cbn. by rewrite decide_True.
Qed.

(** ** Each flag given once, in any order *)
(** The flags a program declares. *)
Definition declare (flags : list (bytes * value)) : FlagSet := list_to_map flags.

Lemma declare_names_ok flags : bool_decide (Forall name_ok flags.*1) = true -> names_ok (declare flags).
Proof.
  intros H%bool_decide_eq_true name [v Hv]. apply elem_of_list_to_map_2 in Hv.
  apply (list_elem_of_fmap_2 fst) in Hv. eapply Forall_forall in H; [|exact Hv]. done.
Qed.

(** A setting that spells [name = text]. *)
Definition spells (s : setting) (nt : bytes * bytes) : Prop :=
  name_of s = nt.1 /\ (form_of s = Joined nt.2 \/ form_of s = Spaced nt.2).

(** The values the texts stand for: of flags that take a text, each of the type declared. *)
Definition stands_for (fs : FlagSet) (nt : bytes * bytes) (nv : bytes * value) : Prop :=
  nv.1 = nt.1 /\ exists v, fs !! nt.1 = Some v /\ IsBoolFlag v = false /\ value_Set v nt.2 = Some nv.2.

Lemma apply_once l : forall fs texts vals,
  Forall2 spells l texts -> Forall2 (stands_for fs) texts vals -> NoDup vals.*1 ->
  exists fs', apply fs l = Some fs' /\ (forall n v, (n, v) ∈ vals -> fs' !! n = Some v) /\
    forall n, n ∉ vals.*1 -> fs' !! n = fs !! n.
Proof.
  induction l as [|s l IH]; intros fs texts vals Hs Hv Hnd; inversion Hs as [|? [n t] ? texts' [Hn Hf] Hs']; subst.
  { inversion Hv; subst. exists fs. split; [done|]. split; [by intros ? ? ?%not_elem_of_nil|done]. }
  inversion Hv as [|? [n' v'] ? vals' (Hn' & v & Hlk & Hb & Hset) Hv']; subst. cbn [fst snd] in *. subst n'.
  apply NoDup_cons in Hnd as [Hni Hnd]. cbn [fst] in Hni.
  destruct (IH (<[n := v']> fs) texts' vals' Hs') as (fs' & Ha & Hin & Hout); [|done|].
  { apply Forall2_same_length_lookup. apply Forall2_same_length_lookup in Hv' as [Hlen Hv']. split; [done|].
    intros i [m t'] [m' w] Ht Hw. destruct (Hv' i _ _ Ht Hw) as (Hm & x & Hx & Hr). cbn [fst snd] in *. subst m'.
    apply list_elem_of_lookup_2 in Hw.
    split; [done|]. exists x. split; [|done]. cbn [fst]. rewrite lookup_insert_ne; [done|].
    intros ->. apply Hni. by apply (list_elem_of_fmap_2 fst) in Hw. }
  exists fs'. split; [|split].
  - cbn [apply]. rewrite Hn, Hlk. cbn [mbind option_bind].
    assert (set_by v (form_of s) = Some v') as -> by (destruct Hf as [-> | ->]; cbn [set_by]; by rewrite ?Hb).
    exact Ha.
  - intros m x [[= -> ->]|Hx]%elem_of_cons; [|by apply Hin]. rewrite Hout by done. by rewrite lookup_insert_eq.
  - intros m [Hm Hm']%not_elem_of_cons. rewrite Hout by done. by rewrite lookup_insert_ne.
Qed.
