(* ===== verification/Supervisor.v ===== *)
(** * The engine process: [supervisor]

    Models [internal/supervisor/supervisor.go]. The operating system is a [World] (the
    extracted binaries on disk and the engine processes running from them) and the
    outcomes of the calls that can fail, gathered in [Os]. *)

From Stdlib Require Import Floats.SpecFloat.
From S2P Require Import Prelude Utf8 GoStrings Client.
Local Open Scope go_scope.

(** ** The tail of the engine's stderr *)
Record tailBuffer := { buf : bytes; max : Z }.

Definition tail_Write (t : tailBuffer) (p : bytes) : tailBuffer * Z :=
  let b := buf t ++ p in
  ({| buf := if (max t <? len b)%Z then drop (Z.to_nat (len b - max t)) b else b; max := max t |},
   len p).

Definition tail_String (t : tailBuffer) : bytes := buf t.

(** ** Formatting *)

(** [strconv.FormatFloat(x, 'f', prec, 64)]: the exact value rounded to [prec] decimals,
    ties to even. *)
Definition div_half_even (a b : Z) : Z :=
  let q := (a / b)%Z in
  let r2 := (2 * (a mod b))%Z in
  if (b <? r2)%Z || ((b =? r2)%Z && Z.odd q) then (q + 1)%Z else q.

Definition format_fixed (prec : nat) (n : Z) : bytes :=
  let unit := (10 ^ Z.of_nat prec)%Z in
  let frac := itoa (n mod unit) in
  itoa (n / unit) ++ go "." ++ repeat x30 (prec - length frac) ++ frac.

Definition format_float (prec : nat) (x : float64) : bytes :=
  let sign (s : bool) := if s then [x2d] else [] in
  match x with
  | S754_nan => go "NaN"
  | S754_infinity s => (if s then [x2d] else [x2b]) ++ go "Inf"
  | S754_zero s => sign s ++ format_fixed prec 0
  | S754_finite s m e =>
      let scaled := (Z.pos m * 10 ^ Z.of_nat prec)%Z in
      sign s ++ format_fixed prec
        (if (0 <=? e)%Z then scaled * 2 ^ e else div_half_even scaled (2 ^ (- e)))%Z
  end.

Example format_float_ex :
  format_float 4 (S754_finite false 8106479329266893 (-53)) = go "0.9000" /\
  format_float 4 (S754_finite true 4503599627370497 (-52)) = go "-1.0000" /\
  format_float 4 (S754_finite false 1 (-20)) = go "0.0000".
Proof. vm_compute. done. Qed.

(** [strings.TrimSpace]: the white space of [unicode.IsSpace] at both ends. UTF-8 being
    self-synchronising, the characters are recognised by their encodings. *)
Definition space_runes : list rune :=
  [0x09; 0x0A; 0x0B; 0x0C; 0x0D; 0x20; 0x85; 0xA0; 0x1680; 0x2000; 0x2001; 0x2002; 0x2003;
   0x2004; 0x2005; 0x2006; 0x2007; 0x2008; 0x2009; 0x200A; 0x2028; 0x2029; 0x202F; 0x205F; 0x3000]%Z.

Fixpoint trim_left (spaces : list bytes) (fuel : nat) (s : bytes) : bytes :=
  match fuel with
  | O => s
  | S f =>
      match list_find (fun sp => has_prefix s sp = true) spaces with
      | Some (_, sp) => trim_left spaces f (drop (length sp) s)
      | None => s
      end
  end.

Definition trim_space (s : bytes) : bytes :=
  let spaces := encode_rune <$> space_runes in
  let s := trim_left spaces (length s) s in
  reverse (trim_left (reverse <$> spaces) (length s) (reverse s)).

Example trim_space_ex : trim_space (go " \n\tCUDA error: no device \r\n" ++ [xe2; x80; xa8]) = go "CUDA error: no device".
Proof. vm_compute. reflexivity. Qed.

(** ** The operating system *)
Record World := {
  temp_files : gset bytes;  (** extracted binaries on disk *)
  running : gset bytes;     (** those with a live process *)
  conns : gset nat;         (** open connections to an engine *)
}.

Definition add_file (w : World) (f : bytes) : World :=
  {| temp_files := {[f]} ∪ temp_files w; running := running w; conns := conns w |}.
Definition remove_file (w : World) (f : bytes) : World :=
  {| temp_files := temp_files w ∖ {[f]}; running := running w; conns := conns w |}.
Definition spawn (w : World) (f : bytes) : World :=
  {| temp_files := temp_files w; running := {[f]} ∪ running w; conns := conns w |}.
Definition reap (w : World) (f : bytes) : World :=
  {| temp_files := temp_files w; running := running w ∖ {[f]}; conns := conns w |}.

(** The outcomes of the system calls of [Start]; [None] is a nil error. *)
Record Os := {
  os_CreateTemp : result error bytes;   (** the name of the new file *)
  os_Write : option error;
  os_Chmod : option error;
  net_Listen : result error bytes;      (** the address listened on *)
  cmd_Start : option error;
}.

Record Engine := {
  Addr : bytes;
  path : bytes;
  argv : list bytes;
  tail : tailBuffer;
  (** [None] until the process is reaped ([done] closed); then the error of [cmd.Wait]. *)
  exit : option (option error);
}.

Definition freePort (os : Os) : result error bytes := net_Listen os.

(** [fmt.Errorf("start engine: %w", err)] *)
Definition start_error (err : error) : error :=
  {| wraps := wraps err; Error := go "start engine: " ++ Error err |}.

Definition engine_args (modelDir addr : bytes) (slots maxCtx maxWaiting tokenBudget prefillChunk : Z)
    (gpuMemFraction : float64) : list bytes :=
  [go "--model"; modelDir;
   go "--address"; addr;
   go "--slots"; itoa slots;
   go "--max-ctx"; itoa maxCtx;
   go "--max-waiting"; itoa maxWaiting;
   go "--token-budget"; itoa tokenBudget;
   go "--prefill-chunk"; itoa prefillChunk;
   go "--gpu-mem-fraction"; format_float 4 gpuMemFraction].

Definition Start (os : Os) (w : World) (modelDir : bytes)
    (slots maxCtx maxWaiting tokenBudget prefillChunk : Z) (gpuMemFraction : float64)
    : World * result error Engine :=
  match os_CreateTemp os with
  | Err err => (w, Err err)
  | Ok f =>
      let w := add_file w f in
      match os_Write os with
      | Some err => (w, Err err)
      | None =>
          match os_Chmod os with
          | Some err => (w, Err err)
          | None =>
              match freePort os with
              | Err err => (remove_file w f, Err err)
              | Ok addr =>
                  let args := engine_args modelDir addr slots maxCtx maxWaiting tokenBudget
                                prefillChunk gpuMemFraction in
                  match cmd_Start os with
                  | Some err => (remove_file w f, Err (start_error err))
                  | None =>
                      (spawn w f,
                       Ok {| Addr := addr; path := f; argv := f :: args;
                             tail := {| buf := []; max := 8 * 1024 |}; exit := None |})
                  end
              end
          end
      end
  end.

Definition Exited (e : Engine) : option error :=
  match exit e with
  | None => None
  | Some waitErr =>
      let msg := go "engine process exited" in
      let msg := match waitErr with
                 | Some err => msg ++ go " (" ++ Error err ++ go ")"
                 | None => msg
                 end in
      let t := trim_space (tail_String (tail e)) in
      let msg := if bool_decide (t = []) then msg else msg ++ go "; engine stderr:\n" ++ t in
      Some (new_error msg)
  end.

(** [Stop] returns once the process is gone; its binary is removed last. *)
Definition Stop (w : World) (e : Engine) : World := remove_file (reap w (path e)) (path e).

(** ** The tail is the last [max] bytes *)
Definition write_all (t : tailBuffer) (ps : list bytes) : tailBuffer :=
  foldl (fun t p => fst (tail_Write t p)) t ps.

Definition last_bytes (n : Z) (s : bytes) : bytes := drop (length s - Z.to_nat n) s.

Lemma last_bytes_app n s p : last_bytes n (last_bytes n s ++ p) = last_bytes n (s ++ p).
Proof.
  unfold last_bytes. set (k := Z.to_nat n). set (d := (length s - k)%nat).
  rewrite !length_app, length_drop.
  destruct (Nat.le_gt_cases (length s) k).
  - subst d. replace (length s - k)%nat with 0%nat by lia. rewrite drop_0, Nat.sub_0_r. done.
  - rewrite <- (drop_app_le s p d) by lia. rewrite drop_drop. f_equal. lia.
Qed.

Lemma tail_Write_last t p :
  (0 <= max t)%Z -> buf (fst (tail_Write t p)) = last_bytes (max t) (buf t ++ p).
Proof.
  intros Hm. unfold tail_Write, last_bytes, len. cbn [fst buf].
  destruct (Z.ltb_spec (max t) (Z.of_nat (length (buf t ++ p)))); [f_equal; lia|].
  replace (length (buf t ++ p) - Z.to_nat (max t))%nat with 0%nat by lia. by rewrite drop_0.
Qed.

Lemma write_all_last t ps :
  (0 <= max t)%Z -> buf t = last_bytes (max t) (buf t) ->
  buf (write_all t ps) = last_bytes (max t) (buf t ++ concat ps) /\ max (write_all t ps) = max t.
Proof.
  revert t. induction ps as [|p ps IH]; intros t Hm Hb; [by rewrite app_nil_r|].
  cbn [write_all foldl concat]. set (t' := fst (tail_Write t p)).
  assert (max t' = max t) as Hm' by done.
  pose proof (tail_Write_last t p Hm) as Hw. fold t' in Hw.
  destruct (IH t') as [H1 H2]; [by rewrite Hm'| |].
  - rewrite Hw, Hm'. rewrite <- (app_nil_r (last_bytes _ (_ ++ _))) at 2.
    by rewrite last_bytes_app, app_nil_r.
  - split; [|by rewrite <- Hm'].
    transitivity (last_bytes (max t') (buf t' ++ concat ps)); [exact H1|].
    by rewrite Hw, Hm', last_bytes_app, <- app_assoc.
Qed.

(** ** Properties *)

(** However the engine's stderr is split into writes, the buffer holds exactly its last
    [max] bytes. *)
Lemma tailBuffer_keeps_suffix ps n :
  (0 <= n)%Z ->
  tail_String (write_all {| buf := []; max := n |} ps) = last_bytes n (concat ps) /\
  (len (tail_String (write_all {| buf := []; max := n |} ps)) <= n)%Z.
Proof.
  intros Hn. unfold tail_String.
  destruct (write_all_last {| buf := []; max := n |} ps Hn) as [-> _]; [done|].
  cbn [buf max app]. split; [done|]. unfold len, last_bytes. rewrite length_drop. lia.
Qed.

Lemma tailBuffer_keeps_suffix_witness :
  tail_String (write_all {| buf := []; max := 4 |} [go "ab"; go "cde"; []; go "f"]) = go "cdef" /\
  tail_String (write_all {| buf := []; max := 4 |} [go "ab"; go "cde"; []; go "f"])
    = last_bytes 4 (go "abcdef").
Proof.
  split; [vm_compute; reflexivity|].
  apply (tailBuffer_keeps_suffix [go "ab"; go "cde"; []; go "f"] 4). discriminate.
Defined.

(** Does the failing [Start] leave its binary behind? *)
Definition start_leaks (os : Os) : bool :=
  match os_CreateTemp os, os_Write os, os_Chmod os with
  | Ok _, None, None => false
  | Ok _, _, _ => true
  | Err _, _, _ => false
  end.

Lemma Start_spec os w modelDir slots maxCtx maxWaiting tokenBudget prefillChunk gpu :
  (forall f, os_CreateTemp os = Ok f -> f ∉ temp_files w /\ f ∉ running w) ->
  let '(w', r) := Start os w modelDir slots maxCtx maxWaiting tokenBudget prefillChunk gpu in
  match r with
  | Ok e => path e ∈ temp_files w' /\ path e ∈ running w' /\ Stop w' e = w /\ Stop w e = w
  | Err _ =>
      running w' = running w /\ conns w' = conns w /\
      (if start_leaks os then exists f, f ∉ temp_files w /\ temp_files w' = {[f]} ∪ temp_files w
       else w' = w)
  end.
Proof.
  intros Hf. unfold Start, start_leaks, freePort.
  destruct (os_CreateTemp os) as [f|err]; [|done]. destruct (Hf f eq_refl) as [Hft Hfr].
  assert (remove_file (add_file w f) f = w) as Hrm.
  { destruct w as [files procs cs]. unfold remove_file, add_file. simpl in *. f_equal. set_solver. }
  destruct (os_Write os); [split; [done|split; [done|by exists f]]|].
  destruct (os_Chmod os); [split; [done|split; [done|by exists f]]|].
  destruct (net_Listen os) as [addr|err]; [|by rewrite Hrm].
  destruct (cmd_Start os); [by rewrite Hrm|]. cbn [path].
  split_and!; [simpl; set_solver..| |]; unfold Stop; cbn [path].
  2: { destruct w as [files procs cs]. unfold remove_file, reap. simpl in *. f_equal; set_solver. }
  destruct w as [files procs cs]. unfold remove_file, reap, spawn, add_file. simpl in *.
  f_equal; set_solver.
Qed.

Lemma Start_args os w modelDir slots maxCtx maxWaiting tokenBudget prefillChunk gpu :
  match (Start os w modelDir slots maxCtx maxWaiting tokenBudget prefillChunk gpu).2 with
  | Ok e => argv e = path e :: engine_args modelDir (Addr e) slots maxCtx maxWaiting tokenBudget prefillChunk gpu
  | Err _ => True
  end.
Proof.
  unfold Start, freePort. destruct (os_CreateTemp os); [|done]. destruct (os_Write os); [done|].
  destruct (os_Chmod os); [done|]. destruct (net_Listen os); [|done]. by destruct (cmd_Start os).
Qed.

(** C30: the life of the extracted binary: [Start] and then [Stop] (once, or twice as when
    a signal arrives while the server fails) restore the file system and the process
    table, and a [Start] that fails does so by itself, except when
    writing the binary or making it executable failed, when the file stays behind. *)
Theorem Start_Stop_cleans_up os w modelDir slots maxCtx maxWaiting tokenBudget prefillChunk gpu :
  (forall f, os_CreateTemp os = Ok f -> f ∉ temp_files w /\ f ∉ running w) ->
  let '(w', r) := Start os w modelDir slots maxCtx maxWaiting tokenBudget prefillChunk gpu in
  match r with
  | Ok e => path e ∈ temp_files w' /\ path e ∈ running w' /\ Stop w' e = w /\ Stop (Stop w' e) e = w
  | Err _ =>
      running w' = running w /\ conns w' = conns w /\
      (if start_leaks os then exists f, f ∉ temp_files w /\ temp_files w' = {[f]} ∪ temp_files w
       else w' = w)
  end.
Proof.
  intros Hf. pose proof (Start_spec os w modelDir slots maxCtx maxWaiting tokenBudget prefillChunk gpu Hf) as H.
  destruct (Start _ _ _ _ _ _ _ _ _) as [w' [e|err]]; [|done].
  destruct H as (H1 & H2 & H3 & H4). by rewrite H3, H4.
Qed.

Definition ok_os : Os :=
  {| os_CreateTemp := Ok (go "/tmp/flashqwen-engine-1"); os_Write := None; os_Chmod := None;
     net_Listen := Ok (go "127.0.0.1:4242"); cmd_Start := None |}.

Definition full_disk : Os :=
  {| os_CreateTemp := Ok (go "/tmp/flashqwen-engine-1"); os_Write := Some (new_error (go "no space left on device"));
     os_Chmod := None; net_Listen := Ok (go "127.0.0.1:4242"); cmd_Start := None |}.

Definition empty_world : World := {| temp_files := ∅; running := ∅; conns := ∅ |}.

Lemma Start_Stop_cleans_up_witness :
  let '(w', r) := Start full_disk empty_world (go "m") 1 4096 0 1024 512 (S754_zero false) in
  match r with
  | Ok e => path e ∈ temp_files w' /\ path e ∈ running w' /\ Stop w' e = empty_world /\ Stop (Stop w' e) e = empty_world
  | Err _ => running w' = ∅ /\ conns w' = ∅ /\ exists f, f ∉ (∅ : gset bytes) /\ temp_files w' = {[f]} ∪ ∅
  end.
Proof.
  apply (Start_Stop_cleans_up full_disk empty_world (go "m") 1 4096 0 1024 512 (S754_zero false)).
  intros f _. split; apply not_elem_of_empty.
Defined.
