(* ===== verification/TokenizerLoad.v ===== *)
(** * Loading a tokenizer from a model directory

    Models [Load], [loadVocab], [loadAddedTokens] and [loadMerges] of
    [internal/tokenizer/tokenizer.go]. Three things the language leaves open are
    parameters: the order in which [range] visits the vocabulary map, the order
    [sort.Slice] gives to literals of equal length, and the texts of JSON syntax errors.
    The theorems show that the first two do not matter. *)

From stdpp Require Import sorting.
From S2P Require Import Prelude Utf8 GoStrings TokenizerCore BPE Pretokenizer Vocab Encode.
From S2P Require Import Json Client Generate.
Local Open Scope go_scope.

(** ** The files *)

(** [map[string]int]: a later member replaces an earlier one of the same name. *)
Definition dec_int_map (v : json) : option (gmap bytes Z) :=
  match v with
  | JObj l =>
      foldl (fun acc kv => m ← acc; z ← dec_int kv.2.2; Some (<[kv.1 := z]> m)) (Some ∅) l
  | JNull => Some ∅
  | _ => None
  end.

(** A slice field: [null] empties it, an array is decoded onto the elements present. *)
Definition dec_onto {A} (dec : A -> json -> option A) (zero : A) (old : list A) (v : json)
    : option (list A) :=
  match v with
  | JArr l => mapM (fun p => dec (default zero (old !! p.1)) p.2) (imap (fun i e => (i, e.2)) l)
  | JNull => Some []
  | _ => None
  end.

Definition zero_special : special := Special [] 0.

(** One element of [added_tokens]. *)
Definition dec_added (old : special) (v : json) : option special :=
  let dec l :=
    id ← last_field dec_int (sp_id old) (fields (go "id") l);
    content ← last_field dec_string (sp_str old) (fields (go "content") l);
    Some (Special content id) in
  match v with JNull => Some old | _ => dec_struct dec v end.

Definition dec_doc : json -> option (list special) :=
  dec_struct (fun l =>
    foldl (fun acc v => old ← acc; dec_onto dec_added zero_special old v.2)
          (Some []) (fields (go "added_tokens") l)).

(** [fmt.Errorf("<what>: %w", err)] *)
Definition context_error (what : bytes) (err : error) : error :=
  {| wraps := wraps err; Error := what ++ go ": " ++ Error err |}.

(** What an open file delivers: its bytes, and the error that ended the reading, if any. *)
Record file := { contents : bytes; read_err : option error }.

(** *** [bufio.Scanner] with [ScanLines] and a buffer of 1 MiB *)
Definition max_line : Z := 1024 * 1024.

Definition drop_cr (line : bytes) : bytes :=
  match last line with Some x0d => take (length line - 1) line | _ => line end.

(** The lines scanned, and whether a line did not fit the buffer. *)
Fixpoint scan_lines (cur : bytes) (s : bytes) : list bytes * bool :=
  match s with
  | [] =>
      if (length cur =? 0)%nat then ([], false)
      else if (max_line <=? len cur)%Z then ([], true) else ([drop_cr cur], false)
  | b :: r =>
      if Byte.eqb b x0a then
        if (max_line <=? len cur)%Z then ([], true)
        else let '(lines, long) := scan_lines [] r in (drop_cr cur :: lines, long)
      else scan_lines (cur ++ [b]) r
  end.

Definition err_too_long : error := new_error (go "bufio.Scanner: token too long").

(** The merges of the lines, in order: [(a, b)]. *)
Definition merge_of_line (line : bytes) : option (bytes * bytes) :=
  if bool_decide (line = []) || has_prefix line (go "#version") then None
  else match index_byte line x20 with
       | None => None
       | Some sp => Some (take sp line, trim_right (drop (sp + 1) line) (go "\r"))
       end.

Fixpoint add_merges (ranks : gmap bytes Z) (rank : Z) (lines : list bytes) : gmap bytes Z :=
  match lines with
  | [] => ranks
  | line :: lines =>
      match merge_of_line line with
      | None => add_merges ranks rank lines
      | Some (a, b) => add_merges (<[pair_key a b := rank]> ranks) (rank + 1) lines
      end
  end.

(** ** Assembling the tables *)

Definition set_tables (t : Tokenizer) (ids : gmap bytes Z) (toks : list bytes) (flags : list bool)
    (sps : list special) : Tokenizer :=
  {| byteToSym := byteToSym t; cpToByte := cpToByte t; tokToID := ids; idToTok := toks;
     specialF := flags; mergeRank := mergeRank t; specials := sps |}.

Definition set_merges (t : Tokenizer) (ranks : gmap bytes Z) : Tokenizer :=
  {| byteToSym := byteToSym t; cpToByte := cpToByte t; tokToID := tokToID t; idToTok := idToTok t;
     specialF := specialF t; mergeRank := ranks; specials := specials t |}.

(** [l[i] = x]: out of range panics. *)
Definition store_at {A} (l : list A) (i : Z) (x : A) : run (list A) :=
  if (0 <=? i)%Z && (i <? len l)%Z then Ret (<[Z.to_nat i := x]> l) else Panic.

Fixpoint add_vocab (t : Tokenizer) (entries : list (bytes * Z)) : run Tokenizer :=
  match entries with
  | [] => Ret t
  | (sym, id) :: entries =>
      let* toks := store_at (idToTok t) id (symToBytes t sym) in
      add_vocab (set_tables t (<[sym := id]> (tokToID t)) toks (specialF t) (specials t)) entries
  end.

Fixpoint add_specials (t : Tokenizer) (sps : list special) : run Tokenizer :=
  match sps with
  | [] => Ret t
  | sp :: sps =>
      let* toks := store_at (idToTok t) (sp_id sp) (sp_str sp) in
      let* flags := store_at (specialF t) (sp_id sp) true in
      add_specials (set_tables t (<[sp_str sp := sp_id sp]> (tokToID t)) toks flags
                      (specials t ++ [sp])) sps
  end.

(** The largest id, at least 0. *)
Definition max_id (ids : list Z) : Z := foldl (fun m id => if (m <? id)%Z then id else m) 0%Z ids.

Section load.
Context (read_file : bytes -> result error bytes) (open_file : bytes -> result error file).
Context (json_error : bytes -> error).
Context (range_map : gmap bytes Z -> list (bytes * Z)) (sort_desc : list special -> list special).

Definition loadVocab (path : bytes) : result error (gmap bytes Z) :=
  match read_file path with
  | Err err => Err (context_error (go "read vocab.json") err)
  | Ok b =>
      match unmarshal dec_int_map b with
      | None => Err (context_error (go "parse vocab.json") (json_error b))
      | Some m => Ok m
      end
  end.

Definition loadAddedTokens (path : bytes) : result error (list special) :=
  match read_file path with
  | Err err => Err (context_error (go "read tokenizer.json") err)
  | Ok b =>
      match unmarshal dec_doc b with
      | None => Err (context_error (go "parse tokenizer.json") (json_error b))
      | Some out => Ok out
      end
  end.

Definition loadMerges (t : Tokenizer) (path : bytes) : result error Tokenizer :=
  match open_file path with
  | Err err => Err (context_error (go "open merges.txt") err)
  | Ok f =>
      let '(lines, long) := scan_lines [] (contents f) in
      let t := set_merges t (add_merges (mergeRank t) 0 lines) in
      if long then Err err_too_long
      else match read_err f with Some err => Err err | None => Ok t end
  end.

(** The tables from what the two JSON files hold. *)
Definition assemble (vocab : gmap bytes Z) (sps : list special) : run Tokenizer :=
  let t := buildByteMaps new_tokenizer in
  let maxID := max_id ((range_map vocab).*2 ++ (sp_id <$> sps)) in
  let n := int64 (maxID + 1) in
  if (n <? 0)%Z then Panic else
  let t := set_tables t ∅ (replicate (Z.to_nat n) []) (replicate (Z.to_nat n) false) [] in
  let* t := add_vocab t (range_map vocab) in
  let* t := add_specials t sps in
  Ret (set_tables t (tokToID t) (idToTok t) (specialF t) (sort_desc (specials t))).

Definition Load (dir : bytes) : run (result error Tokenizer) :=
  match loadAddedTokens (dir ++ go "/tokenizer.json") with
  | Err err => Ret (Err err)
  | Ok sps =>
      match loadVocab (dir ++ go "/vocab.json") with
      | Err err => Ret (Err err)
      | Ok vocab =>
          let* t := assemble vocab sps in
          Ret (loadMerges t (dir ++ go "/merges.txt"))
      end
  end.

End load.

(** ** The order of the map does not matter *)

Lemma max_id_foldr ids : max_id ids = foldr Z.max 0%Z ids.
Proof.
  unfold max_id. assert (forall m, foldl (fun m id => if (m <? id)%Z then id else m) m ids
                                   = Z.max m (foldr Z.max 0%Z ids) \/ (m < 0)%Z) as H.
  { induction ids as [|id ids IH]; intros m; cbn [foldl foldr]; [lia|].
    destruct (Z.ltb_spec m id); [destruct (IH id); lia|destruct (IH m); lia]. }
  destruct (H 0%Z) as [->|]; [|lia].
  assert (0 <= foldr Z.max 0%Z ids)%Z; [|lia]. clear H. induction ids; simpl; lia.
Qed.

Lemma max_id_perm ids ids' : ids ≡ₚ ids' -> max_id ids = max_id ids'.
Proof. intros H. rewrite !max_id_foldr. induction H; simpl; lia. Qed.

Lemma max_id_ge ids id : id ∈ ids -> (id <= max_id ids)%Z.
Proof.
  rewrite max_id_foldr. induction ids as [|id' ids IH]; [by intros ?%not_elem_of_nil|].
  intros [-> | Hin]%elem_of_cons; simpl; [lia|]. specialize (IH Hin). lia.
Qed.

Lemma max_id_bound ids b : (0 < b)%Z -> Forall (fun id => id < b)%Z ids -> (0 <= max_id ids < b)%Z.
Proof. intros Hb. rewrite max_id_foldr. induction 1; simpl; lia. Qed.

Lemma store_at_len {A} (l : list A) i x l' : store_at l i x = Ret l' -> len l' = len l.
Proof. unfold store_at, len. destruct (_ && _); [|done]. intros [= <-]. by rewrite length_insert. Qed.

Lemma store_at_comm {A} (l : list A) i j x y :
  i <> j ->
  (let* l1 := store_at l i x in store_at l1 j y) = (let* l1 := store_at l j y in store_at l1 i x).
Proof.
  intros Hij. unfold store_at, len.
  destruct ((0 <=? i)%Z && (i <? Z.of_nat (length l))%Z) eqn:Ei;
    destruct ((0 <=? j)%Z && (j <? Z.of_nat (length l))%Z) eqn:Ej; cbn [run_bind];
    rewrite ?length_insert, ?Ei, ?Ej; [|done..].
  f_equal. boolprop. apply list_insert_insert_ne. lia.
Qed.

Lemma add_vocab_perm t l l' :
  l ≡ₚ l' -> NoDup l.*1 -> NoDup l.*2 -> add_vocab t l = add_vocab t l'.
Proof.
  intros Hp. revert t. induction Hp as [|[s i] l l' Hp IH|[s i] [s' i'] l|l l' l'' Hp IH Hp' IH']; intros t H1 H2.
  - done.
  - cbn [add_vocab]. destruct (store_at _ _ _); cbn [run_bind]; [|done..].
    apply NoDup_cons in H1 as [_ H1]. apply NoDup_cons in H2 as [_ H2]. by apply IH.
  - apply NoDup_cons in H1 as [H1 _]. apply NoDup_cons in H2 as [H2 _]. simpl in H1, H2.
    assert (s' <> s) by set_solver. assert (i' <> i) as Hi by set_solver.
    pose proof (store_at_comm (idToTok t) i' i (symToBytes t s') (symToBytes t s) Hi) as Hc.
    cbn [add_vocab]. destruct (store_at (idToTok t) i' _) as [l1| |] eqn:E1;
      destruct (store_at (idToTok t) i _) as [l2| |] eqn:E2; cbn [run_bind set_tables idToTok] in *;
      change (symToBytes (set_tables _ _ _ _ _)) with (symToBytes t); rewrite ?Hc; try done; try (by rewrite <- Hc).
    destruct (store_at l2 i' _); cbn [run_bind]; [|done..]. unfold set_tables. cbn.
    by rewrite insert_insert_ne.
  - rewrite IH by done. apply IH'; by rewrite <- Hp.
Qed.

Lemma assemble_order r r' sort vocab sps :
  r vocab ≡ₚ map_to_list vocab -> r' vocab ≡ₚ map_to_list vocab -> NoDup (map_to_list vocab).*2 ->
  assemble r sort vocab sps = assemble r' sort vocab sps.
Proof.
  intros Hr Hr' Hd. unfold assemble.
  assert (r vocab ≡ₚ r' vocab) as Hp by by rewrite Hr, Hr'.
  assert (max_id ((r vocab).*2 ++ (sp_id <$> sps)) = max_id ((r' vocab).*2 ++ (sp_id <$> sps))) as ->
    by (apply max_id_perm; by rewrite Hp).
  destruct (_ <? 0)%Z; [done|]. rewrite (add_vocab_perm _ _ _ Hp); [done|rewrite Hr|by rewrite Hr].
  apply NoDup_fst_map_to_list.
Qed.

(** ** The tables that come out *)
Definition put_all (m : gmap bytes Z) (l : list (bytes * Z)) : gmap bytes Z :=
  foldl (fun m e => <[e.1 := e.2]> m) m l.
Definition store_all (toks : list bytes) (l : list (Z * bytes)) : list bytes :=
  foldl (fun toks e => <[Z.to_nat e.1 := e.2]> toks) toks l.

Lemma put_all_inv m l k v : put_all m l !! k = Some v -> (k, v) ∈ l \/ m !! k = Some v.
Proof.
  revert m. induction l as [|[k' v'] l IH]; intros m; [by right|]. intros [H|H]%IH.
  - left. by right.
  - cbn [fst snd] in H. apply lookup_insert_Some in H as [[<- <-]|[_ H]]; [left; by left|by right].
Qed.

Lemma put_all_is_Some m l k : is_Some (m !! k) \/ k ∈ l.*1 -> is_Some (put_all m l !! k).
Proof.
  revert m. induction l as [|[k' v'] l IH]; intros m; [by intros [?|?%not_elem_of_nil]|].
  intros H. apply IH. cbn [fst snd]. destruct (decide (k' = k)) as [->|Hne].
  - left. by rewrite lookup_insert_eq.
  - rewrite lookup_insert_ne by done. destruct H as [H|H]; [by left|right].
    apply elem_of_cons in H as [->|H]; done.
Qed.

Lemma store_all_length toks l : length (store_all toks l) = length toks.
Proof. revert toks. induction l as [|e l IH]; intros toks; [done|]. cbn. by rewrite IH, length_insert. Qed.

Lemma store_all_other toks l i :
  Forall (fun e => (0 <= e.1)%Z) l -> (0 <= i)%Z -> i ∉ l.*1 ->
  store_all toks l !! Z.to_nat i = toks !! Z.to_nat i.
Proof.
  intros Hl Hi. revert toks. induction Hl as [|e l He _ IH]; intros toks Hn; [done|].
  apply not_elem_of_cons in Hn as [Hne Hn]. cbn. fold (store_all (<[Z.to_nat e.1:=e.2]> toks) l).
  rewrite IH by done. apply list_lookup_insert_ne. lia.
Qed.

Lemma store_all_lookup toks l i b :
  Forall (fun e => (0 <= e.1 < len toks)%Z) l -> NoDup l.*1 -> (i, b) ∈ l ->
  store_all toks l !! Z.to_nat i = Some b.
Proof.
  revert toks. induction l as [|e l IH]; intros toks Hr Hd Hin; [by apply not_elem_of_nil in Hin|].
  apply Forall_cons in Hr as [He Hr]. apply NoDup_cons in Hd as [Hn Hd].
  cbn. fold (store_all (<[Z.to_nat e.1:=e.2]> toks) l).
  apply elem_of_cons in Hin as [<-|Hin].
  - rewrite store_all_other; [|eapply Forall_impl; [exact Hr|simpl; lia]|simpl in *; lia|done].
    apply list_lookup_insert_eq. unfold len in He. simpl in *. lia.
  - apply IH; [|done..]. unfold len in *. by rewrite length_insert.
Qed.

Lemma store_at_ok {A} (l : list A) i x : (0 <= i < len l)%Z -> store_at l i x = Ret (<[Z.to_nat i := x]> l).
Proof.
  intros H. unfold store_at.
  by rewrite (proj2 (Z.leb_le _ _)), (proj2 (Z.ltb_lt _ _)) by lia.
Qed.

Lemma len_insert {A} (l : list A) i x : len (<[i := x]> l) = len l.
Proof. unfold len. by rewrite length_insert. Qed.

Lemma add_vocab_ok t l :
  Forall (fun e => (0 <= e.2 < len (idToTok t))%Z) l ->
  add_vocab t l = Ret (set_tables t (put_all (tokToID t) l)
    (store_all (idToTok t) ((fun e => (e.2, symToBytes t e.1)) <$> l)) (specialF t) (specials t)).
Proof.
  revert t. induction l as [|[s i] l IH]; intros t Hr; [by destruct t|].
  apply Forall_cons in Hr as [Hi Hr]. cbn [add_vocab]. simpl in Hi.
  rewrite store_at_ok by done. cbn [run_bind]. rewrite IH; [done|].
  cbn [set_tables idToTok]. by rewrite len_insert.
Qed.

Lemma add_specials_ok t l :
  len (specialF t) = len (idToTok t) -> Forall (fun sp => (0 <= sp_id sp < len (idToTok t))%Z) l ->
  exists flags, add_specials t l = Ret (set_tables t
    (put_all (tokToID t) ((fun sp => (sp_str sp, sp_id sp)) <$> l))
    (store_all (idToTok t) ((fun sp => (sp_id sp, sp_str sp)) <$> l)) flags (specials t ++ l)).
Proof.
  revert t. induction l as [|sp l IH]; intros t Hf Hr.
  { exists (specialF t). cbn. rewrite app_nil_r. by destruct t. }
  apply Forall_cons in Hr as [Hi Hr]. cbn [add_specials].
  rewrite store_at_ok by done. cbn [run_bind]. rewrite store_at_ok by lia. cbn [run_bind].
  destruct (IH (set_tables t (<[sp_str sp:=sp_id sp]> (tokToID t)) (<[Z.to_nat (sp_id sp):=sp_str sp]> (idToTok t))
     (<[Z.to_nat (sp_id sp):=true]> (specialF t)) (specials t ++ [sp]))) as [flags E];
    cbn [set_tables specialF idToTok]; [by rewrite !len_insert|by rewrite len_insert|].
  exists flags. rewrite E. unfold set_tables. cbn. by rewrite <- app_assoc.
Qed.

(** ** Well-formed model files *)
Record files_ok (vocab : gmap bytes Z) (sps : list special) (lines : list bytes) : Prop := {
  fo_distinct : NoDup ((map_to_list vocab).*2 ++ (sp_id <$> sps));
  fo_range : Forall (fun id => (0 <= id < 2 ^ 31)%Z) ((map_to_list vocab).*2 ++ (sp_id <$> sps));
  fo_bytes b : is_Some (vocab !! sym_of (buildByteMaps new_tokenizer) b);
  fo_merges : Forall (fun ab => x01 ∉ ab.1 /\ is_Some (vocab !! (ab.1 ++ ab.2))) (omap merge_of_line lines);
  fo_specials : Forall (fun sp => sp_str sp <> [] /\
                  symToBytes (buildByteMaps new_tokenizer) (sp_str sp) = sp_str sp) sps;
}.

Lemma add_merges_inv ranks rank lines k :
  is_Some (add_merges ranks rank lines !! k) ->
  is_Some (ranks !! k) \/ exists ab, ab ∈ omap merge_of_line lines /\ k = pair_key ab.1 ab.2.
Proof.
  revert ranks rank. induction lines as [|line lines IH]; intros ranks rank; [by left|].
  cbn [add_merges omap list_omap]. destruct (merge_of_line line) as [[a b]|]; [|apply IH].
  intros [H|(ab & Hin & ->)]%IH.
  - destruct (decide (pair_key a b = k)) as [<-|Hne].
    + right. exists (a, b). split; [by left|done].
    + rewrite lookup_insert_ne in H by done. by left.
  - right. exists ab. split; [by right|done].
Qed.

Lemma pair_key_inj a b a' b' :
  x01 ∉ a -> x01 ∉ a' -> pair_key a b = pair_key a' b' -> a = a' /\ b = b'.
Proof.
  intros Ha Ha' H. pose proof (split_key_pair a b Ha) as E. rewrite H, split_key_pair in E by done.
  by injection E.
Qed.

Section assembled.
Context (range_map : gmap bytes Z -> list (bytes * Z)) (sort_desc : list special -> list special).
Context (vocab : gmap bytes Z) (sps : list special) (lines : list bytes).
Context (Hrange : range_map vocab ≡ₚ map_to_list vocab) (Hsort : forall l, sort_desc l ≡ₚ l).
Context (Hok : files_ok vocab sps lines).
#[local] Set Default Proof Using "All".

Definition base : Tokenizer := buildByteMaps new_tokenizer.

Definition all_stores : list (Z * bytes) :=
  ((fun e => (e.2, symToBytes base e.1)) <$> range_map vocab) ++ ((fun sp => (sp_id sp, sp_str sp)) <$> sps).

Definition all_keys : list (bytes * Z) :=
  range_map vocab ++ ((fun sp => (sp_str sp, sp_id sp)) <$> sps).

Lemma store_ids : all_stores.*1 = (range_map vocab).*2 ++ (sp_id <$> sps).
Proof. unfold all_stores. rewrite fmap_app, <- !list_fmap_compose. done. Qed.

Lemma ids_perm : all_stores.*1 ≡ₚ (map_to_list vocab).*2 ++ (sp_id <$> sps).
Proof. by rewrite store_ids, Hrange. Qed.

Lemma assemble_ok :
  exists t n, assemble range_map sort_desc vocab sps = Ret t /\
    byteToSym t = byteToSym base /\ cpToByte t = cpToByte base /\ mergeRank t = ∅ /\
    tokToID t = put_all ∅ all_keys /\ idToTok t = store_all (replicate n []) all_stores /\
    Forall (fun e => (0 <= e.1 < Z.of_nat n)%Z) all_stores /\
    specials t = sort_desc sps.
Proof.
  pose proof (fo_range _ _ _ Hok) as Hr. rewrite <- ids_perm, store_ids in Hr.
  unfold assemble. fold base. set (ids := (range_map vocab).*2 ++ _) in *.
  pose proof (max_id_bound ids (2 ^ 31) ltac:(done)
    ltac:(eapply Forall_impl; [exact Hr|simpl; intros; lia])) as Hm.
  unfold int64. rewrite wrap_id by (done || (unfold in_int; lia)).
  rewrite (proj2 (Z.ltb_ge _ _)) by lia. set (n := Z.to_nat (max_id ids + 1)).
  assert (Hin : Forall (fun e => (0 <= e.1 < Z.of_nat n)%Z) all_stores).
  { apply Forall_forall. intros e He.
    assert (e.1 ∈ ids) as Hid by (subst ids; rewrite <- store_ids; by apply list_elem_of_fmap_2).
    pose proof (max_id_ge ids _ Hid). eapply Forall_forall in Hr; [|exact Hid]. lia. }
  pose proof Hin as [HV HS]%Forall_app. apply Forall_fmap in HV. apply Forall_fmap in HS.
  rewrite add_vocab_ok.
  2: { cbn [set_tables idToTok]. unfold len. rewrite length_replicate. exact HV. }
  cbn [run_bind]. cbn [set_tables idToTok tokToID specialF specials].
  destruct (add_specials_ok (set_tables base (put_all ∅ (range_map vocab))
    (store_all (replicate n []) ((fun e => (e.2, symToBytes base e.1)) <$> range_map vocab))
    (replicate n false) []) sps) as [flags E];
    [cbn; unfold len; by rewrite store_all_length, !length_replicate
    |cbn; unfold len; rewrite store_all_length, length_replicate; exact HS|].
  eexists _, n. split.
  { etransitivity; [|exact (f_equal (fun m => run_bind m (fun t =>
      Ret (set_tables t (tokToID t) (idToTok t) (specialF t) (sort_desc (specials t))))) E)]. done. }
  cbn. unfold put_all, store_all, all_keys, all_stores. rewrite !foldl_app. by split_and!.
Qed.

(** A token of either file decodes to what was stored for it. *)
Lemma decode_stored t n i b :
  idToTok t = store_all (replicate n []) all_stores ->
  Forall (fun e => (0 <= e.1 < Z.of_nat n)%Z) all_stores ->
  (i, b) ∈ all_stores -> Decode t [i] = b.
Proof.
  intros Ht Hr Hin.
  assert (NoDup all_stores.*1) as Hd by (rewrite ids_perm; apply (fo_distinct _ _ _ Hok)).
  unfold Decode. cbn. rewrite app_nil_r, Ht.
  pose proof Hr as Hi. eapply Forall_forall in Hi; [|exact Hin]. cbn in Hi. unfold len.
  rewrite store_all_length, length_replicate.
  rewrite (proj2 (Z.leb_le _ _)), (proj2 (Z.ltb_lt _ _)) by lia. cbn [andb].
  rewrite (store_all_lookup _ _ i b); [done| |done..]. unfold len. by rewrite length_replicate.
Qed.

Lemma vocab_stored s id : (s, id) ∈ range_map vocab -> (id, symToBytes base s) ∈ all_stores.
Proof.
  intros H. unfold all_stores. apply elem_of_app. left. apply list_elem_of_fmap. by exists (s, id).
Qed.

Lemma special_stored sp : sp ∈ sps -> (sp_id sp, sp_str sp) ∈ all_stores.
Proof. intros H. unfold all_stores. apply elem_of_app. right. apply list_elem_of_fmap. by exists sp. Qed.

Lemma loaded_wire_ok t t' :
  assemble range_map sort_desc vocab sps = Ret t ->
  t' = set_merges t (add_merges (mergeRank t) 0 lines) -> wire_ok t'.
Proof.
  destruct assemble_ok as (t1 & n & -> & Hb & Hc & Hm & Htok & Hid & Hr & Hs). intros [= <-] Ht'.
  destruct Hok as [Hd Hrg Hbytes Hmerges Hsp].
  assert (Hcell : forall i b, (i, b) ∈ all_stores -> Decode t' [i] = b).
  { intros i b. subst t'. by apply (decode_stored (set_merges t1 _) n). }
  assert (Hmaps : maps_ok t').
  { subst t'. unfold maps_ok. cbn. rewrite Hb, Hc. by apply buildByteMaps_maps_ok. }
  assert (Hsym : forall bs, syms_of t' bs = syms_of base bs).
  { intros bs. subst t'. unfold syms_of, sym_of. cbn. by rewrite Hb. }
  assert (Hbase : maps_ok base) by by apply buildByteMaps_maps_ok.
  assert (Hput : forall s, is_Some (vocab !! s) -> is_Some (tokToID t' !! s)).
  { intros s [id Hs']. subst t'. cbn. rewrite Htok. apply put_all_is_Some. right.
    unfold all_keys. rewrite fmap_app. apply elem_of_app. left. rewrite Hrange.
    apply list_elem_of_fmap. exists (s, id). split; [done|]. by apply elem_of_map_to_list. }
  assert (Hkey : forall s id, tokToID t' !! s = Some id ->
     (s, id) ∈ range_map vocab \/ exists sp, sp ∈ sps /\ s = sp_str sp /\ id = sp_id sp).
  { intros s id. subst t'. cbn. rewrite Htok. intros [H|H]%put_all_inv; [|by rewrite lookup_empty in H].
    apply elem_of_app in H as [H|H]; [by left|right].
    apply list_elem_of_fmap in H as (sp & [= -> ->] & Hin). exists sp. exact (conj Hin (conj eq_refl eq_refl)). }
  assert (Hsps : specials t' = sort_desc sps) by (by subst t').
  split; [split| | | |].
  - exact Hmaps.
  - intros b. apply Hput. specialize (Hbytes b). subst t'. unfold sym_of in *. cbn. by rewrite Hb.
  - intros x y. rewrite !Hsym. intros H. apply Hput. subst t'. cbn in H. rewrite Hm in H.
    apply add_merges_inv in H as [[? H]|([a b] & Hin & Hk)]; [by rewrite lookup_empty in H|].
    eapply Forall_forall in Hmerges; [|exact Hin]. cbn in Hmerges, Hk. destruct Hmerges as [Hna Hv].
    apply pair_key_inj in Hk as [-> ->]; [done| |done]. by apply syms_of_no_sep.
  - intros bs id. rewrite Hsym. intros [H|(sp & Hin & Hstr & ->)]%Hkey.
    + rewrite (Hcell _ _ (vocab_stored _ _ H)). by apply symToBytes_syms_of.
    + rewrite (Hcell _ _ (special_stored _ Hin)). eapply Forall_forall in Hsp; [|exact Hin].
      destruct Hsp as [_ Hsp]. rewrite <- Hsp. fold base. rewrite <- Hstr. by apply symToBytes_syms_of.
  - unfold specials_nonempty. rewrite Hsps, Hsort. eapply Forall_impl; [exact Hsp|]. by intros sp [? _].
  - rewrite Hsps, Hsort. apply Forall_forall. intros sp Hin.
    by rewrite (Hcell _ _ (special_stored _ Hin)).
  - intros s id Hk. assert (id ∈ all_stores.*1) as Hin.
    { apply Hkey in Hk as [H|(sp & H & _ & ->)]; [apply vocab_stored in H|apply special_stored in H];
        by apply (list_elem_of_fmap_2 fst) in H. }
    rewrite ids_perm in Hin. eapply Forall_forall in Hrg; [|exact Hin]. unfold in_int. lia.
  - rewrite Hsps, Hsort. apply Forall_forall. intros sp H%special_stored.
    apply (list_elem_of_fmap_2 fst) in H. rewrite ids_perm in H. eapply Forall_forall in Hrg; [|exact H].
    unfold in_int. cbn in Hrg. lia.
Qed.

End assembled.

(** ** Properties *)

(** C16: a tokenizer loaded from a well-formed model directory is usable: the tables satisfy
    every assumption of the encoding theorems, so that every text is encoded and decodes
    to itself, and every id fits the wire. *)
Theorem Load_wire_ok read_file open_file json_error range_map sort_desc dir vocab sps f lines :
  loadAddedTokens read_file json_error (dir ++ go "/tokenizer.json") = Ok sps ->
  loadVocab read_file json_error (dir ++ go "/vocab.json") = Ok vocab ->
  open_file (dir ++ go "/merges.txt") = Ok f ->
  scan_lines [] (contents f) = (lines, false) -> read_err f = None ->
  range_map vocab ≡ₚ map_to_list vocab -> (forall l, sort_desc l ≡ₚ l) ->
  files_ok vocab sps lines ->
  exists t, Load read_file open_file json_error range_map sort_desc dir = Ret (Ok t) /\ wire_ok t /\
    forall text, exists ids, Encode t text = Ret ids /\ Decode t ids = text.
Proof.
  intros Hsp Hv Hf Hl He Hrange Hsort Hok. unfold Load. rewrite Hsp, Hv.
  destruct (assemble_ok range_map sort_desc vocab sps lines Hrange Hsort Hok) as (t & _ & E & _).
  rewrite E. cbn [run_bind]. unfold loadMerges. rewrite Hf, Hl, He. eexists. split; [done|].
  pose proof (loaded_wire_ok range_map sort_desc vocab sps lines Hrange Hsort Hok t _ E eq_refl) as Hw.
  split; [done|]. intros text. destruct Hw as [Hvo Hne Hs _ _].
  destruct (Encode_ok _ text Hne) as (ids & Henc & Hspec). exists ids. split; [done|].
  by eapply encodes_decodes.
Qed.

Lemma assemble_sort range_map sort sort' vocab sps t :
  assemble range_map sort vocab sps = Ret t ->
  exists sps', specials t = sort sps' /\
    assemble range_map sort' vocab sps = Ret (with_specials t (sort' sps')).
Proof.
  unfold assemble. destruct (_ <? 0)%Z; [done|].
  destruct (add_vocab _ _) as [t1| |]; cbn [run_bind]; [|done..].
  destruct (add_specials _ _) as [t2| |]; cbn [run_bind]; [|done..].
  intros [= <-]. exists (specials t2). by split.
Qed.

(** C40: what the language leaves open does not matter: when the ids of the vocabulary are
    distinct and the special literals distinct and not empty, then in whatever order the
    vocabulary map is visited and however literals of equal length are sorted, the directory
    is loaded and the tokenizers encode every text alike. *)
Theorem Load_deterministic read_file open_file json_error r r' sort sort' dir vocab sps t text :
  loadAddedTokens read_file json_error (dir ++ go "/tokenizer.json") = Ok sps ->
  loadVocab read_file json_error (dir ++ go "/vocab.json") = Ok vocab ->
  r vocab ≡ₚ map_to_list vocab -> r' vocab ≡ₚ map_to_list vocab ->
  (forall l, sort l ≡ₚ l) -> (forall l, sort' l ≡ₚ l) ->
  NoDup (map_to_list vocab).*2 ->
  Load read_file open_file json_error r sort dir = Ret (Ok t) ->
  specials_nonempty t -> NoDup (sp_str <$> specials t) ->
  exists t', Load read_file open_file json_error r' sort' dir = Ret (Ok t') /\
    Encode t' text = Encode t text.
Proof.
  intros Hsp Hv Hr Hr' Hs Hs' Hd. unfold Load. rewrite Hsp, Hv.
  rewrite (assemble_order r r' sort vocab sps Hr Hr' Hd).
  destruct (assemble r' sort vocab sps) as [t0| |] eqn:E; cbn [run_bind]; [|done..].
  destruct (assemble_sort _ _ sort' _ _ _ E) as (sps' & Hspec & E'). rewrite E'. cbn [run_bind].
  unfold loadMerges. destruct (open_file _) as [f|]; [|done].
  destruct (scan_lines _ _) as [lines [|]]; [done|]. destruct (read_err f); [done|].
  intros [= <-] Hne Hnd. eexists. split; [done|].
  set (t := set_merges t0 _). change (set_merges (with_specials t0 (sort' sps')) _)
    with (with_specials t (sort' sps')).
  apply Encode_specials_perm; [done..|]. change (specials t) with (specials t0).
  by rewrite Hspec, Hs, Hs'.
Qed.

(** An id below zero in [vocab.json] panics instead of being reported, in whatever
    order the map is visited. *)
Lemma Load_negative_id_panics read_file open_file json_error range_map sort_desc dir vocab sps s id :
  loadAddedTokens read_file json_error (dir ++ go "/tokenizer.json") = Ok sps ->
  loadVocab read_file json_error (dir ++ go "/vocab.json") = Ok vocab ->
  range_map vocab ≡ₚ map_to_list vocab -> vocab !! s = Some id -> (id < 0)%Z ->
  Load read_file open_file json_error range_map sort_desc dir = Panic.
Proof.
  intros Hsp Hv Hrange Hs Hid. unfold Load. rewrite Hsp, Hv.
  assert ((s, id) ∈ range_map vocab) as Hin by (rewrite Hrange; by apply elem_of_map_to_list).
  assert (forall l t, (s, id) ∈ l -> add_vocab t l = Panic) as H.
  { induction l as [|[s' id'] l IH]; intros t Hl; [by apply not_elem_of_nil in Hl|]. cbn [add_vocab].
    unfold store_at. apply elem_of_cons in Hl as [[= <- <-]|Hl].
    - by rewrite (proj2 (Z.leb_gt _ _)) by lia.
    - destruct (_ && _); cbn [run_bind]; [by apply IH|done]. }
  unfold assemble. destruct (_ <? 0)%Z; [done|]. by rewrite H.
Qed.

(** ** Witnesses: the files of the toy tokenizer *)
Definition entry (sym : bytes) (id : Z) : bytes := enc_string sym ++ x3a :: itoa id.

Definition toy_vocab_json : bytes :=
  x7b :: join [x2c] ((fun e => entry e.1 e.2) <$>
    (zip byte_syms (seqZ 0 256) ++ [(go "he", 256%Z); (go "hel", 257%Z)])) ++ [x7d].

Definition toy_tokenizer_json : bytes :=
  go "{\qadded_tokens\q: [{\qid\q: 258, \qcontent\q: \q<|im_start|>\q}, {\qid\q: 259, \qcontent\q: \q<|im_end|>\q}]}".

Definition toy_merges_txt : bytes := go "#version: 0.2\nh e\n\nhe l\r\n# '".

Definition toy_read (p : bytes) : result error bytes :=
  if bool_decide (p = go "toy/tokenizer.json") then Ok toy_tokenizer_json
  else if bool_decide (p = go "toy/vocab.json") then Ok toy_vocab_json
  else Err (new_error (go "no such file or directory")).

Definition toy_open (p : bytes) : result error file :=
  if bool_decide (p = go "toy/merges.txt") then Ok {| contents := toy_merges_txt; read_err := None |}
  else Err (new_error (go "no such file or directory")).

Definition longer (a b : special) : Prop := (length (sp_str b) <= length (sp_str a))%nat.
#[export] Instance longer_dec a b : Decision (longer a b) := Nat.le_dec _ _.

Definition toy_sort : list special -> list special := merge_sort longer.

Definition toy_vocab : gmap bytes Z :=
  list_to_map (zip byte_syms (seqZ 0 256) ++ [(go "he", 256%Z); (go "hel", 257%Z)]).

Definition json_failed (_ : bytes) : error := new_error (go "invalid character").

(** The maps are compared by their decision procedure, not by their normal forms. *)
Lemma loaded_vocab path m :
  match loadVocab toy_read json_failed path with
  | Ok m' => bool_decide (m' = m)
  | Err _ => false
  end = true -> loadVocab toy_read json_failed path = Ok m.
Proof. destruct (loadVocab _ _ _); [|done]. intros H. by boolprop; subst. Qed.

Lemma toy_files :
  loadAddedTokens toy_read json_failed (go "toy" ++ go "/tokenizer.json") = Ok toy_special /\
  loadVocab toy_read json_failed (go "toy" ++ go "/vocab.json") = Ok toy_vocab /\
  scan_lines [] toy_merges_txt = ([go "#version: 0.2"; go "h e"; []; go "he l"; go "# '"], false).
Proof.
  split_and!; [vm_compute; reflexivity|apply loaded_vocab; vm_compute; reflexivity|].
  vm_compute. reflexivity.
Qed.

Lemma toy_files_ok : files_ok toy_vocab toy_special [go "#version: 0.2"; go "h e"; []; go "he l"].
Proof.
  split.
  - apply (bool_decide_eq_true_1 _). vm_compute. reflexivity.
  - apply (bool_decide_eq_true_1 _). vm_compute. reflexivity.
  - intros b. apply (bool_decide_eq_true_1 _). revert b. apply byte_forall. vm_compute. reflexivity.
  - apply (bool_decide_eq_true_1 _). vm_compute. reflexivity.
  - repeat constructor; vm_compute; congruence.
Qed.

Lemma toy_perm : map_to_list toy_vocab ≡ₚ map_to_list toy_vocab.
Proof. reflexivity. Qed.

Lemma toy_sort_perm l : toy_sort l ≡ₚ l.
Proof. apply merge_sort_Permutation. Qed.

Definition toy_merges : file := {| contents := go "#version: 0.2\nh e\n\nhe l\r\n"; read_err := None |}.

Lemma Load_wire_ok_witness :
  exists t, Load toy_read (fun _ => Ok toy_merges) json_failed map_to_list toy_sort (go "toy") = Ret (Ok t) /\
    wire_ok t /\ forall text, exists ids, Encode t text = Ret ids /\ Decode t ids = text.
Proof.
  apply (Load_wire_ok toy_read (fun _ => Ok toy_merges) json_failed map_to_list toy_sort (go "toy")
    toy_vocab toy_special toy_merges [go "#version: 0.2"; go "h e"; []; go "he l"]).
  - exact (proj1 toy_files).
  - exact (proj1 (proj2 toy_files)).
  - reflexivity.
  - vm_compute. reflexivity.
  - reflexivity.
  - exact toy_perm.
  - exact toy_sort_perm.
  - exact toy_files_ok.
Defined.

Lemma toy_loaded :
  exists t, Load toy_read (fun _ => Ok toy_merges) json_failed map_to_list toy_sort (go "toy") = Ret (Ok t) /\
    specials t ≡ₚ toy_special.
Proof.
  unfold Load. rewrite (proj1 toy_files), (proj1 (proj2 toy_files)).
  destruct (assemble_ok map_to_list toy_sort toy_vocab toy_special _ toy_perm toy_sort_perm toy_files_ok)
    as (t & _ & E & _ & _ & _ & _ & _ & _ & Hs).
  rewrite E. cbn [run_bind]. eexists. split; [unfold loadMerges; reflexivity|].
  cbn [set_merges specials]. rewrite Hs. apply toy_sort_perm.
Qed.

Lemma Load_deterministic_witness :
  exists t t', Load toy_read (fun _ => Ok toy_merges) json_failed map_to_list toy_sort (go "toy") = Ret (Ok t) /\
    Load toy_read (fun _ => Ok toy_merges) json_failed (fun m => reverse (map_to_list m)) reverse (go "toy")
      = Ret (Ok t') /\
    Encode t' (go "hel<|im_end|>") = Encode t (go "hel<|im_end|>").
Proof.
  destruct toy_loaded as (t & Ht & Hs).
  destruct (Load_deterministic toy_read (fun _ => Ok toy_merges) json_failed map_to_list
    (fun m => reverse (map_to_list m)) toy_sort reverse (go "toy") toy_vocab toy_special t
    (go "hel<|im_end|>")) as (t' & Ht' & He).
  - exact (proj1 toy_files).
  - exact (proj1 (proj2 toy_files)).
  - exact toy_perm.
  - apply reverse_Permutation.
  - exact toy_sort_perm.
  - intros l. apply reverse_Permutation.
  - apply (bool_decide_eq_true_1 _). vm_compute. reflexivity.
  - exact Ht.
  - unfold specials_nonempty. rewrite Hs. exact (proj2 toy_specials_ok).
  - rewrite Hs. apply (bool_decide_eq_true_1 _). vm_compute. reflexivity.
  - exists t, t'. exact (conj Ht (conj Ht' He)).
Defined.

Definition bad_read (p : bytes) : result error bytes :=
  if bool_decide (p = go "toy/vocab.json") then Ok (go "{\qa\q: 0, \qb\q: -1}") else toy_read p.

Definition bad_vocab : gmap bytes Z := {[ go "a" := 0%Z; go "b" := (-1)%Z ]}.

Lemma Load_negative_id_panics_witness :
  Load bad_read (fun _ => Ok toy_merges) json_failed map_to_list toy_sort (go "toy") = Panic.
Proof.
  apply (Load_negative_id_panics bad_read (fun _ => Ok toy_merges) json_failed map_to_list toy_sort
    (go "toy") bad_vocab toy_special (go "b") (-1)).
  - vm_compute. reflexivity.
  - vm_compute. reflexivity.
  - reflexivity.
  - vm_compute. reflexivity.
  - reflexivity.
Defined.
