(* ===== verification/Cmd.v ===== *)
(** * The command line: [flashqwen serve] and [flashqwen chat]

    Models [cmd/flashqwen]: the program from its arguments on: the dispatch of [main], the
    flags of the two commands, the opening of a session with its cleanup on every failure
    ([common.go]), the life of the server ([serve.go]) and the interactive loop ([chat.go]).
    What is printed to standard error and the log is not modelled. *)

From Stdlib Require Import Floats.SpecFloat.
From S2P Require Import Prelude Utf8 GoStrings TokenizerCore Vocab Encode Json Chatml Render.
From S2P Require Import Stream Client Generate Flags Supervisor TokenizerLoad.
Local Open Scope go_scope.

(** ** [main] *)
Inductive main_action :=
  | RunServe (args : list bytes)
  | RunChat (args : list bytes)
  | ShowUsage (unknown : option bytes) (exit_code : Z).

Definition main (argv : list bytes) : main_action :=
  match argv with
  | [] | [_] => ShowUsage None 2
  | _ :: cmd :: args =>
      if bool_decide (cmd = go "serve") then RunServe args
      else if bool_decide (cmd = go "chat") then RunChat args
      else if bool_decide (cmd ∈ [go "-h"; go "--help"; go "help"]) then ShowUsage None 0
      else ShowUsage (Some cmd) 2
  end.

(** ** Sessions *)
Definition startupTimeout : Z := 1800 * 10 ^ 9.

(** [engine.Dial] and [Client.Close]: a connection is known by its number; closing it again
    only returns an error, which is dropped. *)
Definition Dial (new_client : bytes -> result error Client) (w : World) (addr : bytes)
    : World * result error (nat * Client) :=
  match new_client addr with
  | Err err => (w, Err err)
  | Ok cli =>
      let id := fresh (conns w) in
      ({| temp_files := temp_files w; running := running w; conns := {[id]} ∪ conns w |}, Ok (id, cli))
  end.

Definition Close (w : World) (id : nat) : World :=
  {| temp_files := temp_files w; running := running w; conns := conns w ∖ {[id]} |}.

Record session := { s_gen : Generator; s_info : ModelInfo; s_conn : nat; s_engine : Engine }.

(** [stop]: the connection is closed, the engine stopped. *)
Definition session_stop (s : session) (w : World) : World := Stop (Close w (s_conn s)) (s_engine s).

(** When a signal that the program has not asked for ends it: while the tokenizer is
    loaded, while the binary of the engine is extracted, once the engine has been spawned,
    in [WaitReady] (the load of the model), once so many bytes of a conversation have been
    printed, or while the engine is stopped. No deferred function runs then; the engine
    process lives on, the connections are closed by the system. *)
Inductive moment := Loading | Extracting | Spawned | Waiting | Conversing (printed : nat) | Stopping.

#[export] Instance moment_eq_dec : EqDecision moment.
Proof. solve_decision. Defined.

(** What the outside does while a session is opened. *)
Record Outside := {
  load_tokenizer : bytes -> run (result error Tokenizer);  (** [tokenizer.Load] *)
  config_file : bytes -> option bytes;                     (** [os.ReadFile] for [chatml.Load] *)
  system : Os;
  dial : bytes -> result error Client;                     (** [grpc.NewClient] *)
  clock : nat -> Z;
  (** the engine at the check of each round of [WaitReady]: exit status and stderr so far *)
  engine_at : nat -> option (option error) * list bytes;
  (** the signal that ends the program, if one does: it has no effect when the program
      does not come to that moment *)
  interrupt : option moment;
}.

Definition struck (o : Outside) (m : moment) : bool := bool_decide (interrupt o = Some m).

(** The extraction of [Start] up to the signal: the file has been created. *)
Definition half_extracted (os : Os) (w : World) : World :=
  match os_CreateTemp os with Ok f => add_file w f | Err _ => w end.

(** [sup.Stop()] and then [r]; a signal in between finds the engine already told to end. *)
Definition stopping {A} (o : Outside) (w : World) (sup : Engine) (r : A) : run (World * option A) :=
  if struck o Stopping then Ret (reap w (path sup), None) else Ret (Stop w sup, Some r).

(** [sup.Exited] at round [k]. *)
Definition alive_check (o : Outside) (e : Engine) (k : nat) : option error :=
  let '(st, stderr) := engine_at o k in
  Exited {| Addr := Addr e; path := path e; argv := argv e; tail := write_all (tail e) stderr;
            exit := st |}.

(** [open]; [None] when a signal has ended the program. *)
Definition open (o : Outside) (w : World) (modelDir : bytes)
    (slots maxCtx maxWaiting tokenBudget prefillChunk : Z) (gpuMemFraction : float64)
    : run (World * option (result error session)) :=
  let* t := load_tokenizer o modelDir in
  if struck o Loading then Ret (w, None) else
  match t with
  | Err err => Ret (w, Some (Err err))
  | Ok tok =>
      let cm := Chatml.Load (config_file o) modelDir tok in
      if struck o Extracting then Ret (half_extracted (system o) w, None) else
      let '(w, sup) := Start (system o) w modelDir slots maxCtx maxWaiting tokenBudget prefillChunk
                         gpuMemFraction in
      match sup with
      | Err err => Ret (w, Some (Err err))
      | Ok sup =>
          if struck o Spawned then Ret (w, None) else
          let '(w, conn) := Dial (dial o) w (Addr sup) in
          match conn with
          | Err err => stopping o w sup (Err err)
          | Ok (id, conn) =>
              if struck o Waiting then Ret (Close w id, None) else
              let* info := WaitReady conn (Some (alive_check o sup)) (clock o) startupTimeout in
              match info with
              | Err err => stopping o (Close w id) sup (Err err)
              | Ok info =>
                  Ret (w, Some (Ok {| s_gen := NewGenerator conn cm tok (MaxCtx info); s_info := info;
                                      s_conn := id; s_engine := sup |}))
              end
          end
      end
  end.

(** ** The values of flags *)
Definition string_flag (fs : FlagSet) (name : string) : bytes :=
  match fs !! go name with Some (VString s) => s | _ => [] end.
Definition int_flag (fs : FlagSet) (name : string) : Z :=
  match fs !! go name with Some (VInt z) => z | _ => 0%Z end.
Definition float_flag (fs : FlagSet) (name : string) : float64 :=
  match fs !! go name with Some (VFloat x) => x | _ => S754_zero false end.
Definition bool_flag (fs : FlagSet) (name : string) : bool :=
  match fs !! go name with Some (VBool b) => b | _ => false end.

(** The [float64] constant 0.9. *)
Definition float_0_9 : float64 := S754_finite false 8106479329266893 (-53).

(** ** [serve] *)
Definition serve_FlagSet : FlagSet := declare
  [(go "model", VString []); (go "addr", VString (go ":8000")); (go "slots", VInt 16);
   (go "max-ctx", VInt 4096); (go "max-waiting", VInt 0); (go "token-budget", VInt 1024);
   (go "prefill-chunk", VInt 512); (go "gpu-mem-fraction", VFloat float_0_9)].

Record serve_flags := {
  sf_model : bytes; sf_addr : bytes; sf_slots : Z; sf_maxCtx : Z; sf_maxWaiting : Z; sf_tokenBudget : Z;
  sf_prefillChunk : Z; sf_gpuMemFraction : float64;
}.

Definition serve_settings (fs : FlagSet) : serve_flags :=
  {| sf_model := string_flag fs "model"; sf_addr := string_flag fs "addr"; sf_slots := int_flag fs "slots";
     sf_maxCtx := int_flag fs "max-ctx"; sf_maxWaiting := int_flag fs "max-waiting";
     sf_tokenBudget := int_flag fs "token-budget"; sf_prefillChunk := int_flag fs "prefill-chunk";
     sf_gpuMemFraction := float_flag fs "gpu-mem-fraction" |}.

(** The signals that end a program by default, SIGKILL in any case. *)
Inductive signal := SIGHUP | SIGINT | SIGKILL | SIGTERM.

(** [signal.Notify(sig, syscall.SIGINT, syscall.SIGTERM)] *)
Definition notified (sig : signal) : bool := match sig with SIGINT | SIGTERM => true | _ => false end.

(** How serving ends: a signal, an error of [r.Run], or both at once, the signal being one
    asked for, when either exits first. *)
Inductive serve_end := Signalled (sig : signal) | RunFailed (err : error) | Both (err : error) (signal_first : bool).

(** The end of the process: an exit code and the message of [log.Fatal], if any; or a signal. *)
Inductive exit_status := Exit (code : Z) (fatal : option bytes) | Killed.

(** [runServe] once the flags are read; [ending] is how serving on an address ends. The
    signals are asked for once [open] has returned. *)
Definition serve (o : Outside) (w : World) (f : serve_flags) (ending : bytes -> serve_end)
    : run (World * exit_status) :=
  if bool_decide (sf_model f = []) then Ret (w, Exit 1 (Some (go "serve: --model is required")))
  else
    let* (w, s) := open o w (sf_model f) (sf_slots f) (sf_maxCtx f) (sf_maxWaiting f) (sf_tokenBudget f)
                     (sf_prefillChunk f) (sf_gpuMemFraction f) in
    match s with
    | None => Ret (w, Killed)
    | Some (Err err) => Ret (w, Exit 1 (Some (go "serve: " ++ Error err)))
    | Some (Ok s) =>
        match ending (sf_addr f) with
        | Signalled sig =>
            if notified sig then Ret (session_stop s w, Exit 0 None) else Ret (Close w (s_conn s), Killed)
        | RunFailed err => Ret (session_stop s w, Exit 1 (Some (Error err)))
        | Both err signal_first =>
            Ret (session_stop s (session_stop s w), if signal_first then Exit 0 None else Exit 1 (Some (Error err)))
        end
    end.

Definition runServe (o : Outside) (w : World) (args : list bytes) (ending : bytes -> serve_end)
    : run (World * exit_status) :=
  let* p := Parse serve_FlagSet args in
  match p with
  | Err err => Ret (w, Exit (exit_code err) None)
  | Ok (fs, _) => serve o w (serve_settings fs) ending
  end.

(** ** [chat] *)

(** [in.ReadString('\n')]: the line with its terminator and the rest, or [None] at the end
    of the input, what was read after the last terminator being dropped. *)
Fixpoint read_line (acc : bytes) (stdin : bytes) : option (bytes * bytes) :=
  match stdin with
  | [] => None
  | b :: r => if Byte.eqb b x0a then Some (acc ++ [b], r) else read_line (acc ++ [b]) r
  end.

Definition user_message (text : bytes) : Message :=
  {| Role := go "user"; Content := text; ToolCalls := []; ToolCallID := [] |}.
Definition assistant_message (text : bytes) : Message :=
  {| Role := go "assistant"; Content := text; ToolCalls := []; ToolCallID := [] |}.

Definition chat_request (history : list Message) (thinking : bool) : Request :=
  {| Messages := history; Tools := []; EnableThinking := thinking; MaxTokens := 0;
     Temperature := None; TopP := None; IgnoreEOS := false; RawPrompt := []; InputIDs := [] |}.

(** Bold text of a terminal. *)
Definition bold (text : bytes) : bytes := x1b :: go "[1m" ++ text ++ x1b :: go "[0m".

Definition print_delta (text : bytes) (_ : option ToolCall) (out : bytes) : bytes := out ++ text.

(** The loop after the greeting. Every round consumes a line, so the length of the input
    is enough fuel. *)
Fixpoint chat_loop (fuel : nat) (g : Generator) (stdin : bytes) (history : list Message)
    (thinking : bool) (out : bytes) : run (list Message * bytes) :=
  let out := out ++ go "\n" ++ bold (go "You:") ++ go " " in
  match read_line [] stdin with
  | None => Ret (history, out ++ go "\n")
  | Some (line, stdin) =>
      match fuel with
      | O => Fuel
      | S f =>
          let line := trim_right line (go "\r\n") in
          if bool_decide (line ∈ [go "/exit"; go "/quit"]) then Ret (history, out)
          else if bool_decide (line = []) then chat_loop f g stdin history thinking out
          else if bool_decide (line = go "/reset") then
            chat_loop f g stdin [] thinking (out ++ go "[context cleared]\n")
          else if bool_decide (line = go "/think on") then
            chat_loop f g stdin history true (out ++ go "[thinking on]\n")
          else if bool_decide (line = go "/think off") then
            chat_loop f g stdin history false (out ++ go "[thinking off]\n")
          else
            let history' := history ++ [user_message line] in
            let out := out ++ bold (go "Assistant:") ++ go " " in
            let* (out, r) := Generate g (chat_request history' thinking) (Some print_delta) out in
            let out := out ++ go "\n" in
            match r with
            | Err err =>
                chat_loop f g stdin (take (length history' - 1) history') thinking
                  (out ++ go "[error: " ++ Error err ++ go "]\n")
            | Ok res => chat_loop f g stdin (history' ++ [assistant_message (Text res)]) thinking out
            end
      end
  end.

Definition greeting : bytes :=
  go "\nFlashQwen interactive chat. Commands: /exit /quit /reset /think on|off\n".

(** The conversation of an open session. *)
Definition chat_session (g : Generator) (think : bool) (stdin : bytes) : run (list Message * bytes) :=
  chat_loop (length stdin) g stdin [] think greeting.

Definition chat_FlagSet : FlagSet := declare
  [(go "model", VString []); (go "max-ctx", VInt 4096); (go "think", VBool false)].

Record chat_flags := { cf_model : bytes; cf_maxCtx : Z; cf_think : bool }.

Definition chat_settings (fs : FlagSet) : chat_flags :=
  {| cf_model := string_flag fs "model"; cf_maxCtx := int_flag fs "max-ctx"; cf_think := bool_flag fs "think" |}.

(** [runChat] once the flags are read: the output is what was printed to standard output;
    [defer s.stop()] runs when the conversation has ended. No signal is asked for. *)
Definition chat (o : Outside) (w : World) (f : chat_flags) (stdin : bytes)
    : run (World * exit_status * bytes) :=
  if bool_decide (cf_model f = []) then Ret (w, Exit 1 (Some (go "chat: --model is required")), [])
  else
    let* (w, s) := open o w (cf_model f) 1 (cf_maxCtx f) 0 1024 512 float_0_9 in
    match s with
    | None => Ret (w, Killed, [])
    | Some (Err err) => Ret (w, Exit 1 (Some (go "chat: " ++ Error err)), [])
    | Some (Ok s) =>
        let* (_, out) := chat_session (s_gen s) (cf_think f) stdin in
        let finish :=
          let* (w, r) := stopping o (Close w (s_conn s)) (s_engine s) (Exit 0 None) in
          Ret (w, default Killed r, out) in
        match interrupt o with
        | Some (Conversing printed) =>
            if (printed <? length out)%nat then Ret (Close w (s_conn s), Killed, take printed out) else finish
        | _ => finish
        end
    end.

Definition runChat (o : Outside) (w : World) (args : list bytes) (stdin : bytes)
    : run (World * exit_status * bytes) :=
  let* p := Parse chat_FlagSet args in
  match p with
  | Err err => Ret (w, Exit (exit_code err) None, [])
  | Ok (fs, _) => chat o w (chat_settings fs) stdin
  end.

(** ** The program *)
Definition flashqwen (o : Outside) (w : World) (argv : list bytes) (ending : bytes -> serve_end) (stdin : bytes)
    : run (World * exit_status * bytes) :=
  match main argv with
  | RunServe args => let* (w, status) := runServe o w args ending in Ret (w, status, [])
  | RunChat args => runChat o w args stdin
  | ShowUsage _ code => Ret (w, Exit code None, [])
  end.

(** ** The history of a chat *)
Definition is_command (line : bytes) : bool :=
  bool_decide (line ∈ [[]; go "/exit"; go "/quit"; go "/reset"; go "/think on"; go "/think off"]).

(** Completed exchanges: each answer is the whole text generated for the exchanges before
    it and its own question. *)
Inductive exchanges (g : Generator) : list Message -> Prop :=
  | ex_nil : exchanges g []
  | ex_snoc history question thinking res :
      exchanges g history -> is_command question = false ->
      Generate g (chat_request (history ++ [user_message question]) thinking) None tt = Ret (tt, Ok res) ->
      exchanges g (history ++ [user_message question; assistant_message (Text res)]).

Lemma read_line_length acc stdin line rest :
  read_line acc stdin = Some (line, rest) -> (length rest < length stdin)%nat.
Proof.
  revert acc. induction stdin as [|b r IH]; intros acc; cbn [read_line length]; [done|].
  destruct (Byte.eqb b x0a); [intros [= <- <-]; lia|]. intros H%IH. lia.
Qed.

Lemma chat_loop_ok g fuel stdin history thinking out :
  specials_nonempty (gtok g) -> (length stdin <= fuel)%nat -> exchanges g history ->
  exists history' out', chat_loop fuel g stdin history thinking out = Ret (history', out') /\
    exchanges g history'.
Proof.
  intros Hne. revert stdin history thinking out.
  induction fuel as [|f IH]; intros stdin history thinking out Hl Hex; cbn [chat_loop];
    destruct (read_line [] stdin) as [[line rest]|] eqn:E; try by eexists _, _.
  { apply read_line_length in E. lia. }
  apply read_line_length in E. set (l := trim_right line _).
  destruct (bool_decide (l ∈ _)) eqn:E1; [by eexists _, _|].
  destruct (bool_decide (l = [])) eqn:E2; [apply IH; [lia|done]|].
  destruct (bool_decide (l = go "/reset")) eqn:E3; [apply IH; [lia|constructor]|].
  destruct (bool_decide (l = go "/think on")) eqn:E4; [apply IH; [lia|done]|].
  destruct (bool_decide (l = go "/think off")) eqn:E5; [apply IH; [lia|done]|].
  destruct (Generate_total g (chat_request (history ++ [user_message l]) thinking) Hne)
    as (ds & r & _ & Hg). rewrite Hg. cbn [run_bind].
  destruct r as [res|err]; apply IH; try lia.
  - rewrite <- app_assoc. apply (ex_snoc g history l thinking res); [done| |by rewrite Hg].
    unfold is_command. boolprop. apply bool_decide_eq_false. set_solver.
  - rewrite length_app. cbn [length]. by rewrite Nat.add_sub, take_app_length.
Qed.

Lemma exchanges_roles g history :
  exchanges g history ->
  exists n, Role <$> history = concat (replicate n [go "user"; go "assistant"]).
Proof.
  induction 1 as [|history q th res _ [n IH] _ _]; [by exists 0%nat|]. exists (n + 1)%nat.
  rewrite replicate_add, concat_app, fmap_app, IH. done.
Qed.

(** What a command may leave behind. *)
Definition cleaned_up (os : Os) (w w' : World) : Prop :=
  running w' = running w /\ conns w' = conns w /\
  (w' = w \/ start_leaks os = true /\
            exists file, file ∉ temp_files w /\ temp_files w' = {[file]} ∪ temp_files w).

Lemma Dial_Close new_client w addr :
  let '(w', r) := Dial new_client w addr in match r with Ok (id, _) => Close w' id = w | Err _ => w' = w end.
Proof.
  unfold Dial. destruct (new_client addr); [|done]. unfold Close. destruct w as [fs ps cs]. cbn. f_equal.
  pose proof (is_fresh cs). set_solver.
Qed.

(** What is left of the engine when a signal ends the program. *)
Definition left_by (o : Outside) (m : moment) (w w' : World) : Prop :=
  match m with
  | Loading => w' = w
  | Extracting => w' = half_extracted (system o) w
  | Spawned | Waiting | Conversing _ =>
      exists f, os_CreateTemp (system o) = Ok f /\ w' = spawn (add_file w f) f
  | Stopping => exists f, os_CreateTemp (system o) = Ok f /\ w' = add_file w f
  end.

Definition killed_leaves (o : Outside) (w w' : World) : Prop :=
  exists m, interrupt o = Some m /\ left_by o m w w'.

Lemma Start_world os w modelDir slots maxCtx maxWaiting tokenBudget prefillChunk gpu w' e :
  Start os w modelDir slots maxCtx maxWaiting tokenBudget prefillChunk gpu = (w', Ok e) ->
  os_CreateTemp os = Ok (path e) /\ w' = spawn (add_file w (path e)) (path e).
Proof. unfold Start, freePort. intros H. by repeat (case_match; simplify_eq). Qed.

Lemma reap_spawned w f : f ∉ running w -> reap (spawn (add_file w f) f) f = add_file w f.
Proof. intros H. destruct w. unfold reap, spawn, add_file in *. cbn in *. f_equal. set_solver. Qed.

Lemma stopping_ok {A} o w w1 sup (r : A) :
  os_CreateTemp (system o) = Ok (path sup) -> path sup ∉ running w ->
  w1 = spawn (add_file w (path sup)) (path sup) -> Stop w1 sup = w ->
  exists w' x, stopping o w1 sup r = Ret (w', x) /\
  match x with Some r' => r' = r /\ w' = w | None => killed_leaves o w w' end.
Proof.
  intros Hf Hr -> Hs. unfold stopping, struck. case_bool_decide as Hi; eexists _, _; (split; [done|]).
  - exists Stopping. split; [done|]. exists (path sup). split; [done|]. by apply reap_spawned.
  - by rewrite Hs.
Qed.

Lemma open_ok o w modelDir slots maxCtx maxWaiting tokenBudget prefillChunk gpu t :
  load_tokenizer o modelDir = Ret t -> clock_ok (clock o) ->
  (forall f, os_CreateTemp (system o) = Ok f -> f ∉ temp_files w /\ f ∉ running w) ->
  exists w' r, open o w modelDir slots maxCtx maxWaiting tokenBudget prefillChunk gpu = Ret (w', r) /\
  match r with
  | Some (Ok s) =>
      t = Ok (gtok (s_gen s)) /\ session_stop s w' = w /\ session_stop s (session_stop s w') = w /\
      os_CreateTemp (system o) = Ok (path (s_engine s)) /\
      Close w' (s_conn s) = spawn (add_file w (path (s_engine s))) (path (s_engine s))
  | Some (Err _) => cleaned_up (system o) w w'
  | None => killed_leaves o w w'
  end.
Proof.
  intros Ht Hc Hf. unfold open, struck. rewrite Ht. cbn [run_bind].
  case_bool_decide as H0; [eexists _, _; split; [done|]; by exists Loading|].
  destruct t as [tok|err]; [|eexists _, _; split; [done|]; by split; [|split; [|left]]].
  case_bool_decide as H1; [eexists _, _; split; [done|]; by exists Extracting|].
  pose proof (Start_spec (system o) w modelDir slots maxCtx maxWaiting tokenBudget prefillChunk gpu Hf) as Hs.
  pose proof (Start_world (system o) w modelDir slots maxCtx maxWaiting tokenBudget prefillChunk gpu) as Hw.
  destruct (Start _ _ _ _ _ _ _ _ _) as [w1 [sup|err]].
  2: { eexists _, _. split; [done|]. destruct Hs as (Hrun & Hcon & Hs). split; [done|]. split; [done|].
       destruct (start_leaks _); [right|left]; done. }
  destruct Hs as (_ & _ & Hs1 & Hs2). destruct (Hw _ _ eq_refl) as [Hpath Hw1]. clear Hw.
  case_bool_decide as H2; [eexists _, _; split; [done|]; exists Spawned; split; [done|]; by exists (path sup)|].
  pose proof (Dial_Close (dial o) w1 (Addr sup)) as Hd.
  assert (Hstop : forall r : result error session, exists w' x, stopping o w1 sup r = Ret (w', x) /\
    match x with Some r' => r' = r /\ w' = w | None => killed_leaves o w w' end).
  { intros r. apply stopping_ok; [done|by apply Hf|done..]. }
  assert (Hclean : cleaned_up (system o) w w) by by split; [|split; [|left]].
  destruct (Dial _ _ _) as [w2 [[id conn]|err]].
  2: { subst w2. destruct (Hstop (Err err)) as (w' & x & -> & Hx). exists w', x. split; [done|].
       destruct x as [r|]; [|done]. destruct Hx as [-> ->]. done. }
  case_bool_decide as H3.
  { eexists _, _; split; [done|]; exists Waiting; split; [done|]. exists (path sup). by rewrite Hd. }
  destruct (first_round conn (Some (alive_check o sup)) (clock o) startupTimeout _
    (last_round_decides conn (Some (alive_check o sup)) (clock o) startupTimeout Hc ltac:(done)))
    as (k & r & Hk & Hr & Hj).
  assert (WaitReady conn (Some (alive_check o sup)) (clock o) startupTimeout = Ret r) as ->.
  { apply (wait_loop_first _ _ _ _ _ 0 k); [unfold wait_rounds; lia|done..]. }
  cbn [run_bind]. destruct r as [info|err].
  - eexists _, _; (split; [done|]). unfold session_stop. cbn [s_engine s_conn s_gen gtok NewGenerator].
    rewrite Hd, Hs1. split; [done|]. split; [done|]. split; [|done].
    assert (Close w id = w) as ->; [|exact Hs2].
    rewrite <- Hs1, <- Hd. unfold Close, Stop, remove_file, reap. cbn. f_equal. set_solver.
  - rewrite Hd. destruct (Hstop (Err err)) as (w' & x & -> & Hx). exists w', x. split; [done|].
    destruct x as [r|]; [|done]. destruct Hx as [-> ->]. done.
Qed.

(** What an end of the program leaves: nothing when it exits. *)
Definition leaves (o : Outside) (w w' : World) (status : exit_status) : Prop :=
  match status with Exit _ _ => cleaned_up (system o) w w' | Killed => killed_leaves o w w' end.

(** What the two commands need of the outside. *)
Section commands.
Context (o : Outside) (w : World) (Hclock : clock_ok (clock o)).
Context (Hload : forall dir, exists t, load_tokenizer o dir = Ret t /\ forall tok, t = Ok tok -> specials_nonempty tok).
Context (Hfile : forall file, os_CreateTemp (system o) = Ok file -> file ∉ temp_files w /\ file ∉ running w).

Lemma cleaned_up_refl : cleaned_up (system o) w w.
Proof using Type. by split; [|split; [|left]]. Qed.

(** A signal that serving has not asked for. *)
Definition hung_up (w' : World) (ending : serve_end) : Prop :=
  exists sig, ending = Signalled sig /\ notified sig = false /\ left_by o (Conversing 0) w w'.

Lemma serve_ok f ending :
  exists w' status, serve o w f ending = Ret (w', status) /\
    (leaves o w w' status \/ status = Killed /\ hung_up w' (ending (sf_addr f))).
Proof using All.
  destruct (Hload (sf_model f)) as (t & Ht & _). unfold serve.
  destruct (bool_decide (sf_model f = [])); [eexists _, _; (split; [done|left; exact cleaned_up_refl])|].
  destruct (open_ok o w (sf_model f) (sf_slots f) (sf_maxCtx f) (sf_maxWaiting f) (sf_tokenBudget f)
    (sf_prefillChunk f) (sf_gpuMemFraction f) t Ht Hclock Hfile) as (w' & r & -> & Hr).
  cbn [run_bind]. destruct r as [[s|err]|]; [|eexists _, _; (split; [done|left; exact Hr])..].
  destruct Hr as (_ & H1 & H2 & H3 & H4). destruct (ending _) as [sig|err|err first] eqn:E.
  - destruct (notified sig) eqn:Hsig; eexists _, _; (split; [done|]); [left; rewrite H1; exact cleaned_up_refl|].
    right. split; [done|]. exists sig. split; [done|]. split; [done|]. by eexists.
  - eexists _, _; (split; [done|]). left. rewrite H1. exact cleaned_up_refl.
  - eexists _, _; (split; [done|]). left. rewrite H2. destruct first; apply cleaned_up_refl.
Qed.

Lemma chat_ok f stdin :
  exists w' status out, chat o w f stdin = Ret (w', status, out) /\ leaves o w w' status.
Proof using All.
  destruct (Hload (cf_model f)) as (t & Ht & Hne). unfold chat.
  destruct (bool_decide (cf_model f = [])); [eexists _, _, _; (split; [done|exact cleaned_up_refl])|].
  destruct (open_ok o w (cf_model f) 1 (cf_maxCtx f) 0 1024 512 float_0_9 t Ht Hclock Hfile)
    as (w' & r & -> & Hr).
  cbn [run_bind]. destruct r as [[s|err]|]; [|eexists _, _, _; (split; [done|exact Hr])..].
  destruct Hr as (Htok & H1 & _ & H2 & H3).
  destruct (chat_loop_ok (s_gen s) (length stdin) stdin [] (cf_think f) greeting) as (h & out & E & _);
    [by apply Hne|done|constructor|].
  unfold chat_session. rewrite E. cbn [run_bind].
  destruct (stopping_ok o w (Close w' (s_conn s)) (s_engine s) (Exit 0 None) H2) as (w1 & x & -> & Hx);
    [by apply Hfile|done|exact H1|]. cbn [run_bind].
  assert (Hfin : leaves o w w1 (default Killed x)).
  { destruct x as [r|]; [|done]. destruct Hx as [-> ->]. apply cleaned_up_refl. }
  destruct (interrupt o) as [[]|] eqn:Hi; try by eexists _, _, _.
  destruct (Nat.ltb_spec printed (length out)); [|by eexists _, _, _]. eexists _, _, _. split; [done|].
  exists (Conversing printed). split; [done|]. by eexists.
Qed.

End commands.

(** *** The command line of [serve] *)

(** The texts and the values of all flags, [fraction] being a text of the last. *)
Definition serve_texts (f : serve_flags) (fraction : bytes) : list (bytes * bytes) :=
  [(go "model", sf_model f); (go "addr", sf_addr f); (go "slots", itoa (sf_slots f));
   (go "max-ctx", itoa (sf_maxCtx f)); (go "max-waiting", itoa (sf_maxWaiting f));
   (go "token-budget", itoa (sf_tokenBudget f)); (go "prefill-chunk", itoa (sf_prefillChunk f));
   (go "gpu-mem-fraction", fraction)].

Definition serve_values (f : serve_flags) : list (bytes * value) :=
  [(go "model", VString (sf_model f)); (go "addr", VString (sf_addr f)); (go "slots", VInt (sf_slots f));
   (go "max-ctx", VInt (sf_maxCtx f)); (go "max-waiting", VInt (sf_maxWaiting f));
   (go "token-budget", VInt (sf_tokenBudget f)); (go "prefill-chunk", VInt (sf_prefillChunk f));
   (go "gpu-mem-fraction", VFloat (sf_gpuMemFraction f))].

Definition ints_ok (f : serve_flags) : Prop :=
  Forall (in_int 64) [sf_slots f; sf_maxCtx f; sf_maxWaiting f; sf_tokenBudget f; sf_prefillChunk f].

Lemma serve_names_ok : names_ok serve_FlagSet.
Proof. apply declare_names_ok. vm_compute. reflexivity. Qed.

Lemma serve_no_help : no_help serve_FlagSet.
Proof. split; vm_compute; reflexivity. Qed.

Lemma serve_values_stand f fraction :
  ints_ok f -> ParseFloat fraction = Some (sf_gpuMemFraction f) ->
  Forall2 (stands_for serve_FlagSet) (serve_texts f fraction) (serve_values f).
Proof.
  intros Hi Hx. unfold ints_ok in Hi. rewrite !Forall_cons in Hi. destruct Hi as (H1 & H2 & H3 & H4 & H5 & _).
  repeat constructor; cbn [fst snd]; (eexists; split; [vm_compute; reflexivity|]; split; [reflexivity|]);
    cbn [value_Set]; rewrite ?ParseInt_itoa, ?Hx by done; reflexivity.
Qed.

Lemma serve_settings_of fs f :
  (forall n v, (n, v) ∈ serve_values f -> fs !! n = Some v) -> serve_settings fs = f.
Proof.
  intros H. unfold serve_settings, string_flag, int_flag, float_flag.
  repeat (erewrite H; [|unfold serve_values; rewrite !elem_of_cons; tauto]). by destruct f.
Qed.

Lemma serve_values_names f : NoDup (serve_values f).*1.
Proof. apply (bool_decide_unpack (NoDup (serve_values f).*1)). vm_compute. reflexivity. Qed.

Lemma open_starts_engine o w dir slots maxCtx maxWaiting tokenBudget prefillChunk gpu w' s :
  open o w dir slots maxCtx maxWaiting tokenBudget prefillChunk gpu = Ret (w', Some (Ok s)) ->
  argv (s_engine s) = path (s_engine s) ::
    engine_args dir (Addr (s_engine s)) slots maxCtx maxWaiting tokenBudget prefillChunk gpu.
Proof.
  unfold open, stopping. destruct (load_tokenizer o dir) as [t| |]; try done. cbn [run_bind].
  destruct (struck _ _); [done|]. destruct t as [tok|err]; [|done]. destruct (struck _ _); [done|].
  pose proof (Start_args (system o) w dir slots maxCtx maxWaiting tokenBudget prefillChunk gpu) as Hs.
  destruct (Start _ _ _ _ _ _ _ _ _) as [w1 [e|err]]; [|done]. destruct (struck _ _); [done|].
  destruct (Dial _ _ _) as [w2 [[id conn]|err]]; [|by destruct (struck _ _)]. destruct (struck _ _); [done|].
  destruct (WaitReady _ _ _ _) as [[info|err]| |]; try done; cbn [run_bind]; [|by destruct (struck _ _)].
  by intros [= _ <-].
Qed.

(** ** Properties *)

(** C31: [serve] and its command line. All flags given once, in any order, each spelled
    with one dash or two and its text joined or apart, are read back: [serve] runs with
    exactly these values, and the arguments of the engine it starts are, one by one, the
    options of the engine with these values. With some flags left out or repeated, the
    others keep their defaults and the last text of each wins. A command line that comes to
    [-h] or [-help] after settings only ends the program with 0, and every other one with
    2; nothing is started then. *)
Theorem serve_command_line o w ending :
  (forall f fraction l texts args rest,
     ints_ok f -> ParseFloat fraction = Some (sf_gpuMemFraction f) ->
     texts ≡ₚ serve_texts f fraction -> Forall2 spells l texts -> operands args rest ->
     runServe o w (concat (spell <$> l) ++ args) ending = serve o w f ending) /\
  (forall f w' s,
     open o w (sf_model f) (sf_slots f) (sf_maxCtx f) (sf_maxWaiting f) (sf_tokenBudget f)
       (sf_prefillChunk f) (sf_gpuMemFraction f) = Ret (w', Some (Ok s)) ->
     argv (s_engine s) =
       [path (s_engine s); go "--model"; sf_model f; go "--address"; Addr (s_engine s);
        go "--slots"; itoa (sf_slots f); go "--max-ctx"; itoa (sf_maxCtx f);
        go "--max-waiting"; itoa (sf_maxWaiting f); go "--token-budget"; itoa (sf_tokenBudget f);
        go "--prefill-chunk"; itoa (sf_prefillChunk f);
        go "--gpu-mem-fraction"; format_float 4 (sf_gpuMemFraction f)]) /\
  (forall l fs args rest,
     apply serve_FlagSet l = Some fs -> operands args rest ->
     runServe o w (concat (spell <$> l) ++ args) ending = serve o w (serve_settings fs) ending) /\
  (forall l fs arg more,
     apply serve_FlagSet l = Some fs -> help_flag arg ->
     runServe o w (concat (spell <$> l) ++ arg :: more) ending = Ret (w, Exit 0 None)) /\
  (forall argv,
     (exists l fs args rest, argv = concat (spell <$> l) ++ args /\
        apply serve_FlagSet l = Some fs /\ operands args rest) \/
     (exists l fs arg more, argv = concat (spell <$> l) ++ arg :: more /\
        apply serve_FlagSet l = Some fs /\ help_flag arg) \/
     runServe o w argv ending = Ret (w, Exit 2 None)).
Proof.
  assert (Hrun : forall l fs args rest, apply serve_FlagSet l = Some fs -> operands args rest ->
     runServe o w (concat (spell <$> l) ++ args) ending = serve o w (serve_settings fs) ending).
  { intros l fs args rest Ha Ho. unfold runServe. by rewrite (Parse_spelled _ fs l args rest serve_names_ok Ha Ho). }
  split; [|split; [|split; [done|split]]].
  - intros f fraction l texts args rest Hi Hx Hp Hl Ho.
    destruct (Permutation_Forall2 (Permutation_sym Hp) (serve_values_stand f fraction Hi Hx)) as (vals & Hpv & Hv).
    destruct (apply_once l serve_FlagSet texts vals Hl Hv) as (fs & Ha & Hin & _).
    { rewrite <- Hpv. apply serve_values_names. }
    rewrite (Hrun l fs args rest Ha Ho). f_equal. apply serve_settings_of. intros n v Hnv. apply Hin. by rewrite <- Hpv.
  - intros f w' s H. exact (open_starts_engine _ _ _ _ _ _ _ _ _ _ _ H).
  - intros l fs arg more Ha Hh. unfold runServe. by rewrite (Parse_help _ fs l arg more serve_names_ok serve_no_help Ha Hh).
  - intros argv. unfold runServe. destruct (Parse_inv serve_FlagSet argv) as [[err E]|(fs & rest & l & args & _ & H)].
    + right. rewrite E. cbn [run_bind]. destruct (Parse_refused _ _ _ E) as [(l & fs & arg & more & H)| ->]; [|by right].
      left. by exists l, fs, arg, more.
    + left. by exists l, fs, args, rest.
Qed.

(** C32: the history of an interactive chat only ever holds completed exchanges, each
    answer being the text generated for the history before it: commands, empty lines and
    failed questions leave no trace, [/reset] starts over; and the chat ends with its
    input. *)
Theorem chat_session_history g think stdin :
  specials_nonempty (gtok g) ->
  exists history out, chat_session g think stdin = Ret (history, out) /\ exchanges g history /\
    exists n, Role <$> history = concat (replicate n [go "user"; go "assistant"]).
Proof.
  intros Hne. destruct (chat_loop_ok g (length stdin) stdin [] think greeting Hne) as (h & out & E & Hex);
    [done|constructor|].
  exists h, out. split; [done|]. split; [done|]. by eapply exchanges_roles.
Qed.

(** C17: whatever its command line, and however it goes on - the flags or the model
    directory are wrong, the engine fails to load, the connection or the server fails, or
    the conversation ends - [flashqwen] ends, and when it exits by itself, a SIGINT or
    SIGTERM while serving included, it leaves no engine process, no open connection and no
    extracted binary behind, but for the binary of a [Start] that could not write it or
    make it executable. A signal it has not asked for ends it without a cleanup: any signal
    while the session is opened or in a chat, one other than SIGINT and SIGTERM while
    serving. What that leaves is exactly: nothing before the extraction, the binary during
    it or while the engine is stopped, and the engine process with its binary from the
    spawning of the engine on. *)
Theorem commands_leave_no_engine o w argv ending stdin :
  clock_ok (clock o) ->
  (forall dir, exists t, load_tokenizer o dir = Ret t /\
     forall tok, t = Ok tok -> specials_nonempty tok) ->
  (forall file, os_CreateTemp (system o) = Ok file -> file ∉ temp_files w /\ file ∉ running w) ->
  exists w' status out, flashqwen o w argv ending stdin = Ret (w', status, out) /\
  match status with
  | Exit _ _ => cleaned_up (system o) w w'
  | Killed =>
      (exists m, interrupt o = Some m /\
         match m with
         | Loading => w' = w
         | Extracting => w' = match os_CreateTemp (system o) with Ok f => add_file w f | Err _ => w end
         | Spawned | Waiting | Conversing _ =>
             exists f, os_CreateTemp (system o) = Ok f /\ w' = spawn (add_file w f) f
         | Stopping => exists f, os_CreateTemp (system o) = Ok f /\ w' = add_file w f
         end) \/
      (exists addr sig f, ending addr = Signalled sig /\ sig <> SIGINT /\ sig <> SIGTERM /\
         os_CreateTemp (system o) = Ok f /\ w' = spawn (add_file w f) f)
  end.
Proof.
  intros Hc Ht Hf. unfold flashqwen. destruct (main argv) as [args|args|u code].
  - unfold runServe. destruct (Parse_inv serve_FlagSet args) as [[err ->]|(fs & rest & _ & _ & -> & _)]; cbn [run_bind].
    + eexists _, _, _; (split; [done|]); apply cleaned_up_refl.
    + destruct (serve_ok o w Hc Ht Hf (serve_settings fs) ending) as (w' & status & -> & H). cbn [run_bind].
      exists w', status, []. split; [done|].
      destruct H as [H|(-> & sig & He & Hsig & f & Hf1 & Hf2)]; [destruct status; [done|by left]|].
      right. exists (sf_addr (serve_settings fs)), sig, f. split; [done|]. by destruct sig.
  - unfold runChat. destruct (Parse_inv chat_FlagSet args) as [[err ->]|(fs & rest & _ & _ & -> & _)]; cbn [run_bind].
    + eexists _, _, _; (split; [done|]); apply cleaned_up_refl.
    + destruct (chat_ok o w Hc Ht Hf (chat_settings fs) stdin) as (w' & status & out & -> & H).
      exists w', status, out. split; [done|]. destruct status; [done|by left].
  - eexists _, _, _; (split; [done|]); apply cleaned_up_refl.
Qed.

(** ** Witnesses *)
Lemma chat_session_history_witness :
  (exists history out, chat_session toy_generator false (go "hi\n\n/reset\nhel\n/quit\n") = Ret (history, out) /\
     exchanges toy_generator history /\
     exists n, Role <$> history = concat (replicate n [go "user"; go "assistant"])) /\
  match chat_session toy_generator false (go "hi\n\n/reset\nhel\n/quit\n") with
  | Ret (history, _) => Content <$> history = [go "hel"; x68 :: [xc3; xa9]]
  | _ => False
  end.
Proof.
  split; [|vm_compute; reflexivity].
  apply (chat_session_history toy_generator false (go "hi\n\n/reset\nhel\n/quit\n")).
  exact (proj2 toy_specials_ok).
Defined.

(** An engine that dies while loading its model, if no signal comes first. *)
Definition dying_outside (signal : option moment) : Outside :=
  {| load_tokenizer := fun _ => Ret (Ok toy); config_file := fun _ => None; system := ok_os;
     dial := fun _ => Ok {| cli_GetModel := fun _ => Err (new_error (go "connection refused"));
                            cli_Generate := fun _ => Err (new_error []) |};
     clock := exact_clock;
     engine_at := fun k => if (k <? 2)%nat then (None, [])
                           else (Some (Some (new_error (go "exit status 1"))), [go "no CUDA "; go "device\n"]);
     interrupt := signal |}.

Definition toy_argv : list bytes := [go "flashqwen"; go "serve"; go "--model=toy"; go "-slots"; go "0x20"].

Definition toy_killed_leaves (signal : option moment) (w w' : World) : Prop :=
  (exists m, signal = Some m /\
     match m with
     | Loading => w' = w
     | Extracting => w' = add_file w (go "/tmp/flashqwen-engine-1")
     | Spawned | Waiting | Conversing _ => exists f, os_CreateTemp ok_os = Ok f /\ w' = spawn (add_file w f) f
     | Stopping => exists f, os_CreateTemp ok_os = Ok f /\ w' = add_file w f
     end) \/
  (exists addr sig f, (fun _ : bytes => Signalled SIGTERM) addr = Signalled sig /\ sig <> SIGINT /\ sig <> SIGTERM /\
     os_CreateTemp ok_os = Ok f /\ w' = spawn (add_file w f) f).

(** Without a signal the program ends by itself; one during the load of the model leaves the engine running. *)
Lemma commands_leave_no_engine_witness :
  match flashqwen (dying_outside None) empty_world toy_argv (fun _ => Signalled SIGTERM) [] with
  | Ret (_, Exit code fatal, _) =>
      code = 1%Z /\ fatal = Some (go "serve: engine process exited (exit status 1); engine stderr:\nno CUDA device")
  | _ => False
  end /\
  match flashqwen (dying_outside (Some Waiting)) empty_world toy_argv (fun _ => Signalled SIGTERM) [] with
  | Ret (w', Killed, _) => elements (running w') = [go "/tmp/flashqwen-engine-1"] /\ elements (temp_files w') = elements (running w')
  | _ => False
  end /\
  (forall signal, exists w' status out,
     flashqwen (dying_outside signal) empty_world toy_argv (fun _ => Signalled SIGTERM) [] = Ret (w', status, out) /\
     match status with
     | Exit _ _ => cleaned_up ok_os empty_world w'
     | Killed => toy_killed_leaves signal empty_world w'
     end).
Proof.
  split; [vm_compute; split; reflexivity|]. split; [vm_compute; split; reflexivity|]. intros signal.
  apply (commands_leave_no_engine (dying_outside signal) empty_world toy_argv (fun _ => Signalled SIGTERM) []).
  - split; [vm_compute; discriminate|]. intros k. cbn [clock dying_outside]. unfold exact_clock, poll_period. lia.
  - intros dir. exists (Ok toy). split; [reflexivity|]. intros tok [= <-]. exact (proj2 toy_specials_ok).
  - intros file _. split; apply not_elem_of_empty.
Defined.

Definition toy_flags : serve_flags := Build_serve_flags (go "toy") (go ":80") 16 4096 0 1024 512 float_0_9.

(** The flags in another order and in several spellings. *)
Definition toy_line : list setting :=
  [Build_setting true (go "gpu-mem-fraction") (Joined (go "9e-1"));
   Build_setting true (go "addr") (Spaced (go ":80")); Build_setting false (go "slots") (Joined (go "16"));
   Build_setting false (go "max-ctx") (Spaced (go "4096")); Build_setting true (go "max-waiting") (Joined (go "0"));
   Build_setting true (go "token-budget") (Spaced (go "1024")); Build_setting false (go "prefill-chunk") (Joined (go "512"));
   Build_setting true (go "model") (Spaced (go "toy"))].

Lemma serve_command_line_witness :
  runServe (dying_outside None) empty_world (concat (spell <$> toy_line) ++ []) (fun _ => Signalled SIGTERM) =
    serve (dying_outside None) empty_world toy_flags (fun _ => Signalled SIGTERM) /\
  match runServe (dying_outside None) empty_world [go "-slots"; go "many"] (fun _ => Signalled SIGTERM) with
  | Ret (_, status) => status = Exit 2 None
  | _ => False
  end /\
  match runServe (dying_outside None) empty_world [go "-slots=3"; go "--help=me"; go "-slots=many"] (fun _ => Signalled SIGTERM) with
  | Ret (_, status) => status = Exit 0 None
  | _ => False
  end.
Proof.
  split; [|split; vm_compute; reflexivity].
  apply (proj1 (serve_command_line (dying_outside None) empty_world (fun _ => Signalled SIGTERM)) toy_flags (go "9e-1") toy_line
    ((fun s => (name_of s, match form_of s with Alone => [] | Joined t | Spaced t => t end)) <$> toy_line) [] []).
  - unfold ints_ok. repeat constructor; vm_compute; try discriminate; reflexivity.
  - vm_compute. reflexivity.
  - apply (bool_decide_unpack _). vm_compute. reflexivity.
  - repeat constructor; cbn; tauto.
  - constructor.
Defined.
