(* ===== verification/BlockAllocator.v ===== *)
(** * The block allocator of the engine's paged KV cache

    Models [engine/src/block_allocator.h]: a refcounted free list over block ids, with a
    map from content hashes to blocks. A block whose count drops to 0 joins the free list
    but keeps its hash, so that a later lookup can take it back; allocation pops the front
    of the list and forgets the hash. [pos_], the iterators into the list, is the position
    of a block in [free_lru_]: erasing through [end()] is [Panic], as is indexing out of
    range. [int] and [uint64_t] are [Z]; ids are [nat].

    The invariant [wf] is relative to the list of the blocks that the block tables hold,
    with repetitions; it is a congruence for permutations of that list. *)

From S2P Require Import Prelude GoStrings.
From stdpp Require Import relations.
Local Open Scope go_scope.

Definition kKvBlock : Z := 16.

Record BlockAllocator := {
  ref_cnt_ : list Z;
  blk_hash_ : list Z;
  cached_ : gmap Z nat;
  free_lru_ : list nat;
  num_blocks_ : nat;
}.

Definition New (n : nat) : BlockAllocator :=
  {| ref_cnt_ := replicate n 0%Z; blk_hash_ := replicate n 0%Z; cached_ := ∅;
     free_lru_ := seq 0 n; num_blocks_ := n |}.

Definition NumFree (a : BlockAllocator) : nat := length (free_lru_ a).

Definition BlocksFor (n_tok : Z) : Z := Z.quot (n_tok + kKvBlock - 1) kKvBlock.

(** ** Allocation *)
Definition forget_hash (a : BlockAllocator) (b : nat) (h : Z) : gmap Z nat :=
  if (h =? 0)%Z then cached_ a else
  match cached_ a !! h with
  | Some b' => if (b' =? b)%nat then delete h (cached_ a) else cached_ a
  | None => cached_ a
  end.

Definition AllocOne (a : BlockAllocator) : run (BlockAllocator * option nat) :=
  match free_lru_ a with
  | [] => Ret (a, None)
  | b :: rest =>
      let* h := index_at (blk_hash_ a) b in
      let* _ := index_at (ref_cnt_ a) b in
      Ret ({| ref_cnt_ := <[b := 1%Z]> (ref_cnt_ a); blk_hash_ := <[b := 0%Z]> (blk_hash_ a);
              cached_ := forget_hash a b h; free_lru_ := rest; num_blocks_ := num_blocks_ a |}, Some b)
  end.

Definition set_count (a : BlockAllocator) (b : nat) (c : Z) (free : list nat) : BlockAllocator :=
  {| ref_cnt_ := <[b := c]> (ref_cnt_ a); blk_hash_ := blk_hash_ a; cached_ := cached_ a;
     free_lru_ := free; num_blocks_ := num_blocks_ a |}.

Definition FreeOne (a : BlockAllocator) (b : nat) : run BlockAllocator :=
  let* c := index_at (ref_cnt_ a) b in
  let c := (c - 1)%Z in
  Ret (set_count a b c (if (c =? 0)%Z then free_lru_ a ++ [b] else free_lru_ a)).

Fixpoint FreeMany (a : BlockAllocator) (blocks : list nat) : run BlockAllocator :=
  match blocks with
  | [] => Ret a
  | b :: blocks => let* a := FreeOne a b in FreeMany a blocks
  end.

(** One round per missing block. *)
Fixpoint grow_loop (rounds : nat) (a : BlockAllocator) (table : list nat)
    : run (BlockAllocator * list nat * bool) :=
  match rounds with
  | O => Ret (a, table, true)
  | S k =>
      let* (a, b) := AllocOne a in
      match b with
      | None => Ret (a, table, false)
      | Some b => grow_loop k a (table ++ [b])
      end
  end.

Definition Grow (a : BlockAllocator) (table : list nat) (num_tokens : Z)
    : run (BlockAllocator * list nat * bool) :=
  grow_loop (Z.to_nat (BlocksFor num_tokens - len table)) a table.

Definition Free (a : BlockAllocator) (table : list nat) : run (BlockAllocator * list nat) :=
  let* a := FreeMany a table in Ret (a, []).

(** ** The prefix cache *)
Definition CacheLookup (a : BlockAllocator) (hash : Z) : run (BlockAllocator * option nat) :=
  match cached_ a !! hash with
  | None => Ret (a, None)
  | Some b =>
      let* c := index_at (ref_cnt_ a) b in
      if (c =? 0)%Z then
        if decide (b ∈ free_lru_ a)
        then Ret (set_count a b 1 (filter (fun x => x <> b) (free_lru_ a)), Some b)
        else Panic
      else Ret (set_count a b (c + 1) (free_lru_ a), Some b)
  end.

Definition CacheInsert (a : BlockAllocator) (b : nat) (hash : Z) : run BlockAllocator :=
  let* h := index_at (blk_hash_ a) b in
  if negb (h =? 0)%Z then Ret a else
  match cached_ a !! hash with
  | Some _ => Ret a
  | None => Ret {| ref_cnt_ := ref_cnt_ a; blk_hash_ := <[b := hash]> (blk_hash_ a);
                   cached_ := <[hash := b]> (cached_ a); free_lru_ := free_lru_ a;
                   num_blocks_ := num_blocks_ a |}
  end.

(** ** The invariant *)
Definition count (b : nat) (owned : list nat) : nat := count_occ Nat.eq_dec owned b.
#[global] Arguments count : simpl never.

Record wf (a : BlockAllocator) (owned : list nat) : Prop := {
  wf_refs : ref_cnt_ a = (fun b => Z.of_nat (count b owned)) <$> seq 0 (num_blocks_ a);
  wf_hashes : length (blk_hash_ a) = num_blocks_ a;
  wf_owned : forall b, b ∈ owned -> (b < num_blocks_ a)%nat;
  wf_nodup : NoDup (free_lru_ a);
  wf_free : forall b, b ∈ free_lru_ a <-> (b < num_blocks_ a)%nat /\ b ∉ owned;
  wf_cached : forall h b, cached_ a !! h = Some b <-> blk_hash_ a !! b = Some h /\ h <> 0%Z;
}.

#[export] Instance count_perm b : Proper (Permutation ==> eq) (count b).
Proof. intros l l' H. by apply (Permutation_count_occ Nat.eq_dec). Qed.

#[export] Instance wf_perm : Proper (eq ==> Permutation ==> iff) wf.
Proof.
  assert (forall a l l', l ≡ₚ l' -> wf a l -> wf a l') as H.
  { intros a l l' Hp [H1 H2 H3 H4 H5 H6]. split; [|done| |done| |done].
    - rewrite H1. apply list_fmap_ext. intros i b _. by rewrite Hp.
    - intros b. rewrite <- Hp. apply H3.
    - intros b. rewrite <- Hp. apply H5. }
  intros a ? <- l l' Hp. split; by apply H.
Qed.

Lemma count_elem b owned : b ∈ owned <-> (0 < count b owned)%nat.
Proof. rewrite list_elem_of_In. apply count_occ_In. Qed.

Lemma count_not_elem b owned : b ∉ owned <-> count b owned = 0%nat.
Proof. rewrite count_elem. lia. Qed.

Lemma count_cons b x owned : count b (x :: owned) = ((if decide (x = b) then 1 else 0) + count b owned)%nat.
Proof. unfold count. cbn. destruct (Nat.eq_dec x b), (decide (x = b)); (done || lia). Qed.

Lemma wf_ref a owned b : wf a owned -> (b < num_blocks_ a)%nat ->
  index_at (ref_cnt_ a) b = Ret (Z.of_nat (count b owned)).
Proof.
  intros H Hb. unfold index_at. rewrite (wf_refs _ _ H), list_lookup_fmap, lookup_seq_lt by done. done.
Qed.

(** Changing the count of one block. *)
Lemma counts_insert owned owned' n b :
  (b < n)%nat -> (forall x, x <> b -> count x owned' = count x owned) ->
  <[b := Z.of_nat (count b owned')]> ((fun b => Z.of_nat (count b owned)) <$> seq 0 n)
  = (fun b => Z.of_nat (count b owned')) <$> seq 0 n.
Proof.
  intros Hb H. apply list_eq. intros i. destruct (decide (i = b)) as [->|Hne].
  - rewrite list_lookup_insert_eq by (by rewrite length_fmap, length_seq).
    by rewrite list_lookup_fmap, lookup_seq_lt.
  - rewrite list_lookup_insert_ne by done. rewrite !list_lookup_fmap.
    destruct (decide (i < n)%nat); [|by rewrite lookup_seq_ge by lia].
    rewrite lookup_seq_lt by done. cbn. by rewrite H.
Qed.

(** ** Every operation preserves the invariant *)
Lemma New_wf n : wf (New n) [].
Proof.
  split; cbn.
  - apply list_eq. intros i. rewrite list_lookup_fmap. destruct (decide (i < n)%nat).
    + by rewrite lookup_replicate_2, lookup_seq_lt.
    + rewrite lookup_seq_ge by lia. by rewrite lookup_ge_None_2 by (rewrite length_replicate; lia).
  - apply length_replicate.
  - by intros b ?%not_elem_of_nil.
  - apply NoDup_seq.
  - intros b. rewrite elem_of_seq. split; [intros H; split; [lia|apply not_elem_of_nil]|lia].
  - intros h b. split; [done|]. intros [H%lookup_replicate Hh]. tauto.
Qed.

(** The map after a block's hash is forgotten. *)
Lemma forget_hash_ok a owned b h :
  wf a owned -> blk_hash_ a !! b = Some h ->
  forall h' b', forget_hash a b h !! h' = Some b' <-> <[b := 0%Z]> (blk_hash_ a) !! b' = Some h' /\ h' <> 0%Z.
Proof.
  intros H Hb h' b'. pose proof (wf_cached _ _ H) as Hc.
  assert (Hlt : (b < length (blk_hash_ a))%nat) by by eapply lookup_lt_Some.
  rewrite list_lookup_insert_Some. unfold forget_hash.
  destruct (Z.eqb_spec h 0) as [->|Hh].
  - rewrite Hc. destruct (decide (b = b')) as [<-|]; [|naive_solver].
    rewrite Hb. naive_solver.
  - rewrite (proj2 (Hc h b)) by done. rewrite Nat.eqb_refl.
    rewrite lookup_delete_Some, Hc. destruct (decide (b = b')) as [<-|]; [rewrite Hb; naive_solver|].
    split; [naive_solver|]. intros [[|[_ Hb']] Hh']; [naive_solver|]. split; [|done].
    intros <-. assert (cached_ a !! h = Some b' /\ cached_ a !! h = Some b) as [E1 E2]; [|congruence].
    by split; apply Hc.
Qed.

Lemma AllocOne_ok a owned :
  wf a owned ->
  (free_lru_ a = [] /\ AllocOne a = Ret (a, None)) \/
  exists b a', AllocOne a = Ret (a', Some b) /\ free_lru_ a = b :: free_lru_ a' /\
    wf a' (b :: owned) /\ b ∉ owned /\ num_blocks_ a' = num_blocks_ a.
Proof.
  intros H. unfold AllocOne. destruct (free_lru_ a) as [|b rest] eqn:Ef; [by left|right].
  assert (b ∈ free_lru_ a) as [Hb Hno]%(wf_free _ _ H) by (rewrite Ef; by left).
  pose proof (wf_hashes _ _ H) as Hl. pose proof (wf_nodup _ _ H) as Hnd. rewrite Ef in Hnd.
  apply NoDup_cons in Hnd as [Hbr Hnd].
  destruct (lookup_lt_is_Some_2 (blk_hash_ a) b) as [h Hh]; [lia|].
  unfold index_at at 1. rewrite Hh, (wf_ref _ _ _ H Hb). cbn [run_bind].
  eexists b, _. split; [done|]. cbn. split; [done|]. split; [|done]. split; cbn.
  - rewrite (wf_refs _ _ H). replace 1%Z with (Z.of_nat (count b (b :: owned))).
    + apply counts_insert; [done|]. intros x Hx. rewrite count_cons. by rewrite decide_False.
    + rewrite count_cons, decide_True by done. apply count_not_elem in Hno. by rewrite Hno.
  - by rewrite length_insert.
  - intros x [-> | Hx]%elem_of_cons; [done|by apply (wf_owned _ _ H)].
  - done.
  - intros x. rewrite not_elem_of_cons. pose proof (wf_free _ _ H x) as Hx. rewrite Ef, elem_of_cons in Hx.
    split; [intros Hin; split_and!; [tauto|by intros ->|tauto]|tauto].
  - by apply (forget_hash_ok a owned b h).
Qed.

Lemma FreeOne_ok a b owned :
  wf a (b :: owned) ->
  exists a', FreeOne a b = Ret a' /\ wf a' owned /\ num_blocks_ a' = num_blocks_ a /\
    free_lru_ a' = free_lru_ a ++ (if decide (b ∈ owned) then [] else [b]).
Proof.
  intros H. assert (Hb : (b < num_blocks_ a)%nat) by (apply (wf_owned _ _ H); by left).
  unfold FreeOne. rewrite (wf_ref _ _ _ H Hb). cbn [run_bind].
  rewrite count_cons, decide_True by done.
  replace (Z.of_nat (1 + count b owned) - 1)%Z with (Z.of_nat (count b owned)) by lia.
  eexists. split; [done|]. split; [|split; [done|]].
  2: { cbn. case_decide as E.
       - apply count_elem in E. rewrite (proj2 (Z.eqb_neq _ _)) by lia. by rewrite app_nil_r.
       - apply count_not_elem in E. by rewrite E. }
  assert (Hfree : forall x, x ∈ free_lru_ a <-> (x < num_blocks_ a)%nat /\ x <> b /\ x ∉ owned).
  { intros x. by rewrite (wf_free _ _ H), not_elem_of_cons. }
  split; cbn; [|apply (wf_hashes _ _ H)| | | |apply (wf_cached _ _ H)].
  - rewrite (wf_refs _ _ H). apply counts_insert; [done|].
    intros x Hx. rewrite count_cons. by rewrite decide_False.
  - intros x Hx. apply (wf_owned _ _ H). by right.
  - case_match; [|apply (wf_nodup _ _ H)]. apply NoDup_app. split_and!; [apply (wf_nodup _ _ H)| |apply NoDup_singleton].
    intros x Hx%Hfree. rewrite list_elem_of_singleton. tauto.
  - intros x. destruct (Z.eqb_spec (Z.of_nat (count b owned)) 0) as [E|E].
    + assert (b ∉ owned) by (apply count_not_elem; lia). rewrite elem_of_app, list_elem_of_singleton, Hfree.
      destruct (decide (x = b)) as [->|]; tauto.
    + assert (b ∈ owned) by (apply count_elem; lia). rewrite Hfree.
      destruct (decide (x = b)) as [->|]; tauto.
Qed.

Lemma FreeMany_ok a blocks owned :
  wf a (blocks ++ owned) ->
  exists a', FreeMany a blocks = Ret a' /\ wf a' owned /\ num_blocks_ a' = num_blocks_ a.
Proof.
  revert a. induction blocks as [|b blocks IH]; intros a H; [by exists a|].
  cbn [FreeMany app] in *. destruct (FreeOne_ok a b (blocks ++ owned) H) as (a1 & -> & H1 & N1 & _).
  cbn [run_bind]. destruct (IH a1 H1) as (a2 & -> & H2 & N2). exists a2. by rewrite N2.
Qed.

Lemma grow_loop_ok k a table owned :
  wf a (table ++ owned) ->
  exists a' new ok, grow_loop k a table = Ret (a', table ++ new, ok) /\
    wf a' ((table ++ new) ++ owned) /\ free_lru_ a = new ++ free_lru_ a' /\
    num_blocks_ a' = num_blocks_ a /\
    (if ok then length new = k else free_lru_ a' = [] /\ (length new < k)%nat).
Proof.
  revert a table. induction k as [|k IH]; intros a table H; cbn [grow_loop].
  { exists a, [], true. by rewrite app_nil_r. }
  destruct (AllocOne_ok a (table ++ owned) H) as [[Hf ->]|(b & a1 & -> & Hf & H1 & Hb & N1)]; cbn [run_bind].
  { exists a, [], false. rewrite app_nil_r. split_and!; [done..|cbn; lia]. }
  assert (wf a1 ((table ++ [b]) ++ owned)) as H1'.
  { rewrite (Permutation_app_comm table [b]), <- app_assoc. exact H1. }
  destruct (IH a1 (table ++ [b]) H1') as (a2 & new & ok & -> & H2 & F2 & N2 & Hk).
  exists a2, (b :: new), ok. assert (table ++ b :: new = (table ++ [b]) ++ new) as -> by by rewrite <- app_assoc.
  split_and!; [done|done|by rewrite Hf, F2|by rewrite N2|].
  destruct ok; cbn; [lia|]. destruct Hk. split; [done|lia].
Qed.

Lemma BlocksFor_spec n : (0 <= n)%Z -> (n <= kKvBlock * BlocksFor n < n + kKvBlock)%Z.
Proof.
  intros Hn. unfold BlocksFor, kKvBlock. rewrite Z.quot_div_nonneg by lia.
  pose proof (Z.div_mod (n + 16 - 1) 16 ltac:(lia)). pose proof (Z.mod_pos_bound (n + 16 - 1) 16 ltac:(lia)). lia.
Qed.

(** What the table gains are the first free blocks; all of them if the pool runs dry. *)
Lemma Grow_ok a table owned n :
  wf a (table ++ owned) ->
  exists a' new ok, Grow a table n = Ret (a', table ++ new, ok) /\
    wf a' ((table ++ new) ++ owned) /\ free_lru_ a = new ++ free_lru_ a' /\
    num_blocks_ a' = num_blocks_ a /\
    (if ok then (len (table ++ new) = Z.max (len table) (BlocksFor n))%Z
     else free_lru_ a' = [] /\ (len (table ++ new) < BlocksFor n)%Z).
Proof.
  intros H. unfold Grow.
  destruct (grow_loop_ok (Z.to_nat (BlocksFor n - len table)) a table owned H)
    as (a' & new & ok & E & H' & F & N & Hok).
  exists a', new, ok. split_and!; [done..|]. unfold len in *. rewrite length_app.
  destruct ok; [lia|]. destruct Hok. split; [done|lia].
Qed.

Lemma filter_absent (b : nat) (l : list nat) : b ∉ l -> filter (fun x => x <> b) l = l.
Proof.
  induction l as [|x l IH]; [done|]. intros [Hx Hl]%not_elem_of_cons.
  rewrite filter_cons_True by congruence. by rewrite IH.
Qed.

Lemma CacheLookup_ok a owned hash :
  wf a owned ->
  (cached_ a !! hash = None /\ CacheLookup a hash = Ret (a, None)) \/
  exists b a', CacheLookup a hash = Ret (a', Some b) /\ cached_ a !! hash = Some b /\
    blk_hash_ a !! b = Some hash /\ wf a' (b :: owned) /\ num_blocks_ a' = num_blocks_ a /\
    blk_hash_ a' = blk_hash_ a /\ free_lru_ a' = filter (fun x => x <> b) (free_lru_ a).
Proof.
  intros H. unfold CacheLookup. destruct (cached_ a !! hash) as [b|] eqn:Ec; [right|by left].
  apply (wf_cached _ _ H) in Ec as Eh. destruct Eh as [Eh Hn].
  assert (Hb : (b < num_blocks_ a)%nat) by (rewrite <- (wf_hashes _ _ H); by eapply lookup_lt_Some).
  rewrite (wf_ref _ _ _ H Hb). cbn [run_bind].
  assert (Hset : wf (set_count a b (Z.of_nat (count b (b :: owned))) (filter (fun x => x <> b) (free_lru_ a))) (b :: owned)).
  { split; cbn; [|apply (wf_hashes _ _ H)| | | |apply (wf_cached _ _ H)].
    - rewrite (wf_refs _ _ H). apply counts_insert; [done|].
      intros x Hx. rewrite count_cons. by rewrite decide_False.
    - intros x [-> | Hx]%elem_of_cons; [done|by apply (wf_owned _ _ H)].
    - apply NoDup_filter, (wf_nodup _ _ H).
    - intros x. rewrite list_elem_of_filter, (wf_free _ _ H), not_elem_of_cons. tauto. }
  rewrite count_cons, decide_True in Hset by done.
  destruct (Z.eqb_spec (Z.of_nat (count b owned)) 0) as [E|E].
  - assert (b ∈ free_lru_ a) by (apply (wf_free _ _ H); split; [done|]; apply count_not_elem; lia).
    rewrite decide_True by done. eexists b, _. split; [done|]. split_and!; [done|done| |done..].
    by replace 1%Z with (Z.of_nat (1 + count b owned)) by lia.
  - assert (b ∉ free_lru_ a) as H1 by (rewrite (wf_free _ _ H); intros [_ Hno%count_not_elem]; lia).
    assert (filter (fun x => x <> b) (free_lru_ a) = free_lru_ a) as Hfilter.
    { by apply filter_absent. }
    rewrite Hfilter in Hset. eexists b, _. split; [done|]. split_and!; [done|done| |done..|by rewrite Hfilter].
    by replace (Z.of_nat (count b owned) + 1)%Z with (Z.of_nat (1 + count b owned)) by lia.
Qed.

Lemma CacheInsert_ok a owned b hash :
  wf a owned -> (b < num_blocks_ a)%nat -> hash <> 0%Z ->
  exists a', CacheInsert a b hash = Ret a' /\ wf a' owned /\ num_blocks_ a' = num_blocks_ a /\
    free_lru_ a' = free_lru_ a.
Proof.
  intros H Hb Hh. unfold CacheInsert, index_at.
  destruct (lookup_lt_is_Some_2 (blk_hash_ a) b) as [h Eh]; [by rewrite (wf_hashes _ _ H)|].
  rewrite Eh. cbn [run_bind]. destruct (Z.eqb_spec h 0) as [->|]; [|by exists a]. cbn [negb].
  destruct (cached_ a !! hash) as [|] eqn:Ec; [by exists a|]. eexists. split; [done|].
  split; [|done]. destruct H as [H1 H2 H3 H4 H5 H6]. split; cbn; [done|by rewrite length_insert|done..|].
  intros h' b'. rewrite lookup_insert_Some, list_lookup_insert_Some, H6.
  assert (blk_hash_ a !! b <> Some h' \/ h' = 0%Z) by (rewrite Eh; destruct (decide (h' = 0)%Z); [by right|left; congruence]).
  assert (b < length (blk_hash_ a))%nat by by rewrite H2.
  assert (forall b', ~ (blk_hash_ a !! b' = Some hash /\ hash <> 0%Z)).
  { intros b'' Hb''%H6. congruence. }
  destruct (decide (b = b')) as [<-|]; naive_solver.
Qed.

(** ** Any sequence of operations on the tables of a set of sequences *)
Inductive alloc_step : BlockAllocator * list (list nat) -> BlockAllocator * list (list nat) -> Prop :=
  | step_grow a pre tbl post n a' tbl' ok :
      Grow a tbl n = Ret (a', tbl', ok) -> alloc_step (a, pre ++ tbl :: post) (a', pre ++ tbl' :: post)
  | step_free a pre tbl post a' tbl' :
      Free a tbl = Ret (a', tbl') -> alloc_step (a, pre ++ tbl :: post) (a', pre ++ tbl' :: post)
  | step_hit a pre tbl post hash a' b :
      CacheLookup a hash = Ret (a', Some b) ->
      alloc_step (a, pre ++ tbl :: post) (a', pre ++ (tbl ++ [b]) :: post)
  | step_insert a tables b hash a' :
      b ∈ concat tables -> hash <> 0%Z -> CacheInsert a b hash = Ret a' -> alloc_step (a, tables) (a', tables).

(** One table among the others. *)
Lemma concat_middle (pre post : list (list nat)) tbl :
  concat (pre ++ tbl :: post) ≡ₚ tbl ++ concat pre ++ concat post.
Proof. rewrite concat_app. cbn [concat]. rewrite !app_assoc. by rewrite (Permutation_app_comm tbl). Qed.

Lemma alloc_step_wf s s' : alloc_step s s' ->
  wf s.1 (concat s.2) -> wf s'.1 (concat s'.2) /\ num_blocks_ s'.1 = num_blocks_ s.1.
Proof.
  intros [a pre tbl post n a' tbl' ok E|a pre tbl post a' tbl' E|a pre tbl post hash a' b E
         |a tables b hash a' Hb Hh E]; cbn [fst snd]; rewrite ?concat_middle; intros H.
  - destruct (Grow_ok a tbl _ n H) as (a1 & new & ok1 & E1 & H1 & _ & N & _).
    rewrite E1 in E. by injection E as <- <- <-.
  - destruct (FreeMany_ok a tbl _ H) as (a1 & E1 & H1 & N). unfold Free in E. rewrite E1 in E.
    cbn in E. by injection E as <- <-.
  - destruct (CacheLookup_ok a _ hash H) as [[_ E1]|(b1 & a1 & E1 & _ & _ & H1 & N & _)]; rewrite E1 in E; [done|].
    injection E as <- <-. split; [|done]. by rewrite (Permutation_app_comm tbl [b1]).
  - destruct (CacheInsert_ok a _ b hash H) as (a1 & E1 & H1 & N & _); [by apply (wf_owned _ _ H)|done|].
    rewrite E1 in E. by injection E as <-.
Qed.

Lemma alloc_steps_wf s s' : rtc alloc_step s s' ->
  wf s.1 (concat s.2) -> wf s'.1 (concat s'.2) /\ num_blocks_ s'.1 = num_blocks_ s.1.
Proof.
  induction 1 as [x|x y z Hs _ IH]; [done|]. intros H. apply alloc_step_wf in Hs as [Hy Ny]; [|done].
  rewrite <- Ny. by apply IH.
Qed.

Lemma alloc_reachable_wf n k s :
  rtc alloc_step (New n, replicate k []) s -> wf s.1 (concat s.2) /\ num_blocks_ s.1 = n.
Proof.
  intros Hr. apply alloc_steps_wf in Hr; [done|]. cbn [fst snd].
  replace (concat (replicate k [])) with (@nil nat); [apply New_wf|]. clear. by induction k as [|k IH].
Qed.

(** Free and held blocks partition the pool. *)
Lemma wf_partition a owned : wf a owned -> free_lru_ a ++ remove_dups owned ≡ₚ seq 0 (num_blocks_ a).
Proof.
  intros H. apply NoDup_Permutation; [|apply NoDup_seq|].
  - apply NoDup_app. split_and!; [apply (wf_nodup _ _ H)| |apply NoDup_remove_dups].
    intros b Hb%(wf_free _ _ H). rewrite elem_of_remove_dups. tauto.
  - intros b. rewrite elem_of_app, elem_of_remove_dups, elem_of_seq, (wf_free _ _ H).
    split; [intros [|Hb]; [lia|apply (wf_owned _ _ H) in Hb; lia]|]. intros Hb.
    destruct (decide (b ∈ owned)); [by right|left; split; [lia|done]].
Qed.

(** C33: in every state reachable by growing, freeing, sharing and caching, no block is both
    free and in a table, counts are the numbers of occurrences in the tables, free and held
    blocks add up to the pool and a block is cached under one hash at most; and no operation
    fails: growing hands out blocks nobody holds and stops short only when every block is
    held, freeing empties the table, and a lookup returns a block recorded for the hash. *)
Theorem allocator_safe n k a tables :
  rtc alloc_step (New n, replicate k []) (a, tables) ->
  let owned := concat tables in
  (NoDup (free_lru_ a) /\ forall b, b ∈ free_lru_ a <-> (b < n)%nat /\ b ∉ owned) /\
  (forall b, (b < n)%nat -> ref_cnt_ a !! b = Some (Z.of_nat (count b owned))) /\
  (NumFree a + length (remove_dups owned) = n)%nat /\
  (forall h h' b, cached_ a !! h = Some b -> cached_ a !! h' = Some b -> h = h') /\
  (forall tbl m, tbl ∈ tables ->
     exists a' new ok, Grow a tbl m = Ret (a', tbl ++ new, ok) /\ NoDup new /\
       (forall b, b ∈ new -> (b < n)%nat /\ b ∉ owned) /\
       if ok then len (tbl ++ new) = Z.max (len tbl) (BlocksFor m)
       else forall b, (b < n)%nat -> b ∈ owned \/ b ∈ new) /\
  (forall tbl, tbl ∈ tables -> exists a', Free a tbl = Ret (a', [])) /\
  (forall h, exists a' r, CacheLookup a h = Ret (a', r) /\
     match r with Some b => blk_hash_ a !! b = Some h | None => forall b, h <> 0%Z -> blk_hash_ a !! b <> Some h end).
Proof.
  intros Hr owned. apply alloc_reachable_wf in Hr as [H <-]. cbn [fst snd] in H. fold owned in H.
  assert (Hsplit : forall tbl, tbl ∈ tables -> exists rest, owned ≡ₚ tbl ++ rest).
  { intros tbl (pre & post & ->)%list_elem_of_split. eexists. apply concat_middle. }
  split_and!.
  - apply (wf_nodup _ _ H).
  - apply (wf_free _ _ H).
  - intros b Hb. rewrite (wf_refs _ _ H), list_lookup_fmap, lookup_seq_lt by done. done.
  - pose proof (Permutation_length (wf_partition _ _ H)) as E. by rewrite length_app, length_seq in E.
  - intros h h' b [E1 _]%(wf_cached _ _ H) [E2 _]%(wf_cached _ _ H). congruence.
  - intros tbl m (rest & Hp)%Hsplit. rewrite Hp in H.
    destruct (Grow_ok a tbl rest m H) as (a' & new & ok & E & H' & F & N & Hok).
    pose proof (wf_nodup _ _ H) as Hnd. rewrite F in Hnd. apply NoDup_app in Hnd as [Hnd _].
    exists a', new, ok. split_and!; [done|done| |].
    + intros b Hb. rewrite Hp. apply (wf_free _ _ H). rewrite F. apply elem_of_app. by left.
    + destruct ok; [done|]. destruct Hok as [Hnil _]. intros b Hb. rewrite Hp.
      destruct (decide (b ∈ tbl ++ rest)) as [|Hno]; [by left|right].
      rewrite Hnil, app_nil_r in F. rewrite <- F. by apply (wf_free _ _ H).
  - intros tbl (rest & Hp)%Hsplit. rewrite Hp in H.
    destruct (FreeMany_ok a tbl rest H) as (a' & E & _). exists a'. unfold Free. by rewrite E.
  - intros h. destruct (CacheLookup_ok a owned h H) as [[Ec E]|(b & a' & E & _ & Eh & _)]; eexists _, _.
    + split; [exact E|]. intros b Hh Hb. assert (cached_ a !! h = Some b); [|congruence]. by apply (wf_cached _ _ H).
    + split; [exact E|done].
Qed.

(** Two sequences that share a cached block. *)
Lemma allocator_safe_witness :
  exists a, rtc alloc_step (New 3, [[]; []]) (a, [[0]; [0]]) /\
    (NumFree a + length (remove_dups (concat [[0]; [0]])) = 3)%nat /\ ref_cnt_ a !! 0%nat = Some 2%Z.
Proof.
  set (a1 := match Grow (New 3) [] 16 with Ret (a, _, _) => a | _ => New 0 end).
  set (a2 := match CacheInsert a1 0 77 with Ret a => a | _ => New 0 end).
  set (a3 := match CacheLookup a2 77 with Ret (a, _) => a | _ => New 0 end).
  assert (rtc alloc_step (New 3, replicate 2 []) (a3, [[0]; [0]])) as Hr.
  { eapply rtc_l; [apply (step_grow _ [] [] [[]] 16 a1 [0] true); vm_compute; reflexivity|].
    eapply rtc_l; [apply (step_insert a1 [[0]; []] 0 77 a2); [by left|done|vm_compute; reflexivity]|].
    eapply rtc_l; [apply (step_hit a2 [[0]] [] [] 77 a3 0); vm_compute; reflexivity|]. apply rtc_refl. }
  exists a3. split; [exact Hr|].
  destruct (allocator_safe 3 2 a3 [[0]; [0]] Hr) as (_ & H1 & H2 & _). split; [exact H2|].
  rewrite (H1 0%nat) by lia. reflexivity.
Defined.
