(* ===== verification/KvTables.v ===== *)
(** * Block tables and the tokens computed in them

    A sequence writes the keys and values of its next tokens into the blocks of its table
    from the cursor of computed tokens on; the blocks before the cursor may be shared and
    cached. [kv_wf] is the invariant of the allocator ([BlockAllocator.wf]) with this
    promise: a block at or past the cursor occurs once in all tables and is not in the
    prefix cache. Every operation of the allocator keeps it, as the scheduler uses them. *)

From S2P Require Import Prelude GoStrings BlockAllocator.
Local Open Scope go_scope.

(** A table with the number of its computed tokens. *)
Abbreviation holding := (list nat * Z)%type.

Definition owned (held : list holding) : list nat := concat held.*1.

(** The block at index [k] is yet to be written, or to be completed. *)
Definition open_at (c : Z) (k : nat) : Prop := (c < kKvBlock * (Z.of_nat k + 1))%Z.

Definition exclusive (a : BlockAllocator) (held : list holding) (b : nat) : Prop :=
  count b (owned held) = 1%nat /\ blk_hash_ a !! b = Some 0%Z.

Record kv_wf (a : BlockAllocator) (held : list holding) : Prop := {
  kv_alloc : wf a (owned held);
  kv_open : forall t c k b, (t, c) ∈ held -> t !! k = Some b -> open_at c k -> exclusive a held b;
}.

#[export] Instance owned_perm : Proper (Permutation ==> Permutation) owned.
Proof. intros l l' H. unfold owned. by rewrite H. Qed.

#[export] Instance kv_wf_perm a : Proper (Permutation ==> iff) (kv_wf a).
Proof.
  assert (forall l l', l ≡ₚ l' -> kv_wf a l -> kv_wf a l') as H.
  { intros l l' Hp [H1 H2]. split; [by rewrite <- Hp|]. intros t c k b. unfold exclusive. rewrite <- Hp. apply H2. }
  intros l l' Hp. split; by apply H.
Qed.

Lemma owned_cons t c held : owned ((t, c) :: held) = t ++ owned held.
Proof. done. Qed.

Lemma count_app b l l' : count b (l ++ l') = (count b l + count b l')%nat.
Proof. unfold count. apply count_occ_app. Qed.

Lemma owned_elem held t c k b : (t, c) ∈ held -> t !! k = Some b -> b ∈ owned held.
Proof.
  intros Ht Hb. unfold owned. rewrite list_elem_of_In, in_concat. exists t.
  split; apply list_elem_of_In; [by apply (list_elem_of_fmap_2 fst) in Ht|by eapply list_elem_of_lookup_2].
Qed.

Lemma count_two b l i j : l !! i = Some b -> l !! j = Some b -> i <> j -> (2 <= count b l)%nat.
Proof.
  assert (forall i j, (i < j)%nat -> l !! i = Some b -> l !! j = Some b -> (2 <= count b l)%nat) as H.
  { clear. intros i j Hij Hi Hj. rewrite <- (take_drop j l), count_app.
    assert (0 < count b (take j l))%nat by (apply count_elem; eapply (list_elem_of_lookup_2 _ i); by rewrite lookup_take_lt).
    assert (0 < count b (drop j l))%nat; [|lia].
    apply count_elem. eapply (list_elem_of_lookup_2 _ 0). by rewrite lookup_drop, Nat.add_0_r. }
  intros Hi Hj Hne. destruct (decide (i < j)%nat); [by eapply H|]. eapply (H j i); [lia|done..].
Qed.

(** Nothing about the table itself changes for the others. *)
Lemma kv_wf_advance a t c c' held : (c <= c')%Z -> kv_wf a ((t, c) :: held) -> kv_wf a ((t, c') :: held).
Proof.
  intros Hc [H1 H2]. split; [exact H1|]. intros t1 c1 k b [[= -> ->] | Ht]%elem_of_cons Hb Ho.
  - apply (H2 t c k b); [by left|done|]. unfold open_at in *. lia.
  - apply (H2 t1 c1 k b); [by right|done..].
Qed.

Lemma kv_wf_nil n : kv_wf (New n) [].
Proof. split; [apply New_wf|]. by intros t c k b ?%not_elem_of_nil. Qed.

(** ** Freeing *)
Lemma FreeOne_hash a b a' : FreeOne a b = Ret a' -> blk_hash_ a' = blk_hash_ a.
Proof. unfold FreeOne. destruct (index_at _ _); [|done..]. by intros [= <-]. Qed.

Lemma FreeMany_hash bs : forall a a', FreeMany a bs = Ret a' -> blk_hash_ a' = blk_hash_ a.
Proof.
  induction bs as [|b bs IH]; intros a a'; cbn [FreeMany]; [by intros [= <-]|].
  destruct (FreeOne a b) as [a1| |] eqn:E; [|done..]. cbn [run_bind]. intros ->%IH. by eapply FreeOne_hash.
Qed.

Lemma kv_free a t c held :
  kv_wf a ((t, c) :: held) ->
  exists a', FreeMany a t = Ret a' /\ kv_wf a' held /\ num_blocks_ a' = num_blocks_ a.
Proof.
  intros [H1 H2]. rewrite owned_cons in H1. destruct (FreeMany_ok a t (owned held) H1) as (a' & E & Hwf & Hn).
  exists a'. split; [done|]. split; [|done]. split; [done|]. intros t1 c1 k b Ht Hb Ho.
  destruct (H2 t1 c1 k b ltac:(by right) Hb Ho) as [Hc Hh]. rewrite owned_cons, count_app in Hc.
  split; [|by rewrite (FreeMany_hash _ _ _ E)].
  pose proof (owned_elem held t1 c1 k b Ht Hb) as Hin. apply count_elem in Hin. lia.
Qed.

(** ** Growing *)
Lemma grow_loop_hash k : forall a table a' new ok,
  grow_loop k a table = Ret (a', table ++ new, ok) ->
  forall b, blk_hash_ a' !! b = if decide (b ∈ new /\ (b < length (blk_hash_ a))%nat) then Some 0%Z else blk_hash_ a !! b.
Proof.
  induction k as [|k IH]; intros a table a' new ok; cbn [grow_loop].
  { intros [= <- E _] b. rewrite <- (app_nil_r table) in E at 1. apply app_inv_head in E as <-.
    rewrite decide_False; [done|]. by intros [?%not_elem_of_nil _]. }
  destruct (AllocOne a) as [[a1 [x|]]| |] eqn:Ea; cbn [run_bind]; [|intros [= <- E _] b|done..].
  2: { rewrite <- (app_nil_r table) in E at 1. apply app_inv_head in E as <-.
       assert (a1 = a) as -> by (unfold AllocOne in Ea; destruct (free_lru_ a); [by injection Ea|];
         destruct (index_at (blk_hash_ a) n); [|done..]; cbn in Ea; by destruct (index_at (ref_cnt_ a) n)).
       rewrite decide_False; [done|]. by intros [?%not_elem_of_nil _]. }
  intros E b. assert (exists new', new = x :: new') as [new' ->].
  { clear - E. assert (forall k a t a' t' ok, grow_loop k a t = Ret (a', t', ok) -> exists l, t' = t ++ l) as H.
    { clear. induction k as [|k IH]; intros a t a' t' ok; cbn [grow_loop].
      - intros [= _ <- _]. exists []. by rewrite app_nil_r.
      - destruct (AllocOne a) as [[a1 [y|]]| |]; cbn [run_bind]; [intros H|intros [= _ <- _]|done..].
        + apply IH in H as [l ->]. exists (y :: l). by rewrite <- app_assoc.
        + exists []. by rewrite app_nil_r. }
    apply H in E as [l E]. rewrite <- app_assoc in E. apply app_inv_head in E. by exists l. }
  replace (table ++ x :: new') with ((table ++ [x]) ++ new') in E by by rewrite <- app_assoc.
  rewrite (IH _ _ _ _ _ E b). assert (blk_hash_ a1 = <[x := 0%Z]> (blk_hash_ a)) as ->.
  { unfold AllocOne in Ea. destruct (free_lru_ a); [done|]. destruct (index_at (blk_hash_ a) n); [|done..]. cbn in Ea.
    destruct (index_at (ref_cnt_ a) n); [|done..]. cbn in Ea. by injection Ea as <- <-. }
  rewrite length_insert. destruct (decide (b = x)) as [->|Hne].
  - destruct (decide (x < length (blk_hash_ a))%nat) as [Hx|Hx].
    + rewrite list_lookup_insert_eq by done. rewrite (decide_True (P := x ∈ x :: new' /\ _)) by (split; [by left|done]).
      by case_decide.
    + rewrite list_insert_ge by lia. rewrite !decide_False by (intros [_ ?]; done). done.
  - rewrite list_lookup_insert_ne by done. apply decide_ext. rewrite elem_of_cons. naive_solver.
Qed.

Lemma kv_grow a t c n held :
  kv_wf a ((t, c) :: held) ->
  exists a' new ok, Grow a t n = Ret (a', t ++ new, ok) /\ kv_wf a' ((t ++ new, c) :: held) /\
    free_lru_ a = new ++ free_lru_ a' /\ num_blocks_ a' = num_blocks_ a /\
    (if ok then len (t ++ new) = Z.max (len t) (BlocksFor n)
     else free_lru_ a' = [] /\ (len (t ++ new) < BlocksFor n)%Z).
Proof.
  intros [H1 H2]. rewrite owned_cons in H1. destruct (Grow_ok a t (owned held) n H1) as (a' & new & ok & E & Hwf & Hf & Hn & Hok).
  exists a', new, ok. split; [done|]. split; [|done].
  pose proof (wf_nodup _ _ H1) as Hnd. rewrite Hf in Hnd. apply NoDup_app in Hnd as [Hnd _].
  assert (Hnew : forall b, b ∈ new -> count b (t ++ owned held) = 0%nat /\ (b < length (blk_hash_ a))%nat).
  { intros b Hb. assert (b ∈ free_lru_ a) as [Hlt Hno]%(wf_free _ _ H1) by (rewrite Hf; apply elem_of_app; by left).
    split; [by apply count_not_elem|]. by rewrite (wf_hashes _ _ H1). }
  pose proof (grow_loop_hash _ _ _ _ _ _ E) as Hhash.
  assert (Hcount : forall b, count b ((t ++ new) ++ owned held) = (count b new + count b (t ++ owned held))%nat).
  { intros b. rewrite !count_app. lia. }
  assert (Hold : forall b, exclusive a ((t, c) :: held) b -> exclusive a' ((t ++ new, c) :: held) b).
  { intros b [Hc Hh]. unfold exclusive. rewrite owned_cons in *. rewrite Hcount, Hhash.
    assert (b ∉ new) as Hb by (intros Hb; destruct (Hnew b Hb); lia).
    rewrite decide_False by tauto. apply count_not_elem in Hb. split; [lia|done]. }
  split; [exact Hwf|]. intros t1 c1 k b [[= -> ->] | Ht]%elem_of_cons Hb Ho.
  - apply lookup_app_Some in Hb as [Hb|[_ Hb]]; [apply Hold, (H2 t c k b); [by left|done..]|].
    apply list_elem_of_lookup_2 in Hb. destruct (Hnew b Hb) as [Hc Hlt]. unfold exclusive. rewrite owned_cons, Hcount, Hhash.
    rewrite decide_True by done. split; [|done]. rewrite Hc.
    assert (count b new <= 1)%nat; [|apply count_elem in Hb; lia].
    unfold count. apply NoDup_count_occ. by apply NoDup_ListNoDup.
  - apply Hold, (H2 t1 c1 k b); [by right|done..].
Qed.

(** ** The prefix cache *)
Lemma kv_hit a t c held hash :
  kv_wf a ((t, c) :: held) -> (kKvBlock * (len t + 1) <= c)%Z ->
  CacheLookup a hash = Ret (a, None) \/
  exists b a', CacheLookup a hash = Ret (a', Some b) /\ kv_wf a' ((t ++ [b], c) :: held) /\
    num_blocks_ a' = num_blocks_ a.
Proof.
  intros [H1 H2] Hc. rewrite owned_cons in H1.
  destruct (CacheLookup_ok a _ hash H1) as [[_ E]|(b & a' & E & Hcb & Hb & Hwf & Hn & Hh & _)]; [by left|right].
  exists b, a'. split; [done|]. split; [|done].
  assert (hash <> 0%Z) as Hne by (apply (wf_cached _ _ H1) in Hcb; tauto).
  assert (Hold : forall x, exclusive a ((t, c) :: held) x -> exclusive a' ((t ++ [b], c) :: held) x).
  { intros x [Hx Hhx]. unfold exclusive. rewrite owned_cons in *. rewrite Hh. split; [|done].
    rewrite !count_app in *. rewrite count_cons. rewrite decide_False by congruence. change (count x []) with 0%nat. lia. }
  split.
  - rewrite owned_cons, (Permutation_app_comm t [b]), <- app_assoc. exact Hwf.
  - intros t1 c1 k x [[= -> ->] | Ht]%elem_of_cons Hx Ho; [|apply Hold, (H2 t1 c1 k x); [by right|done..]].
    apply lookup_app_Some in Hx as [Hx|[Hk Hx]]; [apply Hold, (H2 t c k x); [by left|done..]|].
    exfalso. apply list_lookup_singleton_Some in Hx as [Hx _]. unfold open_at, len, kKvBlock in *. lia.
Qed.

Lemma kv_insert a t c held k b hash :
  kv_wf a ((t, c) :: held) -> t !! k = Some b -> ~ open_at c k -> hash <> 0%Z ->
  exists a', CacheInsert a b hash = Ret a' /\ kv_wf a' ((t, c) :: held) /\ num_blocks_ a' = num_blocks_ a.
Proof.
  intros [H1 H2] Hb Ho Hh. pose proof H1 as H1'. rewrite owned_cons in H1.
  assert (Hin : b ∈ t) by by eapply list_elem_of_lookup_2.
  destruct (CacheInsert_ok a _ b hash H1) as (a' & E & Hwf & Hn & _); [|done|].
  { apply (wf_owned _ _ H1), elem_of_app. by left. }
  exists a'. split; [done|]. split; [|done]. split; [exact Hwf|].
  assert (Hhash : forall x, x <> b -> blk_hash_ a' !! x = blk_hash_ a !! x).
  { intros x Hx. unfold CacheInsert in E. destruct (index_at (blk_hash_ a) b); [|done..]. cbn [run_bind] in E.
    destruct (negb _); [by injection E as <-|]. destruct (cached_ a !! hash); injection E as <-; [done|].
    cbn. by rewrite list_lookup_insert_ne. }
  intros t1 c1 k1 x Ht Hx Hox. destruct (H2 t1 c1 k1 x Ht Hx Hox) as [Hc Hhx]. split; [exact Hc|].
  rewrite Hhash; [done|]. intros ->. rewrite owned_cons, count_app in Hc. apply count_elem in Hin as Hin'.
  apply elem_of_cons in Ht as [[= -> ->] | Ht].
  - assert (k1 <> k) as Hk by by intros ->. pose proof (count_two b t k1 k Hx Hb Hk). lia.
  - pose proof (owned_elem held t1 c1 k1 b Ht Hx) as Hin2. apply count_elem in Hin2. lia.
Qed.

(** A cursor past the whole table. *)
Lemma kv_wf_closed a t c c' held : (kKvBlock * len t <= c')%Z -> kv_wf a ((t, c) :: held) -> kv_wf a ((t, c') :: held).
Proof.
  intros Hc [H1 H2]. split; [exact H1|]. intros t1 c1 k b [[= -> ->] | Ht]%elem_of_cons Hb Ho.
  - exfalso. apply lookup_lt_Some in Hb. unfold open_at, len, kKvBlock in *. lia.
  - apply (H2 t1 c1 k b); [by right|done..].
Qed.

(** An empty table is no table. *)
Lemma kv_wf_empty a c held : kv_wf a held <-> kv_wf a (([], c) :: held).
Proof.
  split; intros [H1 H2]; split; [exact H1| |exact H1|].
  - intros t1 c1 k b [[= -> ->] | Ht]%elem_of_cons Hb Ho; [done|by apply (H2 t1 c1 k b)].
  - intros t1 c1 k b Ht Hb Ho. apply (H2 t1 c1 k b); [by right|done..].
Qed.

(** ** What stays in the prefix cache

    Only [CacheInsert] adds to the map; these lemmas need no invariant. *)
Lemma AllocOne_cached a a' o : AllocOne a = Ret (a', o) -> cached_ a' ⊆ cached_ a.
Proof.
  unfold AllocOne. destruct (free_lru_ a) as [|b rest]; [by intros [= <- _]|].
  intros (h & _ & (c & _ & [= <- _])%bind_inv)%bind_inv. cbn. unfold forget_hash.
  destruct (h =? 0)%Z; [done|]. destruct (cached_ a !! h); [|done]. destruct (_ =? _)%nat; [|done]. apply delete_subseteq.
Qed.

Lemma grow_loop_cached k : forall a t a' t' ok, grow_loop k a t = Ret (a', t', ok) -> cached_ a' ⊆ cached_ a.
Proof.
  induction k as [|k IH]; intros a t a' t' ok; cbn [grow_loop]; [by intros [= <- _ _]|].
  intros ([a1 o] & Ha%AllocOne_cached & H)%bind_inv. destruct o as [b|]; [|by injection H as <- _ _].
  apply IH in H. by etrans.
Qed.

Lemma FreeMany_cached bs : forall a a', FreeMany a bs = Ret a' -> cached_ a' = cached_ a.
Proof.
  induction bs as [|b bs IH]; intros a a'; cbn [FreeMany]; [by intros [= <-]|].
  intros (a1 & Ha & H%IH)%bind_inv. rewrite H. unfold FreeOne in Ha. by apply bind_inv in Ha as (c & _ & [= <-]).
Qed.

Lemma CacheLookup_cached a h a' o :
  CacheLookup a h = Ret (a', o) -> cached_ a' = cached_ a /\ forall b, o = Some b -> cached_ a !! h = Some b.
Proof.
  unfold CacheLookup. destruct (cached_ a !! h) as [b|] eqn:E; [|by intros [= <- <-]].
  intros (c & _ & H)%bind_inv. destruct (c =? 0)%Z; [case_decide; [|done]|]; injection H as <- <-; (split; [done|]); by intros b' [= <-].
Qed.

Lemma CacheInsert_cached a b h a' :
  CacheInsert a b h = Ret a' -> cached_ a' = cached_ a \/ cached_ a' = <[h := b]> (cached_ a).
Proof.
  unfold CacheInsert. intros (x & _ & H)%bind_inv. destruct (negb _); [injection H as <-; by left|].
  destruct (cached_ a !! h); injection H as <-; [by left|by right].
Qed.
