(* ===== verification/Sequence.v ===== *)
(** * The engine's requests and their event streams

    Models the [Request] class of [engine/src/scheduler.h], the forward input it writes
    ([engine/src/model_runtime.h]), the sink of [engine/src/grpc_sink.h] it reports to and
    the [Generate] handler of [engine/src/grpc_service.cc]. The events are the messages
    the Go client receives ([Client.pb_event]); the properties close the loop with it.

    A request owns its sink here: the handler keeps it alive, and no two requests share
    one. [int] is [Z]; the lengths involved are bounded by [max_ctx]. *)

From Stdlib Require Import Floats.SpecFloat.
From S2P Require Import Prelude GoStrings Chatml Client Generate BlockAllocator.
Local Open Scope go_scope.

(** ** The sink *)
Record GrpcSink := { q_ : list pb_event; closed_ : bool; cancel : bool }.

Definition new_sink : GrpcSink := {| q_ := []; closed_ := false; cancel := false |}.

Definition Push (s : GrpcSink) (e : pb_event) : GrpcSink :=
  {| q_ := q_ s ++ [e]; closed_ := closed_ s; cancel := cancel s |}.
Definition Close (s : GrpcSink) : GrpcSink := {| q_ := q_ s; closed_ := true; cancel := cancel s |}.

Definition Token (s : GrpcSink) (id : Z) : GrpcSink := Push s (EvTokenId id).
Definition Done (s : GrpcSink) (reason : bytes) (prompt completion : Z) : GrpcSink :=
  Close (Push s (EvDone reason prompt completion)).

Inductive EngineErrc := kOverCapacity | kInternal.
Definition ToProto (e : EngineErrc) : Z :=
  match e with kOverCapacity => ERROR_CODE_OVER_CAPACITY | kInternal => ERROR_CODE_INTERNAL end.
Definition SinkError (s : GrpcSink) (code : EngineErrc) (msg : bytes) : GrpcSink :=
  Close (Push s (EvError (Build_pb_Error (ToProto code) msg))).

(** ** Requests *)
Record SampleParams := { temp : float32; top_p : float32 }.

Record Request := {
  prompt_ : list Z;
  max_new_ : Z;
  max_ctx_ : Z;
  sp_ : SampleParams;
  stop_ids_ : list Z;
  sink_ : option GrpcSink;
  output_ : list Z;
  block_table_ : list nat;
  computed_ : Z;
  num_new_ : Z;
  cached_blocks_ : Z;
  last_hash_ : Z;
  finished_ : bool;
}.

Definition new_request (prompt : list Z) (max_new max_ctx : Z) (sp : SampleParams)
    (stop_ids : list Z) (sink : option GrpcSink) : Request :=
  {| prompt_ := prompt; max_new_ := max_new; max_ctx_ := max_ctx; sp_ := sp; stop_ids_ := stop_ids;
     sink_ := sink; output_ := []; block_table_ := []; computed_ := 0; num_new_ := 0;
     cached_blocks_ := 0; last_hash_ := 0; finished_ := false |}.

(** What changes while a request runs. *)
Definition set_gen (r : Request) (sink : option GrpcSink) (output : list Z) (finished : bool) : Request :=
  {| prompt_ := prompt_ r; max_new_ := max_new_ r; max_ctx_ := max_ctx_ r; sp_ := sp_ r;
     stop_ids_ := stop_ids_ r; sink_ := sink; output_ := output; block_table_ := block_table_ r;
     computed_ := computed_ r; num_new_ := num_new_ r; cached_blocks_ := cached_blocks_ r;
     last_hash_ := last_hash_ r; finished_ := finished |}.

Definition set_kv (r : Request) (table : list nat) (computed num_new cached_blocks last_hash : Z) : Request :=
  {| prompt_ := prompt_ r; max_new_ := max_new_ r; max_ctx_ := max_ctx_ r; sp_ := sp_ r;
     stop_ids_ := stop_ids_ r; sink_ := sink_ r; output_ := output_ r; block_table_ := table;
     computed_ := computed; num_new_ := num_new; cached_blocks_ := cached_blocks;
     last_hash_ := last_hash; finished_ := finished_ r |}.

Definition set_table (r : Request) (table : list nat) : Request :=
  set_kv r table (computed_ r) (num_new_ r) (cached_blocks_ r) (last_hash_ r).

Definition NumTokens (r : Request) : Z := (len (prompt_ r) + len (output_ r))%Z.
Definition Remaining (r : Request) : Z := (NumTokens r - computed_ r)%Z.

Definition TokenAt (r : Request) (i : Z) : run Z :=
  if (i <? 0)%Z then Panic
  else if (i <? len (prompt_ r))%Z then index_at (prompt_ r) (Z.to_nat i)
  else index_at (output_ r) (Z.to_nat (i - len (prompt_ r))).

Definition AdoptPrefix (r : Request) (nb bsz last : Z) : Request :=
  set_kv r (block_table_ r) (nb * bsz) (num_new_ r) nb last.
Definition ResetForRecompute (r : Request) : Request :=
  set_kv r (block_table_ r) 0 (num_new_ r) 0 0.
Definition Advance (r : Request) : Request :=
  set_kv r (block_table_ r) (computed_ r + num_new_ r) (num_new_ r) (cached_blocks_ r) (last_hash_ r).

(** *** The forward input *)
Record ForwardInput := {
  in_tokens : list Z;
  positions : list Z;
  req_index : list Z;
  logits_rows : list Z;
  block_tables : list (list nat);
  sample_params : list SampleParams;
}.

Definition empty_input : ForwardInput :=
  {| in_tokens := []; positions := []; req_index := []; logits_rows := []; block_tables := [];
     sample_params := [] |}.

Definition AddTable (inp : ForwardInput) (table : list nat) : ForwardInput * Z :=
  ({| in_tokens := in_tokens inp; positions := positions inp; req_index := req_index inp;
      logits_rows := logits_rows inp; block_tables := block_tables inp ++ [table];
      sample_params := sample_params inp |}, len (block_tables inp)).

Definition AddRow (inp : ForwardInput) (token position req : Z) : ForwardInput :=
  {| in_tokens := in_tokens inp ++ [token]; positions := positions inp ++ [position];
     req_index := req_index inp ++ [req]; logits_rows := logits_rows inp;
     block_tables := block_tables inp; sample_params := sample_params inp |}.

Definition SampleLastRow (inp : ForwardInput) (sp : SampleParams) : ForwardInput :=
  {| in_tokens := in_tokens inp; positions := positions inp; req_index := req_index inp;
     logits_rows := logits_rows inp ++ [(len (in_tokens inp) - 1)%Z];
     block_tables := block_tables inp; sample_params := sample_params inp ++ [sp] |}.

(** The rows [k, k+1, ...] of a chunk. *)
Fixpoint emit_rows (r : Request) (ri : Z) (rows : nat) (k : Z) (inp : ForwardInput) : run ForwardInput :=
  match rows with
  | O => Ret inp
  | S rows =>
      let* t := TokenAt r (computed_ r + k) in
      emit_rows r ri rows (k + 1) (AddRow inp t (computed_ r + k) ri)
  end.

Definition EmitChunk (r : Request) (inp : ForwardInput) (n : Z) : run (ForwardInput * Request) :=
  let '(inp, ri) := AddTable inp (block_table_ r) in
  let* inp := emit_rows r ri (Z.to_nat n) 0 inp in
  let inp := if (computed_ r + n =? NumTokens r)%Z then SampleLastRow inp (sp_ r) else inp in
  Ret (inp, set_kv r (block_table_ r) (computed_ r) n (cached_blocks_ r) (last_hash_ r)).

(** *** Sampled tokens *)
Definition Generated (r : Request) : Z := len (output_ r).

Definition HitStopToken (r : Request) : bool :=
  match last (output_ r) with Some t => bool_decide (t ∈ stop_ids_ r) | None => false end.

Definition IsFinished (r : Request) : bool :=
  (max_new_ r <=? Generated r)%Z || HitStopToken r || (max_ctx_ r <=? NumTokens r)%Z.

Definition AcceptSampled (r : Request) (tok : Z) : Request * bool :=
  let r := set_gen r ((fun s => Token s tok) <$> sink_ r) (output_ r ++ [tok]) (finished_ r) in
  if negb (IsFinished r) then (r, false) else
  let stopped := HitStopToken r in
  let comp := (Generated r - (if stopped then 1 else 0))%Z in
  (set_gen r ((fun s => Done s (if stopped then go "stop" else go "length") (len (prompt_ r))
                          (if (comp <? 0)%Z then 0 else comp)%Z) <$> sink_ r) (output_ r) true, true).

(** ** The [Generate] handler *)
Definition kDefaultMaxTokens : Z := 512.

Definition float_positive (f : float32) : bool :=
  match f with S754_finite false _ _ | S754_infinity false => true | _ => false end.
Definition one_f : float32 := S754_finite false 8388608 (-23).

(** The request it submits. *)
Definition request_of (max_ctx : Z) (g : GenerateRequest) : Request :=
  let max_new := if (0 <? pb_MaxTokens g)%Z then pb_MaxTokens g else kDefaultMaxTokens in
  let room := (max_ctx - len (InputIds g))%Z in
  let room := if (room <? 1)%Z then 1%Z else room in
  new_request (InputIds g) (Z.min max_new room) max_ctx
    {| temp := pb_Temperature g; top_p := if float_positive (pb_TopP g) then pb_TopP g else one_f |}
    (StopTokenIds g) (Some new_sink).

(** What it writes to a client that stays, from the events popped: up to the first terminal
    one, at which it returns. *)
Fixpoint written (popped : list pb_event) : list pb_event :=
  match popped with
  | [] => []
  | e :: rest => if is_terminal e then [e] else e :: written rest
  end.

(** The stream of a request whose sink has been closed. *)
Definition rpc_answer (s : GrpcSink) : rpc_stream := {| events := written (q_ s); ending := None |}.

(** ** Sampling to the end *)

(** [next out] is the token sampled when [out] has been generated; one round per token. *)
Fixpoint sample_loop (fuel : nat) (next : list Z -> Z) (r : Request) : run Request :=
  match fuel with
  | O => Fuel
  | S f =>
      let '(r, fin) := AcceptSampled r (next (output_ r)) in
      if fin then Ret r else sample_loop f next r
  end.

(** ** Lemmas *)
Definition push_tokens (s : GrpcSink) (ids : list Z) : GrpcSink :=
  {| q_ := q_ s ++ (EvTokenId <$> ids); closed_ := closed_ s; cancel := cancel s |}.

Lemma push_tokens_cons s id ids : push_tokens (Token s id) ids = push_tokens s (id :: ids).
Proof. unfold push_tokens, Token, Push. cbn. by rewrite <- app_assoc. Qed.

(** The terminal event of a request that ends with [t]. *)
Definition done_sink (r : Request) (s : GrpcSink) (generated : Z) (t : Z) : GrpcSink :=
  let stopped := bool_decide (t ∈ stop_ids_ r) in
  Done s (if stopped then go "stop" else go "length") (len (prompt_ r))
    (generated - (if stopped then 1 else 0)).

Lemma len_snoc {A} (l : list A) x : len (l ++ [x]) = (len l + 1)%Z.
Proof. unfold len. rewrite length_app. simpl. lia. Qed.

Lemma AcceptSampled_eq r s t :
  sink_ r = Some s ->
  let fin := (max_new_ r <=? Generated r + 1)%Z || bool_decide (t ∈ stop_ids_ r) || (max_ctx_ r <=? NumTokens r + 1)%Z in
  AcceptSampled r t =
  (set_gen r (Some (if fin then done_sink r (Token s t) (Generated r + 1) t else Token s t))
     (output_ r ++ [t]) (if fin then true else finished_ r), fin).
Proof.
  intros Hs fin. unfold AcceptSampled. rewrite Hs. set (r1 := set_gen _ _ _ _).
  assert (IsFinished r1 = fin) as ->.
  { unfold IsFinished, Generated, NumTokens, HitStopToken, fin. cbn [r1 set_gen output_ max_new_ stop_ids_ prompt_ max_ctx_].
    rewrite last_snoc, len_snoc. by rewrite Z.add_assoc. }
  destruct fin; cbn [negb]; [|done]. unfold done_sink, HitStopToken, Generated.
  cbn [r1 set_gen output_ prompt_ stop_ids_ sink_ fmap option_fmap option_map]. rewrite last_snoc, len_snoc.
  rewrite (proj2 (Z.ltb_ge _ _)); [done|]. unfold len. case_bool_decide; lia.
Qed.

Lemma sample_loop_ok fuel next r s :
  sink_ r = Some s -> (Generated r < max_new_ r <= Generated r + Z.of_nat fuel)%Z ->
  exists ids t, let out := output_ r ++ ids ++ [t] in
    sample_loop fuel next r = Ret (set_gen r (Some (done_sink r (push_tokens s (ids ++ [t])) (len out) t)) out true) /\
    (forall i x, (ids ++ [t]) !! i = Some x -> x = next (output_ r ++ take i (ids ++ [t]))) /\
    Forall (fun x => x ∉ stop_ids_ r) ids /\ (len out <= max_new_ r)%Z /\
    (t ∈ stop_ids_ r \/ len out = max_new_ r \/ (max_ctx_ r <= len (prompt_ r) + len out)%Z).
Proof.
  revert r s. induction fuel as [|f IH]; intros r s Hs Hm; [lia|]. cbn [sample_loop].
  set (t := next (output_ r)). rewrite (AcceptSampled_eq r s t Hs).
  destruct (_ || _ || _) eqn:Ef.
  - exists [], t. cbn [app]. unfold push_tokens. cbn [fmap list_fmap]. rewrite len_snoc.
    split; [done|]. split_and!.
    + intros [|i] x Hx; [|by destruct i]. injection Hx as <-. cbn [take]. by rewrite app_nil_r.
    + constructor.
    + unfold Generated in Hm. lia.
    + boolprop. unfold Generated, NumTokens in *. rewrite !orb_true_iff, bool_decide_eq_true, !Z.leb_le in Ef.
      destruct Ef as [[Ef|Ef]|Ef]; [right; left; lia|by left|right; right; lia].
  - rewrite !orb_false_iff, bool_decide_eq_false, !Z.leb_gt in Ef. destruct Ef as [[E1 E2] E3].
    set (r1 := set_gen _ _ _ _).
    destruct (IH r1 (Token s t) eq_refl) as (ids & t' & E & Hn & Hstop & Hl & Hend).
    { unfold Generated in *. cbn [r1 set_gen output_ max_new_]. rewrite len_snoc. lia. }
    exists (t :: ids), t'. cbn [r1 set_gen output_ max_new_ max_ctx_ prompt_ stop_ids_] in *.
    rewrite <- app_assoc in E, Hl, Hend. cbn [app] in *. rewrite push_tokens_cons in E.
    split; [exact E|]. split_and!; [|by constructor|done|done].
    intros [|i] x Hx; [injection Hx as <-; cbn [take]; by rewrite app_nil_r|].
    cbn [lookup list_lookup] in Hx. rewrite (Hn i x Hx). cbn [take]. by rewrite <- app_assoc.
Qed.

Lemma written_tokens ids e rest : is_terminal e = true ->
  written ((EvTokenId <$> ids) ++ e :: rest) = (EvTokenId <$> ids) ++ [e].
Proof. intros He. induction ids as [|id ids IH]; cbn; [by rewrite He|by rewrite IH]. Qed.

Lemma tokens_done ids reason p c : tokens ((EvTokenId <$> ids) ++ [EvDone reason p c]) = ids.
Proof. induction ids as [|id ids IH]; cbn; [done|by rewrite IH]. Qed.

Lemma terminal_done ids reason p c :
  terminal ((EvTokenId <$> ids) ++ [EvDone reason p c]) None = Ok (Build_Stats reason p c).
Proof.
  unfold terminal. induction ids as [|id ids IH]; [done|]. cbn [fmap list_fmap app list_find is_terminal].
  case_decide; [done|]. by destruct (list_find _ _) as [[i []]|].
Qed.

(** ** Property *)

(** The engine's answer, as the Go client receives it: whatever tokens are sampled,
    generation ends within the budget (the request's, cut to the room in the context
    window, at least 1); the ids the client collects are exactly the sampled ones, the last
    being the only stop token there may be; and its outcome is the finish reason ([stop]
    after a stop token, otherwise [length] with the budget used up) with the length of the
    prompt and the number of tokens, the stop token not counted. *)
Lemma engine_answers_client max_ctx g next :
  let r := request_of max_ctx g in
  exists ids t r' s, sample_loop (Z.to_nat (max_new_ r)) next r = Ret r' /\
    let out := ids ++ [t] in
    output_ r' = out /\ finished_ r' = true /\ sink_ r' = Some s /\ closed_ s = true /\
    (forall i x, out !! i = Some x -> x = next (take i out)) /\
    Forall (fun x => x ∉ StopTokenIds g) ids /\ (len out <= max_new_ r)%Z /\
    answer_ids (rpc_answer s) = out /\
    outcome (rpc_answer s) = Ok
      (if bool_decide (t ∈ StopTokenIds g) then Build_Stats (go "stop") (len (InputIds g)) (len ids)
       else Build_Stats (go "length") (len (InputIds g)) (len out)) /\
    (t ∉ StopTokenIds g -> len out = max_new_ r).
Proof.
  intros r. assert (Hmax : (1 <= max_new_ r)%Z/\
    forall n, (1 <= n)%Z -> (max_ctx <= len (InputIds g) + n)%Z -> (max_new_ r <= n)%Z).
  { unfold r, request_of, new_request, kDefaultMaxTokens. cbn [max_new_].
    destruct (Z.ltb_spec 0 (pb_MaxTokens g)), (Z.ltb_spec (max_ctx - len (InputIds g)) 1); split_and!; lia. }
  destruct Hmax as (H1 & Hroom).
  destruct (sample_loop_ok (Z.to_nat (max_new_ r)) next r new_sink eq_refl) as (ids & t & E & Hn & Hstop & Hl & Hend).
  { change (Generated r) with 0%Z. lia. }
  change (output_ r) with (@nil Z) in *. cbn [app] in *.
  eexists ids, t, _, _. split; [exact E|]. cbn [set_gen output_ finished_ sink_].
  change (stop_ids_ r) with (StopTokenIds g) in *. change (prompt_ r) with (InputIds g) in *.
  change (max_ctx_ r) with max_ctx in *.
  split_and!; [done..|exact Hn|exact Hstop|exact Hl| | |].
  - unfold rpc_answer, done_sink, Done, Close, Push, push_tokens. cbn [q_ new_sink app].
    rewrite written_tokens by done. apply tokens_done.
  - unfold rpc_answer, done_sink, Done, Close, Push, push_tokens. cbn [q_ new_sink app].
    rewrite written_tokens by done. unfold outcome. cbn [events ending]. rewrite terminal_done.
    change (stop_ids_ r) with (StopTokenIds g). change (prompt_ r) with (InputIds g).
    rewrite len_snoc. case_bool_decide; do 2 f_equal; lia.
  - intros Ht. destruct Hend as [|[Hend|Hend]]; [done|done|].
    pose proof (Hroom (len (ids ++ [t])) ltac:(rewrite len_snoc; unfold len; lia) Hend). lia.
Qed.
