(* ===== verification/Handler.v ===== *)
(** * The handler of a Generate call

    Models the loop of [ServiceImpl::Generate] ([engine/src/grpc_service.cc]) that writes a
    request's events to the client, against the queue of [engine/src/grpc_sink.h] that the
    scheduler's thread fills at the same time. The two threads interleave between any two
    operations on the queue: [Push] and [Close] of the sink are separate steps, and so are
    [Pop], [IsCancelled] and [IsClosed] of the handler. [Pop] returns false only when the
    queue is empty, after its timeout or because it is closed.

    A sink keeps all that was ever pushed; the handler keeps how much it has popped. *)

From stdpp Require Import relations.
From S2P Require Import Prelude GoStrings Chatml Client Generate BlockAllocator Sequence.
Local Open Scope go_scope.

(** ** The handler *)

(** The operation it is about to do. *)
Inductive position := AtPop | AtWrite (e : pb_event) | AtCancelled | AtClosed | Returned.

Record handler := { at_ : position; popped : nat; wrote : list pb_event }.

Definition started : handler := {| at_ := AtPop; popped := 0; wrote := [] |}.

Definition goes (h : handler) (p : position) : handler := {| at_ := p; popped := popped h; wrote := wrote h |}.

Definition raise_cancel (k : GrpcSink) : GrpcSink := {| q_ := q_ k; closed_ := closed_ k; Sequence.cancel := true |}.

(** One operation; [client] is what the client is found to be when it is asked: that a write
    reaches it, that the call is not cancelled. *)
Definition turn (client : bool) (k : GrpcSink) (h : handler) : GrpcSink * handler :=
  match at_ h with
  | AtPop =>
      match q_ k !! popped h with
      | Some e => (k, {| at_ := AtWrite e; popped := S (popped h); wrote := wrote h |})
      | None => (k, goes h AtCancelled)
      end
  | AtWrite e =>
      if client then
        (k, {| at_ := if is_terminal e then Returned else AtPop; popped := popped h; wrote := wrote h ++ [e] |})
      else (raise_cancel k, goes h Returned)
  | AtCancelled => if client then (k, goes h AtClosed) else (raise_cancel k, goes h Returned)
  | AtClosed =>
      if closed_ k && bool_decide (length (q_ k) <= popped h)%nat then (k, goes h Returned) else (k, goes h AtPop)
  | Returned => (k, h)
  end.

Fixpoint turns (clients : list bool) (k : GrpcSink) (h : handler) : GrpcSink * handler :=
  match clients with
  | [] => (k, h)
  | c :: clients => let '(k, h) := turn c k h in turns clients k h
  end.

(** ** The scheduler's side of the queue *)
Definition ongoing (k : GrpcSink) : Prop := Forall (fun e => is_terminal e = false) (q_ k).

(** What the scheduler may do to a sink: tokens, a terminal event, and then [Close]. *)
Inductive sink_step (k : GrpcSink) : GrpcSink -> Prop :=
  | sink_token t : ongoing k -> sink_step k (Token k t)
  | sink_terminal e : ongoing k -> is_terminal e = true -> sink_step k (Push k e)
  | sink_close : ~ ongoing k -> sink_step k (Close k).

(** Both sides. *)
Inductive serve_step : GrpcSink * handler -> GrpcSink * handler -> Prop :=
  | serve_sink k k' h : sink_step k k' -> serve_step (k, h) (k', h)
  | serve_turn client k h : serve_step (k, h) (turn client k h).

(** ** Invariants *)

(** Tokens, then at most one terminal event; closed only after it. *)
Inductive fed (k : GrpcSink) : Prop :=
  | fed_tokens ids : q_ k = EvTokenId <$> ids -> closed_ k = false -> fed k
  | fed_terminal ids e : q_ k = (EvTokenId <$> ids) ++ [e] -> is_terminal e = true -> fed k.

Lemma tokens_ongoing ids : Forall (fun e => is_terminal e = false) (EvTokenId <$> ids).
Proof. apply Forall_fmap, Forall_forall. done. Qed.

Lemma terminal_not_ongoing k ids e : q_ k = (EvTokenId <$> ids) ++ [e] -> is_terminal e = true -> ~ ongoing k.
Proof. unfold ongoing. intros -> He [_ H]%Forall_app. apply Forall_cons in H as [H _]. congruence. Qed.

Lemma fed_step k k' : sink_step k k' -> fed k -> fed k'.
Proof.
  intros [t Ho|e Ho He|Ho] [ids Hq Hc|ids e' Hq He'].
  - eapply (fed_tokens _ (ids ++ [t])); [|done]. cbn. by rewrite Hq, fmap_app.
  - by apply (terminal_not_ongoing _ _ _ Hq He') in Ho.
  - eapply (fed_terminal _ ids e); [|done]. cbn. by rewrite Hq.
  - by apply (terminal_not_ongoing _ _ _ Hq He') in Ho.
  - destruct Ho. unfold ongoing. rewrite Hq. apply tokens_ongoing.
  - by eapply (fed_terminal _ ids e').
Qed.

Lemma sink_step_prefix k k' : sink_step k k' -> q_ k `prefix_of` q_ k' /\ Sequence.cancel k' = Sequence.cancel k.
Proof. intros [t _|e _ _|_]; cbn; (split; [|done]); by (apply prefix_app_r || idtac). Qed.

(** The terminal event is the last. *)
Lemma fed_last k n e : fed k -> q_ k !! n = Some e -> is_terminal e = true -> take (S n) (q_ k) = q_ k.
Proof.
  intros [ids Hq _|ids e' Hq He'] Hn He; rewrite Hq in *.
  - apply list_lookup_fmap_Some_1 in Hn as (x & -> & _). done.
  - apply lookup_app_Some in Hn as [Hn|[Hn Hx]].
    + apply list_lookup_fmap_Some_1 in Hn as (x & -> & _). done.
    + apply list_lookup_singleton_Some in Hx as [Hx _]. apply take_ge. rewrite length_app. cbn. lia.
Qed.

Lemma fed_closed k : fed k -> closed_ k = true -> ~ ongoing k.
Proof. intros [ids _ Hc|ids e Hq He] H; [congruence|by eapply terminal_not_ongoing]. Qed.

(** What the handler has done. *)
Definition handling (k : GrpcSink) (h : handler) : Prop :=
  match at_ h with
  | AtWrite e => exists n, popped h = S n /\ q_ k !! n = Some e /\ wrote h = take n (q_ k) /\
      Forall (fun e => is_terminal e = false) (wrote h)
  | Returned => Sequence.cancel k = true \/ (wrote h = q_ k /\ ~ ongoing k)
  | _ => wrote h = take (popped h) (q_ k) /\ (popped h <= length (q_ k))%nat /\
      Forall (fun e => is_terminal e = false) (wrote h)
  end.

Definition all_right (k : GrpcSink) (h : handler) : Prop := fed k /\ handling k h /\ wrote h `prefix_of` q_ k.

(** The other side only adds to the queue. *)
Lemma all_right_sink k k' h : sink_step k k' -> all_right k h -> all_right k' h.
Proof.
  intros Hs (Hf & Hh & Hp). pose proof (sink_step_prefix _ _ Hs) as [[rest Hq] Hc].
  split; [by eapply fed_step|]. split; [|rewrite Hq; by apply prefix_app_r].
  unfold handling in *. rewrite Hq. destruct (at_ h).
  - destruct Hh as (-> & Hl & Ht). rewrite take_app_le, length_app by done. split_and!; [done|lia|done].
  - destruct Hh as (n & Hn & He & Hw & Ht). exists n. split; [done|]. pose proof (lookup_lt_Some _ _ _ He).
    rewrite lookup_app_l, take_app_le by lia. done.
  - destruct Hh as (-> & Hl & Ht). rewrite take_app_le, length_app by done. split_and!; [done|lia|done].
  - destruct Hh as (-> & Hl & Ht). rewrite take_app_le, length_app by done. split_and!; [done|lia|done].
  - destruct Hh as [Hh|[Hw Ho]]; [left; congruence|right]. split.
    + destruct Hs as [t Hn|e Hn _|_]; [done..|]. cbn in Hq. rewrite <- Hq. done.
    + unfold ongoing. rewrite Hq. by intros [? _]%Forall_app.
Qed.

Lemma all_right_cancel k h n : fed k -> wrote h `prefix_of` q_ k -> all_right (raise_cancel k) {| at_ := Returned; popped := n; wrote := wrote h |}.
Proof. intros Hf Hp. split; [destruct Hf; by econstructor|]. split; [by left|done]. Qed.

Lemma all_right_turn client k h : all_right k h -> let '(k', h') := turn client k h in all_right k' h'.
Proof.
  intros (Hf & Hh & Hp). unfold turn, handling in *. destruct (at_ h) as [|e| | |] eqn:Ea.
  - destruct Hh as (Hw & Hl & Ht). destruct (q_ k !! popped h) as [e|] eqn:He; (split; [done|]); (split; [|done]); cbn; [|done].
    exists (popped h). done.
  - destruct Hh as (n & Hn & He & Hw & Ht). destruct client; [|by apply all_right_cancel].
    assert (Hw' : wrote h ++ [e] = take (S n) (q_ k)) by (rewrite Hw; symmetry; by apply take_S_r).
    split; [done|]. cbn. rewrite Hw'. split; [|by exists (drop (S n) (q_ k)); rewrite take_drop].
    destruct (is_terminal e) eqn:Et; cbn.
    + right. rewrite (fed_last k n e) by done. split; [done|]. unfold ongoing. intros Ho.
      apply (Forall_lookup_1 _ _ _ _ Ho) in He. cbn beta in He. congruence.
    + rewrite Hn. pose proof (lookup_lt_Some _ _ _ He). split; [done|]. split; [lia|]. rewrite <- Hw'.
      apply Forall_app. by repeat constructor.
  - destruct client; [by split|by apply all_right_cancel].
  - destruct (closed_ k && _) eqn:Ec; [|by split]. apply andb_true_iff in Ec as [Hc Hl%bool_decide_eq_true].
    split; [done|]. split; [|done]. cbn. right. destruct Hh as (Hw & _ & _). rewrite take_ge in Hw by done.
    split; [done|by apply fed_closed].
  - split; [done|]. split; [unfold handling; by rewrite Ea|done].
Qed.

Lemma served_all_right k h : rtc serve_step (new_sink, started) (k, h) -> all_right k h.
Proof.
  intros Hr. assert (forall x y, rtc serve_step x y -> all_right x.1 x.2 -> all_right y.1 y.2) as H.
  { induction 1 as [|x y z Hxy _ IH]; [done|]. intros Hx. apply IH. destruct Hxy as [k0 k1 h0 Hs|c k0 h0].
    - by eapply all_right_sink.
    - pose proof (all_right_turn c k0 h0 Hx). by destruct (turn c k0 h0). }
  apply (H _ _ Hr). split; [by apply (fed_tokens _ [])|]. split; [|done]. cbn. by split_and!.
Qed.

(** ** Termination *)
Definition work (k : GrpcSink) (h : handler) : nat :=
  match at_ h with
  | AtPop => 2 * (length (q_ k) - popped h)
  | AtWrite _ => 2 * (length (q_ k) - popped h) + 1
  | AtClosed => 2 * (length (q_ k) - popped h) + 1
  | AtCancelled => 2 * (length (q_ k) - popped h) + 2
  | Returned => 0
  end.

(** There is something to pop as long as the terminal event has not been. *)
Lemma unpopped k h : ~ ongoing k -> Forall (fun e => is_terminal e = false) (wrote h) -> wrote h = take (popped h) (q_ k) ->
  (popped h < length (q_ k))%nat.
Proof.
  intros Ho Hf Hw. destruct (decide (popped h < length (q_ k))%nat) as [|Hge]; [done|]. destruct Ho.
  rewrite take_ge in Hw by lia. unfold ongoing. by rewrite <- Hw.
Qed.

Lemma turn_progress client k h : all_right k h -> ~ ongoing k -> at_ h <> Returned ->
  let '(k', h') := turn client k h in (at_ h' = Returned \/ (work k' h' < work k h)%nat) /\ ~ ongoing k'.
Proof.
  intros (Hf & Hh & Hp) Ho Hr. unfold turn, handling, work in *. destruct (at_ h) as [|e| | |] eqn:Ea.
  - destruct Hh as (Hw & Hl & Ht). pose proof (unpopped k h Ho Ht Hw) as Hlt.
    destruct (lookup_lt_is_Some_2 _ _ Hlt) as [e ->]. cbn. split; [right; lia|done].
  - destruct client; [|by split; [left|]]. cbn. split; [|done]. destruct (is_terminal e); [by left|right; cbn; lia].
  - destruct client; cbn; [split; [right; lia|done]|by split; [left|]].
  - destruct (_ && _); cbn; [by split; [left|]|split; [right; lia|done]].
  - done.
Qed.

Lemma turns_returned clients k h : at_ h = Returned -> at_ (turns clients k h).2 = Returned.
Proof. revert k h. induction clients as [|c cs IH]; intros k h Hr; [done|]. cbn [turns]. unfold turn. rewrite Hr. by apply IH. Qed.

Lemma turns_finish clients : forall k h, all_right k h -> ~ ongoing k -> (work k h < length clients)%nat ->
  at_ (turns clients k h).2 = Returned.
Proof.
  induction clients as [|c cs IH]; intros k h Ha Ho Hl; [simpl in Hl; lia|]. cbn [turns].
  destruct (at_ h) eqn:Ea.
  5: { unfold turn. rewrite Ea. by apply turns_returned. }
  all: pose proof (turn_progress c k h Ha Ho ltac:(congruence)) as Hp; pose proof (all_right_turn c k h Ha) as Ha';
    destruct (turn c k h) as [k' h']; destruct Hp as [[Hr|Hw] Ho']; [by apply turns_returned|];
    cbn [length] in Hl; apply IH; [done..|lia].
Qed.

(** A client that is gone is noticed before long, whether events arrive or not. *)
Lemma turns_gone k h : at_ (turns [false; false; false] k h).2 = Returned.
Proof.
  destruct h as [p n w]. cbn [turns]. unfold turn. destruct p as [|e| | |]; cbn; try done.
  - by destruct (q_ k !! n).
  - destruct (_ && _); cbn; [done|]. by destruct (q_ k !! n).
Qed.

Lemma written_all k : fed k -> written (q_ k) = q_ k.
Proof.
  intros [ids -> _|ids e -> He]; [|by apply written_tokens]. induction ids as [|id ids IH]; [done|]. cbn. by rewrite IH.
Qed.

(** A client that stays is never taken for one that is gone. *)
Lemma turn_stays_uncancelled k h : (turn true k h).1 = k.
Proof. unfold turn. destruct (at_ h); [by destruct (_ !! _)|done|done|by destruct (_ && _)|done]. Qed.

Lemma turns_staying n : forall k h, all_right k h -> let '(k', h') := turns (replicate n true) k h in k' = k /\ all_right k h'.
Proof.
  induction n as [|n IH]; intros k h Ha; [done|]. cbn [replicate turns]. pose proof (all_right_turn true k h Ha) as Ha'.
  pose proof (turn_stays_uncancelled k h) as Hk. destruct (turn true k h) as [k1 h1]. cbn in Hk. subst k1. by apply IH.
Qed.

Lemma staying_writes_all n k h : all_right k h -> ~ ongoing k -> Sequence.cancel k = false -> (work k h < n)%nat ->
  let '(k', h') := turns (replicate n true) k h in at_ h' = Returned /\ wrote h' = written (q_ k) /\ Sequence.cancel k' = false.
Proof.
  intros Ha Ho Hc Hn. pose proof (turns_finish (replicate n true) k h Ha Ho ltac:(by rewrite length_replicate)) as Hr.
  pose proof (turns_staying n k h Ha) as Hs. destruct (turns (replicate n true) k h) as [k' h']. cbn in Hr. destruct Hs as [-> (Hf & Hh & _)].
  split; [done|]. unfold handling in Hh. rewrite Hr in Hh. destruct Hh as [Hh|[Hw _]]; [congruence|]. split; [|done]. by rewrite written_all.
Qed.

(** ** Property *)

(** A Generate call delivers: however the handler interleaves with the scheduler's
    pushes, what it has written to the client is a prefix of the request's events in their
    order; it returns only when it has written all of them, the terminal event last, or
    when it found the client gone, and then it has raised the cancellation flag; it returns
    after a bounded number of its own operations once the terminal event has been pushed,
    even before the queue is closed, and after three once the client is gone. *)
Lemma generate_call_delivers k h : rtc serve_step (new_sink, started) (k, h) ->
  wrote h `prefix_of` q_ k /\
  (at_ h = Returned -> Sequence.cancel k = true \/ (wrote h = written (q_ k) /\ ~ ongoing k)) /\
  (~ ongoing k -> forall clients, (2 * length (q_ k) + 2 < length clients)%nat -> at_ (turns clients k h).2 = Returned) /\
  at_ (turns [false; false; false] k h).2 = Returned.
Proof.
  intros Hr. pose proof (served_all_right k h Hr) as (Hf & Hh & Hp). split; [done|]. split; [|split].
  - intros E. unfold handling in Hh. rewrite E in Hh. by rewrite written_all.
  - intros Ho clients Hl. apply turns_finish; [by split|done|]. unfold work. destruct (at_ h); lia.
  - apply turns_gone.
Qed.

(** ** Witness *)

(** The handler looks for an event before the token is there, is asleep when the terminal
    event is pushed, and finds the queue not closed yet. *)
Definition answered_sink : GrpcSink := Push (Token new_sink 7) (EvDone (go "stop") 1 1).

Lemma generate_call_delivers_witness : exists h,
  rtc serve_step (new_sink, started) (answered_sink, h) /\ wrote h = [EvTokenId 7] /\
  at_ (turns (replicate 7 true) answered_sink h).2 = Returned.
Proof.
  set (h1 := goes started AtCancelled). set (k1 := Token new_sink 7).
  set (h2 := (turns [true; true; true; true; true; true] k1 h1).2). exists h2.
  assert (Hr : rtc serve_step (new_sink, started) (answered_sink, h2)).
  { eapply rtc_l; [apply (serve_turn true)|]. change (turn true new_sink started) with (new_sink, h1).
    eapply rtc_l; [apply serve_sink, (sink_token _ 7); constructor|]. fold k1.
    do 6 (eapply rtc_l; [apply (serve_turn true)|]; cbn). eapply rtc_once. apply serve_sink.
    apply (sink_terminal _ (EvDone (go "stop") 1 1)); [by repeat constructor|done]. }
  split; [exact Hr|]. split; [reflexivity|].
  destruct (generate_call_delivers answered_sink h2 Hr) as (_ & _ & H & _).
  apply H; [|cbn; lia]. apply (terminal_not_ongoing _ [7%Z] (EvDone (go "stop") 1 1)); reflexivity.
Defined.
