(* ===== verification/Scheduler.v ===== *)
(** * The continuous-batching scheduler

    Models [engine/src/scheduler.h] and [scheduler.cc]. Requests live in a store and are
    referred to by id, as the code refers to them by pointer; the three queues hold ids. A
    step of the loop of [Run] is [run_round]: it moves what was submitted to the waiting
    queue, admits requests to the free slots, packs one batch under the token budget, runs
    the model on it and hands the sampled tokens out.

    The model runtime is an interface, [Runtime]: a device with a state - its keys and values,
    its random numbers - and a forward pass that changes it and samples one token per
    requested row ([RuntimeOk]). Reads out of range, which the code leaves undefined, are
    [Panic]. *)

From S2P Require Import Prelude GoStrings Chatml Client Generate BlockAllocator Sequence.
From stdpp Require Import relations.
Local Open Scope go_scope.

Record SchedulerConfig := {
  n_slots : Z;
  max_waiting : Z;
  token_budget : Z;
  prefill_chunk : Z;
  use_prefix_cache : bool;
}.

(** The part of [ModelRuntime] the scheduler uses. *)
Class Runtime := {
  Device : Type;
  Forward : Device -> ForwardInput -> Device * list Z;
}.

(** One token for every row to sample. *)
Class RuntimeOk (RT : Runtime) : Prop :=
  Forward_samples : forall d inp, length (Forward d inp).2 = length (logits_rows inp).

Section runtime.
Context {RT : Runtime}.

Record Scheduler := {
  model_ : Device;
  alloc_ : BlockAllocator;
  reqs : gmap nat Request;
  inbound_ : list nat;
  waiting_ : list nat;
  running_ : list nat;
}.

Definition get (s : Scheduler) (i : nat) : run Request :=
  match reqs s !! i with Some r => Ret r | None => Panic end.

Definition put (s : Scheduler) (i : nat) (r : Request) : Scheduler :=
  {| model_ := model_ s; alloc_ := alloc_ s; reqs := <[i := r]> (reqs s); inbound_ := inbound_ s;
     waiting_ := waiting_ s; running_ := running_ s |}.

Definition set_alloc (s : Scheduler) (a : BlockAllocator) : Scheduler :=
  {| model_ := model_ s; alloc_ := a; reqs := reqs s; inbound_ := inbound_ s; waiting_ := waiting_ s; running_ := running_ s |}.

Definition set_queues (s : Scheduler) (inbound waiting running : list nat) : Scheduler :=
  {| model_ := model_ s; alloc_ := alloc_ s; reqs := reqs s; inbound_ := inbound; waiting_ := waiting; running_ := running |}.

Definition set_model (s : Scheduler) (d : Device) : Scheduler :=
  {| model_ := d; alloc_ := alloc_ s; reqs := reqs s; inbound_ := inbound_ s; waiting_ := waiting_ s;
     running_ := running_ s |}.

(** ** The prefix cache *)
Definition uint64 (z : Z) : Z := (z mod 2 ^ 64)%Z.

Definition hash_token (h t : Z) : Z :=
  let h := Z.lxor h (t mod 2 ^ 32) in
  let h := uint64 (h * 0x100000001B3) in
  Z.lor (uint64 (Z.shiftl h 27)) (Z.shiftr h 37).

Fixpoint hash_tokens (r : Request) (rounds : nat) (i : Z) (h : Z) : run Z :=
  match rounds with
  | O => Ret h
  | S k => let* t := TokenAt r i in hash_tokens r k (i + 1) (hash_token h t)
  end.

Definition HashBlock (parent : Z) (r : Request) (start n : Z) : run Z :=
  let* h := hash_tokens r (Z.to_nat n) start (Z.lxor parent 0x9E3779B97F4A7C15) in
  Ret (if (h =? 0)%Z then 1%Z else h).

(** The loop of [AcquirePrefix]: the table, the number of blocks found, the last hash. *)
Fixpoint acquire_loop (rounds : nat) (a : BlockAllocator) (r : Request) (table : list nat)
    (n_blocks parent : Z) : run (BlockAllocator * list nat * Z * Z) :=
  match rounds with
  | O => Ret (a, table, n_blocks, parent)
  | S k =>
      let* h := HashBlock parent r (n_blocks * kKvBlock) kKvBlock in
      let* (a, block) := CacheLookup a h in
      match block with
      | None => Ret (a, table, n_blocks, parent)
      | Some b => acquire_loop k a r (table ++ [b]) (n_blocks + 1) h
      end
  end.

(** The loop of [CacheBlocks]. *)
Fixpoint cache_loop (rounds : nat) (a : BlockAllocator) (r : Request) (idx parent : Z)
    : run (BlockAllocator * Z) :=
  match rounds with
  | O => Ret (a, parent)
  | S k =>
      let* parent := HashBlock parent r (idx * kKvBlock) kKvBlock in
      let* b := index_at (block_table_ r) (Z.to_nat idx) in
      let* a := CacheInsert a b parent in
      cache_loop k a r (idx + 1) parent
  end.

Definition CacheBlocks (s : Scheduler) (i : nat) : run Scheduler :=
  let* r := get s i in
  let full := Z.quot (computed_ r) kKvBlock in
  let* (a, parent) := cache_loop (Z.to_nat (full - cached_blocks_ r)) (alloc_ s) r (cached_blocks_ r) (last_hash_ r) in
  Ret (put (set_alloc s a) i (set_kv r (block_table_ r) (computed_ r) (num_new_ r) full parent)).

(** ** Giving blocks back *)
Definition Release (s : Scheduler) (i : nat) : run Scheduler :=
  let* r := get s i in
  let* (a, table) := Free (alloc_ s) (block_table_ r) in
  Ret (put (set_alloc s a) i (set_table r table)).

(** The first occurrence. *)
Fixpoint erase (i : nat) (l : list nat) : list nat :=
  match l with
  | [] => []
  | x :: l => if (x =? i)%nat then l else x :: erase i l
  end.

Definition Retire (s : Scheduler) (i : nat) : run Scheduler :=
  let* s := Release s i in
  Ret (set_queues s (inbound_ s) (waiting_ s) (erase i (running_ s))).

(** ** Growing, with preemption *)

(** The last index below [k] of a request other than [i]. *)
Fixpoint victim (running : list nat) (i : nat) (k : nat) : option nat :=
  match k with
  | O => None
  | S k =>
      match running !! k with
      | Some x => if (x =? i)%nat then victim running i k else Some k
      | None => None
      end
  end.

Definition out_of_cache (a : BlockAllocator) (upto : Z) : bytes :=
  go "out of KV cache: pool has " ++ itoa (Z.of_nat (num_blocks_ a)) ++ go " blocks of "
  ++ itoa kKvBlock ++ go " tokens, cannot grow a sequence to " ++ itoa upto ++ go " tokens".

Definition report (r : Request) (msg : bytes) : Request :=
  set_gen r ((fun k => SinkError k kOverCapacity msg) <$> sink_ r) (output_ r) (finished_ r).

(** One round per preempted request. *)
Fixpoint Grow (fuel : nat) (s : Scheduler) (i : nat) (upto : Z) : run (Scheduler * bool) :=
  match fuel with
  | O => Fuel
  | S f =>
      let* r := get s i in
      let* (a, table, ok) := BlockAllocator.Grow (alloc_ s) (block_table_ r) upto in
      let s := put (set_alloc s a) i (set_table r table) in
      if (ok : bool) then Ret (s, true) else
      match victim (running_ s) i (length (running_ s)) with
      | None =>
          let* r := get s i in
          let* s := Retire (put s i (report r (out_of_cache (alloc_ s) upto))) i in
          Ret (s, false)
      | Some k =>
          let* v := index_at (running_ s) k in
          let* s := Release s v in
          let* rv := get s v in
          let s := put s v (ResetForRecompute rv) in
          Grow f (set_queues s (inbound_ s) (v :: waiting_ s) (delete k (running_ s))) i upto
      end
  end.

Section scheduler.
Context (cfg : SchedulerConfig).

Definition AcquirePrefix (s : Scheduler) (i : nat) : run Scheduler :=
  if negb (use_prefix_cache cfg) then Ret s else
  let* r := get s i in
  let limit_blocks := Z.quot (NumTokens r - 1) kKvBlock in
  let* (a, table, n_blocks, parent) :=
    acquire_loop (Z.to_nat limit_blocks) (alloc_ s) r (block_table_ r) 0 0 in
  let r := set_table r table in
  Ret (put (set_alloc s a) i (if (0 <? n_blocks)%Z then AdoptPrefix r n_blocks kKvBlock parent else r)).

(** ** Admission *)
Definition is_cancelled (r : Request) : bool :=
  match sink_ r with Some k => Sequence.cancel k | None => false end.

(** The queue without its cancelled requests, whose blocks are released. *)
Fixpoint drop_cancelled (s : Scheduler) (queue : list nat) : run (Scheduler * list nat) :=
  match queue with
  | [] => Ret (s, [])
  | i :: queue =>
      let* r := get s i in
      if is_cancelled r then
        let* s := Release s i in drop_cancelled s queue
      else
        let* (s, queue) := drop_cancelled s queue in Ret (s, i :: queue)
  end.

Fixpoint fill_slots (s : Scheduler) (waiting : list nat) : run Scheduler :=
  match waiting with
  | [] => Ret (set_queues s (inbound_ s) [] (running_ s))
  | i :: rest =>
      if (len (running_ s) <? n_slots cfg)%Z then
        let* r := get s i in
        let* s := (if bool_decide (block_table_ r = []) then AcquirePrefix s i else Ret s) in
        fill_slots (set_queues s (inbound_ s) rest (running_ s ++ [i])) rest
      else Ret (set_queues s (inbound_ s) waiting (running_ s))
  end.

Definition Refill (s : Scheduler) : run Scheduler :=
  let* (s, waiting) := drop_cancelled s (waiting_ s) in
  let* (s, running) := drop_cancelled (set_queues s (inbound_ s) waiting (running_ s)) (running_ s) in
  fill_slots (set_queues s (inbound_ s) waiting running) waiting.

(** ** Batches *)
Record CurrentBatch := {
  input : ForwardInput;
  requests : list nat;
  sampled : list Z;
  batch_finished : list nat;
}.

Definition empty_batch : CurrentBatch :=
  {| input := empty_input; requests := []; sampled := []; batch_finished := [] |}.

Definition AddRequest (s : Scheduler) (batch : CurrentBatch) (i : nat) (n : Z)
    : run (Scheduler * CurrentBatch) :=
  let* r := get s i in
  let* (inp, r) := EmitChunk r (input batch) n in
  Ret (put s i r, {| input := inp; requests := requests batch ++ [i]; sampled := sampled batch;
                     batch_finished := batch_finished batch |}).

(** [std::stable_sort] by a key. *)
Fixpoint insert_by (key : nat -> Z) (x : nat) (l : list nat) : list nat :=
  match l with
  | [] => [x]
  | y :: l' => if (key x <=? key y)%Z then x :: l else y :: insert_by key x l'
  end.
Definition stable_sort (key : nat -> Z) (l : list nat) : list nat := foldr (insert_by key) [] l.

Fixpoint remainings (s : Scheduler) (ids : list nat) : run (list Z) :=
  match ids with
  | [] => Ret []
  | i :: ids => let* r := get s i in let* l := remainings s ids in Ret (Remaining r :: l)
  end.

(** How many tokens of a request go into the batch. *)
Definition chunk_size (remaining budget : Z) : Z :=
  let n := Z.min remaining budget in
  if (1 <? remaining)%Z then Z.min n (prefill_chunk cfg) else n.

(** The loop over [order]; the boolean asks for a restart. *)
Fixpoint pack (s : Scheduler) (batch : CurrentBatch) (budget : Z) (order : list nat)
    : run (Scheduler * CurrentBatch * bool) :=
  match order with
  | [] => Ret (s, batch, false)
  | idx :: order =>
      if (budget <=? 0)%Z then Ret (s, batch, false) else
      let* i := index_at (running_ s) idx in
      let* r := get s i in
      if (Remaining r <=? 0)%Z then pack s batch budget order else
      let n := chunk_size (Remaining r) budget in
      let* (s, ok) := Grow (S (length (running_ s))) s i (computed_ r + n) in
      if negb ok then Ret (s, batch, true) else
      let* (s, batch) := AddRequest s batch i n in
      pack s batch (budget - n) order
  end.

(** One round per request that cannot be grown, which is retired. *)
Fixpoint BuildBatch (fuel : nat) (s : Scheduler) : run (Scheduler * CurrentBatch) :=
  match fuel with
  | O => Fuel
  | S f =>
      let* keys := remainings s (running_ s) in
      let order := stable_sort (fun k => default 0%Z (keys !! k)) (seq 0 (length (running_ s))) in
      let* (s, batch, restart) := pack s empty_batch (token_budget cfg) order in
      if (restart : bool) then BuildBatch f s else Ret (s, batch)
  end.

Fixpoint advance_all (s : Scheduler) (ids : list nat) : run Scheduler :=
  match ids with
  | [] => Ret s
  | i :: ids => let* r := get s i in advance_all (put s i (Advance r)) ids
  end.

(** [k] indexes the sampled tokens. *)
Fixpoint accept_all (s : Scheduler) (sampled : list Z) (k : nat) (ids : list nat) (finished : list nat)
    : run (Scheduler * list nat) :=
  match ids with
  | [] => Ret (s, finished)
  | i :: ids =>
      let* r := get s i in
      if (Remaining r =? 0)%Z then
        let* t := index_at sampled k in
        let '(r, fin) := AcceptSampled r t in
        accept_all (put s i r) sampled (S k) ids (if fin then finished ++ [i] else finished)
      else accept_all s sampled k ids finished
  end.

Definition Apply (s : Scheduler) (batch : CurrentBatch) : run (Scheduler * list nat) :=
  let* s := advance_all s (requests batch) in
  accept_all s (sampled batch) 0 (requests batch) (batch_finished batch).

Fixpoint each (f : Scheduler -> nat -> run Scheduler) (s : Scheduler) (ids : list nat) : run Scheduler :=
  match ids with
  | [] => Ret s
  | i :: ids => let* s := f s i in each f s ids
  end.

(** What follows the forward pass. *)
Definition Finish (s : Scheduler) (batch : CurrentBatch) : run Scheduler :=
  let* (s, finished) := Apply s batch in
  let* s := (if use_prefix_cache cfg then each CacheBlocks s (requests batch) else Ret s) in
  each Retire s finished.

Definition Step (s : Scheduler) : run Scheduler :=
  let* s := Refill s in
  let* (s, batch) := BuildBatch (S (length (running_ s))) s in
  match requests batch with
  | [] => Ret s
  | _ =>
      let '(d, tokens) := Forward (model_ s) (input batch) in
      Finish (set_model s d)
        {| input := input batch; requests := requests batch; sampled := tokens;
           batch_finished := batch_finished batch |}
  end.

(** ** The loop *)
Definition queue_full (s : Scheduler) : bytes :=
  go "request queue full: " ++ itoa (len (waiting_ s)) ++ go " requests already waiting (limit "
  ++ itoa (max_waiting cfg) ++ go "), engine running up to " ++ itoa (n_slots cfg)
  ++ go " concurrent sequences; retry shortly".

Fixpoint drain (s : Scheduler) (incoming : list nat) : run Scheduler :=
  match incoming with
  | [] => Ret s
  | i :: incoming =>
      if (0 <? max_waiting cfg)%Z && (max_waiting cfg <=? len (waiting_ s))%Z then
        let* r := get s i in drain (put s i (report r (queue_full s))) incoming
      else drain (set_queues s (inbound_ s) (waiting_ s ++ [i]) (running_ s)) incoming
  end.

Definition has_any (q : list nat) : bool := match q with [] => false | _ => true end.
Definition Busy (s : Scheduler) : bool := has_any (waiting_ s) || has_any (running_ s).

(** A turn of [Run]; with nothing to do it waits. *)
Definition run_round (s : Scheduler) : run Scheduler :=
  if negb (has_any (inbound_ s)) && negb (Busy s) then Ret s else
  let* s := drain (set_queues s [] (waiting_ s) (running_ s)) (inbound_ s) in
  if Busy s then Step s else Ret s.

Definition Submit (s : Scheduler) (i : nat) (r : Request) : Scheduler :=
  let s := put s i r in set_queues s (inbound_ s ++ [i]) (waiting_ s) (running_ s).

End scheduler.

Definition new_scheduler (d : Device) (blocks : nat) : Scheduler :=
  {| model_ := d; alloc_ := New blocks; reqs := ∅; inbound_ := []; waiting_ := []; running_ := [] |}.

End runtime.
