(* ===== verification/PagedRuntime.v ===== *)
(** * The model runtime on paged keys and values

    What [ModelRuntime::Forward] promises the scheduler about the [KvStore]
    ([engine/src/model_runtime.h], [kv_store.h]): the keys and values of position [p] of a
    sequence live in slot [p mod 16] of block [p / 16] of its table, a forward pass writes
    those of the tokens it is given, computed from the positions before them, and samples
    from the last positions. The contract is the class [PagedRuntimeOk], on inputs that are
    lists of chunks; the relations [computes] and [picks] leave the arithmetic and the random
    numbers open. A sequential execution of the rows meets it ([reference_ok]), and so does
    the forward pass of the engine ([ForwardOk]). *)

From Stdlib Require Import Floats.SpecFloat.
From stdpp Require Import sorting.
From S2P Require Import Prelude GoStrings Chatml Client Generate BlockAllocator Sequence Scheduler.
Local Open Scope go_scope.

(** ** Inputs as chunks *)

(** Consecutive tokens of one sequence; whether a token is sampled after the last. *)
Record chunk := {
  ck_table : list nat;
  ck_start : nat;
  ck_tokens : list Z;
  ck_sample : option SampleParams;
}.

Definition ck_end (c : chunk) : nat := ck_start c + length (ck_tokens c).

Fixpoint sampled_rows (start : Z) (chs : list chunk) : list Z :=
  match chs with
  | [] => []
  | c :: chs =>
      (if ck_sample c then [(start + len (ck_tokens c) - 1)%Z] else [])
      ++ sampled_rows (start + len (ck_tokens c)) chs
  end.

Definition ck_positions (c : chunk) : list Z := seqZ (Z.of_nat (ck_start c)) (len (ck_tokens c)).
Definition ck_rows (k : nat) (c : chunk) : list Z := replicate (length (ck_tokens c)) (Z.of_nat k).

Definition input_of (chs : list chunk) : ForwardInput :=
  {| in_tokens := concat (ck_tokens <$> chs);
     positions := concat (ck_positions <$> chs);
     req_index := concat (imap ck_rows chs);
     logits_rows := sampled_rows 0 chs;
     block_tables := ck_table <$> chs;
     sample_params := omap ck_sample chs |}.

(** ** Addresses *)
Definition block_size : nat := 16.

(** The block and the offset of a position. *)
Definition addr (table : list nat) (p : nat) : nat * nat :=
  (nth (p `div` block_size) table 0, p `mod` block_size).

Definition written (c : chunk) (p : nat) : Prop := (ck_start c <= p < ck_end c)%nat.

(** ** The contract *)
Class PagedRuntime (RT : Runtime) := {
  KV : Type;                                    (** keys and values of a position, all layers *)
  slot : Device -> nat -> nat -> KV;            (** of a block and an offset *)
  computes : list KV -> Z -> KV -> Prop;        (** for a token, from the positions before it *)
  picks : list KV -> Z -> SampleParams -> Z -> Prop; (** a token sampled after these positions, the last token given *)
  device_ok : Device -> Prop;                   (** between two passes *)
  max_rows : Z;                                 (** the sizes of the buffers *)
  max_requests : Z;
  max_table : Z;
  max_position : Z;
  max_block : Z;                                (** the number of blocks of the store *)
  max_token : Z;                                (** the size of the vocabulary *)
}.

(** What a forward pass expects: chunks that fit the buffers and lie in their tables, tokens
    of the vocabulary - the embedding table is read at a token's row, unchecked - and no
    chunk that writes where another reads or writes, or where it reads another position
    itself. *)
Record chunks_ok {RT : Runtime} {PR : PagedRuntime RT} (chs : list chunk) : Prop := {
  ok_rows : (len (in_tokens (input_of chs)) <= max_rows)%Z;
  ok_requests : (len chs <= max_requests)%Z;
  ok_chunk : forall c, c ∈ chs -> ck_tokens c <> [] /\ (ck_end c <= block_size * length (ck_table c))%nat /\
    (len (ck_table c) <= max_table)%Z /\ (Z.of_nat (ck_end c) <= max_position)%Z /\
    Forall (fun b => Z.of_nat b < max_block)%Z (ck_table c);
  ok_tokens : forall c, c ∈ chs -> Forall (fun t => 0 <= t < max_token)%Z (ck_tokens c);
  ok_apart : forall i j c c' p q, chs !! i = Some c -> chs !! j = Some c' ->
    written c p -> (q < ck_end c')%nat -> addr (ck_table c) p = addr (ck_table c') q -> i = j /\ p = q;
}.

Section contract.
Context {RT : Runtime} {PR : PagedRuntime RT}.

Definition slot_at (d : Device) (table : list nat) (p : nat) : KV :=
  let '(b, o) := addr table p in slot d b o.

(** The first [n] positions of a sequence. *)
Definition view (d : Device) (table : list nat) (n : nat) : list KV := slot_at d table <$> seq 0 n.

Record forward_ok (d : Device) (chs : list chunk) (d' : Device) (out : list Z) : Prop := {
  fw_written : forall c k t, c ∈ chs -> ck_tokens c !! k = Some t ->
    computes (view d' (ck_table c) (ck_start c + k)) t (slot_at d' (ck_table c) (ck_start c + k));
  fw_kept : forall b o, (o < block_size)%nat -> (forall c p, c ∈ chs -> written c p -> addr (ck_table c) p <> (b, o)) ->
    slot d' b o = slot d b o;
  fw_sampled : Forall2 (fun c t => exists sp t0, ck_sample c = Some sp /\ last (ck_tokens c) = Some t0 /\
      picks (view d' (ck_table c) (ck_end c)) t0 sp t)
    (filter (fun c => is_Some (ck_sample c)) chs) out;
  fw_device : device_ok d';
}.

End contract.

Class PagedRuntimeOk (RT : Runtime) (PR : PagedRuntime RT) : Prop := {
  Forward_paged : forall d chs, device_ok d -> chunks_ok chs ->
    forward_ok d chs (Forward d (input_of chs)).1 (Forward d (input_of chs)).2;
  samples_token : forall d inp, Forall (fun t => 0 <= t < max_token)%Z (Forward d inp).2;
}.

Section views.
Context {RT : Runtime} {PR : PagedRuntime RT}.

Lemma length_view d table n : length (view d table n) = n.
Proof. unfold view. by rewrite length_fmap, length_seq. Qed.

Lemma lookup_view d table n p : (p < n)%nat -> view d table n !! p = Some (slot_at d table p).
Proof. intros H. unfold view. by rewrite list_lookup_fmap, lookup_seq_lt. Qed.

Lemma view_ext d d' table n : (forall p, (p < n)%nat -> slot_at d' table p = slot_at d table p) -> view d' table n = view d table n.
Proof.
  intros H. apply list_fmap_ext. intros k p Hp. apply lookup_seq in Hp as [-> Hp]. by apply H.
Qed.

End views.

(** ** A reference execution: one row after the other *)
Section reference.
Context {V : Type} (kv : list V -> Z -> V) (pick : list V -> SampleParams -> Z).
Context (rows requests table context blocks words : Z) (Hpick : forall kvs sp, (0 <= pick kvs sp < words)%Z).

Abbreviation memory := (nat -> nat -> V).

Definition store (m : memory) (a : nat * nat) (v : V) : memory :=
  fun b o => if decide (a = (b, o)) then v else m b o.

Definition load (m : memory) (a : nat * nat) : V := m a.1 a.2.
Definition loads (m : memory) (table : list nat) (n : nat) : list V := (fun p => load m (addr table p)) <$> seq 0 n.

(** A row: the table of its request, its position, its token. *)
Abbreviation row := (list nat * nat * Z)%type.

Definition run_row (m : memory) (r : row) : memory :=
  let '(table, p, t) := r in store m (addr table p) (kv (loads m table p) t).

Definition input_rows (inp : ForwardInput) : list row :=
  zip_with (fun '(t, p) k => (nth (Z.to_nat k) (block_tables inp) [], Z.to_nat p, t))
    (zip (in_tokens inp) (positions inp)) (req_index inp).

Definition sample_row (m : memory) (rs : list row) (k : Z) (sp : SampleParams) : Z :=
  match rs !! Z.to_nat k with
  | Some (table, p, _) => pick (loads m table (S p)) sp
  | None => 0%Z
  end.

Definition reference_forward (m : memory) (inp : ForwardInput) : memory * list Z :=
  let rs := input_rows inp in
  let m := foldl run_row m rs in
  (m, imap (fun j k => sample_row m rs k (nth j (sample_params inp) {| temp := S754_zero false; top_p := S754_zero false |}))
        (logits_rows inp)).

#[local] Instance reference_runtime : Runtime := {| Device := memory; Forward := reference_forward |}.

Lemma reference_samples : RuntimeOk reference_runtime.
Proof using Type. intros m inp. apply length_imap. Qed.

#[local] Instance reference_paged : PagedRuntime reference_runtime :=
  {| KV := V; slot := fun m => m; computes := fun kvs t v => v = kv kvs t; picks := fun kvs _ sp t => t = pick kvs sp;
     device_ok := fun _ => True; max_rows := rows; max_requests := requests; max_table := table; max_position := context; max_block := blocks; max_token := words |}.

(** *** The rows of a list of chunks *)
Definition chunk_rows (c : chunk) : list row := imap (fun k t => (ck_table c, (ck_start c + k)%nat, t)) (ck_tokens c).

Lemma one_chunk_rows tables k c :
  tables !! k = Some (ck_table c) ->
  zip_with (fun '(t, p) k => (nth (Z.to_nat k) tables [], Z.to_nat p, t)) (zip (ck_tokens c) (ck_positions c)) (ck_rows k c)
  = chunk_rows c.
Proof using Type.
  intros Hk. apply list_eq. intros i. unfold chunk_rows. rewrite list_lookup_imap, !lookup_zip_with.
  unfold ck_positions, ck_rows. destruct (ck_tokens c !! i) as [t|] eqn:Ht; [|done]. pose proof (lookup_lt_Some _ _ _ Ht) as Hi.
  cbn. rewrite lookup_seqZ_lt by (unfold len; lia). cbn. rewrite (lookup_replicate_2 _ _ _ Hi). cbn.
  rewrite Nat2Z.id. rewrite (nth_lookup_Some _ _ _ _ Hk). do 3 f_equal. lia.
Qed.

Lemma input_rows_of chs : input_rows (input_of chs) = concat (chunk_rows <$> chs).
Proof using Type.
  unfold input_rows. cbn [in_tokens positions req_index block_tables input_of].
  assert (H : forall tables n rest, (forall k c, rest !! k = Some c -> tables !! (n + k)%nat = Some (ck_table c)) ->
    zip_with (fun '(t, p) k => (nth (Z.to_nat k) tables [], Z.to_nat p, t))
      (zip (concat (ck_tokens <$> rest)) (concat (ck_positions <$> rest)))
      (concat (imap (fun k => ck_rows (n + k)) rest)) = concat (chunk_rows <$> rest)).
  { intros tables n rest. revert n. induction rest as [|c rest IH]; intros n Hn; [done|].
    rewrite !fmap_cons, imap_cons. cbn [concat].
    assert (Hl : length (ck_positions c) = length (ck_tokens c)) by (unfold ck_positions, len; rewrite length_seqZ; lia).
    rewrite (zip_with_app pair (ck_tokens c)) by done. rewrite zip_with_app.
    2: { rewrite length_zip_with, Hl. unfold ck_rows. rewrite length_replicate. lia. }
    f_equal.
    - rewrite Nat.add_0_r. apply one_chunk_rows. rewrite <- (Nat.add_0_r n). by apply Hn.
    - rewrite <- (IH (S n)); [|intros k c' Hc; rewrite Nat.add_succ_comm; by apply Hn].
      f_equal. f_equal. apply imap_ext. intros k c' _. cbn. by rewrite Nat.add_succ_r. }
  apply (H (ck_table <$> chs) 0%nat chs). intros k c Hc. cbn. by rewrite list_lookup_fmap, Hc.
Qed.
(** *** Running rows that do not disturb each other *)
Definition apart (r r' : row) : Prop :=
  let '(t, p, _) := r in let '(t', p', _) := r' in forall q, (q <= p)%nat -> addr t' p' <> addr t q.

Definition self_apart (r : row) : Prop := let '(t, p, _) := r in forall q, (q < p)%nat -> addr t q <> addr t p.

Definition row_addr (r : row) : nat * nat := let '(t, p, _) := r in addr t p.

Lemma loads_ext m m' t n : (forall p, (p < n)%nat -> load m' (addr t p) = load m (addr t p)) -> loads m' t n = loads m t n.
Proof using Type. intros H. apply list_fmap_ext. intros k p Hp. apply lookup_seq in Hp as [-> Hp]. by apply H. Qed.

Lemma load_store m a a' v : load (store m a v) a' = if decide (a = a') then v else load m a'.
Proof using Type. destruct a'. unfold load, store. cbn. done. Qed.

Lemma run_rows_ok rs : StronglySorted apart rs -> Forall self_apart rs -> forall m, let m' := foldl run_row m rs in
  (forall t p tok, (t, p, tok) ∈ rs -> load m' (addr t p) = kv (loads m' t p) tok) /\
  (forall a, (forall r, r ∈ rs -> row_addr r <> a) -> load m' a = load m a).
Proof using Type.
  induction 1 as [|[[t p] tok] rs Hrs IH Hr]; intros Hs m m'; [split; [by intros ? ? ? ?%not_elem_of_nil|done]|].
  apply Forall_cons in Hs as [Hp Hs]. cbn in Hp. subst m'. cbn [foldl].
  destruct (IH Hs (run_row m (t, p, tok))) as [H1 H2]. set (m' := foldl _ _ _) in *. split.
  - intros t' p' tok' [[= -> -> ->]|Hin]%elem_of_cons; [|by apply H1].
    assert (Hq : forall q, (q <= p)%nat -> load m' (addr t q) = load (run_row m (t, p, tok)) (addr t q)).
    { intros q Hq. apply H2. intros [[t1 p1] tok1] Hr1. eapply Forall_forall in Hr; [|exact Hr1]. by apply Hr. }
    rewrite (loads_ext (run_row m (t, p, tok)) m') by (intros q Hlt; apply Hq; lia). rewrite Hq by lia.
    cbn [run_row]. rewrite load_store, decide_True by done. f_equal. symmetry. apply loads_ext.
    intros q Hlt. rewrite load_store, decide_False; [done|]. intros E. by apply (Hp q Hlt).
  - intros a Ha. rewrite H2 by (intros r Hin; apply Ha; by right). cbn [run_row]. rewrite load_store, decide_False; [done|].
    apply (Ha (t, p, tok)). by left.
Qed.

Lemma elem_chunk_rows c t p tok :
  (t, p, tok) ∈ chunk_rows c <-> exists k, t = ck_table c /\ p = (ck_start c + k)%nat /\ ck_tokens c !! k = Some tok.
Proof using Type.
  unfold chunk_rows. rewrite elem_of_lookup_imap. split.
  - intros (k & x & [= -> -> ->] & Hx). eauto.
  - intros (k & -> & -> & Hk). eauto.
Qed.

Lemma chunk_row_written c r : r ∈ chunk_rows c -> r.1.1 = ck_table c /\ written c r.1.2.
Proof using Type.
  destruct r as [[t p] tok]. intros (k & -> & -> & Hk)%elem_chunk_rows. apply lookup_lt_Some in Hk.
  unfold written, ck_end. cbn. split; [done|lia].
Qed.

Lemma StronglySorted_by_index {A} (R : relation A) l :
  (forall i j x y, (i < j)%nat -> l !! i = Some x -> l !! j = Some y -> R x y) -> StronglySorted R l.
Proof using Type.
  induction l as [|x l IH]; intros H; constructor.
  - apply IH. intros i j y z Hij Hi Hj. apply (H (S i) (S j)); [lia|done..].
  - apply Forall_lookup_2. intros j y Hj. apply (H 0%nat (S j)); [lia|done..].
Qed.

Lemma chunks_sorted chs : chunks_ok chs -> StronglySorted apart (concat (chunk_rows <$> chs)).
Proof using Type.
  intros [_ _ _ _ Hap]. induction chs as [|c chs IH]; [constructor|]. cbn [fmap list_fmap concat].
  apply StronglySorted_app_2.
  - intros [[t p] tok] [[t' p'] tok'] [Ht Hp]%chunk_row_written H' q Hq E. cbn in *. subst t.
    apply list_elem_of_In, in_concat in H' as (l & Hl & H'). apply list_elem_of_In, list_elem_of_fmap in Hl as (c' & -> & Hc').
    apply list_elem_of_In, chunk_row_written in H' as [Ht' Hp']. cbn in *. subst t'.
    apply list_elem_of_lookup in Hc' as [j Hj].
    destruct (Hap (S j) 0%nat c' c p' q) as [? _]; [done|done|done|unfold written in Hp; lia|done|done].
  - unfold chunk_rows. apply StronglySorted_by_index. intros i j [[t p] tok] [[t' p'] tok'] Hij Hi Hj.
    rewrite list_lookup_imap in Hi, Hj. destruct (ck_tokens c !! i) eqn:Ei; [|done]. destruct (ck_tokens c !! j) eqn:Ej; [|done].
    cbn in Hi, Hj. injection Hi as <- <- <-. injection Hj as <- <- <-. intros q Hq E.
    apply lookup_lt_Some in Ei, Ej.
    destruct (Hap 0%nat 0%nat c c (ck_start c + j)%nat q) as [_ ?]; [done|done|unfold written, ck_end; lia|unfold ck_end; lia|done|lia].
  - apply IH. intros i j c1 c2 p q Hi Hj Hw Hq E. destruct (Hap (S i) (S j) c1 c2 p q) as [? ?]; [done..|]. by split; [lia|].
Qed.

Lemma chunks_self_apart chs : chunks_ok chs -> Forall self_apart (concat (chunk_rows <$> chs)).
Proof using Type.
  intros [_ _ _ _ Hap]. apply Forall_concat, Forall_fmap, Forall_forall. intros c Hc. apply Forall_forall.
  intros [[t p] tok] [Ht Hp]%chunk_row_written q Hq E. cbn in *. subst t. apply list_elem_of_lookup in Hc as [i Hi].
  destruct (Hap i i c c p q) as [_ ?]; [done|done|done|unfold written in Hp; lia|done|lia].
Qed.
(** *** The samples *)
Definition no_params : SampleParams := {| temp := S754_zero false; top_p := S754_zero false |}.

Lemma length_chunk_rows c : length (chunk_rows c) = length (ck_tokens c).
Proof using Type. apply length_imap. Qed.

Lemma last_chunk_row c rs0 rest :
  ck_tokens c <> [] ->
  exists p tok, (rs0 ++ chunk_rows c ++ rest) !! Z.to_nat (len rs0 + len (ck_tokens c) - 1) = Some (ck_table c, p, tok) /\
    S p = ck_end c.
Proof using Type.
  intros Hne. assert (0 < length (ck_tokens c))%nat as Hl by (destruct (ck_tokens c); [done|simpl; lia]).
  destruct (lookup_lt_is_Some_2 (ck_tokens c) (length (ck_tokens c) - 1)) as [tok Ht]; [lia|].
  exists (ck_start c + (length (ck_tokens c) - 1))%nat, tok. split; [|unfold ck_end; lia].
  rewrite lookup_app_r by (unfold len; lia). rewrite lookup_app_l by (rewrite length_chunk_rows; unfold len; lia).
  replace (Z.to_nat (len rs0 + len (ck_tokens c) - 1) - length rs0)%nat with (length (ck_tokens c) - 1)%nat by (unfold len; lia).
  unfold chunk_rows. rewrite list_lookup_imap, Ht. done.
Qed.

Lemma samples_of_chunks m rest : forall rs0 ps0,
  (forall c, c ∈ rest -> ck_tokens c <> []) ->
  Forall2 (fun c t => exists sp t0, ck_sample c = Some sp /\ last (ck_tokens c) = Some t0 /\ t = pick (loads m (ck_table c) (ck_end c)) sp)
    (filter (fun c => is_Some (ck_sample c)) rest)
    (imap (fun j k => sample_row m (rs0 ++ concat (chunk_rows <$> rest)) k (nth (length ps0 + j) (ps0 ++ omap ck_sample rest) no_params))
       (sampled_rows (len rs0) rest)).
Proof using Type.
  induction rest as [|c rest IH]; intros rs0 ps0 Hne; [constructor|].
  assert (Htail : forall c', c' ∈ rest -> ck_tokens c' <> []) by (intros c' Hc'; apply Hne; by right).
  assert (Hlen : (len rs0 + len (ck_tokens c))%Z = len (rs0 ++ chunk_rows c)).
  { unfold len. rewrite length_app, length_chunk_rows. lia. }
  rewrite fmap_cons. cbn [concat sampled_rows omap list_omap]. rewrite Hlen, filter_cons, app_assoc.
  destruct (ck_sample c) as [sp|] eqn:Es; cbn [app].
  - rewrite decide_True by by eexists. cbn [imap]. constructor.
    + destruct (last (ck_tokens c)) as [t0|] eqn:Et; [|apply last_None in Et; exfalso; by apply (Hne c); [left|]].
      exists sp, t0. split; [done|]. split; [done|]. destruct (last_chunk_row c rs0 (concat (chunk_rows <$> rest))) as (p & tok & Hp & HS); [apply Hne; by left|].
      rewrite <- Hlen in *. unfold sample_row. rewrite <- app_assoc, Hp, HS. f_equal.
      rewrite Nat.add_0_r, app_nth2, Nat.sub_diag by lia. done.
    + specialize (IH (rs0 ++ chunk_rows c) (ps0 ++ [sp]) Htail). 
      erewrite imap_ext; [exact IH|]. intros j k _. cbn. rewrite length_app, <- (app_assoc ps0), <- Nat.add_assoc. done.
  - rewrite decide_False by by intros [? ?]. apply IH, Htail.
Qed.

Lemma reference_ok : PagedRuntimeOk reference_runtime reference_paged.
Proof using Hpick.
  split.
  2: { intros m inp. apply Forall_lookup. intros j t Hj. cbn [Forward reference_runtime reference_forward snd] in Hj.
    rewrite list_lookup_imap in Hj. destruct (logits_rows inp !! j) as [k|]; [|done]. injection Hj as <-. unfold sample_row.
    destruct (_ !! Z.to_nat k) as [[[tb p] t]|]; [apply Hpick|]. pose proof (Hpick [] {| temp := S754_zero false; top_p := S754_zero false |}). cbn [max_token reference_paged]. lia. }
  intros m chs _ Hok. cbn [Forward reference_runtime]. unfold reference_forward. rewrite input_rows_of. cbn [fst snd].
  destruct (run_rows_ok _ (chunks_sorted chs Hok) (chunks_self_apart chs Hok) m) as [H1 H2]. split.
  - intros c k t Hc Ht. apply (H1 (ck_table c) (ck_start c + k)%nat t).
    apply list_elem_of_In, in_concat. exists (chunk_rows c). split; apply list_elem_of_In; [by apply list_elem_of_fmap_2|].
    apply elem_chunk_rows. eauto.
  - intros b o _ Hw. apply (H2 (b, o)). intros [[t p] tok] Hr E. apply list_elem_of_In, in_concat in Hr as (l & Hl & Hr).
    apply list_elem_of_In, list_elem_of_fmap in Hl as (c & -> & Hc). apply list_elem_of_In, chunk_row_written in Hr as [Ht Hp].
    cbn in *. subst t. by apply (Hw c p).
  - apply (samples_of_chunks _ chs [] []). intros c Hc. by apply (ok_chunk _ Hok).
  - done.
Qed.

End reference.
