(* ===== verification/StepContext.v ===== *)
(** * What the kernels are told about a batch

    Models [StepContext] of [engine/src/model_runtime.h] and [model_runtime.cu]: before the
    kernels run, [PrepareInputs] copies the rows of a [ForwardInput] to the device and
    derives what the attention kernels need - where the rows of each request start, how many
    there are, which requests decode one token and which prefill several, and the block
    tables packed with a fixed stride.

    A buffer is the list of its elements; writing or copying past its end is [Panic]. The
    random numbers of the sampler are an argument. The property says that the buffers
    describe the chunks of the batch ([PagedRuntime.chunk]) and that nothing overflows. *)

From Stdlib Require Import Floats.SpecFloat.
From S2P Require Import Prelude GoStrings Chatml Client Generate BlockAllocator Sequence Scheduler PagedRuntime.
Local Open Scope go_scope.

(** ** Buffers *)
Definition zindex {A} (l : list A) (i : Z) : run A := if (i <? 0)%Z then Panic else index_at l (Z.to_nat i).

Definition set_at {A} (l : list A) (i : Z) (x : A) : run (list A) :=
  if (0 <=? i)%Z && (i <? len l)%Z then Ret (<[Z.to_nat i := x]> l) else Panic.

(** The first [n] elements. *)
Definition upload {A} (dst src : list A) (n : nat) : run (list A) :=
  if (n <=? length src)%nat && (n <=? length dst)%nat then Ret (take n src ++ drop n dst) else Panic.

Record StagedBuffer (A : Type) := { dev : list A; host : list A }.
Arguments dev {A}. Arguments host {A}.

Definition Flush {A} (b : StagedBuffer A) (n : nat) : run (StagedBuffer A) :=
  let* d := upload (dev b) (host b) n in Ret {| dev := d; host := host b |}.

Definition set_host {A} (b : StagedBuffer A) (h : list A) : StagedBuffer A := {| dev := dev b; host := h |}.

Record StepContext := {
  ids : list Z;
  pos : list Z;
  req : list Z;
  lrows : list Z;
  qstart : StagedBuffer Z;
  qlen : StagedBuffer Z;
  decode_rids : StagedBuffer Z;
  prefill_rids : StagedBuffer Z;
  bt : StagedBuffer Z;
  invT : StagedBuffer float32;
  topp : StagedBuffer float32;
  u : StagedBuffer float32;
  max_blocks : Z;
  n_rows : Z;
  n_sample : Z;
  n_decode : Z;
  n_prefill : Z;
  prefill_max_qlen : Z;
}.

(** The groups of fields the steps fill. *)
Definition set_rows (c : StepContext) (i p r : list Z) : StepContext :=
  {| ids := i; pos := p; req := r; lrows := lrows c; qstart := qstart c; qlen := qlen c; decode_rids := decode_rids c;
     prefill_rids := prefill_rids c; bt := bt c; invT := invT c; topp := topp c; u := u c; max_blocks := max_blocks c;
     n_rows := n_rows c; n_sample := n_sample c; n_decode := n_decode c; n_prefill := n_prefill c;
     prefill_max_qlen := prefill_max_qlen c |}.
Definition set_n_rows (c : StepContext) (n : Z) : StepContext :=
  {| ids := ids c; pos := pos c; req := req c; lrows := lrows c; qstart := qstart c; qlen := qlen c;
     decode_rids := decode_rids c; prefill_rids := prefill_rids c; bt := bt c; invT := invT c; topp := topp c; u := u c;
     max_blocks := max_blocks c; n_rows := n; n_sample := n_sample c; n_decode := n_decode c; n_prefill := n_prefill c;
     prefill_max_qlen := prefill_max_qlen c |}.
Definition set_tables (c : StepContext) (t : StagedBuffer Z) : StepContext :=
  {| ids := ids c; pos := pos c; req := req c; lrows := lrows c; qstart := qstart c; qlen := qlen c;
     decode_rids := decode_rids c; prefill_rids := prefill_rids c; bt := t; invT := invT c; topp := topp c; u := u c;
     max_blocks := max_blocks c; n_rows := n_rows c; n_sample := n_sample c; n_decode := n_decode c;
     n_prefill := n_prefill c; prefill_max_qlen := prefill_max_qlen c |}.
Definition set_split (c : StepContext) (qs ql dr pr : StagedBuffer Z) (nd np mx : Z) : StepContext :=
  {| ids := ids c; pos := pos c; req := req c; lrows := lrows c; qstart := qs; qlen := ql; decode_rids := dr;
     prefill_rids := pr; bt := bt c; invT := invT c; topp := topp c; u := u c; max_blocks := max_blocks c;
     n_rows := n_rows c; n_sample := n_sample c; n_decode := nd; n_prefill := np; prefill_max_qlen := mx |}.
Definition set_sampling (c : StepContext) (lr : list Z) (it tp ud : StagedBuffer float32) (n : Z) : StepContext :=
  {| ids := ids c; pos := pos c; req := req c; lrows := lr; qstart := qstart c; qlen := qlen c;
     decode_rids := decode_rids c; prefill_rids := prefill_rids c; bt := bt c; invT := it; topp := tp; u := ud;
     max_blocks := max_blocks c; n_rows := n_rows c; n_sample := n; n_decode := n_decode c; n_prefill := n_prefill c;
     prefill_max_qlen := prefill_max_qlen c |}.

(** Device memory starts with any contents. *)
Definition new_staged {A} (a : A) (n : nat) : StagedBuffer A := {| dev := replicate n a; host := replicate n a |}.

Definition new_StepContext (max_rows slots max_ctx junk : Z) : StepContext :=
  let rows := Z.to_nat max_rows in
  let n := Z.to_nat slots in
  let max_blocks := Z.quot (max_ctx + kKvBlock - 1) kKvBlock in
  {| ids := replicate rows junk; pos := replicate rows junk; req := replicate rows junk; lrows := replicate n junk;
     qstart := new_staged 0%Z n; qlen := new_staged 0%Z n; decode_rids := new_staged 0%Z n; prefill_rids := new_staged 0%Z n;
     bt := new_staged 0%Z (Z.to_nat (slots * max_blocks));
     invT := new_staged (S754_zero false) n; topp := new_staged (S754_zero false) n; u := new_staged (S754_zero false) n;
     max_blocks := max_blocks; n_rows := 0; n_sample := 0; n_decode := 0; n_prefill := 0; prefill_max_qlen := 1 |}.

(** ** Block tables *)
Fixpoint pack_row (h : list Z) (at_ : Z) (blocks : list nat) : run (list Z) :=
  match blocks with
  | [] => Ret h
  | b :: blocks => let* h := set_at h at_ (Z.of_nat b) in pack_row h (at_ + 1) blocks
  end.

Fixpoint pack_rows (h : list Z) (max_blocks r : Z) (tables : list (list nat)) : run (list Z) :=
  match tables with
  | [] => Ret h
  | t :: tables => let* h := pack_row h (r * max_blocks) t in pack_rows h max_blocks (r + 1) tables
  end.

Definition PackBlockTables (ctx : StepContext) (inp : ForwardInput) : run StepContext :=
  let* h := pack_rows (host (bt ctx)) (max_blocks ctx) 0 (block_tables inp) in
  let* bt := Flush (set_host (bt ctx) h) (Z.to_nat (len (block_tables inp) * max_blocks ctx)) in
  Ret (set_tables ctx bt).

(** ** Rows by request *)

(** [qlen[r] = 0] for [r < n]. *)
Fixpoint clear_counts (h : list Z) (r : Z) (n : nat) : run (list Z) :=
  match n with
  | O => Ret h
  | S n => let* h := set_at h r 0%Z in clear_counts h (r + 1) n
  end.

Fixpoint count_rows (h : list Z) (req_index : list Z) (t : Z) (n : nat) : run (list Z) :=
  match n with
  | O => Ret h
  | S n =>
      let* r := zindex req_index t in
      let* c := zindex h r in
      let* h := set_at h r (c + 1)%Z in
      count_rows h req_index (t + 1) n
  end.

Fixpoint prefix_sums (h qlen : list Z) (acc r : Z) (n : nat) : run (list Z) :=
  match n with
  | O => Ret h
  | S n =>
      let* h := set_at h r acc in
      let* c := zindex qlen r in
      prefix_sums h qlen (acc + c) (r + 1) n
  end.

Record split := { s_decode : list Z; s_prefill : list Z; s_n_decode : Z; s_n_prefill : Z; s_max : Z }.

Fixpoint split_requests (s : split) (qlen : list Z) (r : Z) (n : nat) : run split :=
  match n with
  | O => Ret s
  | S n =>
      let* c := zindex qlen r in
      let* s := (if (c =? 1)%Z then
                   let* h := set_at (s_decode s) (s_n_decode s) r in
                   Ret {| s_decode := h; s_prefill := s_prefill s; s_n_decode := s_n_decode s + 1;
                          s_n_prefill := s_n_prefill s; s_max := s_max s |}
                 else
                   let* h := set_at (s_prefill s) (s_n_prefill s) r in
                   Ret {| s_decode := s_decode s; s_prefill := h; s_n_decode := s_n_decode s;
                          s_n_prefill := s_n_prefill s + 1; s_max := Z.max (s_max s) c |})%Z in
      split_requests s qlen (r + 1) n
  end.

Definition flush_some (b : StagedBuffer Z) (n : Z) : run (StagedBuffer Z) :=
  if (n =? 0)%Z then Ret b else Flush b (Z.to_nat n).

Definition SplitDecodePrefill (ctx : StepContext) (inp : ForwardInput) : run StepContext :=
  let n := length (block_tables inp) in
  let* ql := clear_counts (host (qlen ctx)) 0 n in
  let* ql := count_rows ql (req_index inp) 0 (Z.to_nat (n_rows ctx)) in
  let* qs := prefix_sums (host (qstart ctx)) ql 0 0 n in
  let* qstart := Flush (set_host (qstart ctx) qs) n in
  let* qlen := Flush (set_host (qlen ctx) ql) n in
  let* s := split_requests {| s_decode := host (decode_rids ctx); s_prefill := host (prefill_rids ctx);
                              s_n_decode := 0; s_n_prefill := 0; s_max := 1 |} ql 0 n in
  let* decode := flush_some (set_host (decode_rids ctx) (s_decode s)) (s_n_decode s) in
  let* prefill := flush_some (set_host (prefill_rids ctx) (s_prefill s)) (s_n_prefill s) in
  Ret (set_split ctx qstart qlen decode prefill (s_n_decode s) (s_n_prefill s) (s_max s)).

(** ** Sampling *)
Definition inverse_temp (t : float32) : float32 :=
  if float_positive t then SFdiv 24 128 one_f t else S754_zero false.

(** [draws] are the numbers the generator gives, one per row to sample. *)
Fixpoint fill_sampling (hi ht hu : list float32) (sps : list SampleParams) (draws : list float32) (i : Z) (n : nat)
    : run (list float32 * list float32 * list float32) :=
  match n with
  | O => Ret (hi, ht, hu)
  | S n =>
      let* sp := zindex sps i in
      let* d := zindex draws i in
      let* hi := set_at hi i (inverse_temp (temp sp)) in
      let* ht := set_at ht i (top_p sp) in
      let* hu := set_at hu i d in
      fill_sampling hi ht hu sps draws (i + 1) n
  end.

Definition FillSampling (ctx : StepContext) (inp : ForwardInput) (draws : list float32) : run StepContext :=
  let n := length (logits_rows inp) in
  let* lr := upload (lrows ctx) (logits_rows inp) n in
  let* (hi, ht, hu) := fill_sampling (host (invT ctx)) (host (topp ctx)) (host (u ctx)) (sample_params inp) draws 0 n in
  let* invT := Flush (set_host (invT ctx) hi) n in
  let* topp := Flush (set_host (topp ctx) ht) n in
  let* u := Flush (set_host (u ctx) hu) n in
  Ret (set_sampling ctx lr invT topp u (Z.of_nat n)).

(** ** A step *)
Definition UploadRows (ctx : StepContext) (inp : ForwardInput) : run StepContext :=
  let n := Z.to_nat (n_rows ctx) in
  let* i := upload (ids ctx) (in_tokens inp) n in
  let* p := upload (pos ctx) (positions inp) n in
  let* r := upload (req ctx) (req_index inp) n in
  Ret (set_rows ctx i p r).

Definition PrepareInputs (ctx : StepContext) (inp : ForwardInput) (draws : list float32) : run StepContext :=
  let ctx := set_n_rows ctx (len (in_tokens inp)) in
  let* ctx := UploadRows ctx inp in
  let* ctx := PackBlockTables ctx inp in
  let* ctx := SplitDecodePrefill ctx inp in
  FillSampling ctx inp draws.

(** ** Lemmas on the buffers *)
Lemma zindex_Some {A} (l : list A) (i : nat) x : l !! i = Some x -> zindex l (Z.of_nat i) = Ret x.
Proof.
  intros H. unfold zindex, index_at. rewrite (proj2 (Z.ltb_ge _ _)) by lia. by rewrite Nat2Z.id, H.
Qed.

Lemma set_at_lt {A} (l : list A) (i : nat) x : (i < length l)%nat -> set_at l (Z.of_nat i) x = Ret (<[i := x]> l).
Proof.
  intros H. unfold set_at, len. rewrite (proj2 (Z.leb_le _ _)), (proj2 (Z.ltb_lt _ _)) by lia. cbn [andb]. by rewrite Nat2Z.id.
Qed.

Lemma upload_ok {A} (dst src : list A) n : (n <= length src)%nat -> (n <= length dst)%nat ->
  upload dst src n = Ret (take n src ++ drop n dst).
Proof. intros H1 H2. unfold upload. by rewrite (proj2 (Nat.leb_le _ _) H1), (proj2 (Nat.leb_le _ _) H2). Qed.

Lemma uploaded_length {A} (dst src : list A) n : (n <= length src)%nat -> (n <= length dst)%nat ->
  length (take n src ++ drop n dst) = length dst.
Proof. intros H1 H2. rewrite length_app, length_take, length_drop. lia. Qed.

(** Consecutive elements of a buffer. *)
Definition holds {A} (l : list A) (at_ : nat) (xs : list A) : Prop := forall k x, xs !! k = Some x -> l !! (at_ + k)%nat = Some x.

Lemma holds_prefix {A} (dst src : list A) n k x : (n <= length src)%nat ->
  (k < n)%nat -> src !! k = Some x -> (take n src ++ drop n dst) !! k = Some x.
Proof. intros Hn Hk Hx. rewrite lookup_app_l by (rewrite length_take; lia). by rewrite lookup_take_lt. Qed.

(** A loop that writes [f r] at [r] for [r] in [from .. from + n). *)
Definition overwrite {A} (l : list A) (from : nat) (xs : list A) : list A := take from l ++ xs ++ drop (from + length xs) l.

Lemma overwrite_nil {A} (l : list A) from : overwrite l from [] = l.
Proof. unfold overwrite. cbn. by rewrite Nat.add_0_r, take_drop. Qed.

Lemma overwrite_length {A} (l : list A) from xs : (from + length xs <= length l)%nat -> length (overwrite l from xs) = length l.
Proof. intros H. unfold overwrite. rewrite !length_app, length_take, length_drop. lia. Qed.

Lemma overwrite_cons {A} (l : list A) from x xs : (from < length l)%nat ->
  overwrite (<[from := x]> l) (S from) xs = overwrite l from (x :: xs).
Proof.
  intros H. unfold overwrite. rewrite drop_insert_lt by lia. cbn [length].
  rewrite (take_S_r _ _ x) by (by rewrite list_lookup_insert_eq). rewrite take_insert_ge by lia.
  rewrite <- app_assoc. cbn. by rewrite Nat.add_succ_r.
Qed.

Lemma overwrite_holds {A} (l : list A) from xs : (from + length xs <= length l)%nat -> holds (overwrite l from xs) from xs.
Proof.
  intros H k x Hk. pose proof (lookup_lt_Some _ _ _ Hk). unfold overwrite.
  rewrite lookup_app_r by (rewrite length_take; lia). rewrite length_take, Nat.min_l by lia.
  rewrite lookup_app_l by lia. by replace (from + k - from)%nat with k by lia.
Qed.

Lemma overwrite_outside {A} (l : list A) from xs j : (j < from \/ from + length xs <= j)%nat -> (from + length xs <= length l)%nat ->
  overwrite l from xs !! j = l !! j.
Proof.
  intros Hj H. unfold overwrite. destruct Hj as [Hj|Hj].
  - rewrite lookup_app_l by (rewrite length_take; lia). by rewrite lookup_take_lt.
  - rewrite lookup_app_r by (rewrite length_take; lia). rewrite length_take, Nat.min_l by lia.
    rewrite lookup_app_r by lia. rewrite lookup_drop. f_equal. lia.
Qed.

Lemma overwrite_take {A} (l : list A) from xs : (from + length xs <= length l)%nat ->
  take (from + length xs) (overwrite l from xs) = take from l ++ xs.
Proof.
  intros H. unfold overwrite. rewrite app_assoc. rewrite take_app_le by (rewrite length_app, length_take; lia).
  apply take_ge. rewrite length_app, length_take. lia.
Qed.

(** ** The loops *)
Lemma pack_row_ok blocks : forall h (at_ : nat), (at_ + length blocks <= length h)%nat ->
  pack_row h (Z.of_nat at_) blocks = Ret (overwrite h at_ (Z.of_nat <$> blocks)).
Proof.
  induction blocks as [|b blocks IH]; intros h at_ Hl; cbn [pack_row fmap list_fmap]; [by rewrite overwrite_nil|].
  cbn [length] in Hl. rewrite set_at_lt by lia. cbn [run_bind]. replace (Z.of_nat at_ + 1)%Z with (Z.of_nat (S at_)) by lia.
  rewrite IH by (rewrite length_insert; lia). by rewrite overwrite_cons by lia.
Qed.

(** Row [r] starts at [r * m]; no table is longer than a row. *)
Lemma pack_rows_ok (m : nat) tables : forall h (r : nat),
  (forall t, t ∈ tables -> (length t <= m)%nat) -> ((r + length tables) * m <= length h)%nat ->
  exists h', pack_rows h (Z.of_nat m) (Z.of_nat r) tables = Ret h' /\ length h' = length h /\
    (forall j, (j < r * m)%nat -> h' !! j = h !! j) /\
    forall i t, tables !! i = Some t -> holds h' ((r + i) * m) (Z.of_nat <$> t).
Proof.
  induction tables as [|t tables IH]; intros h r Hm Hl; cbn [pack_rows]; [by exists h|].
  cbn [length] in Hl. pose proof (Hm t ltac:(by left)) as Ht.
  replace (Z.of_nat r * Z.of_nat m)%Z with (Z.of_nat (r * m)) by lia. rewrite pack_row_ok by nia. cbn [run_bind].
  set (h1 := overwrite _ _ _). assert (Hl1 : length h1 = length h) by (apply overwrite_length; rewrite length_fmap; nia).
  replace (Z.of_nat r + 1)%Z with (Z.of_nat (S r)) by lia.
  destruct (IH h1 (S r)) as (h' & -> & Hl' & Hsame & Hrows); [intros t' Ht'; apply Hm; by right|nia|].
  exists h'. split; [done|]. split; [congruence|]. split.
  - intros j Hj. rewrite Hsame by nia. apply overwrite_outside; [by left|rewrite length_fmap; nia].
  - intros [|i] t' Ht'; [injection Ht' as <-|].
    + rewrite Nat.add_0_r. intros k x Hk. pose proof (lookup_lt_Some _ _ _ Hk) as Hlt. rewrite length_fmap in Hlt.
      rewrite Hsame by nia. apply overwrite_holds; [rewrite length_fmap; nia|done].
    + replace ((r + S i) * m)%nat with ((S r + i) * m)%nat by lia. by apply Hrows.
Qed.

Lemma clear_counts_ok n : forall h (r : nat), (r + n <= length h)%nat ->
  clear_counts h (Z.of_nat r) n = Ret (overwrite h r (replicate n 0%Z)).
Proof.
  induction n as [|n IH]; intros h r Hl; cbn [clear_counts replicate]; [by rewrite overwrite_nil|].
  rewrite set_at_lt by lia. cbn [run_bind]. replace (Z.of_nat r + 1)%Z with (Z.of_nat (S r)) by lia.
  rewrite IH by (rewrite length_insert; lia). by rewrite overwrite_cons by lia.
Qed.

(** How often [r] occurs. *)
Definition occurrences (l : list Z) (r : nat) : Z := len (filter (fun x => x = Z.of_nat r) l).

Lemma count_rows_ok n : forall h l (t m : nat),
  (t + n = length l)%nat -> (forall x, x ∈ l -> (0 <= x < Z.of_nat m)%Z) -> (m <= length h)%nat ->
  exists h', count_rows h l (Z.of_nat t) n = Ret h' /\ length h' = length h /\
    (forall r c, h !! r = Some c -> h' !! r = Some (c + occurrences (drop t l) r)%Z).
Proof.
  induction n as [|n IH]; intros h l t m Ht Hl Hm; cbn [count_rows].
  { exists h. split; [done|]. split; [done|]. intros r c Hr. rewrite drop_ge by lia. unfold occurrences, len. cbn. by rewrite Z.add_0_r. }
  destruct (lookup_lt_is_Some_2 l t) as [x Hx]; [lia|]. rewrite (zindex_Some _ _ _ Hx). cbn [run_bind].
  pose proof (Hl x ltac:(by eapply list_elem_of_lookup_2)) as Hxm.
  destruct (lookup_lt_is_Some_2 h (Z.to_nat x)) as [c Hc]; [lia|].
  assert (Ex : x = Z.of_nat (Z.to_nat x)) by lia. rewrite Ex. rewrite (zindex_Some _ _ _ Hc). cbn [run_bind].
  rewrite set_at_lt by (by eapply lookup_lt_Some). cbn [run_bind]. replace (Z.of_nat t + 1)%Z with (Z.of_nat (S t)) by lia.
  destruct (IH (<[Z.to_nat x := (c + 1)%Z]> h) l (S t) m) as (h' & -> & Hl' & Hh'); [lia|done|by rewrite length_insert|].
  rewrite length_insert in Hl'. exists h'. split; [done|]. split; [done|]. intros r c' Hr.
  rewrite (drop_S _ _ _ Hx). unfold occurrences. rewrite filter_cons. destruct (decide (r = Z.to_nat x)) as [-> |Hne].
  - rewrite Hc in Hr. injection Hr as <-. rewrite decide_True by done.
    rewrite (Hh' (Z.to_nat x) (c + 1)%Z) by (apply list_lookup_insert_eq; by eapply lookup_lt_Some).
    f_equal. unfold occurrences, len. cbn [length]. lia.
  - rewrite decide_False by lia. apply Hh'. by rewrite list_lookup_insert_ne.
Qed.

(** The sums of the first elements. *)
Fixpoint sums (acc : Z) (l : list Z) : list Z :=
  match l with [] => [] | c :: l => acc :: sums (acc + c) l end.

Lemma length_sums acc l : length (sums acc l) = length l.
Proof. revert acc. induction l as [|c l IH]; intros acc; [done|]. cbn. by rewrite IH. Qed.

Lemma lookup_sums l : forall acc k, (k < length l)%nat -> sums acc l !! k = Some (acc + foldr Z.add 0%Z (take k l))%Z.
Proof.
  induction l as [|c l IH]; intros acc [|k] Hk; simpl in Hk |- *; [lia|lia|f_equal; lia|]. rewrite IH by lia. f_equal. lia.
Qed.

Lemma prefix_sums_ok n : forall h ql acc (r : nat), (r + n <= length h)%nat -> (r + n <= length ql)%nat ->
  prefix_sums h ql acc (Z.of_nat r) n = Ret (overwrite h r (sums acc (take n (drop r ql)))).
Proof.
  induction n as [|n IH]; intros h ql acc r Hl Hq; cbn [prefix_sums]; [rewrite take_0; cbn [sums]; by rewrite overwrite_nil|].
  rewrite set_at_lt by lia. cbn [run_bind]. destruct (lookup_lt_is_Some_2 ql r) as [c Hc]; [lia|].
  rewrite (zindex_Some _ _ _ Hc). cbn [run_bind]. replace (Z.of_nat r + 1)%Z with (Z.of_nat (S r)) by lia.
  rewrite IH by (rewrite ?length_insert; lia). rewrite (drop_S _ _ _ Hc). cbn [firstn sums]. by rewrite overwrite_cons by lia.
Qed.

(** The requests [r .. r + length counts) by what they do. *)
Fixpoint which (p : Z -> bool) (r : nat) (counts : list Z) : list Z :=
  match counts with
  | [] => []
  | c :: counts => (if p c then [Z.of_nat r] else []) ++ which p (S r) counts
  end.

Definition decodes (c : Z) : bool := (c =? 1)%Z.
Definition prefills (c : Z) : bool := negb (c =? 1)%Z.

Lemma split_requests_ok n : forall s ql (r : nat),
  (r + n <= length ql)%nat -> (0 <= s_n_decode s)%Z -> (0 <= s_n_prefill s)%Z ->
  (s_n_decode s + Z.of_nat n <= len (s_decode s))%Z -> (s_n_prefill s + Z.of_nat n <= len (s_prefill s))%Z ->
  let counts := take n (drop r ql) in
  split_requests s ql (Z.of_nat r) n = Ret
    {| s_decode := overwrite (s_decode s) (Z.to_nat (s_n_decode s)) (which decodes r counts);
       s_prefill := overwrite (s_prefill s) (Z.to_nat (s_n_prefill s)) (which prefills r counts);
       s_n_decode := s_n_decode s + len (which decodes r counts);
       s_n_prefill := s_n_prefill s + len (which prefills r counts);
       s_max := foldl Z.max (s_max s) (filter (fun c => prefills c = true) counts) |}.
Proof.
  induction n as [|n IH]; intros s ql r Hq H1 H2 H3 H4; cbn [split_requests].
  { rewrite take_0. cbn [which]. rewrite !overwrite_nil. unfold len. cbn. rewrite !Z.add_0_r. by destruct s. }
  destruct (lookup_lt_is_Some_2 ql r) as [c Hc]; [lia|]. rewrite (zindex_Some _ _ _ Hc). cbn [run_bind].
  rewrite (drop_S _ _ _ Hc). cbn [firstn which]. rewrite filter_cons. replace (Z.of_nat r + 1)%Z with (Z.of_nat (S r)) by lia.
  unfold decodes, prefills in *. unfold len in *. destruct (c =? 1)%Z eqn:E; cbn [negb app].
  - replace (s_n_decode s) with (Z.of_nat (Z.to_nat (s_n_decode s))) at 1 by lia. rewrite set_at_lt by lia. cbn [run_bind].
    rewrite IH; cbn [s_decode s_prefill s_n_decode s_n_prefill s_max]; rewrite ?length_insert; [|lia..].
    rewrite decide_False by done. replace (Z.to_nat (s_n_decode s + 1)) with (S (Z.to_nat (s_n_decode s))) by lia.
    rewrite overwrite_cons by lia. cbn [length]. do 2 f_equal. lia.
  - replace (s_n_prefill s) with (Z.of_nat (Z.to_nat (s_n_prefill s))) at 1 by lia. rewrite set_at_lt by lia. cbn [run_bind].
    rewrite IH; cbn [s_decode s_prefill s_n_decode s_n_prefill s_max]; rewrite ?length_insert; [|lia..].
    rewrite decide_True by done. replace (Z.to_nat (s_n_prefill s + 1)) with (S (Z.to_nat (s_n_prefill s))) by lia.
    rewrite overwrite_cons by lia. cbn [length foldl]. do 2 f_equal. lia.
Qed.

(** ** The input of a list of chunks *)
Definition counts (chs : list chunk) : list Z := (fun c => len (ck_tokens c)) <$> chs.

(** The first row of chunk [r]. *)
Definition first_row (chs : list chunk) (r : nat) : nat := length (concat (take r (ck_tokens <$> chs))).

Lemma lookup_concat_nth {A} (ls : list (list A)) r l k x :
  ls !! r = Some l -> l !! k = Some x -> concat ls !! (length (concat (take r ls)) + k)%nat = Some x.
Proof.
  intros Hr Hk. assert (concat ls = concat (take r ls) ++ concat (drop r ls)) as -> by (rewrite <- concat_app; by rewrite take_drop).
  rewrite lookup_app_r by lia.
  rewrite (drop_S _ _ _ Hr). cbn [concat]. rewrite lookup_app_l by (apply lookup_lt_Some in Hk; lia).
  by replace (_ + k - _)%nat with k by lia.
Qed.

Lemma length_concat_same {A B} (ls : list (list A)) (ls' : list (list B)) :
  Forall2 (fun l l' => length l = length l') ls ls' -> length (concat ls) = length (concat ls').
Proof. induction 1 as [|l l' ls ls' Hl _ IH]; [done|]. cbn. rewrite !length_app. lia. Qed.

Lemma length_ck_positions c : length (ck_positions c) = length (ck_tokens c).
Proof. unfold ck_positions. rewrite length_seqZ. unfold len. lia. Qed.

Lemma length_ck_rows k c : length (ck_rows k c) = length (ck_tokens c).
Proof. unfold ck_rows. by rewrite length_replicate. Qed.

Lemma same_positions chs : Forall2 (fun l l' => length l = length l') (ck_positions <$> chs) (ck_tokens <$> chs).
Proof. apply Forall2_fmap, Forall_Forall2_diag, Forall_forall. intros c _. apply length_ck_positions. Qed.

Lemma same_rows chs : Forall2 (fun l l' => length l = length l') (imap ck_rows chs) (ck_tokens <$> chs).
Proof.
  apply Forall2_same_length_lookup_2; [by rewrite length_imap, length_fmap|]. intros i l l' Hi Hi'.
  rewrite list_lookup_imap in Hi. rewrite list_lookup_fmap in Hi'. destruct (chs !! i); [|done].
  injection Hi as <-. injection Hi' as <-. apply length_ck_rows.
Qed.

Lemma input_lengths chs : length (positions (input_of chs)) = length (in_tokens (input_of chs)) /\
  length (req_index (input_of chs)) = length (in_tokens (input_of chs)).
Proof. split; apply length_concat_same; [apply same_positions|apply same_rows]. Qed.

(** Row [k] of chunk [r]. *)
Lemma input_row chs r c k t : chs !! r = Some c -> ck_tokens c !! k = Some t ->
  let m := (first_row chs r + k)%nat in
  in_tokens (input_of chs) !! m = Some t /\ positions (input_of chs) !! m = Some (Z.of_nat (ck_start c + k)) /\
  req_index (input_of chs) !! m = Some (Z.of_nat r).
Proof.
  intros Hr Hk m. unfold m, first_row. pose proof (lookup_lt_Some _ _ _ Hk) as Hlt. split; [|split].
  - apply (lookup_concat_nth _ r (ck_tokens c)); [by rewrite list_lookup_fmap, Hr|done].
  - rewrite <- (length_concat_same (take r (ck_positions <$> chs))) by by apply Forall2_take, same_positions.
    apply (lookup_concat_nth _ r (ck_positions c)); [by rewrite list_lookup_fmap, Hr|].
    unfold ck_positions. rewrite lookup_seqZ_lt by (unfold len; lia). f_equal. lia.
  - rewrite <- (length_concat_same (take r (imap ck_rows chs))) by by apply Forall2_take, same_rows.
    apply (lookup_concat_nth _ r (ck_rows r c)); [by rewrite list_lookup_imap, Hr|]. by apply lookup_replicate_2.
Qed.

Lemma occurrences_app l l' r : occurrences (l ++ l') r = (occurrences l r + occurrences l' r)%Z.
Proof. unfold occurrences, len. rewrite filter_app, length_app. lia. Qed.

Lemma occurrences_replicate n (k r : nat) : occurrences (replicate n (Z.of_nat k)) r = if decide (k = r) then Z.of_nat n else 0%Z.
Proof.
  unfold occurrences, len. induction n as [|n IH]; cbn [replicate]; [by case_decide|]. rewrite filter_cons.
  case_decide as H1; case_decide as H2; cbn [length] in *; lia.
Qed.

Lemma occurrences_rows chs r : occurrences (req_index (input_of chs)) r = default 0%Z (counts chs !! r).
Proof.
  cbn [req_index input_of]. assert (H : forall n, occurrences (concat (imap (fun k => ck_rows (n + k)) chs)) r =
    if decide (n <= r)%nat then default 0%Z (counts chs !! (r - n)%nat) else 0%Z).
  2: { specialize (H 0%nat). cbn [Nat.add] in H. rewrite decide_True, Nat.sub_0_r in H by lia. exact H. }
  induction chs as [|c chs IH]; intros n; [by case_decide|]. rewrite imap_cons. cbn [concat]. rewrite occurrences_app.
  erewrite imap_ext; [|intros k x _; cbn; by rewrite Nat.add_succ_r]. change (fun k x => ck_rows (S (n + k)) x) with (fun k => ck_rows (S n + k)).
  rewrite IH, Nat.add_0_r. unfold ck_rows at 1. rewrite occurrences_replicate.
  destruct (decide (n = r)) as [<-|Hne].
  - rewrite (decide_False (P := (S n <= n)%nat)), (decide_True (P := (n <= n)%nat)) by lia. rewrite Nat.sub_diag. unfold counts, len. cbn. lia.
  - destruct (decide (S n <= r)%nat) as [Hlt|Hge].
    + rewrite decide_True by lia. replace (r - n)%nat with (S (r - S n)) by lia. unfold counts. cbn. by rewrite Z.add_0_l.
    + rewrite decide_False by lia. lia.
Qed.

Lemma req_index_range chs x : x ∈ req_index (input_of chs) -> (0 <= x < len chs)%Z.
Proof.
  intros Hx. apply list_elem_of_In, in_concat in Hx as (l & Hl & Hx). apply list_elem_of_In, elem_of_lookup_imap in Hl as (k & c & -> & Hk).
  apply list_elem_of_In in Hx. unfold ck_rows in Hx. apply elem_of_replicate in Hx as [-> _]. apply lookup_lt_Some in Hk. unfold len. lia.
Qed.

Lemma first_row_sum chs r : Z.of_nat (first_row chs r) = foldr Z.add 0%Z (take r (counts chs)).
Proof.
  unfold first_row, counts. revert r. induction chs as [|c chs IH]; intros [|r]; [done..|].
  cbn [fmap list_fmap firstn concat foldr]. rewrite length_app, Nat2Z.inj_add, IH. done.
Qed.

(** ** The steps *)
Definition staged_size {A} (b : StagedBuffer A) (n : nat) : Prop := length (dev b) = n /\ length (host b) = n.

(** The sizes the buffers are made with. *)
Record sized (ctx : StepContext) (rows slots blocks : nat) : Prop := {
  sz_ids : length (ids ctx) = rows;
  sz_pos : length (pos ctx) = rows;
  sz_req : length (req ctx) = rows;
  sz_lrows : length (lrows ctx) = slots;
  sz_qstart : staged_size (qstart ctx) slots;
  sz_qlen : staged_size (qlen ctx) slots;
  sz_decode : staged_size (decode_rids ctx) slots;
  sz_prefill : staged_size (prefill_rids ctx) slots;
  sz_bt : staged_size (bt ctx) (slots * blocks);
  sz_invT : staged_size (invT ctx) slots;
  sz_topp : staged_size (topp ctx) slots;
  sz_u : staged_size (u ctx) slots;
  sz_blocks : max_blocks ctx = Z.of_nat blocks;
}.

Lemma new_StepContext_sized max_rows slots max_ctx junk : (0 <= slots)%Z -> (0 <= max_ctx)%Z ->
  sized (new_StepContext max_rows slots max_ctx junk) (Z.to_nat max_rows) (Z.to_nat slots) (Z.to_nat (BlocksFor max_ctx)).
Proof.
  intros Hs Hm. assert (0 <= BlocksFor max_ctx)%Z as Hb by (unfold BlocksFor, kKvBlock; apply Z.quot_pos; lia).
  split; cbn; unfold staged_size, new_staged; cbn; rewrite ?length_replicate; try done.
  - change (Z.quot (max_ctx + kKvBlock - 1) kKvBlock) with (BlocksFor max_ctx). lia.
  - change (Z.quot (max_ctx + kKvBlock - 1) kKvBlock) with (BlocksFor max_ctx). lia.
Qed.

Lemma Flush_ok {A} (b : StagedBuffer A) h n slots : staged_size b slots -> length h = slots -> (n <= slots)%nat ->
  Flush (set_host b h) n = Ret {| dev := take n h ++ drop n (dev b); host := h |} /\
  staged_size {| dev := take n h ++ drop n (dev b); host := h |} slots.
Proof.
  intros [Hd Hh] Hl Hn. unfold Flush. cbn [set_host host dev]. rewrite upload_ok by lia. split; [done|].
  split; cbn; [rewrite uploaded_length; lia|done].
Qed.

Section prepare.
Context (chs : list chunk) (rows slots blocks : nat).
Context (Hrows : (length (in_tokens (input_of chs)) <= rows)%nat) (Hslots : (length chs <= slots)%nat).
Context (Hblocks : forall c, c ∈ chs -> (length (ck_table c) <= blocks)%nat).

Lemma UploadRows_ok ctx : sized ctx rows slots blocks -> n_rows ctx = len (in_tokens (input_of chs)) ->
  exists i p r, UploadRows ctx (input_of chs) = Ret (set_rows ctx i p r) /\ sized (set_rows ctx i p r) rows slots blocks /\
    holds i 0 (in_tokens (input_of chs)) /\ holds p 0 (positions (input_of chs)) /\ holds r 0 (req_index (input_of chs)).
Proof using Hrows.
  clear Hslots Hblocks. intros Hs Hn. destruct (input_lengths chs) as [Ep Er]. unfold UploadRows. rewrite Hn. unfold len. rewrite Nat2Z.id.
  pose proof (sz_ids _ _ _ _ Hs). pose proof (sz_pos _ _ _ _ Hs). pose proof (sz_req _ _ _ _ Hs).
  rewrite !upload_ok by lia. cbn [run_bind].
  do 3 eexists. split; [done|]. split.
  - destruct Hs. split; cbn [set_rows ids pos req]; try done; rewrite uploaded_length; lia.
  - split_and!; intros k x Hk; pose proof (lookup_lt_Some _ _ _ Hk); apply holds_prefix; (done || lia).
Qed.

Lemma PackBlockTables_ok ctx : sized ctx rows slots blocks ->
  exists t, PackBlockTables ctx (input_of chs) = Ret (set_tables ctx t) /\ sized (set_tables ctx t) rows slots blocks /\
    forall r c, chs !! r = Some c -> holds (dev t) (r * blocks) (Z.of_nat <$> ck_table c).
Proof using Hslots Hblocks.
  clear Hrows. intros Hs. unfold PackBlockTables. rewrite (sz_blocks _ _ _ _ Hs). destruct (sz_bt _ _ _ _ Hs) as [Hd Hh].
  cbn [block_tables input_of]. destruct (pack_rows_ok blocks (ck_table <$> chs) (host (bt ctx)) 0) as (h & E & Hl & _ & Hrow).
  { intros t (c & -> & Hc)%list_elem_of_fmap. by apply Hblocks. }
  { rewrite length_fmap, Hh. cbn. by apply Nat.mul_le_mono_r. }
  change (Z.of_nat 0) with 0%Z in E. rewrite E. cbn [run_bind]. unfold len. rewrite length_fmap, <- Nat2Z.inj_mul, Nat2Z.id.
  assert (length chs * blocks <= slots * blocks)%nat as Hn by by apply Nat.mul_le_mono_r.
  destruct (Flush_ok (bt ctx) h (length chs * blocks) (slots * blocks)) as [-> Hst]; [by split|congruence|done|]. cbn [run_bind].
  eexists. split; [done|]. split; [destruct Hs; by split|]. intros r c Hc k x Hk. cbn [dev].
  pose proof (lookup_lt_Some _ _ _ Hk) as Hlt. rewrite length_fmap in Hlt.
  pose proof (Hblocks c ltac:(by eapply list_elem_of_lookup_2)). pose proof (lookup_lt_Some _ _ _ Hc).
  apply holds_prefix; [lia|nia|]. apply (Hrow r (ck_table c)); [by rewrite list_lookup_fmap, Hc|done].
Qed.

Lemma counts_computed ctx : sized ctx rows slots blocks ->
  exists ql0 ql, clear_counts (host (qlen ctx)) 0 (length chs) = Ret ql0 /\
    count_rows ql0 (req_index (input_of chs)) 0 (length (in_tokens (input_of chs))) = Ret ql /\
    length ql = slots /\ take (length chs) ql = counts chs.
Proof using Hslots.
  clear Hrows Hblocks. intros Hs. destruct (sz_qlen _ _ _ _ Hs) as [_ Hq]. destruct (input_lengths chs) as [_ Er].
  exists (overwrite (host (qlen ctx)) 0 (replicate (length chs) 0%Z)).
  pose proof (clear_counts_ok (length chs) (host (qlen ctx)) 0 ltac:(lia)) as E.
  assert (Hl0 : length (overwrite (host (qlen ctx)) 0 (replicate (length chs) 0%Z)) = slots).
  { rewrite overwrite_length; [done|]. rewrite length_replicate. lia. }
  destruct (count_rows_ok (length (in_tokens (input_of chs))) (overwrite (host (qlen ctx)) 0 (replicate (length chs) 0%Z))
    (req_index (input_of chs)) 0 (length chs)) as (ql & E' & Hl & Hc); [by rewrite Er|by apply req_index_range|lia|].
  exists ql. split; [done|]. split; [done|]. split; [congruence|].
  apply list_eq_same_length with (length chs); [unfold counts; by rewrite length_fmap|rewrite length_take; lia|].
  intros r x y Hr Hx Hy. rewrite lookup_take_lt in Hx by done.
  rewrite (Hc r 0%Z) in Hx.
  2: { pose proof (overwrite_holds (host (qlen ctx)) 0 (replicate (length chs) 0%Z) ltac:(rewrite length_replicate; lia) r 0%Z) as H.
       apply H. by apply lookup_replicate_2. }
  rewrite drop_0, occurrences_rows, Hy in Hx. cbn in Hx. by injection Hx as <-.
Qed.

(** Where the rows of each request are, and what it does. *)
Record split_ok (ctx : StepContext) : Prop := {
  sp_start : forall r c, chs !! r = Some c -> dev (qstart ctx) !! r = Some (Z.of_nat (first_row chs r)) /\
    dev (qlen ctx) !! r = Some (len (ck_tokens c));
  sp_decode : n_decode ctx = len (which decodes 0 (counts chs)) /\ holds (dev (decode_rids ctx)) 0 (which decodes 0 (counts chs));
  sp_prefill : n_prefill ctx = len (which prefills 0 (counts chs)) /\ holds (dev (prefill_rids ctx)) 0 (which prefills 0 (counts chs));
  sp_max : prefill_max_qlen ctx = foldl Z.max 1%Z (filter (fun c => prefills c = true) (counts chs));
}.

Lemma which_length p r l : (length (which p r l) <= length l)%nat.
Proof using Type. clear. revert r. induction l as [|c l IH]; intros r; [done|]. cbn. rewrite length_app. specialize (IH (S r)). destruct (p c); simpl; lia. Qed.

Lemma flush_some_ok b h xs : staged_size b slots -> length h = slots -> (length xs <= slots)%nat -> holds h 0 xs ->
  exists d, flush_some (set_host b h) (len xs) = Ret {| dev := d; host := h |} /\ length d = slots /\ holds d 0 xs.
Proof using Type.
  clear Hrows Hslots Hblocks. intros Hb Hl Hx Hh. unfold flush_some, len. destruct (Z.eqb_spec (Z.of_nat (length xs)) 0) as [E|_].
  - exists (dev b). split; [done|]. split; [apply Hb|]. intros k x Hk. apply lookup_lt_Some in Hk. lia.
  - rewrite Nat2Z.id. destruct (Flush_ok b h (length xs) slots Hb Hl Hx) as [-> [Hd _]]. eexists. split; [done|]. split; [done|].
    intros k x Hk. pose proof (lookup_lt_Some _ _ _ Hk). apply holds_prefix; [lia|lia|]. by apply (Hh k).
Qed.

Lemma SplitDecodePrefill_ok ctx : sized ctx rows slots blocks -> n_rows ctx = len (in_tokens (input_of chs)) ->
  exists qs ql dr pr nd np mx, let ctx' := set_split ctx qs ql dr pr nd np mx in
    SplitDecodePrefill ctx (input_of chs) = Ret ctx' /\ sized ctx' rows slots blocks /\ split_ok ctx'.
Proof using Hslots.
  clear Hrows Hblocks. intros Hs Hn. unfold SplitDecodePrefill. rewrite Hn. unfold len at 1. rewrite Nat2Z.id. cbn [block_tables input_of].
  rewrite length_fmap. change (concat (imap ck_rows chs)) with (req_index (input_of chs)).
  destruct (counts_computed ctx Hs) as (ql0 & ql & E0 & E1 & Hl & Hc).
  change (concat (ck_tokens <$> chs)) with (in_tokens (input_of chs)). rewrite E0. cbn [run_bind]. rewrite E1. cbn [run_bind].
  destruct (sz_qstart _ _ _ _ Hs) as [Hqd Hqh].
  pose proof (prefix_sums_ok (length chs) (host (qstart ctx)) ql 0 0 ltac:(lia) ltac:(lia)) as E. change (Z.of_nat 0) with 0%Z in E.
  rewrite E. cbn [run_bind]. rewrite drop_0, Hc in *. set (qs := overwrite _ 0 _) in *.
  assert (Hsum : length (sums 0 (counts chs)) = length chs) by (rewrite length_sums; unfold counts; by rewrite length_fmap).
  assert (Hlq : length qs = slots) by (unfold qs; rewrite overwrite_length; lia).
  destruct (Flush_ok (qstart ctx) qs (length chs) slots (sz_qstart _ _ _ _ Hs) Hlq Hslots) as [-> Hqs]. cbn [run_bind].
  destruct (Flush_ok (qlen ctx) ql (length chs) slots (sz_qlen _ _ _ _ Hs) Hl Hslots) as [-> Hql]. cbn [run_bind].
  destruct (sz_decode _ _ _ _ Hs) as [Hdd Hdh]. destruct (sz_prefill _ _ _ _ Hs) as [Hpd Hph].
  pose proof (split_requests_ok (length chs) {| s_decode := host (decode_rids ctx); s_prefill := host (prefill_rids ctx);
    s_n_decode := 0; s_n_prefill := 0; s_max := 1 |} ql 0 ltac:(lia) ltac:(done) ltac:(done)
    ltac:(cbn; unfold len; lia) ltac:(cbn; unfold len; lia)) as Es.
  cbv zeta in Es. rewrite drop_0, Hc in Es. change (Z.of_nat 0) with 0%Z in Es. rewrite Es. clear Es.
  cbn [run_bind s_decode s_prefill s_n_decode s_n_prefill s_max]. rewrite !Z.add_0_l. change (Z.to_nat 0) with 0%nat.
  assert (Hw : forall p, (length (which p 0 (counts chs)) <= slots)%nat).
  { intros p. pose proof (which_length p 0 (counts chs)) as H. unfold counts in H at 2. rewrite length_fmap in H. lia. }
  destruct (flush_some_ok (decode_rids ctx) (overwrite (host (decode_rids ctx)) 0 (which decodes 0 (counts chs))) (which decodes 0 (counts chs)))
    as (dd & -> & Hld & Hhd); [by split|rewrite overwrite_length; [done|rewrite Hdh; apply Hw]|done|apply overwrite_holds; rewrite Hdh; apply Hw|].
  cbn [run_bind].
  destruct (flush_some_ok (prefill_rids ctx) (overwrite (host (prefill_rids ctx)) 0 (which prefills 0 (counts chs))) (which prefills 0 (counts chs)))
    as (pd & -> & Hlp & Hhp); [by split|rewrite overwrite_length; [done|rewrite Hph; apply Hw]|done|apply overwrite_holds; rewrite Hph; apply Hw|].
  cbn [run_bind]. do 7 eexists. split; [done|]. split; [|split; cbn [set_split qstart qlen n_decode decode_rids n_prefill prefill_rids prefill_max_qlen dev]; try done].
  - destruct Hs. split; cbn [set_split ids pos req lrows qstart qlen decode_rids prefill_rids bt invT topp u max_blocks]; try done;
      (split; cbn [dev host]; [done|]); rewrite overwrite_length; rewrite ?Hdh, ?Hph; (done || apply Hw).
  - intros r c Hr. pose proof (lookup_lt_Some _ _ _ Hr) as Hlt. split; apply holds_prefix; try lia.
    + apply (overwrite_holds (host (qstart ctx)) 0 (sums 0 (counts chs))); [lia|]. rewrite lookup_sums by (rewrite <- length_sums with (acc := 0%Z); lia).
      by rewrite first_row_sum.
    + rewrite <- (lookup_take_lt ql (length chs)) by done. rewrite Hc. unfold counts. by rewrite list_lookup_fmap, Hr.
Qed.

End prepare.

Lemma fill_sampling_ok sps draws n : forall hi ht hu (i : nat),
  (i + n <= length sps)%nat -> (i + n <= length draws)%nat -> (i + n <= length hi)%nat -> (i + n <= length ht)%nat -> (i + n <= length hu)%nat ->
  fill_sampling hi ht hu sps draws (Z.of_nat i) n = Ret
    (overwrite hi i ((fun sp => inverse_temp (temp sp)) <$> take n (drop i sps)), overwrite ht i (top_p <$> take n (drop i sps)),
     overwrite hu i (take n (drop i draws))).
Proof.
  induction n as [|n IH]; intros hi ht hu i H1 H2 H3 H4 H5; cbn [fill_sampling].
  { rewrite !take_0. cbn [fmap list_fmap]. by rewrite !overwrite_nil. }
  destruct (lookup_lt_is_Some_2 sps i) as [sp Hsp]; [lia|]. destruct (lookup_lt_is_Some_2 draws i) as [d Hd]; [lia|].
  rewrite (zindex_Some _ _ _ Hsp), (drop_S _ _ _ Hsp). cbn [run_bind]. rewrite (zindex_Some _ _ _ Hd), (drop_S _ _ _ Hd). cbn [run_bind].
  rewrite !set_at_lt by lia. cbn [run_bind]. replace (Z.of_nat i + 1)%Z with (Z.of_nat (S i)) by lia.
  rewrite IH by (rewrite ?length_insert; lia). cbn [firstn fmap list_fmap]. by rewrite !overwrite_cons by lia.
Qed.

Lemma sampled_lengths chs : forall start, length (sampled_rows start chs) = length (omap ck_sample chs).
Proof.
  induction chs as [|c chs IH]; intros start; [done|]. cbn [sampled_rows omap list_omap]. rewrite length_app, IH. by destruct (ck_sample c).
Qed.

Lemma length_omap_le {A B} (f : A -> option B) l : (length (omap f l) <= length l)%nat.
Proof. induction l as [|x l IH]; [done|]. cbn. destruct (f x); simpl; lia. Qed.

(** The buffers say what the chunks are. *)
Record describes (ctx : StepContext) (chs : list chunk) (blocks : nat) (draws : list float32) : Prop := {
  ds_rows : n_rows ctx = len (in_tokens (input_of chs));
  ds_row : forall r c k t, chs !! r = Some c -> ck_tokens c !! k = Some t ->
    ids ctx !! (first_row chs r + k)%nat = Some t /\ pos ctx !! (first_row chs r + k)%nat = Some (Z.of_nat (ck_start c + k)) /\
    req ctx !! (first_row chs r + k)%nat = Some (Z.of_nat r);
  ds_table : forall r c, chs !! r = Some c -> holds (dev (bt ctx)) (r * blocks) (Z.of_nat <$> ck_table c);
  ds_split : split_ok chs ctx;
  ds_sample : n_sample ctx = len (omap ck_sample chs) /\ holds (lrows ctx) 0 (sampled_rows 0 chs) /\
    holds (dev (invT ctx)) 0 ((fun sp => inverse_temp (temp sp)) <$> omap ck_sample chs) /\
    holds (dev (topp ctx)) 0 (top_p <$> omap ck_sample chs) /\
    holds (dev (u ctx)) 0 (take (length (omap ck_sample chs)) draws);
}.

Lemma flushed_holds {A} (d h : list A) n slots xs : length d = slots -> length h = slots -> (length xs <= n)%nat -> (n <= slots)%nat ->
  holds h 0 xs -> holds (take n h ++ drop n d) 0 xs.
Proof. intros Hd Hh Hx Hn H k x Hk. pose proof (lookup_lt_Some _ _ _ Hk). apply holds_prefix; [lia|lia|]. by apply (H k). Qed.

Lemma FillSampling_ok ctx chs draws rows slots blocks :
  sized ctx rows slots blocks -> (length chs <= slots)%nat -> (length (omap ck_sample chs) <= length draws)%nat ->
  exists lr it tp ud, let ctx' := set_sampling ctx lr it tp ud (len (omap ck_sample chs)) in
    FillSampling ctx (input_of chs) draws = Ret ctx' /\ sized ctx' rows slots blocks /\
    holds lr 0 (sampled_rows 0 chs) /\ holds (dev it) 0 ((fun sp => inverse_temp (temp sp)) <$> omap ck_sample chs) /\
    holds (dev tp) 0 (top_p <$> omap ck_sample chs) /\ holds (dev ud) 0 (take (length (omap ck_sample chs)) draws).
Proof.
  intros Hs Hc Hd. unfold FillSampling. cbn [logits_rows sample_params input_of]. rewrite sampled_lengths.
  set (sps := omap ck_sample chs) in *. set (n := length sps) in *.
  assert (Hn : (n <= slots)%nat) by (unfold n, sps; pose proof (length_omap_le ck_sample chs); lia).
  pose proof (sz_lrows _ _ _ _ Hs) as Hlr. destruct (sz_invT _ _ _ _ Hs) as [Hid Hih]. destruct (sz_topp _ _ _ _ Hs) as [Htd Hth].
  destruct (sz_u _ _ _ _ Hs) as [Hud Huh].
  rewrite upload_ok by (rewrite ?sampled_lengths; fold sps n; lia). cbn [run_bind].
  pose proof (fill_sampling_ok sps draws n (host (invT ctx)) (host (topp ctx)) (host (u ctx)) 0 ltac:(done) Hd
    ltac:(lia) ltac:(lia) ltac:(lia)) as E. rewrite !drop_0 in E. change (Z.of_nat 0) with 0%Z in E. rewrite E. cbn [run_bind]. clear E.
  assert (take n sps = sps) as -> by by apply firstn_all.
  assert (Hxd : length (take n draws) = n) by (rewrite length_take; lia).
  set (hi := overwrite (host (invT ctx)) 0 _). set (ht := overwrite (host (topp ctx)) 0 _). set (hu := overwrite (host (u ctx)) 0 _).
  assert (Hli : length hi = slots) by (unfold hi; rewrite overwrite_length; rewrite ?length_fmap; fold n; lia).
  assert (Hlt : length ht = slots) by (unfold ht; rewrite overwrite_length; rewrite ?length_fmap; fold n; lia).
  assert (Hlu : length hu = slots) by (unfold hu; rewrite overwrite_length; rewrite ?Hxd; lia).
  destruct (Flush_ok (invT ctx) hi n slots (sz_invT _ _ _ _ Hs) Hli Hn) as [-> [Si Si']]. cbn [run_bind].
  destruct (Flush_ok (topp ctx) ht n slots (sz_topp _ _ _ _ Hs) Hlt Hn) as [-> [St St']]. cbn [run_bind].
  destruct (Flush_ok (u ctx) hu n slots (sz_u _ _ _ _ Hs) Hlu Hn) as [-> [Su Su']]. cbn [run_bind].
  do 4 eexists. split; [done|]. split; [|split; [|split; [|split]]].
  - destruct Hs. split; cbn [set_sampling ids pos req lrows qstart qlen decode_rids prefill_rids bt invT topp u max_blocks]; try done.
    rewrite uploaded_length; rewrite ?sampled_lengths; fold sps n; lia.
  - intros k x Hk. pose proof (lookup_lt_Some _ _ _ Hk) as Hlk. rewrite sampled_lengths in Hlk.
    apply holds_prefix; [rewrite sampled_lengths; fold sps n; lia|done|done].
  - apply (flushed_holds _ _ _ slots); [done..|by rewrite length_fmap|done|]. apply overwrite_holds. rewrite length_fmap. fold n. lia.
  - apply (flushed_holds _ _ _ slots); [done..|by rewrite length_fmap|done|]. apply overwrite_holds. rewrite length_fmap. fold n. lia.
  - apply (flushed_holds _ _ _ slots); [done..|lia|done|]. apply overwrite_holds. lia.
Qed.

Lemma PrepareInputs_ok ctx chs draws rows slots blocks :
  sized ctx rows slots blocks ->
  (length (in_tokens (input_of chs)) <= rows)%nat -> (length chs <= slots)%nat ->
  (forall c, c ∈ chs -> (length (ck_table c) <= blocks)%nat) -> (length (omap ck_sample chs) <= length draws)%nat ->
  exists ctx', PrepareInputs ctx (input_of chs) draws = Ret ctx' /\ sized ctx' rows slots blocks /\ describes ctx' chs blocks draws.
Proof.
  intros Hs H1 H2 H3 H4. unfold PrepareInputs. set (c0 := set_n_rows ctx _). assert (S0 : sized c0 rows slots blocks) by by destruct Hs; split.
  destruct (UploadRows_ok chs rows slots blocks H1 c0 S0 eq_refl) as (i & p & q & -> & S1 & Ri & Rp & Rq). cbn [run_bind].
  destruct (PackBlockTables_ok chs rows slots blocks H2 H3 _ S1) as (t & -> & S2 & Rt). cbn [run_bind].
  destruct (SplitDecodePrefill_ok chs rows slots blocks H2 _ S2 eq_refl) as (qs & ql & dr & pr & nd & np & mx & -> & S3 & Rs). cbn [run_bind].
  destruct (FillSampling_ok _ chs draws rows slots blocks S3 H2 H4) as (lr & it & tp & ud & -> & S4 & Rl & Rit & Rtp & Rud).
  eexists. split; [done|]. split; [exact S4|]. split; [done| |done|by destruct Rs; split|done].
  intros r c k tok Hr Hk. destruct (input_row chs r c k tok Hr Hk) as (E1 & E2 & E3).
  exact (conj (Ri _ _ E1) (conj (Rp _ _ E2) (Rq _ _ E3))).
Qed.

(** ** Property *)

(** C34: the kernels are told what the batch is: for chunks that fit the buffers - as the
    scheduler's always do - no copy leaves its buffer, and afterwards every row of the
    device holds its token, position and request, each request's rows start where the
    previous ones' end, its packed table is its block table, the requests are split without
    loss into those that decode one token and the others, with the longest of these, and the
    sampler is given the rows to sample with their own parameters; the buffers keep their
    sizes for the next step. *)
Theorem PrepareInputs_describes ctx chs draws rows slots blocks :
  sized ctx rows slots blocks ->
  (length (in_tokens (input_of chs)) <= rows)%nat -> (length chs <= slots)%nat ->
  (forall c, c ∈ chs -> (length (ck_table c) <= blocks)%nat) -> (length (omap ck_sample chs) <= length draws)%nat ->
  exists ctx', PrepareInputs ctx (input_of chs) draws = Ret ctx' /\ sized ctx' rows slots blocks /\ describes ctx' chs blocks draws.
Proof. apply PrepareInputs_ok. Qed.

(** ** Witness *)

(** A prompt of three tokens and two decoding requests, one of which samples. *)
Definition three_chunks : list chunk :=
  [ {| ck_table := [4]; ck_start := 0; ck_tokens := [10; 11; 12]%Z; ck_sample := None |};
    {| ck_table := [7; 2]; ck_start := 16; ck_tokens := [13]%Z; ck_sample := Some {| temp := one_f; top_p := one_f |} |};
    {| ck_table := [0]; ck_start := 5; ck_tokens := [14]%Z; ck_sample := None |} ].

Lemma three_fit : sized (new_StepContext 24 4 64 (-1)) 24 4 4 /\ (length (in_tokens (input_of three_chunks)) <= 24)%nat /\
  (length three_chunks <= 4)%nat /\ (forall c, c ∈ three_chunks -> (length (ck_table c) <= 4)%nat) /\
  (length (omap ck_sample three_chunks) <= length [one_f])%nat.
Proof.
  split; [apply (new_StepContext_sized 24 4 64 (-1)); lia|]. split; [vm_compute; lia|]. split; [vm_compute; lia|]. split; [|vm_compute; lia].
  intros c. unfold three_chunks. rewrite !elem_of_cons. intros [-> |[-> |[-> |H]]]; [simpl; lia..|by apply not_elem_of_nil in H].
Qed.

Lemma PrepareInputs_describes_witness : exists ctx',
  PrepareInputs (new_StepContext 24 4 64 (-1)) (input_of three_chunks) [one_f] = Ret ctx' /\
  describes ctx' three_chunks 4 [one_f].
Proof.
  destruct three_fit as (H0 & H1 & H2 & H3 & H4).
  destruct (PrepareInputs_describes (new_StepContext 24 4 64 (-1)) three_chunks [one_f] 24 4 4 H0 H1 H2 H3 H4) as (ctx' & E & _ & H).
  exists ctx'. exact (conj E H).
Defined.

Example three_prepared :
  (let* c := PrepareInputs (new_StepContext 24 4 64 (-1)) (input_of three_chunks) [one_f] in
   Ret (dev (qstart c), dev (qlen c), take 2 (dev (decode_rids c)), n_decode c, take 1 (dev (prefill_rids c)), n_prefill c,
        prefill_max_qlen c, take 5 (pos c), take 1 (lrows c), dev (bt c))) =
  Ret ([0; 3; 4; 0], [3; 1; 1; 0], [1; 2], 2, [0], 1, 3, [0; 1; 2; 16; 5], [3], [4; 0; 0; 0; 7; 2; 0; 0; 0; 0; 0; 0; 0; 0; 0; 0])%Z.
Proof. vm_compute. reflexivity. Qed.
