(* ===== verification/KvStore.v ===== *)
(** * Writing keys and values into the paged store

    Models [StoreKvKernel] and [KvStore::StoreKV] of [engine/src/kv_store.cu]: one thread per
    element of a new key and its value, which computes where they go from the packed block
    tables, the request and the position of its row. Device memory is a function of
    addresses; a read of the index buffers or of the projections out of range is [Panic], and
    so is an offset that leaves the 32 bits of the code's [int] ([int32]).

    On a prepared batch ([StepContext.describes]) no two threads write the same address, so
    the result does not depend on their order, and it is the one [PagedRuntime.forward_ok]
    promises of a layer: the slots of the new positions hold the new keys and values, all
    other slots what they held. *)

From S2P Require Import Prelude GoStrings Chatml Client Generate BlockAllocator Sequence Scheduler PagedRuntime StepContext.
Local Open Scope go_scope.

Lemma int32_id z : (- 2 ^ 31 <= z < 2 ^ 31)%Z -> int32 z = z.
Proof. intros H. by apply wrap_id. Qed.

Definition kHeadDim : Z := 128.
Definition kNumHeads : Z := 32.
Definition kNumKvHeads : Z := 8.
Definition kKvPlanes : Z := 2.
Definition kv_dim : Z := (kNumKvHeads * kHeadDim)%Z.
Definition q_dim : Z := (kNumHeads * kHeadDim)%Z.
Definition plane : Z := (kKvBlock * kv_dim)%Z.

Section kernel.
Context {V : Type}.

Abbreviation memory := (Z -> V).

(** The rows whose elements have a 32-bit offset in the projections. *)
Definition kMaxStoreRows : Z := 349525.

(** A buffer on the device: the number of its elements, and their values. *)
Record device_buffer := { size_ : Z; at_ : memory }.

Definition load_at (b : device_buffer) (a : Z) : run V := if (0 <=? a)%Z && (a <? size_ b)%Z then Ret (at_ b a) else Panic.

(** The writes of thread [idx]; [M] rows. The products and sums of [int] have 32 bits, the
    destination has 64. *)
Definition StoreKvKernel (qkv : device_buffer) (src_stride k_off v_off : Z) (bt : list Z) (bt_stride : Z)
    (bt_row pos : list Z) (M idx : Z) : run (list (Z * V)) :=
  if (int32 (M * kv_dim) <=? idx)%Z then Ret [] else
  let m := Z.quot idx kv_dim in
  let i := Z.rem idx kv_dim in
  let* r := zindex bt_row m in
  let* p := zindex pos m in
  let* b := zindex bt (int32 (r * bt_stride) + Z.quot p kKvBlock)%Z in
  let k_dst := (b * kKvPlanes * plane + Z.rem p kKvBlock * kv_dim + i)%Z in
  let base := int32 (m * src_stride) in
  let* k := load_at qkv (int32 (int32 (base + k_off) + i)) in
  let* v := load_at qkv (int32 (int32 (base + v_off) + i)) in
  Ret [(k_dst, k); ((k_dst + plane)%Z, v)].

(** The writes of a grid of threads. *)
Fixpoint launch (thread : Z -> run (list (Z * V))) (idx : Z) (n : nat) : run (list (list (Z * V))) :=
  match n with
  | O => Ret []
  | S n => let* w := thread (int32 idx) in let* ws := launch thread (idx + 1) n in Ret (w :: ws)
  end.

Definition StoreKV (qkv : device_buffer) (ctx : StepContext) (M : Z) : run (list (list (Z * V))) :=
  let src_stride := (q_dim + 2 * kv_dim)%Z in
  let n := int32 (M * kv_dim) in
  let threads := 256%Z in
  launch (StoreKvKernel qkv src_stride q_dim (q_dim + kv_dim) (dev (bt ctx)) (max_blocks ctx) (req ctx) (pos ctx) M)
    0 (Z.to_nat (Z.quot (int32 (n + threads - 1)) threads * threads)).

Definition write (kv : memory) (w : Z * V) : memory := fun a => if (a =? w.1)%Z then w.2 else kv a.

(** ** Addresses *)

(** Element [i] of the key ([pl = 0]) or the value ([pl = 1]) in a slot. *)
Definition kv_address (a : nat * nat) (pl i : Z) : Z :=
  ((Z.of_nat a.1 * kKvPlanes + pl) * plane + Z.of_nat a.2 * kv_dim + i)%Z.

Lemma kv_address_inj a a' pl pl' i i' :
  (a.2 < block_size)%nat -> (a'.2 < block_size)%nat -> (0 <= pl < 2)%Z -> (0 <= pl' < 2)%Z -> (0 <= i < kv_dim)%Z -> (0 <= i' < kv_dim)%Z ->
  kv_address a pl i = kv_address a' pl' i' -> a = a' /\ pl = pl' /\ i = i'.
Proof.
  destruct a as [b o], a' as [b' o']. cbn [fst snd]. unfold kv_address, plane, kv_dim, kNumKvHeads, kHeadDim, kKvPlanes, kKvBlock, block_size.
  cbn [fst snd]. intros. assert (b = b' /\ o = o' /\ pl = pl' /\ i = i') as (-> & -> & -> & ->) by lia. done.
Qed.

(** Every address of a pool of [n] blocks is within its buffer. *)
Lemma kv_address_range a pl i (n : nat) : (a.1 < n)%nat -> (a.2 < block_size)%nat -> (0 <= pl < 2)%Z -> (0 <= i < kv_dim)%Z ->
  (0 <= kv_address a pl i < Z.of_nat n * kKvPlanes * kKvBlock * kv_dim)%Z.
Proof.
  destruct a as [b o]. cbn [fst snd]. unfold kv_address, plane, kv_dim, kNumKvHeads, kHeadDim, kKvPlanes, kKvBlock, block_size. cbn [fst snd]. lia.
Qed.

Lemma addr_offset table p : ((addr table p).2 < block_size)%nat.
Proof. cbn [addr snd]. by apply Nat.mod_upper_bound. Qed.

(** ** Writes in any order *)
Lemma foldl_write order : forall kv a,
  (forall w w', w ∈ order -> w' ∈ order -> w.1 = w'.1 -> w = w') ->
  (forall v, (a, v) ∈ order -> foldl write kv order a = v) /\
  ((forall w, w ∈ order -> w.1 <> a) -> foldl write kv order a = kv a).
Proof.
  induction order as [|w order IH]; intros kv a Hf; [by split; [intros v ?%not_elem_of_nil|]|]. cbn [foldl].
  destruct (IH (write kv w) a) as [H1 H2]; [intros w1 w2 Hw1 Hw2; apply Hf; by right|]. split.
  - intros v [Hw|Hv]%elem_of_cons; [|by apply H1].
    destruct (decide (Exists (fun w' => w'.1 = a) order)) as [He|Hn].
    + apply Exists_exists in He as ([a' v'] & Hin & Ha). cbn in Ha. subst a'.
      rewrite (Hf (a, v') w) in Hin by (subst w; (by right) || (by left) || done). subst w. by apply H1.
    + rewrite H2 by (intros w' Hw' E; apply Hn, Exists_exists; by exists w'). unfold write. subst w. cbn. by rewrite Z.eqb_refl.
  - intros Hn. rewrite H2 by (intros w' Hw'; apply Hn; by right). unfold write.
    rewrite (proj2 (Z.eqb_neq _ _)); [done|]. intros ->. by apply (Hn w); [left|].
Qed.

(** ** The rows of a prepared batch *)
Definition row_addrs (chs : list chunk) : list (nat * nat) :=
  concat ((fun c => addr (ck_table c) <$> seq (ck_start c) (length (ck_tokens c))) <$> chs).

Lemma lookup_concat_inv {A} (ls : list (list A)) : forall m x, concat ls !! m = Some x ->
  exists r l k, ls !! r = Some l /\ l !! k = Some x /\ m = (length (concat (take r ls)) + k)%nat.
Proof.
  induction ls as [|l ls IH]; intros m x H; [done|]. cbn [concat] in H. apply lookup_app_Some in H as [H|[Hle H]].
  - exists 0%nat, l, m. done.
  - apply IH in H as (r & l' & k & Hr & Hk & Hm). exists (S r), l', k. split; [done|]. split; [done|]. cbn. rewrite length_app. lia.
Qed.

Lemma row_chunk chs m a : row_addrs chs !! m = Some a ->
  exists r c k t, chs !! r = Some c /\ ck_tokens c !! k = Some t /\ m = (first_row chs r + k)%nat /\ a = addr (ck_table c) (ck_start c + k).
Proof.
  intros H. apply lookup_concat_inv in H as (r & l & k & Hr & Hk & ->). rewrite list_lookup_fmap in Hr.
  destruct (chs !! r) as [c|] eqn:Hc; [|done]. injection Hr as <-. apply list_lookup_fmap_Some_1 in Hk as (p & -> & Hp).
  apply lookup_seq in Hp as [-> Hlt]. destruct (lookup_lt_is_Some_2 (ck_tokens c) k Hlt) as [t Ht]. exists r, c, k, t.
  split; [done|]. split; [done|]. split; [|done]. unfold first_row. rewrite <- !fmap_take. f_equal.
  apply length_concat_same, Forall2_fmap, Forall_Forall2_diag, Forall_forall. intros c' _. by rewrite length_fmap, length_seq.
Qed.

Lemma row_addrs_length chs : length (row_addrs chs) = length (in_tokens (input_of chs)).
Proof.
  apply length_concat_same, Forall2_fmap, Forall_Forall2_diag, Forall_forall. intros c' _. by rewrite length_fmap, length_seq.
Qed.

(** The chunks of a batch do not share the slots they write: no chunk writes where another
    reads or writes, or where it reads another position itself. *)
Definition apart_chunks (chs : list chunk) : Prop :=
  forall i j c c' p q, chs !! i = Some c -> chs !! j = Some c' ->
    written c p -> (q < ck_end c')%nat -> addr (ck_table c) p = addr (ck_table c') q -> i = j /\ p = q.

Lemma row_addrs_unique chs m m' a : apart_chunks chs -> row_addrs chs !! m = Some a -> row_addrs chs !! m' = Some a -> m = m'.
Proof.
  intros Hap (r & c & k & t & Hr & Hk & -> & ->)%row_chunk (r' & c' & k' & t' & Hr' & Hk' & -> & Ha)%row_chunk.
  apply lookup_lt_Some in Hk, Hk'. destruct (Hap r r' c c' (ck_start c + k)%nat (ck_start c' + k')%nat Hr Hr') as [<- Hp];
    [unfold written, ck_end; lia|unfold ck_end; lia|done|]. rewrite Hr in Hr'. injection Hr' as <-. lia.
Qed.

Section prepared.
Context (ctx : StepContext) (chs : list chunk) (rows slots blocks : nat) (draws : list float32) (qkv : device_buffer).
Context (Hsized : sized ctx rows slots blocks) (Hdesc : describes ctx chs blocks draws) (Happart : apart_chunks chs).
Context (Htable : forall c, c ∈ chs -> (ck_end c <= block_size * length (ck_table c))%nat).
Context (Hwide : (Z.of_nat (slots * blocks) < 2 ^ 31)%Z) (Hfew : (n_rows ctx <= kMaxStoreRows)%Z).
Context (Hqkv : (n_rows ctx * (q_dim + 2 * kv_dim) <= size_ qkv)%Z).

Abbreviation thread :=
  (StoreKvKernel qkv (q_dim + 2 * kv_dim) q_dim (q_dim + kv_dim) (dev (bt ctx)) (max_blocks ctx) (req ctx) (pos ctx) (n_rows ctx)).

Lemma rows_few : (Z.of_nat (length (in_tokens (input_of chs))) <= kMaxStoreRows)%Z.
Proof using Hdesc Hfew. clear -Hdesc Hfew. pose proof (ds_rows _ _ _ _ Hdesc) as E. unfold len in E. lia. Qed.

Lemma store_size : int32 (n_rows ctx * kv_dim) = (n_rows ctx * kv_dim)%Z.
Proof using Hdesc Hfew.
  clear -Hdesc Hfew. rewrite (ds_rows _ _ _ _ Hdesc) in *. unfold len, kMaxStoreRows, kv_dim, kNumKvHeads, kHeadDim in *. apply int32_id. lia.
Qed.

Lemma load_row (m : nat) off i : (Z.of_nat m < n_rows ctx)%Z -> (0 <= off)%Z -> (0 <= i < kv_dim)%Z -> (off <= q_dim + kv_dim)%Z ->
  load_at qkv (int32 (int32 (int32 (Z.of_nat m * (q_dim + 2 * kv_dim)) + off) + i)) = Ret (at_ qkv (Z.of_nat m * (q_dim + 2 * kv_dim) + off + i)%Z).
Proof using Hfew Hqkv.
  clear -Hfew Hqkv. intros Hm H0 Hi Ho. unfold kMaxStoreRows, q_dim, kv_dim, kNumHeads, kNumKvHeads, kHeadDim in *. set (base := (Z.of_nat m * _)%Z).
  rewrite (int32_id base) by lia. rewrite (int32_id (base + off)) by lia. rewrite (int32_id (base + off + i)) by lia. unfold load_at. rewrite (proj2 (Z.leb_le _ _)), (proj2 (Z.ltb_lt _ _)) by lia. done.
Qed.

(** The value a row stores. *)
Definition row_value (m pl i : Z) : V := at_ qkv (m * (q_dim + 2 * kv_dim) + (q_dim + pl * kv_dim) + i)%Z.

Lemma thread_writes (m : nat) a i : row_addrs chs !! m = Some a -> (0 <= i < kv_dim)%Z ->
  thread (Z.of_nat m * kv_dim + i)%Z =
  Ret [(kv_address a 0 i, row_value (Z.of_nat m) 0 i); (kv_address a 1 i, row_value (Z.of_nat m) 1 i)].
Proof using Hsized Hdesc Htable Hwide Hfew Hqkv.
  intros Hm Hi. pose proof (lookup_lt_Some _ _ _ Hm) as Hlt. rewrite row_addrs_length in Hlt.
  destruct (row_chunk _ _ _ Hm) as (r & c & k & t & Hr & Hk & -> & ->).
  assert (Hmr : (Z.of_nat (first_row chs r + k) < n_rows ctx)%Z) by (rewrite (ds_rows _ _ _ _ Hdesc); unfold len; lia).
  unfold StoreKvKernel. rewrite store_size.
  rewrite (proj2 (Z.leb_gt _ _)) by (unfold kv_dim, kNumKvHeads, kHeadDim in *; lia).
  assert (0 < kv_dim)%Z as Hkv by done. rewrite Z.quot_div_nonneg, Z.rem_mod_nonneg by lia.
  rewrite Z.div_add_l, (Z.div_small i), Z.add_0_r by lia. rewrite (Z.add_comm (_ * kv_dim)), Z.mod_add, Z.mod_small by lia.
  destruct (ds_row _ _ _ _ Hdesc r c k t Hr Hk) as (_ & Hp & Hq). rewrite (zindex_Some _ _ _ Hq). cbn [run_bind].
  rewrite (zindex_Some _ _ _ Hp). cbn [run_bind]. set (p := (ck_start c + k)%nat) in *.
  assert (Hblk : (p `div` block_size < length (ck_table c))%nat).
  { apply Nat.Div0.div_lt_upper_bound. pose proof (Htable c ltac:(by eapply list_elem_of_lookup_2)) as He.
    apply lookup_lt_Some in Hk. unfold ck_end in He. lia. }
  destruct (lookup_lt_is_Some_2 _ _ Hblk) as [b Hb].
  pose proof (ds_table _ _ _ _ Hdesc r c Hr (p `div` block_size)%nat (Z.of_nat b) ltac:(by rewrite list_lookup_fmap, Hb)) as Hbt.
  pose proof (lookup_lt_Some _ _ _ Hbt) as Hin. rewrite (proj1 (sz_bt _ _ _ _ Hsized)) in Hin.
  rewrite (sz_blocks _ _ _ _ Hsized), int32_id by lia. rewrite Z.quot_div_nonneg, Z.rem_mod_nonneg by (done || lia).
  replace (Z.of_nat r * Z.of_nat blocks + Z.of_nat p / kKvBlock)%Z with (Z.of_nat (r * blocks + p `div` block_size)).
  2: { rewrite Nat2Z.inj_add, Nat2Z.inj_mul, Nat2Z.inj_div. done. }
  rewrite (zindex_Some _ _ _ Hbt). cbn [run_bind]. rewrite !load_row by (done || unfold q_dim, kv_dim, kNumHeads, kNumKvHeads, kHeadDim; lia).
  cbn [run_bind]. unfold addr. rewrite (nth_lookup_Some _ _ _ _ Hb). unfold kv_address, row_value. cbn [fst snd].
  rewrite Nat2Z.inj_mod. change (Z.of_nat block_size) with kKvBlock. unfold plane, kv_dim, kKvPlanes, kNumKvHeads, kHeadDim, kKvBlock.
  repeat match goal with
  | |- Ret _ = Ret _ => f_equal
  | |- _ :: _ = _ :: _ => f_equal
  | |- (_, _) = (_, _) => f_equal
  | |- at_ qkv _ = at_ qkv _ => f_equal
  end; lia.
Qed.

Lemma thread_past idx : (len (in_tokens (input_of chs)) * kv_dim <= idx)%Z -> thread idx = Ret [].
Proof using Hdesc Hfew.
  intros H. unfold StoreKvKernel. rewrite store_size, (ds_rows _ _ _ _ Hdesc). by rewrite (proj2 (Z.leb_le _ _)).
Qed.

(** What a thread of the grid writes. *)
Lemma thread_cases (j : nat) :
  (exists m a i, j = Z.to_nat (Z.of_nat m * kv_dim + i) /\ row_addrs chs !! m = Some a /\ (0 <= i < kv_dim)%Z /\
     thread (Z.of_nat j) = Ret [(kv_address a 0 i, row_value (Z.of_nat m) 0 i); (kv_address a 1 i, row_value (Z.of_nat m) 1 i)]) \/
  thread (Z.of_nat j) = Ret [].
Proof using Hsized Hdesc Htable Hwide Hfew Hqkv.
  destruct (decide (Z.of_nat j < len (in_tokens (input_of chs)) * kv_dim)%Z) as [Hlt|Hge]; [left|right; apply thread_past; lia].
  assert (0 < kv_dim)%Z as Hkv by done. pose proof (Z.mod_pos_bound (Z.of_nat j) kv_dim Hkv) as Hi.
  pose proof (Z.div_mod (Z.of_nat j) kv_dim ltac:(lia)) as Hdm.
  assert (0 <= Z.of_nat j / kv_dim < len (in_tokens (input_of chs)))%Z as Hm.
  { split; [apply Z.div_pos; lia|apply Z.div_lt_upper_bound; lia]. }
  destruct (lookup_lt_is_Some_2 (row_addrs chs) (Z.to_nat (Z.of_nat j / kv_dim))) as [a Ha].
  { rewrite row_addrs_length. unfold len in Hm. lia. }
  exists (Z.to_nat (Z.of_nat j / kv_dim)), a, (Z.of_nat j mod kv_dim)%Z. rewrite Z2Nat.id by lia.
  assert (E : (Z.of_nat j / kv_dim * kv_dim + Z.of_nat j mod kv_dim = Z.of_nat j)%Z) by lia.
  split; [lia|]. split; [done|]. split; [done|]. rewrite <- E at 1.
  pose proof (thread_writes _ a _ Ha Hi) as Ht. rewrite Z2Nat.id in Ht by lia. exact Ht.
Qed.

Lemma launch_ok n : forall from : nat, (Z.of_nat (from + n) <= 2 ^ 31)%Z -> exists ws, launch thread (Z.of_nat from) n = Ret ws /\ length ws = n /\
  forall j l, ws !! j = Some l -> thread (Z.of_nat (from + j)) = Ret l.
Proof using Hsized Hdesc Htable Hwide Hfew Hqkv.
  induction n as [|n IH]; intros from Hn; [by exists []|]. cbn [launch]. rewrite int32_id by lia.
  assert (exists w, thread (Z.of_nat from) = Ret w) as [w Hw].
  { destruct (thread_cases from) as [(m & a & i & _ & _ & _ & E)|E]; by eexists. }
  rewrite Hw. cbn [run_bind]. replace (Z.of_nat from + 1)%Z with (Z.of_nat (S from)) by lia.
  destruct (IH (S from) ltac:(lia)) as (ws & -> & Hl & Hws). cbn [run_bind]. exists (w :: ws). split; [done|]. split; [by cbn; rewrite Hl|].
  intros [|j] l Hj; [injection Hj as <-; by rewrite Nat.add_0_r|]. rewrite <- Nat.add_succ_comm. by apply Hws.
Qed.

(** A write of a thread, read off its address. *)
Lemma write_of_thread j w l : thread (Z.of_nat j) = Ret l -> w ∈ l ->
  exists m a pl i, j = Z.to_nat (Z.of_nat m * kv_dim + i) /\ row_addrs chs !! m = Some a /\ (0 <= pl < 2)%Z /\ (0 <= i < kv_dim)%Z /\
    w = (kv_address a pl i, row_value (Z.of_nat m) pl i).
Proof using Hsized Hdesc Htable Hwide Hfew Hqkv.
  intros Hl Hw. destruct (thread_cases j) as [(m & a & i & Hj & Ha & Hi & E)|E]; rewrite Hl in E; injection E as ->;
    [|by apply not_elem_of_nil in Hw].
  exists m, a. apply elem_of_cons in Hw as [-> |Hw]; [exists 0%Z, i; split_and!; (done || lia)|].
  apply list_elem_of_singleton in Hw as ->. exists 1%Z, i. split_and!; (done || lia).
Qed.

Lemma row_addr_offset m a : row_addrs chs !! m = Some a -> (a.2 < block_size)%nat.
Proof using Type. intros (r & c & k & t & _ & _ & _ & ->)%row_chunk. apply addr_offset. Qed.

Lemma race_free j j' w w' l l' : thread (Z.of_nat j) = Ret l -> thread (Z.of_nat j') = Ret l' -> w ∈ l -> w' ∈ l' ->
  w.1 = w'.1 -> j = j' /\ w = w'.
Proof using Hsized Hdesc Htable Happart Hwide Hfew Hqkv.
  intros Hl Hl' Hw Hw' E. destruct (write_of_thread j w l Hl Hw) as (m & a & pl & i & -> & Ha & Hpl & Hi & ->).
  destruct (write_of_thread j' w' l' Hl' Hw') as (m' & a' & pl' & i' & -> & Ha' & Hpl' & Hi' & ->). cbn [fst] in E.
  apply kv_address_inj in E as (<- & <- & <-); [|by eapply row_addr_offset..|done|done|done|done].
  by pose proof (row_addrs_unique chs m m' a Happart Ha Ha') as <-.
Qed.

(** The grid. *)
Lemma StoreKV_launch : exists ws, StoreKV qkv ctx (n_rows ctx) = Ret ws /\
  (Z.of_nat (length (in_tokens (input_of chs))) * kv_dim <= Z.of_nat (length ws))%Z /\
  forall j l, ws !! j = Some l -> thread (Z.of_nat j) = Ret l.
Proof using Hsized Hdesc Htable Hwide Hfew Hqkv.
  pose proof rows_few as Hr. unfold StoreKV. rewrite store_size.
  assert (n_rows ctx * kv_dim = Z.of_nat (length (in_tokens (input_of chs))) * kv_dim)%Z as -> by by rewrite (ds_rows _ _ _ _ Hdesc).
  set (n := (Z.of_nat (length (in_tokens _)) * kv_dim)%Z). assert (0 <= n < 2 ^ 30)%Z as Hn.
  { unfold n, kMaxStoreRows, kv_dim, kNumKvHeads, kHeadDim in *. lia. }
  rewrite int32_id by lia. rewrite Z.quot_div_nonneg by lia. pose proof (Z.div_mod (n + 256 - 1) 256 ltac:(done)).
  pose proof (Z.mod_pos_bound (n + 256 - 1) 256 ltac:(done)).
  destruct (launch_ok (Z.to_nat ((n + 256 - 1) / 256 * 256)) 0) as (ws & E & Hl & Hws); [lia|].
  exists ws. split; [exact E|]. split; [lia|exact Hws].
Qed.

Lemma row_addr_in_pool m a (pool : nat) : row_addrs chs !! m = Some a ->
  (forall c, c ∈ chs -> Forall (fun b => b < pool)%nat (ck_table c)) -> (a.1 < pool)%nat.
Proof using Htable.
  clear -Htable.
  intros (r & c & k & t & Hr & Hk & -> & ->)%row_chunk Hp. apply list_elem_of_lookup_2 in Hr. apply lookup_lt_Some in Hk.
  pose proof (Htable c Hr) as He. destruct (lookup_lt_is_Some_2 (ck_table c) ((ck_start c + k) `div` block_size)) as [b Hb].
  { apply Nat.Div0.div_lt_upper_bound. unfold ck_end in He. lia. }
  unfold addr. rewrite (nth_lookup_Some _ _ _ _ Hb). apply (Forall_lookup_1 _ _ _ _ (Hp c Hr) Hb).
Qed.

Lemma row_addrs_lookup r c k t : chs !! r = Some c -> ck_tokens c !! k = Some t ->
  row_addrs chs !! (first_row chs r + k)%nat = Some (addr (ck_table c) (ck_start c + k)).
Proof using Type.
  intros Hr Hk. pose proof (lookup_lt_Some _ _ _ Hk) as Hlt. unfold first_row.
  rewrite <- (length_concat_same (take r ((fun c => addr (ck_table c) <$> seq (ck_start c) (length (ck_tokens c))) <$> chs))).
  - eapply lookup_concat_nth; [by rewrite list_lookup_fmap, Hr|]. by rewrite list_lookup_fmap, lookup_seq_lt.
  - apply Forall2_take, Forall2_fmap, Forall_Forall2_diag, Forall_forall. intros c' _. by rewrite length_fmap, length_seq.
Qed.

(** Every row is written. *)
Lemma row_written ws m a pl i :
  (Z.of_nat (length (in_tokens (input_of chs))) * kv_dim <= Z.of_nat (length ws))%Z ->
  (forall j l, ws !! j = Some l -> thread (Z.of_nat j) = Ret l) ->
  row_addrs chs !! m = Some a -> (0 <= pl < 2)%Z -> (0 <= i < kv_dim)%Z ->
  (kv_address a pl i, row_value (Z.of_nat m) pl i) ∈ concat ws.
Proof using Hsized Hdesc Htable Hwide Hfew Hqkv.
  intros Hl Hws Hm Hpl Hi. pose proof (lookup_lt_Some _ _ _ Hm) as Hlt. rewrite row_addrs_length in Hlt.
  destruct (lookup_lt_is_Some_2 ws (Z.to_nat (Z.of_nat m * kv_dim + i))) as [l Hjl].
  { unfold kv_dim, kNumKvHeads, kHeadDim in *. lia. }
  pose proof (Hws _ _ Hjl) as Ht. rewrite Z2Nat.id in Ht by (unfold kv_dim, kNumKvHeads, kHeadDim in *; lia).
  rewrite (thread_writes m _ i Hm Hi) in Ht. injection Ht as <-.
  apply list_elem_of_In, in_concat. eexists. split; apply list_elem_of_In; [by eapply list_elem_of_lookup_2|].
  assert (pl = 0 \/ pl = 1)%Z as [-> | ->] by lia; [by left|right; by left].
Qed.

End prepared.
End kernel.

Lemma StoreKV_ok {V} (qkv : device_buffer (V := V)) ctx chs rows slots blocks draws (pool : nat) :
  sized ctx rows slots blocks -> describes ctx chs blocks draws -> apart_chunks chs ->
  (forall c, c ∈ chs -> (ck_end c <= block_size * length (ck_table c))%nat) ->
  (forall c, c ∈ chs -> Forall (fun b => b < pool)%nat (ck_table c)) ->
  (Z.of_nat (slots * blocks) < 2 ^ 31)%Z -> (n_rows ctx <= kMaxStoreRows)%Z -> (n_rows ctx * (q_dim + 2 * kv_dim) <= size_ qkv)%Z ->
  exists ws, StoreKV qkv ctx (n_rows ctx) = Ret ws /\
    (forall j j' l l' w w', ws !! j = Some l -> ws !! j' = Some l' -> w ∈ l -> w' ∈ l' -> w.1 = w'.1 -> j = j' /\ w = w') /\
    (forall w, w ∈ concat ws -> (0 <= w.1 < Z.of_nat pool * kKvPlanes * kKvBlock * kv_dim)%Z) /\
    forall kv order, order ≡ₚ concat ws ->
      (forall r c k t pl i, chs !! r = Some c -> ck_tokens c !! k = Some t -> (0 <= pl < 2)%Z -> (0 <= i < kv_dim)%Z ->
         foldl write kv order (kv_address (addr (ck_table c) (ck_start c + k)) pl i) = row_value qkv (Z.of_nat (first_row chs r + k)) pl i) /\
      (forall b o pl i, (o < block_size)%nat -> (0 <= pl < 2)%Z -> (0 <= i < kv_dim)%Z ->
         (forall c p, c ∈ chs -> written c p -> addr (ck_table c) p <> (b, o)) ->
         foldl write kv order (kv_address (b, o) pl i) = kv (kv_address (b, o) pl i)).
Proof.
  intros Hs Hd Hap Ht Hpool Hwd Hfw Hsz. destruct (StoreKV_launch ctx chs rows slots blocks draws qkv Hs Hd Ht Hwd Hfw Hsz) as (ws & E & Hl & Hws).
  exists ws. split; [exact E|].
  assert (Hin : forall w, w ∈ concat ws -> exists j l, ws !! j = Some l /\ w ∈ l).
  { intros w Hw. apply list_elem_of_In, in_concat in Hw as (l & Hl1 & Hl2). apply list_elem_of_In in Hl1, Hl2.
    apply list_elem_of_lookup in Hl1 as [j Hj]. by exists j, l. }
  assert (Hrace : forall j j' l l' w w', ws !! j = Some l -> ws !! j' = Some l' -> w ∈ l -> w' ∈ l' -> w.1 = w'.1 -> j = j' /\ w = w').
  { intros j j' l l' w w' Hj Hj'. eapply race_free; [exact Hs|exact Hd|exact Hap|exact Ht|exact Hwd|exact Hfw|exact Hsz|by apply Hws|by apply Hws]. }
  assert (Hwrite : forall w, w ∈ concat ws -> exists m a pl i, row_addrs chs !! m = Some a /\ (0 <= pl < 2)%Z /\ (0 <= i < kv_dim)%Z /\
    w.1 = kv_address a pl i).
  { intros w (j & l & Hj & Hw)%Hin. destruct (write_of_thread ctx chs rows slots blocks draws qkv Hs Hd Ht Hwd Hfw Hsz j w l (Hws j l Hj) Hw)
      as (m & a & pl & i & _ & Ha & Hpl & Hi & ->). by exists m, a, pl, i. }
  split; [exact Hrace|]. split.
  - intros w (m & a & pl & i & Ha & Hpl & Hi & ->)%Hwrite. apply kv_address_range; [|by eapply row_addr_offset|done|done].
    by eapply row_addr_in_pool.
  - intros kv order Hord. assert (Hfun : forall w w', w ∈ order -> w' ∈ order -> w.1 = w'.1 -> w = w').
    { intros w w' Hw Hw' Ew. rewrite Hord in Hw, Hw'. destruct (Hin w Hw) as (j & l & Hj & Hwl), (Hin w' Hw') as (j' & l' & Hj' & Hwl').
      by eapply (Hrace j j' l l'). }
    split.
    + intros r c k t pl i Hr Hk Hpl Hi. apply (foldl_write order kv _ Hfun). rewrite Hord.
      eapply row_written; [exact Hs|exact Hd|exact Ht|exact Hwd|exact Hfw|exact Hsz|exact Hl|exact Hws|by eapply row_addrs_lookup|done..].
    + intros b o pl i Ho Hpl Hi Hno. apply (foldl_write order kv _ Hfun). intros w Hw Ew. rewrite Hord in Hw.
      destruct (Hwrite w Hw) as (m & a & pl' & i' & Ha & Hpl' & Hi' & E'). rewrite E' in Ew.
      apply kv_address_inj in Ew as (-> & _ & _); [|by eapply row_addr_offset|done..].
      destruct (row_chunk _ _ _ Ha) as (r & c & k & t & Hr & Hk & _ & E2). apply list_elem_of_lookup_2 in Hr. apply lookup_lt_Some in Hk.
      apply (Hno c (ck_start c + k)%nat Hr); [unfold written, ck_end; lia|done].
Qed.

(** ** Property *)

(** C35: storing keys and values is what the paged contract says, in whatever order the
    threads run: on a prepared batch of at most 349525 rows - beyond, an offset leaves the 32
    bits it is computed in - whose chunks do not share a slot that one of them writes, and
    whose rows the projections hold, every thread reads the indices and the projections
    within their buffers, no two threads write the same address and none outside the pool,
    and after all writes, in any order, the slots of the new positions hold the keys and
    values of their rows and every other slot what it held. *)
Theorem StoreKV_paged {V} (qkv : device_buffer (V := V)) ctx chs rows slots blocks draws (pool : nat) :
  sized ctx rows slots blocks -> describes ctx chs blocks draws -> apart_chunks chs ->
  (forall c, c ∈ chs -> (ck_end c <= block_size * length (ck_table c))%nat) ->
  (forall c, c ∈ chs -> Forall (fun b => b < pool)%nat (ck_table c)) ->
  (Z.of_nat (slots * blocks) < 2 ^ 31)%Z -> (n_rows ctx <= kMaxStoreRows)%Z -> (n_rows ctx * (q_dim + 2 * kv_dim) <= size_ qkv)%Z ->
  exists ws, StoreKV qkv ctx (n_rows ctx) = Ret ws /\
    (forall j j' l l' w w', ws !! j = Some l -> ws !! j' = Some l' -> w ∈ l -> w' ∈ l' -> w.1 = w'.1 -> j = j' /\ w = w') /\
    (forall w, w ∈ concat ws -> (0 <= w.1 < Z.of_nat pool * kKvPlanes * kKvBlock * kv_dim)%Z) /\
    forall kv order, order ≡ₚ concat ws ->
      (forall r c k t pl i, chs !! r = Some c -> ck_tokens c !! k = Some t -> (0 <= pl < 2)%Z -> (0 <= i < kv_dim)%Z ->
         foldl write kv order (kv_address (addr (ck_table c) (ck_start c + k)) pl i) = row_value qkv (Z.of_nat (first_row chs r + k)) pl i) /\
      (forall b o pl i, (o < block_size)%nat -> (0 <= pl < 2)%Z -> (0 <= i < kv_dim)%Z ->
         (forall c p, c ∈ chs -> written c p -> addr (ck_table c) p <> (b, o)) ->
         foldl write kv order (kv_address (b, o) pl i) = kv (kv_address (b, o) pl i)).
Proof. apply StoreKV_ok. Qed.

(** ** Witness *)
Lemma three_stored : exists ctx, sized ctx 24 4 4 /\ describes ctx three_chunks 4 [one_f] /\ apart_chunks three_chunks /\
  (forall c, c ∈ three_chunks -> (ck_end c <= block_size * length (ck_table c))%nat) /\
  (forall c, c ∈ three_chunks -> Forall (fun b => b < 9)%nat (ck_table c)).
Proof.
  destruct three_fit as (H0 & H1 & H2 & H3 & H4).
  destruct (PrepareInputs_ok (new_StepContext 24 4 64 (-1)) three_chunks [one_f] 24 4 4 H0 H1 H2 H3 H4) as (ctx & _ & Hs & Hd).
  exists ctx. split; [exact Hs|]. split; [exact Hd|]. split; [|split].
  - intros i j c c' p q Hi Hj Hp Hq E.
    assert (Hall : Forall (fun '(i, c) => Forall (fun '(j, c') => Forall (fun p => Forall (fun q =>
      addr (ck_table c) p = addr (ck_table c') q -> i = j /\ p = q) (seq 0 (ck_end c'))) (seq (ck_start c) (length (ck_tokens c))))
      (imap pair three_chunks)) (imap pair three_chunks)).
    { apply (bool_decide_unpack _). vm_compute. reflexivity. }
    assert (Hpair : forall k d, three_chunks !! k = Some d -> (k, d) ∈ imap pair three_chunks).
    { intros k d Hk. apply (list_elem_of_lookup_2 _ k). by rewrite list_lookup_imap, Hk. }
    rewrite Forall_forall in Hall. specialize (Hall _ (Hpair _ _ Hi)). cbn beta iota in Hall.
    rewrite Forall_forall in Hall. specialize (Hall _ (Hpair _ _ Hj)). cbn beta iota in Hall.
    rewrite Forall_forall in Hall. specialize (Hall p ltac:(apply elem_of_seq; exact Hp)).
    rewrite Forall_forall in Hall. exact (Hall q ltac:(apply elem_of_seq; lia) E).
  - intros c. unfold three_chunks. rewrite !elem_of_cons. intros [-> |[-> |[-> |H]]]; [vm_compute; lia..|by apply not_elem_of_nil in H].
  - intros c. unfold three_chunks. rewrite !elem_of_cons. intros [-> |[-> |[-> |H]]]; [..|by apply not_elem_of_nil in H];
      repeat constructor.
Qed.

Lemma three_elsewhere o c p : c ∈ three_chunks -> written c p -> addr (ck_table c) p <> (7, o)%nat.
Proof.
  unfold three_chunks. rewrite !elem_of_cons. unfold written, ck_end, addr.
  intros [-> |[-> |[-> |Hn]]] Hr; [| | |by apply not_elem_of_nil in Hn]; cbn [ck_start ck_tokens ck_table length] in Hr |- *.
  - assert (p = 0 \/ p = 1 \/ p = 2)%nat as [-> |[-> | ->]] by lia; discriminate.
  - assert (p = 16)%nat as -> by lia. discriminate.
  - assert (p = 5)%nat as -> by lia. discriminate.
Qed.

Definition twenty_four_rows : device_buffer (V := Z) := {| size_ := 24 * 6144; at_ := fun a => a |}.

Lemma StoreKV_paged_witness : exists ctx ws, StoreKV twenty_four_rows ctx (n_rows ctx) = Ret ws /\
  foldl write (fun _ => 0%Z) (rev (concat ws)) (kv_address (addr [7; 2] 16) 1 5) = row_value twenty_four_rows 3 1 5 /\
  foldl write (fun _ => 0%Z) (concat ws) (kv_address (7, 0) 1 5) = 0%Z.
Proof.
  destruct three_stored as (ctx & Hs & Hd & Ha & Ht & Hp).
  assert (n_rows ctx = 5%Z) as Hn by (rewrite (ds_rows _ _ _ _ Hd); reflexivity).
  destruct (StoreKV_paged twenty_four_rows ctx three_chunks 24 4 4 [one_f] 9 Hs Hd Ha Ht Hp ltac:(done)
    ltac:(rewrite Hn; done) ltac:(rewrite Hn; done)) as (ws & E & _ & _ & H). exists ctx, ws.
  split; [exact E|]. split.
  - destruct (H (fun _ => 0%Z) (rev (concat ws))) as [Hw _]; [symmetry; apply Permutation_rev|].
    apply (Hw 1%nat _ 0%nat 13%Z 1%Z 5%Z eq_refl eq_refl); vm_compute; by split.
  - destruct (H (fun _ => 0%Z) (concat ws) (reflexivity _)) as [_ Hk]. apply (Hk 7%nat 0%nat 1%Z 5%Z); [vm_compute; lia|by split|by split|].
    apply three_elsewhere.
Defined.
