(* ===== verification/Strided.v ===== *)
(** * Elements dealt out with a stride

    A kernel that shares a list among [n] threads gives thread [j] the elements [j], [j + n],
    [j + 2 * n] and so on. Each element is given to one thread. *)

From S2P Require Import Prelude.
Local Open Scope go_scope.

(** Elements [from], [from + step], ... *)
Fixpoint strided {A} (fuel : nat) (l : list A) (from step : nat) : list A :=
  match fuel, l !! from with
  | S n, Some x => x :: strided n l (from + step) step
  | _, _ => []
  end.

(** All of them. *)
Definition strides {A} (n : nat) (l : list A) : list (list A) := (fun j => strided (length l) l j n) <$> seq 0 n.

Lemma strided_seq n fuel : forall from step, (0 < step)%nat -> (n <= from + fuel)%nat ->
  forall p, p ∈ strided fuel (seq 0 n) from step <-> (p < n)%nat /\ exists k, p = (from + k * step)%nat.
Proof.
  induction fuel as [|fuel IH]; intros from step Hs Hn p; cbn [strided].
  - split; [by intros ?%not_elem_of_nil|]. intros [Hp [k ->]]. lia.
  - destruct (seq 0 n !! from) as [x|] eqn:E.
    + apply lookup_seq in E as [-> Hlt]. cbn [Nat.add]. rewrite elem_of_cons, IH by lia. split.
      * intros [-> |[Hp [k ->]]]; [split; [lia|by exists 0%nat; lia]|]. split; [done|]. exists (S k). lia.
      * intros [Hp [[|k] ->]]; [left; lia|right; split; [done|]]. exists k. lia.
    + apply lookup_ge_None in E. rewrite length_seq in E. split; [by intros ?%not_elem_of_nil|]. intros [Hp [k ->]]. lia.
Qed.

Lemma strided_nodup n fuel : forall from step, (0 < step)%nat -> NoDup (strided fuel (seq 0 n) from step).
Proof.
  induction fuel as [|fuel IH]; intros from step Hs; cbn [strided]; [constructor|].
  destruct (seq 0 n !! from) as [x|] eqn:E; [|constructor]. apply lookup_seq in E as [-> Hlt]. constructor; [|by apply IH].
  assert (forall f g p, p ∈ strided f (seq 0 n) g step -> (g <= p)%nat) as H.
  { clear. induction f as [|f IH]; intros g p; cbn [strided]; [by intros ?%not_elem_of_nil|].
    destruct (seq 0 n !! g) as [x|] eqn:E; [|by intros ?%not_elem_of_nil]. apply lookup_seq in E as [-> _].
    intros [-> |Hp]%elem_of_cons; [lia|]. apply IH in Hp. lia. }
  intros Hin%H. lia.
Qed.

Lemma strided_fmap {A B} (f : A -> B) fuel : forall l from step, strided fuel (f <$> l) from step = f <$> strided fuel l from step.
Proof.
  induction fuel as [|fuel IH]; intros l from step; [done|]. cbn [strided]. rewrite list_lookup_fmap.
  destruct (l !! from); [|done]. cbn. by rewrite IH.
Qed.

Lemma strides_seq step n : (0 < step)%nat -> concat (strides step (seq 0 n)) ≡ₚ seq 0 n.
Proof.
  intros Hs.
  assert (Hin : forall j p, (j < step)%nat -> p ∈ strided n (seq 0 n) j step <-> (p < n)%nat /\ p `mod` step = j).
  { intros j p Hj. rewrite strided_seq by lia. split; (intros [Hp H]; split; [done|]).
    - destruct H as [k ->]. rewrite Nat.Div0.mod_add. by apply Nat.mod_small.
    - exists (p `div` step)%nat. subst j. pose proof (Nat.div_mod_eq p step). lia. }
  unfold strides. rewrite length_seq. apply NoDup_Permutation; [|apply NoDup_seq|].
  - assert (forall m i, (i + m <= step)%nat -> NoDup (concat ((fun j => strided n (seq 0 n) j step) <$> seq i m))) as H.
    { induction m as [|m IH]; intros i Hi; [constructor|]. cbn [seq fmap list_fmap concat]. apply NoDup_app.
      split; [by apply strided_nodup|]. split; [|apply IH; lia]. intros p Hp Hp'.
      apply list_elem_of_In, in_concat in Hp' as (l & Hl & Hp'). apply list_elem_of_In, list_elem_of_fmap in Hl as (j & -> & Hj).
      apply elem_of_seq in Hj. apply list_elem_of_In, Hin in Hp' as [_ E]; [|lia]. apply Hin in Hp as [_ E']; lia. }
    apply H. lia.
  - intros p. rewrite elem_of_seq. split.
    + intros H. apply list_elem_of_In, in_concat in H as (l & Hl & Hp). apply list_elem_of_In, list_elem_of_fmap in Hl as (j & -> & Hj).
      apply elem_of_seq in Hj. apply list_elem_of_In, Hin in Hp as [Hp _]; lia.
    + intros [_ Hp]. apply list_elem_of_In, in_concat. exists (strided n (seq 0 n) (p `mod` step) step).
      pose proof (Nat.mod_upper_bound p step ltac:(lia)). split; apply list_elem_of_In; [|by apply Hin].
      apply list_elem_of_fmap. exists (p `mod` step). split; [done|]. apply elem_of_seq. lia.
Qed.

Lemma strides_fmap {A B} (f : A -> B) step (l : list A) : strides step (f <$> l) = map f <$> strides step l.
Proof. unfold strides. rewrite length_fmap, <- list_fmap_compose. apply list_fmap_ext. intros k j _. apply strided_fmap. Qed.

Lemma strides_once {A} step (l : list A) : (0 < step)%nat -> concat (strides step l) ≡ₚ l.
Proof.
  intros Hk. destruct l as [|x0 l0]; [|remember (x0 :: l0) as l eqn:El; clear El].
  { unfold strides. generalize (seq 0 step). intros js. induction js as [|j js IH]; [done|]. exact IH. }
  assert (E : l = (fun p => nth p l x0) <$> seq 0 (length l)).
  { apply list_eq. intros i. rewrite list_lookup_fmap. destruct (decide (i < length l)%nat) as [Hi|Hi].
    - rewrite lookup_seq_lt by done. destruct (lookup_lt_is_Some_2 l i Hi) as [y Hy]. rewrite Hy. cbn [fmap option_fmap option_map Nat.add].
      by rewrite (nth_lookup_Some _ _ _ _ Hy).
    - rewrite !(proj2 (lookup_ge_None _ _)) by (rewrite ?length_seq; lia). done. }
  rewrite E, strides_fmap, <- (concat_map (fun p => nth p l x0)). apply Permutation_map, strides_seq, Hk.
Qed.
