(* ===== verification/Attention.v ===== *)
(** * Attention over paged keys and values

    Models which keys and values the attention kernels of [engine/src/attn_sm80.cu] read,
    and in which order: [DecodeSplitKernel] for requests with one new token, whose positions
    are dealt out to the warps of several blocks, and [PrefillKernel] for the others, which
    reads whole cache blocks and masks the positions after a row's own. The arithmetic on
    what was read is a parameter, one function per kernel; so is the arithmetic of the
    masked positions, which the hypothesis [masked_ignored] says contribute nothing.

    The property is that on a prepared batch every row is computed, from the keys and
    values of exactly the positions up to its own, each read once. *)

From S2P Require Import Prelude Strided GoStrings Chatml Client Generate BlockAllocator Sequence Scheduler PagedRuntime StepContext KvStore.
Local Open Scope go_scope.

Definition kQTile : Z := 64.
Definition kWarps : Z := 4.
Definition kMaxKsplit : Z := 16.
Definition kDecodeMaxHeads : Z := 64.
Definition kGqaGroup : Z := (kNumHeads / kNumKvHeads)%Z.

(** The results of a loop, in its order. *)
Fixpoint collect {A B} (f : A -> run B) (l : list A) : run (list B) :=
  match l with
  | [] => Ret []
  | x :: l => let* y := f x in let* ys := collect f l in Ret (y :: ys)
  end.

Lemma collect_ok {A B} (f : A -> run B) (g : A -> B) l : (forall x, x ∈ l -> f x = Ret (g x)) -> collect f l = Ret (g <$> l).
Proof.
  induction l as [|x l IH]; intros H; [done|]. cbn [collect]. rewrite H by by left. cbn [run_bind].
  rewrite IH by (intros y Hy; apply H; by right). done.
Qed.

Lemma collect_seqZ {B} (f : Z -> run B) (g : nat -> B) (m n : nat) :
  (forall i, (m <= i < m + n)%nat -> f (Z.of_nat i) = Ret (g i)) -> collect f (seqZ (Z.of_nat m) (Z.of_nat n)) = Ret (g <$> seq m n).
Proof.
  revert m. induction n as [|n IH]; intros m H; [done|]. rewrite seqZ_cons by lia. cbn [collect seq fmap list_fmap].
  rewrite H by lia. cbn [run_bind]. replace (Z.succ (Z.of_nat m)) with (Z.of_nat (S m)) by lia.
  replace (Z.pred (Z.of_nat (S n))) with (Z.of_nat n) by lia. rewrite IH by (intros i Hi; apply H; lia). done.
Qed.

Lemma collect_listed {A B} (f : Z -> run B) (g : A -> B) l :
  (forall i x, l !! i = Some x -> f (Z.of_nat i) = Ret (g x)) -> collect f (seqZ 0 (len l)) = Ret (g <$> l).
Proof.
  intros H. assert (forall m, (forall i x, l !! i = Some x -> f (Z.of_nat (m + i)) = Ret (g x)) ->
    collect f (seqZ (Z.of_nat m) (len l)) = Ret (g <$> l)) as Hm; [|by apply (Hm 0%nat)].
  clear H. induction l as [|x l IH]; intros m H; [done|]. unfold len in *. cbn [length]. rewrite seqZ_cons by lia. cbn [collect].
  pose proof (H 0%nat x eq_refl) as H0. rewrite Nat.add_0_r in H0. rewrite H0. cbn [run_bind].
  replace (Z.succ (Z.of_nat m)) with (Z.of_nat (S m)) by lia. replace (Z.pred (Z.of_nat (S (length l)))) with (Z.of_nat (length l)) by lia.
  rewrite IH; [done|]. intros i y Hi. rewrite <- (H (S i) y Hi). f_equal. lia.
Qed.

(** ** Dealing positions out to warps *)

(** The elements of warp [w] of part [sp], of [ks] parts. *)
Definition dealt {A} (ks : nat) (l : list A) : list (list (list A)) :=
  (fun sp => (fun w => strided (length l) l (sp * 4 + w) (4 * ks)) <$> seq 0 4) <$> seq 0 ks.

(** Each element is dealt once. *)
Lemma dealt_once {A} ks (l : list A) : (0 < ks)%nat -> concat (concat (dealt ks l)) ≡ₚ l.
Proof.
  intros Hk. assert (concat (dealt ks l) = strides (4 * ks) l) as ->; [|apply strides_once; lia]. clear Hk.
  assert (forall step n i, concat ((fun sp => (fun w => strided (length l) l (sp * 4 + w) step) <$> seq 0 4) <$> seq i n)
    = (fun j => strided (length l) l j step) <$> seq (i * 4) (n * 4)) as H.
  { intros step n. induction n as [|n IH]; intros i; [done|]. cbn [seq fmap list_fmap concat]. rewrite IH.
    change (S n * 4)%nat with (4 + n * 4)%nat. rewrite seq_app, fmap_app. cbn [seq fmap list_fmap app].
    rewrite Nat.add_0_r. repeat (f_equal; try lia). }
  unfold dealt, strides. rewrite H. by rewrite (Nat.mul_comm ks 4).
Qed.

(** ** The kernels *)
Section attention.
Context {V : Type}.

Abbreviation memory := (Z -> V).
(** A key and a value, of one head. *)
Abbreviation entry := (list V * list V)%type.

(** Head [h] of a row. *)
Definition head (h : Z) (r : list V) : list V := take (Z.to_nat kHeadDim) (drop (Z.to_nat (h * kHeadDim)) r).

Definition segment (m : memory) (base n : Z) : list V := (fun i => m (base + i)%Z) <$> seqZ 0 n.

Context (attend_decode : list V -> list (list (list entry)) -> list V).
Context (attend_prefill : list V -> list (bool * entry) -> list V).

(** *** One token per request *)
Definition load_entry (kv : memory) (bt : list Z) (row kvh kpos : Z) : run entry :=
  let* b := zindex bt (row + kpos / kKvBlock) in
  let base := (b * kKvPlanes * plane + kpos mod kKvBlock * kv_dim + kvh * kHeadDim)%Z in
  Ret (segment kv base kHeadDim, segment kv (base + plane)%Z kHeadDim).

Fixpoint warp_loop (fuel : nat) (kv : memory) (bt : list Z) (row kvh kpos step qpos : Z) : run (list entry) :=
  if (kpos <=? qpos)%Z then
    match fuel with
    | O => Fuel
    | S n =>
        let* e := load_entry kv bt row kvh kpos in
        let* es := warp_loop n kv bt row kvh (kpos + step) step qpos in
        Ret (e :: es)
    end
  else Ret [].

(** The row of request [di] and its output: [DecodeSplitKernel] reads, [DecodeCombineKernel]
    writes. *)
Definition decode_row (kv : memory) (qkv : list (list V)) (ctx : StepContext) (ksplit di : Z) : run (Z * list V) :=
  let* r := zindex (dev (decode_rids ctx)) di in
  let* flat := zindex (dev (qstart ctx)) r in
  let* qpos := zindex (pos ctx) flat in
  let* q := zindex qkv flat in
  let* heads := collect (fun h =>
    let* parts := collect (fun sp => collect (fun w =>
      warp_loop (Z.to_nat (qpos + 1)) kv (dev (bt ctx)) (int32 (r * max_blocks ctx)) (h / kGqaGroup) (sp * kWarps + w) (kWarps * ksplit) qpos)
      (seqZ 0 kWarps)) (seqZ 0 ksplit) in
    Ret (attend_decode (head h q) parts)) (seqZ 0 kNumHeads) in
  Ret (flat, concat heads).

Definition split_of (n_decode : Z) : Z :=
  let ksplit := (128 / n_decode)%Z in
  let ksplit := if (ksplit <? 1)%Z then 1%Z else ksplit in
  if (kMaxKsplit <? ksplit)%Z then kMaxKsplit else ksplit.

Definition LaunchAttnDecode (kv : memory) (qkv : list (list V)) (ctx : StepContext) (n_decode : Z) : run (list (Z * list V)) :=
  if (n_decode <=? 0)%Z then Ret [] else
  collect (decode_row kv qkv ctx (split_of n_decode)) (seqZ 0 n_decode).

(** Where a part leaves its partial result, and the size of the buffers. *)
Definition partial_index (ksplit di h sp : Z) : Z := ((di * kNumHeads + h) * ksplit + sp)%Z.
Definition DecodePartialFloats (max_decode : Z) : Z := (max_decode * kDecodeMaxHeads * kMaxKsplit)%Z.

(** *** Several tokens per request *)
Definition load_block (kv : memory) (bt : list Z) (row kvh kb : Z) : run (list entry) :=
  let* b := zindex bt (row + kb) in
  let kvbase := (b * kKvPlanes * plane + kvh * kHeadDim)%Z in
  Ret ((fun j => (segment kv (kvbase + j * kv_dim)%Z kHeadDim, segment kv (kvbase + plane + j * kv_dim)%Z kHeadDim)) <$> seqZ 0 kKvBlock).

(** One tile of rows of request [req], with what each of its heads reads. *)
Definition prefill_tile (kv : memory) (qkv : list (list V)) (ctx : StepContext) (req tile : Z) : run (list (Z * list V)) :=
  let* ql := zindex (dev (qlen ctx)) req in
  let* qs := zindex (dev (qstart ctx)) req in
  let q0 := (tile * kQTile)%Z in
  if (ql <=? q0)%Z then Ret [] else
  let qlast := Z.min (q0 + kQTile - 1) (ql - 1) in
  let* plast := zindex (pos ctx) (qs + qlast) in
  let n_blocks := (plast / kKvBlock + 1)%Z in
  let* heads := collect (fun kvh =>
    let* blocks := collect (load_block kv (dev (bt ctx)) (int32 (req * max_blocks ctx)) kvh) (seqZ 0 n_blocks) in
    Ret (concat blocks)) (seqZ 0 kNumKvHeads) in
  collect (fun grow =>
    let* qpos := zindex (pos ctx) (qs + grow) in
    let* q := zindex qkv (qs + grow) in
    Ret (qs + grow, concat ((fun h => attend_prefill (head h q)
      (imap (fun kpos e => ((Z.of_nat kpos <=? qpos)%Z, e)) (nth (Z.to_nat (h / kGqaGroup)) heads []))) <$> seqZ 0 kNumHeads))%Z)
    (seqZ q0 (Z.min kQTile (ql - q0))).

Definition LaunchAttnPrefill (kv : memory) (qkv : list (list V)) (ctx : StepContext) (R max_qlen : Z) : run (list (Z * list V)) :=
  if (R <=? 0)%Z then Ret [] else
  let* writes := collect (fun z =>
    let* req := zindex (dev (prefill_rids ctx)) z in
    let* tiles := collect (prefill_tile kv qkv ctx req) (seqZ 0 ((max_qlen + kQTile - 1) / kQTile)) in
    Ret (concat tiles)) (seqZ 0 R) in
  Ret (concat writes).

(** *** Both *)

(** The writes of rows into a buffer. *)
Fixpoint scatter {A} (l : list A) (ws : list (Z * A)) : run (list A) :=
  match ws with
  | [] => Ret l
  | (i, x) :: ws => let* l := set_at l i x in scatter l ws
  end.

(** The attention of a layer: the new contents of its output buffer. *)
Definition attention (kv : memory) (qkv : list (list V)) (ctx : StepContext) (n_decode n_prefill max_qlen : Z) (attn : list (list V))
    : run (list (list V)) :=
  let* ws := LaunchAttnDecode kv qkv ctx n_decode in
  let* attn := scatter attn ws in
  let* ws := LaunchAttnPrefill kv qkv ctx n_prefill max_qlen in
  scatter attn ws.

(** *** What a row should be *)

(** A row of the cache: all heads of the key and the value in a slot. *)
Definition cached (kv : memory) (a : nat * nat) : entry := (segment kv (kv_address a 0 0) kv_dim, segment kv (kv_address a 1 0) kv_dim).

Definition head_entry (g : Z) (e : entry) : entry := (head g e.1, head g e.2).

(** The output of a row with [n] decoding requests next to it, or among those of a prompt. *)
Definition attended (n_decode : option Z) (q : list V) (kvs : list entry) : list V :=
  concat ((fun h =>
    let es := head_entry (h / kGqaGroup) <$> kvs in
    match n_decode with
    | Some n => attend_decode (head h q) (dealt (Z.to_nat (split_of n)) es)
    | None => attend_prefill (head h q) (pair true <$> es)
    end) <$> seqZ 0 kNumHeads).

(** ** Reading a slot *)
Lemma segment_lookup (m : memory) base n (i : nat) : (Z.of_nat i < n)%Z -> segment m base n !! i = Some (m (base + Z.of_nat i)%Z).
Proof using Type. intros H. unfold segment. rewrite list_lookup_fmap, lookup_seqZ_lt by lia. done. Qed.

Lemma segment_length (m : memory) base n : length (segment m base n) = Z.to_nat n.
Proof using Type. unfold segment. by rewrite length_fmap, length_seqZ. Qed.

Lemma head_segment (m : memory) base g : (0 <= g < kNumKvHeads)%Z ->
  head g (segment m base kv_dim) = segment m (base + g * kHeadDim) kHeadDim.
Proof using Type.
  intros Hg. unfold kNumKvHeads in Hg. apply list_eq_same_length with (Z.to_nat kHeadDim); unfold head.
  - by rewrite segment_length.
  - rewrite length_take, length_drop, segment_length. unfold kv_dim, kNumKvHeads, kHeadDim. lia.
  - intros i x y Hi Hx Hy. rewrite lookup_take_lt, lookup_drop, segment_lookup in Hx by (unfold kv_dim, kNumKvHeads, kHeadDim in *; lia).
    rewrite segment_lookup in Hy by lia. injection Hx as <-. injection Hy as <-. f_equal. unfold kHeadDim. lia.
Qed.

Lemma head_group h : (0 <= h < kNumHeads)%Z -> (0 <= h / kGqaGroup < kNumKvHeads)%Z.
Proof using Type. intros H. unfold kNumHeads in H. change kGqaGroup with 4%Z. unfold kNumKvHeads. split; [apply Z.div_pos|apply Z.div_lt_upper_bound]; lia. Qed.

(** ** The rows of a prepared batch *)
Section prepared.
Context (ctx : StepContext) (chs : list chunk) (rows slots blocks : nat) (draws : list float32).
Context (Hsized : sized ctx rows slots blocks) (Hdesc : describes ctx chs blocks draws).
Context (Htable : forall c, c ∈ chs -> (ck_end c <= block_size * length (ck_table c))%nat).
Context (Hwide : (Z.of_nat (slots * blocks) < 2 ^ 31)%Z).
Context (kv : memory).

(** The keys and values of a chunk's sequence up to position [p]. *)
Definition upto (c : chunk) (p : nat) : list entry := (fun q => cached kv (addr (ck_table c) q)) <$> seq 0 (S p).

Lemma table_block r c p : chs !! r = Some c -> (p < ck_end c)%nat ->
  exists b, ck_table c !! (p `div` block_size) = Some b /\
    zindex (dev (bt ctx)) (int32 (Z.of_nat r * max_blocks ctx) + Z.of_nat (p `div` block_size)) = Ret (Z.of_nat b).
Proof using Hsized Hdesc Htable Hwide.
  intros Hr Hp. pose proof (Htable c (list_elem_of_lookup_2 _ _ _ Hr)) as He.
  destruct (lookup_lt_is_Some_2 (ck_table c) (p `div` block_size)) as [b Hb]; [apply Nat.Div0.div_lt_upper_bound; lia|].
  exists b. split; [done|].
  pose proof (ds_table _ _ _ _ Hdesc r c Hr (p `div` block_size)%nat (Z.of_nat b) ltac:(by rewrite list_lookup_fmap, Hb)) as Hbt.
  pose proof (lookup_lt_Some _ _ _ Hbt) as Hin. rewrite (proj1 (sz_bt _ _ _ _ Hsized)) in Hin.
  rewrite (sz_blocks _ _ _ _ Hsized), int32_id, <- Nat2Z.inj_mul, <- Nat2Z.inj_add by lia. by apply zindex_Some.
Qed.

Lemma head_cached g b o : (0 <= g < kNumKvHeads)%Z ->
  head_entry g (cached kv (b, o)) =
  (segment kv (Z.of_nat b * kKvPlanes * plane + Z.of_nat o * kv_dim + g * kHeadDim) kHeadDim,
   segment kv (Z.of_nat b * kKvPlanes * plane + Z.of_nat o * kv_dim + g * kHeadDim + plane) kHeadDim).
Proof using Type.
  clear Hwide. intros Hg. unfold head_entry, cached. cbn [fst snd]. rewrite !head_segment by done. unfold kv_address. cbn [fst snd].
  unfold kKvPlanes, plane, kKvBlock, kv_dim, kNumKvHeads, kHeadDim.
  f_equal; f_equal; lia.
Qed.

Lemma load_entry_ok r c p g : chs !! r = Some c -> (p < ck_end c)%nat -> (0 <= g < kNumKvHeads)%Z ->
  load_entry kv (dev (bt ctx)) (int32 (Z.of_nat r * max_blocks ctx)) g (Z.of_nat p) = Ret (head_entry g (cached kv (addr (ck_table c) p))).
Proof using Hsized Hdesc Htable Hwide.
  intros Hr Hp Hg. destruct (table_block r c p Hr Hp) as (b & Hb & E). unfold load_entry.
  change kKvBlock with (Z.of_nat block_size). rewrite <- Nat2Z.inj_div, E. cbn [run_bind]. unfold addr. rewrite (nth_lookup_Some _ _ _ _ Hb).
  rewrite head_cached by done. by rewrite Nat2Z.inj_mod.
Qed.

Lemma warp_loop_ok fuel bt row g (l : list entry) qpos : forall (from step : nat),
  (forall p e, l !! p = Some e -> load_entry kv bt row g (Z.of_nat p) = Ret e) -> Z.of_nat (length l) = (qpos + 1)%Z ->
  (0 < step)%nat -> (length l <= from + fuel)%nat ->
  warp_loop fuel kv bt row g (Z.of_nat from) (Z.of_nat step) qpos = Ret (strided fuel l from step).
Proof using Type.
  clear Hwide. induction fuel as [|fuel IH]; intros from step Hl Hq Hs Hf; cbn [warp_loop strided].
  - by rewrite (proj2 (Z.leb_gt _ _)) by lia.
  - destruct (l !! from) as [e|] eqn:Ee.
    + pose proof (lookup_lt_Some _ _ _ Ee). rewrite (proj2 (Z.leb_le _ _)) by lia. rewrite (Hl from e Ee). cbn [run_bind].
      rewrite <- Nat2Z.inj_add, IH by (done || lia). done.
    + apply lookup_ge_None in Ee. by rewrite (proj2 (Z.leb_gt _ _)) by lia.
Qed.

Lemma head_entries_lookup g c n p e : (head_entry g <$> upto c n) !! p = Some e ->
  (p <= n)%nat /\ e = head_entry g (cached kv (addr (ck_table c) p)).
Proof using Type.
  clear Hwide. unfold upto. rewrite list_lookup_fmap, list_lookup_fmap. destruct (seq 0 (S n) !! p) as [q|] eqn:E; [|done].
  apply lookup_seq in E as [-> Hp]. intros [= <-]. split; [lia|done].
Qed.

Lemma split_of_pos n : (1 <= split_of n)%Z.
Proof using Type. clear Hwide. unfold split_of, kMaxKsplit. repeat case_match; lia. Qed.

Context (qkv : list (list V)) (Hqkv : (length (in_tokens (input_of chs)) <= length qkv)%nat).

Lemma first_row_in r c k t : chs !! r = Some c -> ck_tokens c !! k = Some t -> (first_row chs r + k < length qkv)%nat.
Proof using Hqkv.
  clear Hwide. intros Hr Hk. destruct (input_row chs r c k t Hr Hk) as [H _]. apply lookup_lt_Some in H. lia.
Qed.

(** Row [k] of chunk [r] and its output. *)
Definition row_output (mode : option Z) (r : nat) (c : chunk) (k : nat) : Z * list V :=
  (Z.of_nat (first_row chs r + k), attended mode (default [] (qkv !! (first_row chs r + k)%nat)) (upto c (ck_start c + k))).

Lemma decode_row_ok n r c (di : nat) :
  chs !! r = Some c -> length (ck_tokens c) = 1%nat -> dev (decode_rids ctx) !! di = Some (Z.of_nat r) ->
  decode_row kv qkv ctx (split_of n) (Z.of_nat di) = Ret (row_output (Some n) r c 0).
Proof using Hsized Hdesc Htable Hwide Hqkv.
  intros Hr Hl Hdi. destruct (lookup_lt_is_Some_2 (ck_tokens c) 0) as [t Hk]; [lia|].
  destruct (lookup_lt_is_Some_2 qkv _ (first_row_in r c 0 t Hr Hk)) as [q Hq]. unfold row_output. rewrite Hq. clear Hqkv.
  rewrite !Nat.add_0_r in *. unfold decode_row. rewrite (zindex_Some _ _ _ Hdi). cbn [run_bind].
  destruct (sp_start _ _ (ds_split _ _ _ _ Hdesc) r c Hr) as [Hqs _]. rewrite (zindex_Some _ _ _ Hqs). cbn [run_bind].
  destruct (ds_row _ _ _ _ Hdesc r c 0%nat t Hr Hk) as (_ & Hp & _). rewrite !Nat.add_0_r in Hp. rewrite (zindex_Some _ _ _ Hp). cbn [run_bind].
  rewrite (zindex_Some _ _ _ Hq). cbn [run_bind default from_option id]. unfold attended. erewrite collect_ok; [reflexivity|]. intros h Hh%elem_of_seqZ.
  assert (Hg : (0 <= h / kGqaGroup < kNumKvHeads)%Z) by (apply head_group; unfold kNumHeads in *; lia).
  set (es := head_entry (h / kGqaGroup) <$> upto c (ck_start c)).
  assert (Hlen : length es = S (ck_start c)) by (unfold es, upto; by rewrite !length_fmap, length_seq).
  pose proof (split_of_pos n) as Hks. replace (seqZ 0 (split_of n)) with (seqZ (Z.of_nat 0) (Z.of_nat (Z.to_nat (split_of n)))) by (by rewrite Z2Nat.id by lia).
  rewrite (collect_seqZ _ (fun sp => (fun w => strided (length es) es (sp * 4 + w) (4 * Z.to_nat (split_of n))) <$> seq 0 4) 0).
  2: { intros sp Hsp. change kWarps with (Z.of_nat 4). change 0%Z with (Z.of_nat 0).
    apply (collect_seqZ _ (fun w => strided (length es) es (sp * 4 + w) (4 * Z.to_nat (split_of n)))). intros w Hw.
    replace (Z.of_nat 4 * split_of n)%Z with (Z.of_nat (4 * Z.to_nat (split_of n))) by lia.
    rewrite <- Nat2Z.inj_mul, <- Nat2Z.inj_add. replace (Z.to_nat (Z.of_nat (ck_start c) + 1)) with (length es) by lia.
    apply warp_loop_ok; [|lia..]. intros p e [Hp' ->]%head_entries_lookup. apply load_entry_ok; [done| |done].
    unfold ck_end. lia. }
  cbn [run_bind]. reflexivity.
Qed.

Lemma which_elem p cs x : forall r, x ∈ which p r cs -> exists k cnt, x = Z.of_nat (r + k) /\ cs !! k = Some cnt /\ p cnt = true.
Proof using Type.
  clear. induction cs as [|c cs IH]; intros r; cbn [which]; [by intros ?%not_elem_of_nil|]. intros [H|H]%elem_of_app.
  - destruct (p c) eqn:E; [|by apply not_elem_of_nil in H]. apply list_elem_of_singleton in H as ->. exists 0%nat, c. split; [|done]. lia.
  - apply IH in H as (k & cnt & -> & Hk & Hc). exists (S k), cnt. split; [lia|done].
Qed.

Lemma which_in p cs k cnt : forall r, cs !! k = Some cnt -> p cnt = true -> Z.of_nat (r + k) ∈ which p r cs.
Proof using Type.
  clear. revert k. induction cs as [|c cs IH]; intros [|k] r Hk Hp; [done|done| |]; cbn [which]; apply elem_of_app.
  - injection Hk as ->. left. rewrite Hp, Nat.add_0_r. by left.
  - right. rewrite Nat.add_succ_r. by apply (IH k (S r)).
Qed.

(** The decoding requests are the chunks of one token. *)
Lemma decoding r c : chs !! r = Some c -> length (ck_tokens c) = 1%nat -> Z.of_nat r ∈ which decodes 0 (counts chs).
Proof using Type.
  clear. intros Hr Hl. apply (which_in decodes _ r (len (ck_tokens c)) 0); [unfold counts; by rewrite list_lookup_fmap, Hr|].
  unfold decodes, len. by rewrite Hl.
Qed.

Lemma prefilling r c : chs !! r = Some c -> length (ck_tokens c) <> 1%nat -> Z.of_nat r ∈ which prefills 0 (counts chs).
Proof using Type.
  clear. intros Hr Hl. apply (which_in prefills _ r (len (ck_tokens c)) 0); [unfold counts; by rewrite list_lookup_fmap, Hr|].
  unfold prefills, len. rewrite (proj2 (Z.eqb_neq _ _)); [done|lia].
Qed.

Lemma which_chunk p x : x ∈ which p 0 (counts chs) -> exists r c, x = Z.of_nat r /\ chs !! r = Some c /\ p (len (ck_tokens c)) = true.
Proof using Type.
  clear. intros (k & cnt & -> & Hk & Hd)%which_elem. unfold counts in Hk. rewrite list_lookup_fmap in Hk.
  destruct (chs !! k) as [c|] eqn:Hc; [|done]. injection Hk as <-. by exists k, c.
Qed.

(** A result for the chunk a request id stands for. *)
Definition at_chunk {A} (f : nat -> chunk -> A) (dflt : A) (x : Z) : A :=
  match chs !! Z.to_nat x with Some c => f (Z.to_nat x) c | None => dflt end.

Lemma at_chunk_eq {A} (f : nat -> chunk -> A) dflt r c : chs !! r = Some c -> at_chunk f dflt (Z.of_nat r) = f r c.
Proof using Type. clear. intros H. unfold at_chunk. by rewrite Nat2Z.id, H. Qed.

(** What the rows of the decoding requests become. *)
Lemma LaunchAttnDecode_ok : exists ws, LaunchAttnDecode kv qkv ctx (n_decode ctx) = Ret ws /\
  forall w, w ∈ ws <-> exists r c, chs !! r = Some c /\ length (ck_tokens c) = 1%nat /\ w = row_output (Some (n_decode ctx)) r c 0.
Proof using Hsized Hdesc Htable Hwide Hqkv.
  destruct (sp_decode _ _ (ds_split _ _ _ _ Hdesc)) as [Hn Hd]. set (ds := which decodes 0 (counts chs)) in *.
  set (g := at_chunk (fun r c => row_output (Some (n_decode ctx)) r c 0) (0%Z, [])). exists (g <$> ds). split.
  - unfold LaunchAttnDecode. rewrite Hn at 1. destruct (Z.leb_spec (len ds) 0) as [Hle|_].
    { destruct ds; [done|unfold len in Hle; simpl in Hle; lia]. }
    replace (seqZ 0 (n_decode ctx)) with (seqZ 0 (len ds)) by by rewrite Hn. apply collect_listed. intros di x Hx.
    destruct (which_chunk decodes x) as (r & c & -> & Hr & Hc); [by eapply list_elem_of_lookup_2|].
    unfold g. rewrite (at_chunk_eq _ _ r c) by done. apply decode_row_ok; [done| |by apply (Hd di)].
    unfold decodes, len in Hc. apply Z.eqb_eq in Hc. lia.
  - intros w. rewrite list_elem_of_fmap. split.
    + intros (x & -> & Hx). destruct (which_chunk decodes x Hx) as (r & c & -> & Hr & Hc). exists r, c. split; [done|].
      unfold decodes, len in Hc. apply Z.eqb_eq in Hc. split; [lia|]. unfold g. by rewrite (at_chunk_eq _ _ r c).
    + intros (r & c & Hr & Hl & ->). exists (Z.of_nat r). unfold g. rewrite (at_chunk_eq _ _ r c) by done. split; [done|by apply (decoding r c)].
Qed.

Lemma block_addr table kb j : (j < block_size)%nat -> addr table (block_size * kb + j) = (nth kb table 0%nat, j).
Proof using Type.
  clear. intros Hj. unfold addr. rewrite Nat.mul_comm, Nat.div_add_l, Nat.div_small, Nat.add_0_r by (done || lia).
  by rewrite Nat.add_comm, Nat.Div0.mod_add, Nat.mod_small.
Qed.

(** What a head finds at a position. *)
Definition found (g : Z) (c : chunk) (p : nat) : entry := head_entry g (cached kv (addr (ck_table c) p)).

Lemma load_block_ok r c (kb : nat) g : chs !! r = Some c -> (block_size * kb < ck_end c)%nat -> (0 <= g < kNumKvHeads)%Z ->
  load_block kv (dev (bt ctx)) (int32 (Z.of_nat r * max_blocks ctx)) g (Z.of_nat kb) = Ret (found g c <$> seq (block_size * kb) block_size).
Proof using Hsized Hdesc Htable Hwide.
  clear Hqkv. intros Hr Hp Hg. destruct (table_block r c _ Hr Hp) as (b & Hb & E). rewrite Nat.mul_comm, Nat.div_mul in Hb, E by done.
  unfold load_block. rewrite E. cbn [run_bind]. f_equal. change (seqZ 0 kKvBlock) with (seqZ (Z.of_nat 0) (Z.of_nat block_size)).
  rewrite <- (Nat.add_0_r (block_size * kb)), <- fmap_add_seq, <- list_fmap_compose. unfold seqZ. rewrite Nat2Z.id, <- list_fmap_compose.
  apply list_fmap_ext. intros i j Hj. apply lookup_seq in Hj as [-> Hj]. cbn [compose Nat.add]. unfold found.
  rewrite block_addr by done. rewrite (nth_lookup_Some _ _ _ _ Hb), head_cached by done. f_equal; f_equal; lia.
Qed.

Lemma concat_blocks {A} (f : nat -> A) n : concat ((fun kb => f <$> seq (block_size * kb) block_size) <$> seq 0 n) = f <$> seq 0 (block_size * n).
Proof using Type.
  clear. induction n as [|n IH]; [done|]. rewrite seq_S, fmap_app, concat_app, IH. cbn [fmap list_fmap concat Nat.add].
  rewrite app_nil_r, <- fmap_app, <- seq_app. do 2 f_equal. unfold block_size. lia.
Qed.

(** The mask keeps the positions up to the row's own. *)
Lemma visible {A} (f : nat -> A) n p : (p < n)%nat ->
  filter (fun e => e.1 = true) (imap (fun kpos e => ((Z.of_nat kpos <=? Z.of_nat p)%Z, e)) (f <$> seq 0 n)) = pair true <$> (f <$> seq 0 (S p)).
Proof using Type.
  clear. intros Hp. assert (H : forall m from, filter (fun e => e.1 = true)
      (imap (fun kpos e => ((Z.of_nat (from + kpos) <=? Z.of_nat p)%Z, e)) (f <$> seq from m)) = pair true <$> (f <$> seq from (Nat.min m (S p - from)))).
  { induction m as [|m IH]; intros from; [done|]. cbn [seq fmap list_fmap]. rewrite imap_cons, filter_cons, Nat.add_0_r. cbn [fst].
    erewrite imap_ext; [|intros i x _; cbn; by rewrite Nat.add_succ_r]. change (fun i x => (_, x)) with (fun i (x : A) => ((Z.of_nat (S from + i) <=? Z.of_nat p)%Z, x)).
    rewrite IH. destruct (Z.leb_spec (Z.of_nat from) (Z.of_nat p)).
    - rewrite decide_True by done. by replace (Nat.min (S m) (S p - from)) with (S (Nat.min m (S p - S from))) by lia.
    - rewrite decide_False by done. by replace (Nat.min m (S p - S from)) with 0%nat by lia; replace (Nat.min (S m) (S p - from)) with 0%nat by lia. }
  specialize (H n 0%nat). cbn [Nat.add] in H. rewrite H, Nat.min_r by lia. done.
Qed.

(** Masked positions contribute nothing: their weight is zero. *)
Definition masked_ignored : Prop := forall q es, attend_prefill q es = attend_prefill q (filter (fun e => e.1 = true) es).
Context (Hmasked : masked_ignored).

Lemma prefill_tile_ok r c (tile : nat) : chs !! r = Some c ->
  prefill_tile kv qkv ctx (Z.of_nat r) (Z.of_nat tile) =
  Ret (row_output None r c <$> seq (64 * tile) (Nat.min 64 (length (ck_tokens c) - 64 * tile))).
Proof using Hsized Hdesc Htable Hwide Hqkv Hmasked.
  intros Hr. destruct (sp_start _ _ (ds_split _ _ _ _ Hdesc) r c Hr) as [Hqs Hql].
  unfold prefill_tile. rewrite (zindex_Some _ _ _ Hql). cbn [run_bind]. rewrite (zindex_Some _ _ _ Hqs). cbn [run_bind].
  set (n := length (ck_tokens c)) in *. change kQTile with 64%Z. change (len (ck_tokens c)) with (Z.of_nat n).
  destruct (Z.leb_spec (Z.of_nat n) (Z.of_nat tile * 64)) as [Hle|Hlt].
  { by replace (Nat.min 64 (n - 64 * tile)) with 0%nat by lia. }
  set (klast := Nat.min (64 * tile + 63) (n - 1)).
  replace (Z.min (Z.of_nat tile * 64 + 64 - 1) (Z.of_nat n - 1)) with (Z.of_nat klast) by lia.
  assert (Hrow : forall k, (k < n)%nat -> pos ctx !! (first_row chs r + k)%nat = Some (Z.of_nat (ck_start c + k)) /\
    is_Some (qkv !! (first_row chs r + k)%nat)).
  { intros k Hk. destruct (lookup_lt_is_Some_2 (ck_tokens c) k Hk) as [t Ht]. split; [apply (ds_row _ _ _ _ Hdesc r c k t Hr Ht)|].
    apply lookup_lt_is_Some_2. by eapply first_row_in. }
  rewrite <- Nat2Z.inj_add. destruct (Hrow klast ltac:(lia)) as [Hp _]. rewrite (zindex_Some _ _ _ Hp). cbn [run_bind].
  set (nb := S ((ck_start c + klast) `div` block_size)).
  replace (Z.of_nat (ck_start c + klast) / kKvBlock + 1)%Z with (Z.of_nat nb)
    by (unfold nb; rewrite Nat2Z.inj_succ, Nat2Z.inj_div; done).
  assert (Hnb : forall k, (k <= klast)%nat -> (ck_start c + k < block_size * nb)%nat).
  { intros k Hk. unfold nb. pose proof (Nat.mul_succ_div_gt (ck_start c + klast) block_size ltac:(done)). lia. }
  change (seqZ 0 kNumKvHeads) with (seqZ (Z.of_nat 0) (Z.of_nat 8)).
  rewrite (collect_seqZ _ (fun g => found (Z.of_nat g) c <$> seq 0 (block_size * nb)) 0).
  2: { intros g Hg. change 0%Z with (Z.of_nat 0). rewrite (collect_seqZ _ (fun kb => found (Z.of_nat g) c <$> seq (block_size * kb) block_size) 0).
    - cbn [run_bind]. by rewrite concat_blocks.
    - intros kb Hkb. apply load_block_ok; [done| |unfold kNumKvHeads; lia]. unfold nb in Hkb. unfold ck_end. fold n.
      assert (kb <= (ck_start c + klast) `div` block_size)%nat by lia.
      pose proof (Nat.Div0.mul_div_le (ck_start c + klast) block_size). unfold block_size in *. lia. }
  cbn [run_bind]. replace (Z.of_nat tile * 64)%Z with (Z.of_nat (64 * tile)) by lia.
  replace (Z.min 64 (Z.of_nat n - Z.of_nat (64 * tile))) with (Z.of_nat (Nat.min 64 (n - 64 * tile))) by lia.
  apply collect_seqZ. intros k Hk. rewrite <- Nat2Z.inj_add. destruct (Hrow k ltac:(lia)) as [Hpk [q Hq]].
  rewrite (zindex_Some _ _ _ Hpk). cbn [run_bind]. rewrite (zindex_Some _ _ _ Hq). cbn [run_bind].
  unfold row_output. rewrite Hq. cbn [default from_option id]. do 2 f_equal. unfold attended. f_equal. apply list_fmap_ext.
  intros i h Hh. apply list_elem_of_lookup_2, elem_of_seqZ in Hh. pose proof (head_group h ltac:(unfold kNumHeads in *; lia)) as Hg.
  rewrite Hmasked. rewrite (nth_lookup_Some _ _ _ (found (h / kGqaGroup) c <$> seq 0 (block_size * nb))).
  - rewrite visible by (apply Hnb; lia). unfold upto. by rewrite <- (list_fmap_compose _ (head_entry _)).
  - rewrite list_lookup_fmap, lookup_seq_lt by (unfold kNumKvHeads in Hg; lia). cbn [fmap option_fmap option_map Nat.add]. by rewrite Z2Nat.id by lia.
Qed.

Lemma longest_prefill c r : chs !! r = Some c -> length (ck_tokens c) <> 1%nat -> (len (ck_tokens c) <= prefill_max_qlen ctx)%Z.
Proof using Hdesc.
  clear Hwide. clear Hqkv Hmasked. intros Hr Hl. rewrite (sp_max _ _ (ds_split _ _ _ _ Hdesc)).
  assert (len (ck_tokens c) ∈ filter (fun c => prefills c = true) (counts chs)) as Hin.
  { apply list_elem_of_filter. split; [unfold prefills, len; rewrite (proj2 (Z.eqb_neq _ _)); [done|lia]|].
    apply list_elem_of_fmap. exists c. split; [done|]. by eapply list_elem_of_lookup_2. }
  revert Hin. generalize (filter (fun c => prefills c = true) (counts chs)) as l. generalize 1%Z as m. clear.
  assert (forall l m, (m <= foldl Z.max m l)%Z) as Hm by (induction l as [|y l IH]; intros m; cbn; [lia|]; specialize (IH (Z.max m y)); lia).
  intros m l. revert m. induction l as [|x l IH]; intros m; [by intros ?%not_elem_of_nil|]. intros [<- |Hin]%elem_of_cons; cbn [foldl].
  - specialize (Hm l (Z.max m (len (ck_tokens c)))). lia.
  - by apply IH.
Qed.

(** What the rows of the other requests become. *)
Lemma LaunchAttnPrefill_ok : exists ws, LaunchAttnPrefill kv qkv ctx (n_prefill ctx) (prefill_max_qlen ctx) = Ret ws /\
  forall w, w ∈ ws <-> exists r c k, chs !! r = Some c /\ length (ck_tokens c) <> 1%nat /\ (k < length (ck_tokens c))%nat /\ w = row_output None r c k.
Proof using Hsized Hdesc Htable Hwide Hqkv Hmasked.
  destruct (sp_prefill _ _ (ds_split _ _ _ _ Hdesc)) as [Hn Hd]. set (ps := which prefills 0 (counts chs)) in *.
  set (tiles := Z.to_nat ((prefill_max_qlen ctx + kQTile - 1) / kQTile)).
  set (rows_of := fun r c => concat ((fun tile => row_output None r c <$> seq (64 * tile) (Nat.min 64 (length (ck_tokens c) - 64 * tile))) <$> seq 0 tiles)).
  set (g := at_chunk rows_of []). exists (concat (g <$> ps)). split.
  - unfold LaunchAttnPrefill. rewrite Hn at 1. destruct (Z.leb_spec (len ps) 0) as [Hle|_].
    { destruct ps; [done|unfold len in Hle; simpl in Hle; lia]. }
    replace (seqZ 0 (n_prefill ctx)) with (seqZ 0 (len ps)) by by rewrite Hn. rewrite (collect_listed _ g ps); [done|]. intros z x Hx.
    destruct (which_chunk prefills x) as (r & c & -> & Hr & _); [by eapply list_elem_of_lookup_2|].
    pose proof (Hd z _ Hx) as Hz. cbn [Nat.add] in Hz. rewrite (zindex_Some _ _ _ Hz). cbn [run_bind]. unfold g. rewrite (at_chunk_eq _ _ r c) by done.
    destruct (decide (0 <= (prefill_max_qlen ctx + kQTile - 1) / kQTile)%Z) as [Hpos|Hneg].
    + rewrite <- (Z2Nat.id _ Hpos). fold tiles. change 0%Z with (Z.of_nat 0). erewrite collect_seqZ; [|intros i _; by apply prefill_tile_ok]. done.
    + rewrite (seqZ_nil _ _) by lia. cbn [collect run_bind]. unfold rows_of. by replace tiles with 0%nat by lia.
  - intros w. split.
    + intros H. apply list_elem_of_In, in_concat in H as (l & Hl & Hw). apply list_elem_of_In, list_elem_of_fmap in Hl as (x & -> & Hx).
      destruct (which_chunk prefills x Hx) as (r & c & -> & Hr & Hc). unfold g in Hw. rewrite (at_chunk_eq _ _ r c) in Hw by done.
      apply in_concat in Hw as (l & Hl & Hw). apply list_elem_of_In, list_elem_of_fmap in Hl as (tile & -> & _).
      apply list_elem_of_In, list_elem_of_fmap in Hw as (k & -> & Hk). apply elem_of_seq in Hk. exists r, c, k. split; [done|].
      unfold prefills, len in Hc. apply negb_true_iff, Z.eqb_neq in Hc. split; [lia|]. split; [lia|done].
    + intros (r & c & k & Hr & Hl & Hk & ->). pose proof (longest_prefill c r Hr Hl) as Hmax. unfold len in Hmax.
      apply list_elem_of_In, in_concat. exists (rows_of r c). split; apply list_elem_of_In.
      { apply list_elem_of_fmap. exists (Z.of_nat r). unfold g. rewrite (at_chunk_eq _ _ r c) by done. split; [done|by apply (prefilling r c)]. }
      unfold rows_of. apply list_elem_of_In, in_concat. exists (row_output None r c <$> seq (64 * (k `div` 64)) (Nat.min 64 (length (ck_tokens c) - 64 * (k `div` 64)))).
      pose proof (Nat.div_mod_eq k 64). pose proof (Nat.mod_upper_bound k 64 ltac:(done)).
      split; apply list_elem_of_In; apply list_elem_of_fmap; [|exists k; split; [done|apply elem_of_seq; lia]].
      exists (k `div` 64)%nat. split; [done|]. apply elem_of_seq. split; [lia|]. unfold tiles, kQTile.
      enough (Z.of_nat (k `div` 64) < (prefill_max_qlen ctx + 64 - 1) / 64)%Z by lia.
      apply (Z.lt_le_trans _ (Z.of_nat (k `div` 64) + 1)); [lia|]. apply Z.div_le_lower_bound; lia.
Qed.

(** The kernel a chunk goes to. *)
Definition mode_of (c : chunk) : option Z := if decide (length (ck_tokens c) = 1%nat) then Some (n_decode ctx) else None.

Definition own_row (w : Z * list V) : Prop := exists r c k t, chs !! r = Some c /\ ck_tokens c !! k = Some t /\ w = row_output (mode_of c) r c k.

Lemma own_row_range w : own_row w -> exists m : nat, w.1 = Z.of_nat m /\ (m < length (in_tokens (input_of chs)))%nat.
Proof using Type.
  clear. intros (r & c & k & t & Hr & Hk & ->). exists (first_row chs r + k)%nat. split; [done|].
  by eapply lookup_lt_Some, (input_row chs r c k t).
Qed.

Lemma own_row_unique w w' : own_row w -> own_row w' -> w.1 = w'.1 -> w = w'.
Proof using Type.
  clear. intros (r & c & k & t & Hr & Hk & ->) (r' & c' & k' & t' & Hr' & Hk' & ->) E. cbn [row_output fst] in E.
  destruct (input_row chs r c k t Hr Hk) as (_ & H1 & H2), (input_row chs r' c' k' t' Hr' Hk') as (_ & H1' & H2').
  replace (first_row chs r' + k')%nat with (first_row chs r + k)%nat in * by lia.
  assert (r' = r) as -> by congruence || (rewrite H2 in H2'; injection H2'; lia). rewrite Hr in Hr'. injection Hr' as <-.
  assert (k' = k) as -> by (rewrite H1 in H1'; injection H1'; lia). done.
Qed.

Lemma scatter_rows ws : forall attn, (forall w, w ∈ ws -> own_row w) -> (length (in_tokens (input_of chs)) <= length attn)%nat ->
  exists attn', scatter attn ws = Ret attn' /\ length attn' = length attn /\
    (forall w m, own_row w -> w.1 = Z.of_nat m -> w ∈ ws \/ attn !! m = Some w.2 -> attn' !! m = Some w.2).
Proof using Type.
  clear. induction ws as [|[i x] ws IH]; intros attn Hw Hl; cbn [scatter].
  { exists attn. split; [done|]. split; [done|]. intros w m _ _ [H|H]; [by apply not_elem_of_nil in H|done]. }
  destruct (own_row_range (i, x) ltac:(apply Hw; by left)) as (m & Em & Hm). cbn [fst] in Em. subst i.
  rewrite set_at_lt by lia. cbn [run_bind]. destruct (IH (<[m := x]> attn)) as (attn' & -> & Hl' & Hrow).
  { intros w Hin. apply Hw. by right. }
  { by rewrite length_insert. }
  exists attn'. split; [done|]. rewrite length_insert in Hl'. split; [done|]. intros w m' Hown E [[-> |Hin]%elem_of_cons|Hold].
  - apply Hrow; [done|done|]. right. cbn [fst] in E. replace m' with m by lia. apply list_lookup_insert_eq. lia.
  - apply Hrow; [done|done|by left].
  - apply Hrow; [done|done|]. right. destruct (decide (m = m')) as [<-|Hne]; [|by rewrite list_lookup_insert_ne].
    rewrite list_lookup_insert_eq by lia. f_equal.
    rewrite (own_row_unique w (Z.of_nat m, x)); [done|done|apply Hw; by left|done].
Qed.

Lemma attention_ok attn : (length (in_tokens (input_of chs)) <= length attn)%nat ->
  exists attn', attention kv qkv ctx (n_decode ctx) (n_prefill ctx) (prefill_max_qlen ctx) attn = Ret attn' /\ length attn' = length attn /\
    forall r c k t, chs !! r = Some c -> ck_tokens c !! k = Some t ->
      attn' !! (first_row chs r + k)%nat = Some (attended (mode_of c) (default [] (qkv !! (first_row chs r + k)%nat)) (upto c (ck_start c + k))).
Proof using Hsized Hdesc Htable Hwide Hqkv Hmasked.
  intros Hl. destruct LaunchAttnDecode_ok as (ds & Ed & Hds), LaunchAttnPrefill_ok as (ps & Ep & Hps).
  assert (Hown : forall w, w ∈ ds \/ w ∈ ps <-> own_row w).
  { intros w. rewrite Hds, Hps. split.
    - intros [(r & c & Hr & Hc & ->)|(r & c & k & Hr & Hc & Hk & ->)].
      + destruct (lookup_lt_is_Some_2 (ck_tokens c) 0) as [t Ht]; [lia|]. exists r, c, 0%nat, t. split; [done|]. split; [done|].
        unfold mode_of. by rewrite decide_True.
      + destruct (lookup_lt_is_Some_2 (ck_tokens c) k Hk) as [t Ht]. exists r, c, k, t. split; [done|]. split; [done|].
        unfold mode_of. by rewrite decide_False.
    - intros (r & c & k & t & Hr & Hk & ->). unfold mode_of. pose proof (lookup_lt_Some _ _ _ Hk) as Hlt. case_decide as Hc.
      + left. exists r, c. replace k with 0%nat by lia. done.
      + right. exists r, c, k. done. }
  unfold attention. rewrite Ed. cbn [run_bind].
  destruct (scatter_rows ds attn) as (a1 & -> & L1 & R1); [intros w Hw; apply Hown; by left|done|]. cbn [run_bind]. rewrite Ep. cbn [run_bind].
  destruct (scatter_rows ps a1) as (a2 & -> & L2 & R2); [intros w Hw; apply Hown; by right|lia|].
  exists a2. split; [done|]. split; [congruence|]. intros r c k t Hr Hk.
  assert (Hw : own_row (row_output (mode_of c) r c k)) by by exists r, c, k, t.
  apply (R2 _ _ Hw eq_refl). apply Hown in Hw as Hin. destruct Hin as [Hd|Hp]; [right|by left]. apply (R1 _ _ Hw eq_refl). by left.
Qed.

Lemma requests_fit : (length chs <= slots)%nat.
Proof using Hsized Hdesc.
  clear Hqkv Hmasked Hwide. destruct (decide (length chs = 0)%nat) as [->|Hne]; [lia|].
  destruct (lookup_lt_is_Some_2 chs (length chs - 1)) as [c Hc]; [lia|].
  destruct (sp_start _ _ (ds_split _ _ _ _ Hdesc) _ c Hc) as [H _]. apply lookup_lt_Some in H.
  destruct (sz_qstart _ _ _ _ Hsized) as [Hd _]. lia.
Qed.

Lemma partial_fits di h sp : (0 <= di < n_decode ctx)%Z -> (0 <= h < kNumHeads)%Z -> (0 <= sp < split_of (n_decode ctx))%Z ->
  (0 <= partial_index (split_of (n_decode ctx)) di h sp < DecodePartialFloats (Z.of_nat slots))%Z.
Proof using Hsized Hdesc.
  clear Hqkv Hmasked Hwide. intros Hdi Hh Hsp. destruct (sp_decode _ _ (ds_split _ _ _ _ Hdesc)) as [Hn _].
  pose proof (which_length decodes 0 (counts chs)) as Hw. unfold counts in Hw at 2. rewrite length_fmap in Hw. pose proof requests_fit.
  assert (split_of (n_decode ctx) <= 16)%Z by (unfold split_of, kMaxKsplit; repeat case_match; lia).
  unfold partial_index, DecodePartialFloats, kDecodeMaxHeads, kMaxKsplit, kNumHeads in *. unfold len in Hn. nia.
Qed.

End prepared.
End attention.

(** ** Property *)


(** ** Witness *)

(** The keys that are read, one after the other. *)
Definition keys_decode (q : list Z) (parts : list (list (list (list Z * list Z)))) : list Z := q ++ concat (fst <$> concat (concat parts)).
Definition keys_prefill (q : list Z) (es : list (bool * (list Z * list Z))) : list Z :=
  q ++ concat ((fun e => e.2.1) <$> filter (fun e => e.1 = true) es).

Lemma keys_ignore : masked_ignored keys_prefill.
Proof. intros q es. unfold keys_prefill. by rewrite list_filter_filter_l. Qed.

