(* ===== verification/GraphCache.v ===== *)
(** * The cache of captured graphs

    Models [GraphCache] of [engine/src/model_runtime.h]: launch sequences captured once per
    shape, replayed when the shape comes again, the most recently used in front and at most
    [kMaxEntries] kept. The CUDA runtime is a ledger of the calls made to it: the graphs
    instantiated, numbered in that order, with what each has recorded, a [P]; and those
    destroyed. A handle is the number of its graph.

    The cache is refined to its specification: after any history of shapes it holds the
    most recently used ones, what is launched is the shape's own capture, and the captures
    are those of the calls whose shape was not among the most recently used. *)

From S2P Require Import Prelude.
Local Open Scope go_scope.

Definition kMaxEntries : nat := 64.

Section cache.
Context {P : Type}.

Record Entry := { k0 : Z; k1 : Z; exec : nat }.
Record GraphCache := {
  entries_ : list Entry;
  graphs : list P;        (** what each graph instantiated so far has recorded *)
  destroyed : list nat;
}.

Definition new_cache : GraphCache := {| entries_ := []; graphs := []; destroyed := [] |}.

(** The call of [cudaGraphInstantiate] for a capture: the ledger and the handle. *)
Definition instantiate (c : GraphCache) (body : P) : GraphCache * nat :=
  ({| entries_ := entries_ c; graphs := graphs c ++ [body]; destroyed := destroyed c |}, length (graphs c)).

(** A call of [cudaGraphExecDestroy]. *)
Definition destroy (c : GraphCache) (exec : nat) : GraphCache :=
  {| entries_ := entries_ c; graphs := graphs c; destroyed := destroyed c ++ [exec] |}.

(** A call of [cudaGraphLaunch]: what runs. A handle that was destroyed, or that no call has
    returned, is not valid. *)
Definition launch_graph (c : GraphCache) (exec : nat) : run P :=
  if decide (exec ∈ destroyed c) then Panic
  else match graphs c !! exec with Some p => Ret p | None => Panic end.

Definition set_entries (c : GraphCache) (l : list Entry) : GraphCache :=
  {| entries_ := l; graphs := graphs c; destroyed := destroyed c |}.

(** The entry of a shape and the others. *)
Fixpoint find_entry (a b : Z) (l : list Entry) : option (Entry * list Entry) :=
  match l with
  | [] => None
  | e :: l =>
      if (k0 e =? a)%Z && (k1 e =? b)%Z then Some (e, l)
      else match find_entry a b l with Some (hit, rest) => Some (hit, e :: rest) | None => None end
  end.

(** The loop that makes room. *)
Fixpoint make_room (fuel : nat) (c : GraphCache) : run GraphCache :=
  if (kMaxEntries <=? length (entries_ c))%nat then
    match fuel, last (entries_ c) with
    | S n, Some e =>
        let c := destroy c (exec e) in
        make_room n (set_entries c (removelast (entries_ c)))
    | S _, None => Panic
    | O, _ => Fuel
    end
  else Ret c.

(** The new cache and what is launched; [body] is what a capture records. *)
Definition Run (c : GraphCache) (a b : Z) (body : P) : run (GraphCache * P) :=
  match find_entry a b (entries_ c) with
  | Some (hit, rest) =>
      let c := set_entries c (hit :: rest) in
      let* p := launch_graph c (exec hit) in
      Ret (c, p)
  | None =>
      let '(c, exec) := instantiate c body in
      let* c := make_room (S (length (entries_ c))) c in
      let c := set_entries c ({| k0 := a; k1 := b; exec := exec |} :: entries_ c) in
      let* p := launch_graph c exec in
      Ret (c, p)
  end.

(** The destructor. *)
Definition delete (c : GraphCache) : GraphCache :=
  foldl (fun c e => destroy c (exec e)) c (entries_ c).

(** ** The specification *)
Abbreviation key := (Z * Z)%type.
Definition key_of (e : Entry) : key := (k0 e, k1 e).

(** The shapes of a history, the latest first, each once. *)
Fixpoint recent (h : list key) : list key :=
  match h with
  | [] => []
  | k :: h => k :: filter (fun k' => k' <> k) (recent h)
  end.

Lemma recent_nodup h : NoDup (recent h).
Proof.
  induction h as [|k h IH]; cbn [recent]; constructor; [by intros [? _]%list_elem_of_filter|by apply NoDup_filter].
Qed.

Lemma find_entry_spec a b l : NoDup (key_of <$> l) ->
  match find_entry a b l with
  | Some (hit, rest) => key_of hit = (a, b) /\ hit ∈ l /\ (forall e, e ∈ rest -> e ∈ l) /\
      key_of <$> rest = filter (fun k => k <> (a, b)) (key_of <$> l) /\ hit :: rest ≡ₚ l
  | None => (a, b) ∉ (key_of <$> l)
  end.
Proof.
  induction l as [|e l IH]; cbn [find_entry fmap list_fmap]; intros Hnd; [apply not_elem_of_nil|].
  apply NoDup_cons in Hnd as [He Hnd]. specialize (IH Hnd).
  destruct (Z.eqb_spec (k0 e) a) as [Ea|Ea]; [destruct (Z.eqb_spec (k1 e) b) as [Eb|Eb]|]; cbn [andb].
  - assert (key_of e = (a, b)) as Ek by (unfold key_of; congruence). split; [done|]. split; [by left|]. split; [by right|]. split; [|done].
    rewrite filter_cons, decide_False by (by intros []). rewrite Ek in He. clear IH Hnd. induction l as [|x l IH]; [done|].
    cbn [fmap list_fmap] in *. apply not_elem_of_cons in He as [Hx He]. rewrite filter_cons, decide_True by congruence. f_equal. by apply IH.
  - destruct (find_entry a b l) as [[hit rest]|].
    + destruct IH as (H1 & H2 & H3 & H4 & H5). split; [done|]. split; [by right|]. split; [|split].
      * intros x [-> |Hx]%elem_of_cons; [by left|right; by apply H3].
      * rewrite filter_cons, decide_True by (unfold key_of; congruence). cbn [fmap list_fmap]. by rewrite H4.
      * rewrite <- H5. apply perm_swap.
    + apply not_elem_of_cons. split; [unfold key_of; congruence|done].
  - destruct (find_entry a b l) as [[hit rest]|].
    + destruct IH as (H1 & H2 & H3 & H4 & H5). split; [done|]. split; [by right|]. split; [|split].
      * intros x [-> |Hx]%elem_of_cons; [by left|right; by apply H3].
      * rewrite filter_cons, decide_True by (unfold key_of; congruence). cbn [fmap list_fmap]. by rewrite H4.
      * rewrite <- H5. apply perm_swap.
    + apply not_elem_of_cons. split; [unfold key_of; congruence|done].
Qed.

(** Every handle is held or was destroyed, once. *)
Definition handles_once (c : GraphCache) : Prop :=
  (exec <$> entries_ c) ++ destroyed c ≡ₚ seq 0 (length (graphs c)).

Lemma make_room_ok n : forall c, (length (entries_ c) < n)%nat -> exists c', make_room n c = Ret c' /\
  entries_ c' = take (kMaxEntries - 1) (entries_ c) /\ graphs c' = graphs c /\
  (exec <$> entries_ c') ++ destroyed c' ≡ₚ (exec <$> entries_ c) ++ destroyed c.
Proof.
  induction n as [|n IH]; intros [l gs ds] Hn; cbn [entries_ graphs destroyed] in *; [lia|]. cbn [make_room entries_].
  destruct (Nat.leb_spec kMaxEntries (length l)) as [Hle|Hlt].
  - destruct l as [|e l _] using rev_ind; [unfold kMaxEntries in Hle; simpl in Hle; lia|]. rewrite last_snoc.
    unfold destroy, set_entries. cbn [entries_ graphs destroyed]. rewrite removelast_last.
    rewrite length_app in *. cbn [length] in *.
    destruct (IH {| entries_ := l; graphs := gs; destroyed := ds ++ [exec e] |}) as (c' & E & E1 & E2 & E3).
    { cbn. lia. }
    exists c'. cbn [entries_ graphs destroyed] in *. split; [exact E|]. split; [|split; [exact E2|]].
    + rewrite E1, take_app_le; [done|]. unfold kMaxEntries in *. lia.
    + rewrite E3, fmap_app. cbn. rewrite (Permutation_app_comm ds). by rewrite <- app_assoc.
  - eexists. split; [done|]. cbn [entries_ graphs destroyed]. split; [|done]. symmetry. apply take_ge. unfold kMaxEntries in *. lia.
Qed.

(** What is held can be launched. *)
Lemma launch_held c e p : handles_once c -> e ∈ entries_ c -> graphs c !! exec e = Some p ->
  launch_graph c (exec e) = Ret p.
Proof.
  intros Ho He Hp. unfold launch_graph. rewrite decide_False; [by rewrite Hp|]. intros Hd.
  assert (Hnd : NoDup ((exec <$> entries_ c) ++ destroyed c)) by (unfold handles_once in Ho; rewrite Ho; apply NoDup_seq).
  apply NoDup_app in Hnd as (_ & Hdis & _). apply (Hdis (exec e)); [|done]. by apply list_elem_of_fmap_2.
Qed.

Lemma destroy_all l : forall c, let c' := foldl (fun c e => destroy c (exec e)) c l in
  destroyed c' ≡ₚ (exec <$> l) ++ destroyed c /\ graphs c' = graphs c.
Proof.
  induction l as [|e l IH]; intros c; cbn [foldl fmap list_fmap app]; [done|].
  destruct (IH (destroy c (exec e))) as [H1 H2]. cbv zeta in *. rewrite H1, H2.
  cbn [destroyed destroy graphs]. split; [|done]. by rewrite app_assoc, <- Permutation_cons_append.
Qed.

Lemma delete_ok c : handles_once c -> destroyed (delete c) ≡ₚ seq 0 (length (graphs c)).
Proof. intros Ho. destruct (destroy_all (entries_ c) c) as [H _]. unfold delete. rewrite H. exact Ho. Qed.

(** ** A history of calls *)
Section history.
Context (body : key -> P).

Fixpoint calls (h : list key) (c : GraphCache) : run (GraphCache * list P) :=
  match h with
  | [] => Ret (c, [])
  | (a, b) :: h => let* (c, p) := Run c a b (body (a, b)) in let* (c, ps) := calls h c in Ret (c, p :: ps)
  end.

(** The cache holds the captures of the shapes used last. *)
Record cache_ok (h : list key) (c : GraphCache) : Prop := {
  gc_keys : key_of <$> entries_ c = take kMaxEntries (recent h);
  gc_exec : Forall (fun e => graphs c !! exec e = Some (body (key_of e))) (entries_ c);
  gc_once : handles_once c;
}.

(** The shapes that are captured: those not among the latest when they come. *)
Fixpoint captures (seen h : list key) : list key :=
  match h with
  | [] => []
  | k :: h => (if decide (k ∈ take kMaxEntries (recent seen)) then [] else [k]) ++ captures (k :: seen) h
  end.

Lemma filter_take_in (l : list key) k n : NoDup l -> k ∈ take n l ->
  take n (k :: filter (fun k' => k' <> k) l) = k :: filter (fun k' => k' <> k) (take n l).
Proof.
  revert n. induction l as [|x l IH]; intros n Hnd Hk; [by rewrite take_nil in Hk; apply not_elem_of_nil in Hk|].
  destruct n as [|n]; [by apply not_elem_of_nil in Hk|]. apply NoDup_cons in Hnd as [Hx Hnd]. cbn [firstn] in *. f_equal.
  apply elem_of_cons in Hk as [-> |Hk].
  - rewrite !filter_cons, !decide_False by (by intros []).
    assert (forall l' : list key, x ∉ l' -> filter (fun k' => k' <> x) l' = l') as Hf.
    { clear. induction l' as [|y l' IH]; intros Hy; [done|]. apply not_elem_of_cons in Hy as [Hy Hl]. rewrite filter_cons, decide_True by done. by rewrite IH. }
    rewrite !Hf; [done| |done]. intros Hin. apply Hx. by eapply elem_of_take in Hin as (i & ? & _); eapply list_elem_of_lookup_2.
  - assert (x <> k) as Hne. { intros ->. apply Hx. apply elem_of_take in Hk as (i & ? & _). by eapply list_elem_of_lookup_2. }
    rewrite !filter_cons, !decide_True by done. specialize (IH n Hnd Hk). destruct n as [|n]; [rewrite take_0 in Hk; by apply not_elem_of_nil in Hk|].
    cbn [firstn] in *. injection IH as IH. f_equal. exact IH.
Qed.

Lemma filter_take_out (l : list key) k n : k ∉ take (S n) l ->
  take (S n) (k :: filter (fun k' => k' <> k) l) = k :: take n l.
Proof.
  cbn [firstn]. intros H. f_equal. revert n H. induction l as [|x l IH]; intros n H; [by destruct n|].
  cbn [firstn] in H. apply not_elem_of_cons in H as [Hx H]. rewrite filter_cons, decide_True by done.
  destruct n as [|n]; [done|]. cbn [firstn]. f_equal. by apply IH.
Qed.

Lemma new_cache_ok : cache_ok [] new_cache.
Proof using Type. split; [done|constructor|apply perm_nil]. Qed.

Lemma Run_ok h c a b : cache_ok h c ->
  exists c', Run c a b (body (a, b)) = Ret (c', body (a, b)) /\ cache_ok ((a, b) :: h) c' /\
  graphs c' = graphs c ++ (if decide ((a, b) ∈ take kMaxEntries (recent h)) then [] else [body (a, b)]).
Proof.
  intros [Hk He Ho]. assert (Hnd : NoDup (key_of <$> entries_ c)) by (rewrite Hk; eapply sublist_NoDup; [apply recent_nodup|apply sublist_take]).
  pose proof (find_entry_spec a b (entries_ c) Hnd) as Hf. unfold Run. rewrite <- Hk. destruct (find_entry a b (entries_ c)) as [[hit rest]|].
  - destruct Hf as (H1 & H2 & H3 & H4 & H5).
    assert (Hin : (a, b) ∈ key_of <$> entries_ c) by (rewrite <- H1; by apply list_elem_of_fmap_2).
    rewrite decide_True by done. rewrite app_nil_r.
    assert (Ho' : handles_once (set_entries c (hit :: rest))).
    { unfold handles_once in *. cbn [set_entries entries_ destroyed graphs]. by rewrite H5. }
    assert (He' : Forall (fun e => graphs c !! exec e = Some (body (key_of e))) (hit :: rest)) by by rewrite H5.
    rewrite (launch_held _ hit (body (a, b)) Ho'); [|by left|rewrite <- H1; by apply Forall_inv in He'].
    cbn [run_bind]. eexists. split; [done|]. split; [|done]. split; [|done..].
    cbn [set_entries entries_ fmap list_fmap recent]. rewrite H1, H4, Hk. rewrite filter_take_in; [done|apply recent_nodup|].
    by rewrite <- Hk.
  - rewrite decide_False by done. unfold instantiate.
    set (c0 := {| entries_ := entries_ c; graphs := graphs c ++ [body (a, b)]; destroyed := destroyed c |}).
    destruct (make_room_ok (S (length (entries_ c0))) c0) as (c1 & -> & E1 & E2 & E3); [lia|]. cbn [run_bind].
    set (e := {| k0 := a; k1 := b; exec := length (graphs c) |}).
    assert (Hg : graphs c1 !! length (graphs c) = Some (body (a, b))) by (rewrite E2; by apply list_lookup_middle).
    assert (Ho' : handles_once (set_entries c1 (e :: entries_ c1))).
    { unfold handles_once in *. cbn [set_entries entries_ destroyed graphs fmap list_fmap app exec e]. rewrite E3, E2.
      cbn [entries_ destroyed graphs c0]. rewrite length_app. cbn [length]. rewrite Nat.add_1_r, seq_S, <- Ho.
      by rewrite Permutation_cons_append. }
    pose proof (launch_held _ e (body (a, b)) Ho' ltac:(by left) Hg) as Hl. cbn [exec e] in Hl.
    rewrite Hl. cbn [run_bind]. eexists. split; [done|]. split; [|exact E2].
    split; [| |done].
    + cbn [set_entries entries_]. rewrite E1. cbn [fmap list_fmap recent c0 entries_]. rewrite fmap_take, Hk, take_take.
      unfold kMaxEntries in *. cbn [key_of k0 k1 e]. rewrite filter_take_out by by rewrite <- Hk. done.
    + cbn [set_entries entries_ graphs]. constructor; [exact Hg|]. rewrite E1. apply Forall_take. cbn [entries_ c0].
      eapply Forall_impl; [exact He|]. intros x Hx. rewrite E2. cbn [graphs c0]. by apply lookup_app_l_Some.
Qed.

Lemma graph_calls_ok h : forall seen c, cache_ok seen c -> exists c', calls h c = Ret (c', body <$> h) /\
  cache_ok (rev h ++ seen) c' /\ graphs c' = graphs c ++ (body <$> captures seen h).
Proof.
  induction h as [|[a b] h IH]; intros seen c Hc; cbn [calls].
  { exists c. split; [done|]. split; [done|]. cbn. by rewrite app_nil_r. }
  destruct (Run_ok seen c a b Hc) as (c1 & -> & Hc1 & Hg). cbn [run_bind].
  destruct (IH _ c1 Hc1) as (c2 & -> & Hc2 & Hg2). cbn [run_bind]. exists c2. split; [done|].
  split; [cbn [rev]; by rewrite <- app_assoc|]. cbn [captures]. rewrite Hg2, Hg, fmap_app, <- app_assoc. f_equal. f_equal.
  by destruct (decide _).
Qed.

End history.
End cache.
Arguments GraphCache : clear implicits.

(** ** Property *)

(** C38: captured graphs are used as if each pass were launched afresh: after any sequence
    of shapes each call has launched the capture of its own shape, never a destroyed one;
    the cache holds the shapes used last, at most 64 and the latest first; the graphs
    instantiated are those of the calls whose shape was not among the 64 used last; each of
    them is either held or was destroyed, once; and the destructor destroys the rest. *)
Theorem graph_cache_lru {P} (body : Z * Z -> P) (h : list (Z * Z)) :
  exists c, calls body h new_cache = Ret (c, body <$> h) /\
    key_of <$> entries_ c = take kMaxEntries (recent (rev h)) /\
    (length (entries_ c) <= kMaxEntries)%nat /\ NoDup (key_of <$> entries_ c) /\
    graphs c = body <$> captures [] h /\
    (exec <$> entries_ c) ++ destroyed c ≡ₚ seq 0 (length (graphs c)) /\
    destroyed (delete c) ≡ₚ seq 0 (length (graphs c)).
Proof.
  destruct (graph_calls_ok body h [] new_cache) as (c & E & [H1 H2 H3] & Hg); [apply new_cache_ok|].
  rewrite app_nil_r in H1. exists c. split; [exact E|]. split; [exact H1|]. split; [|split; [|split; [exact Hg|split; [exact H3|]]]].
  - rewrite <- (length_fmap key_of), H1, length_take. lia.
  - rewrite H1. eapply sublist_NoDup; [apply recent_nodup|apply sublist_take].
  - by apply delete_ok.
Qed.
