(* ===== verification/Rounding.v ===== *)
(** * Rounding of binary32 numbers

    What the numbers of the device, IEEE binary32 as [SpecFloat] computes them, are as
    multiples of the least of them, and how far the midpoint of two of them is from the
    exact one: lemmas for the bisection of [Sampler]. *)

From Stdlib Require Import Floats.SpecFloat.
From S2P Require Import Prelude.
Local Open Scope Z_scope.

(** ** Digits and shifts *)
Lemma digits2_log2 p : Z.pos (digits2_pos p) = Z.log2 (Z.pos p) + 1.
Proof.
  assert (digits2_pos p = Pos.size p) as -> by (induction p; cbn; congruence).
  destruct p as [p|p|]; cbn; lia.
Qed.

Lemma shl_align_pos m e e' : e' <= e -> Z.pos (fst (shl_align m e e')) = Z.pos m * 2 ^ (e - e').
Proof.
  intros H. unfold shl_align. destruct (e' - e) as [|d|d] eqn:E; [|lia|].
  - replace (e - e') with 0 by lia. cbn [fst]. lia.
  - replace (e - e') with (Z.pos d) by lia. cbn [fst].
    apply (Pos.iter_ind _ xO m (fun d p => Z.pos p = Z.pos m * 2 ^ Z.pos d)); [cbn; lia|].
    intros q p Hp. rewrite Pos2Z.inj_succ, Z.pow_succ_r by lia. rewrite Pos2Z.inj_xO. lia.
Qed.

(** What a shifted record says of the bits shifted out. *)
Definition shifted (m0 k : Z) (r : shr_record) : Prop :=
  exists rem, m0 = shr_m r * 2 ^ k + rem /\ 0 <= rem < 2 ^ k /\ 0 <= shr_m r /\
  match shr_r r, shr_s r with
  | false, false => rem = 0
  | false, true => 0 < 2 * rem < 2 ^ k
  | true, false => 2 * rem = 2 ^ k
  | true, true => 2 ^ k < 2 * rem
  end.

Lemma shr_1_shifted m0 k r : 0 <= k -> shifted m0 k r -> shifted m0 (k + 1) (shr_1 r).
Proof.
  intros Hk (rem & -> & Hr & Hm & Hc). unfold shifted. rewrite Z.pow_add_r, Z.pow_1_r by lia.
  destruct r as [m r s]. cbn [shr_m shr_r shr_s] in *.
  destruct m as [|[p|p|]|p]; [| | | |lia]; cbn [shr_1 shr_m shr_r shr_s].
  - exists rem. split; [lia|]. split; [lia|]. split; [lia|]. destruct r, s; cbn [orb]; lia.
  - exists (rem + 2 ^ k). rewrite Pos2Z.inj_xI. split; [lia|]. split; [lia|]. split; [lia|]. destruct r, s; cbn [orb]; lia.
  - exists rem. rewrite Pos2Z.inj_xO. split; [lia|]. split; [lia|]. split; [lia|]. destruct r, s; cbn [orb]; lia.
  - exists (rem + 2 ^ k). split; [lia|]. split; [lia|]. split; [lia|]. destruct r, s; cbn [orb]; lia.
Qed.

Lemma iter_pos_shifted n : forall m0 k r, 0 <= k -> shifted m0 k r -> shifted m0 (k + Z.pos n) (SpecFloat.iter_pos shr_1 n r).
Proof.
  induction n as [n IH|n IH|]; intros m0 k r Hk H; cbn [SpecFloat.iter_pos].
  - rewrite Pos2Z.inj_xI. replace (k + (2 * Z.pos n + 1)) with (k + 1 + Z.pos n + Z.pos n) by lia.
    apply IH; [lia|]. apply IH; [lia|]. by apply shr_1_shifted.
  - rewrite Pos2Z.inj_xO. replace (k + 2 * Z.pos n) with (k + Z.pos n + Z.pos n) by lia. apply IH; [lia|]. by apply IH.
  - by apply shr_1_shifted.
Qed.

Lemma shr_shifted m e k : 0 <= m -> 0 <= k ->
  exists r, shr {| shr_m := m; shr_r := false; shr_s := false |} e k = (r, e + k) /\ shifted m k r.
Proof.
  intros Hm Hk. assert (H0 : shifted m 0 {| shr_m := m; shr_r := false; shr_s := false |}) by (exists 0; cbn; lia).
  destruct k as [|k|k]; [|by eexists; split; [|apply (iter_pos_shifted k m 0)]|lia].
  eexists. rewrite Z.add_0_r. split; [done|exact H0].
Qed.

(** Rounding to nearest. *)
Definition nearest (m0 k q : Z) : Prop :=
  2 * Z.abs (q * 2 ^ k - m0) <= 2 ^ k /\ forall c, (c * 2 ^ k <= m0 -> c <= q) /\ (m0 <= c * 2 ^ k -> q <= c).

Lemma shifted_nearest m0 k r : 0 <= k -> shifted m0 k r -> nearest m0 k (round_nearest_even (shr_m r) (loc_of_shr_record r)).
Proof.
  intros Hk (rem & -> & Hr & Hm & Hc). destruct r as [m r s]. cbn [shr_m shr_r shr_s] in *.
  assert (Hq : exists b, round_nearest_even m (loc_of_shr_record {| shr_m := m; shr_r := r; shr_s := s |}) = m + b /\
    ((b = 0 /\ 2 * rem <= 2 ^ k) \/ (b = 1 /\ 2 ^ k <= 2 * rem))).
  { destruct r, s; cbn [round_nearest_even loc_of_shr_record].
    - exists 1. lia.
    - destruct (Z.even m); [exists 0|exists 1]; lia.
    - exists 0. lia.
    - exists 0. lia. }
  destruct Hq as (b & -> & Hb). split; [nia|]. intros c. split; intros H.
  - assert (c < m + 1) by nia. lia.
  - destruct Hb as [[-> Hb]|[-> Hb]]; [nia|]. assert (m < c) by nia. lia.
Qed.

(** ** Rounding to 24 digits *)
Definition excess (p : positive) : Z := Z.log2 (Z.pos p) - 23.

Lemma digits_bounds p : 2 ^ 23 <= Z.pos p -> 0 <= excess p /\
  2 ^ 23 * 2 ^ excess p <= Z.pos p < 2 ^ 24 * 2 ^ excess p.
Proof.
  intros H. unfold excess. pose proof (Z.log2_spec (Z.pos p) ltac:(lia)) as Hs.
  assert (Hl : 23 <= Z.log2 (Z.pos p)) by (apply Z.log2_le_pow2; lia). split; [lia|].
  rewrite <- !Z.pow_add_r by lia. replace (24 + _) with (Z.succ (Z.log2 (Z.pos p))) by lia.
  by replace (23 + _) with (Z.log2 (Z.pos p)) by lia.
Qed.

Lemma nearest_bounds p q : 2 ^ 23 <= Z.pos p -> nearest (Z.pos p) (excess p) q -> 2 ^ 23 <= q <= 2 ^ 24.
Proof.
  intros H [_ Hq]. destruct (digits_bounds p H) as (_ & H1 & H2). split; [by apply (Hq (2 ^ 23))|apply (Hq (2 ^ 24)); lia].
Qed.

(** [2 ^ 23 <= m < 2 ^ 24], the mantissas of normal numbers. *)
Definition mantissa (m : positive) : Prop := 2 ^ 23 <= Z.pos m < 2 ^ 24.

Lemma mantissa_log2 m : mantissa m -> Z.log2 (Z.pos m) = 23.
Proof. intros H. apply Z.log2_unique; [lia|]. exact H. Qed.

Lemma shr_fexp_eq m e : -126 <= Z.log2 (Z.pos m) + e ->
  shr_fexp 24 128 (Z.pos m) e loc_Exact = shr {| shr_m := Z.pos m; shr_r := false; shr_s := false |} e (Z.log2 (Z.pos m) - 23).
Proof.
  intros H. unfold shr_fexp, fexp, emin. cbn [Zdigits2 shr_record_of_loc]. rewrite digits2_log2.
  replace (Z.max _ _ - e) with (Z.log2 (Z.pos m) - 23) by lia. done.
Qed.

Lemma round_ok p e : 2 ^ 23 <= Z.pos p -> -126 <= Z.log2 (Z.pos p) + e <= 100 ->
  exists m e' q, binary_round_aux 24 128 false (Z.pos p) e loc_Exact = S754_finite false m e' /\ mantissa m /\
    nearest (Z.pos p) (excess p) q /\
    ((q = Z.pos m /\ e' = e + excess p) \/ (q = 2 * Z.pos m /\ e' = e + excess p + 1)).
Proof.
  intros Hp He. destruct (digits_bounds p Hp) as (Hk & _). unfold binary_round_aux. rewrite shr_fexp_eq by lia.
  destruct (shr_shifted (Z.pos p) e (excess p)) as (r & Hr & Hs); [lia..|]. fold (excess p). rewrite Hr.
  apply shifted_nearest in Hs; [|done]. set (q := round_nearest_even _ _) in *. clearbody q.
  pose proof (nearest_bounds p q Hp Hs) as Hq. destruct q as [|q|q]; [lia| |lia]. unfold excess in *.
  destruct (decide (Z.pos q = 2 ^ 24)) as [E|E].
  - assert (q = 16777216%positive) as -> by lia.
    exists 8388608%positive, (e + excess p + 1), 16777216. unfold excess. split; [|split; [by split|split; [done|right; split; lia]]].
    rewrite shr_fexp_eq by (change (Z.log2 16777216) with 24; lia).
    change (Z.log2 16777216 - 23) with 1. cbn [shr SpecFloat.iter_pos]. change (shr_1 _) with {| shr_m := 8388608; shr_r := false; shr_s := false |}.
    cbn [shr_m]. destruct (Z.leb_spec (e + (Z.log2 (Z.pos p) - 23) + 1) (128 - 24)); [done|lia].
  - assert (Hm : mantissa q) by (split; lia). pose proof (mantissa_log2 q Hm) as Hl.
    exists q, (e + excess p), (Z.pos q). unfold excess. split; [|split; [done|split; [done|by left]]].
    rewrite shr_fexp_eq by (rewrite Hl; lia). rewrite Hl. change (23 - 23) with 0. cbn [shr shr_m].
    destruct (Z.leb_spec (e + (Z.log2 (Z.pos p) - 23)) (128 - 24)); [done|lia].
Qed.

(** ** The value of a number *)

(** In units of [2 ^ -149], the least number. *)
Definition units (x : spec_float) : Z :=
  match x with
  | S754_finite false m e => Z.pos m * 2 ^ (e + 149)
  | S754_finite true m e => - (Z.pos m * 2 ^ (e + 149))
  | _ => 0
  end.

(** A multiple of the last place of a sum that has more digits than it. *)
Lemma whole_multiple m e k :
  mantissa m -> 0 <= e -> 0 <= k -> 2 ^ 23 * 2 ^ k <= Z.pos m * 2 ^ e -> exists c, Z.pos m * 2 ^ e = c * 2 ^ k.
Proof.
  intros Hm He Hk H. assert (k <= e).
  { destruct (Z.le_gt_cases k e); [done|]. assert (2 ^ e * 2 <= 2 ^ k).
    { rewrite Z.mul_comm, <- Z.pow_succ_r by lia. apply Z.pow_le_mono_r; lia. }
    destruct Hm. nia. }
  exists (Z.pos m * 2 ^ (e - k)). rewrite <- Z.mul_assoc, <- Z.pow_add_r by lia. do 2 f_equal. lia.
Qed.

Lemma nearest_scale m0 j k q : 0 <= j -> 0 <= k -> nearest m0 k q -> nearest (m0 * 2 ^ j) (k + j) q.
Proof.
  intros Hj Hk [H1 H2]. assert (0 < 2 ^ j) by (apply Z.pow_pos_nonneg; lia). unfold nearest. rewrite Z.pow_add_r by lia. split; [nia|].
  intros c. destruct (H2 c) as [H3 H4]. split; intros Hc; [apply H3|apply H4]; nia.
Qed.

Lemma binary_normalize_pos p e : 2 ^ 23 <= Z.pos p -> -126 <= Z.log2 (Z.pos p) + e ->
  binary_normalize 24 128 (Z.pos p) e false = binary_round_aux 24 128 false (Z.pos p) e loc_Exact.
Proof.
  intros Hp He. destruct (digits_bounds p Hp) as (Hk & _). unfold excess in Hk.
  cbn [binary_normalize]. unfold binary_round, shl_align, fexp, emin. rewrite digits2_log2.
  destruct (Z.max _ _ - e) eqn:E; [done..|lia].
Qed.

(** The sum of two numbers lies between their doubles, half a last place from the exact sum. *)
Lemma SFadd_normal mx ex my ey (x := S754_finite false mx ex) (y := S754_finite false my ey) :
  mantissa mx -> mantissa my -> -100 <= ex <= 0 -> -100 <= ey <= 0 -> units x <= units y ->
  exists m e k, SFadd 24 128 x y = S754_finite false m e /\ mantissa m /\ ey <= e <= 30 /\
    2 * units x <= units (S754_finite false m e) <= 2 * units y /\
    0 <= k /\ 2 ^ 23 * 2 ^ k <= units x + units y /\
    2 * Z.abs (units (S754_finite false m e) - (units x + units y)) <= 2 ^ k.
Proof.
  intros Hmx Hmy Hex Hey. subst x y. cbn [units]. intros Hxy. cbn [SFadd cond_Zopp].
  set (ez := Z.min ex ey). rewrite !shl_align_pos by lia.
  assert (Hz : forall m e, ez <= e -> -100 <= ez -> Z.pos m * 2 ^ (e - ez) * 2 ^ (ez + 149) = Z.pos m * 2 ^ (e + 149)).
  { intros m e H1 H2. rewrite <- Z.mul_assoc, <- Z.pow_add_r by lia. do 2 f_equal. lia. }
  pose proof (Hz mx ex ltac:(lia) ltac:(lia)) as Ex. pose proof (Hz my ey ltac:(lia) ltac:(lia)) as Ey. clear Hz.
  assert (Hpx : 1 <= 2 ^ (ex - ez)) by (apply (Z.pow_le_mono_r 2 0); lia).
  assert (Hpy : 1 <= 2 ^ (ey - ez)) by (apply (Z.pow_le_mono_r 2 0); lia).
  destruct (Z.pos mx * 2 ^ (ex - ez) + Z.pos my * 2 ^ (ey - ez)) as [|p|p] eqn:Ep; [lia| |lia].
  assert (Hp : 2 ^ 23 <= Z.pos p) by (destruct Hmx, Hmy; nia).
  set (X := Z.pos mx * 2 ^ (ex + 149)) in *. set (Y := Z.pos my * 2 ^ (ey + 149)) in *.
  assert (ES : Z.pos p * 2 ^ (ez + 149) = X + Y) by (rewrite <- Ep; lia).
  destruct (digits_bounds p Hp) as (Hk & Hb1 & Hb2). set (d := excess p) in *. set (j := ez + 149) in *.
  assert (Hj : 0 < 2 ^ j) by (apply Z.pow_pos_nonneg; lia).
  assert (Hlow : 2 ^ 23 * 2 ^ (d + j) <= X + Y) by (rewrite Z.pow_add_r by lia; nia).
  assert (Hupp : X + Y < 2 ^ 24 * 2 ^ (d + j)) by (rewrite Z.pow_add_r by lia; nia).
  assert (HY : 2 ^ (23 + (ey + 149)) <= Y) by (unfold Y; rewrite Z.pow_add_r by lia; destruct Hmy; nia).
  assert (HX : Y < 2 ^ 173).
  { unfold Y. assert (2 ^ (ey + 149) <= 2 ^ 149) by (apply Z.pow_le_mono_r; lia). change (2 ^ 173) with (2 ^ 24 * 2 ^ 149).
    destruct Hmy. nia. }
  rewrite <- Z.pow_add_r in Hlow, Hupp by lia.
  assert (Hd1 : 23 + (ey + 149) < 24 + (d + j)) by (apply (Z.pow_lt_mono_r_iff 2); unfold X in *; lia).
  assert (Hd2 : 23 + (d + j) < 174) by (apply (Z.pow_lt_mono_r_iff 2); lia).
  assert (Hlog : Z.log2 (Z.pos p) = d + 23) by (unfold d, excess; lia).
  rewrite binary_normalize_pos by lia. destruct (round_ok p ez Hp ltac:(lia)) as (m & e & q & -> & Hm & Hq & He). fold d in Hq, He.
  pose proof (nearest_bounds p q Hp Hq) as Hqb. apply (nearest_scale _ j) in Hq; [|lia..]. rewrite ES in Hq. destruct Hq as [Hq1 Hq2].
  assert (EV : Z.pos m * 2 ^ (e + 149) = q * 2 ^ (d + j)).
  { destruct He as [[-> ->]|[-> ->]]; [do 2 f_equal; lia|]. replace (ez + d + 1 + 149) with (Z.succ (d + j)) by lia.
    rewrite Z.pow_succ_r by lia. lia. }
  exists m, e, (d + j). split; [done|]. split; [done|]. split; [lia|]. cbn [units]. rewrite EV. rewrite <- Z.pow_add_r by lia.
  split; [|split; [lia|split; [lia|exact Hq1]]]. rewrite Z.pow_add_r in Hlow, Hupp by lia.
  assert (Hdbl : forall m0 e0, mantissa m0 -> -100 <= e0 -> 2 ^ 23 * 2 ^ (d + j) <= 2 * (Z.pos m0 * 2 ^ (e0 + 149)) ->
    exists c, 2 * (Z.pos m0 * 2 ^ (e0 + 149)) = c * 2 ^ (d + j)).
  { intros m0 e0 Hm0 He0 H. assert (E : 2 * (Z.pos m0 * 2 ^ (e0 + 149)) = Z.pos m0 * 2 ^ (Z.succ (e0 + 149))) by (rewrite Z.pow_succ_r by lia; lia).
    rewrite E in *. apply whole_multiple; [done|lia..]. }
  split.
  - destruct (Z.le_gt_cases (2 ^ 23 * 2 ^ (d + j)) (2 * X)) as [H|H]; [|nia].
    destruct (Hdbl mx ex Hmx ltac:(lia) H) as [c Hc]. fold X in Hc. rewrite Hc in *. assert (c <= q) by (apply Hq2; lia). nia.
  - destruct (Hdbl my ey Hmy ltac:(lia)) as [c Hc]; [fold Y; lia|]. fold Y in Hc. rewrite Hc in *. assert (q <= c) by (apply Hq2; lia). nia.
Qed.

(** Half a number. *)
Lemma SFmul_half m e : mantissa m -> -100 <= e <= 30 ->
  SFmul 24 128 (S754_finite false 8388608 (-24)) (S754_finite false m e) = S754_finite false m (e - 1).
Proof.
  intros [Hm1 Hm2] He. cbn [SFmul xorb]. assert (EP : Z.pos (8388608 * m) = 8388608 * Z.pos m) by apply Pos2Z.inj_mul.
  set (P := (8388608 * m)%positive) in *. clearbody P.
  assert (Hl : Z.log2 (Z.pos P) = 46) by (apply Z.log2_unique; lia).
  destruct (round_ok P (-24 + e)) as (m' & e' & q & -> & [Hm' Hm''] & [_ Hq] & H); [lia|rewrite Hl; lia|].
  unfold excess in *. rewrite Hl in *. change (46 - 23) with 23 in *. change (2 ^ 23) with 8388608 in *.
  assert (q = Z.pos m) as ->; [destruct (Hq (Z.pos m)); lia|].
  destruct H as [[H ->]|[H _]]; [f_equal; lia|lia].
Qed.
