(* ===== verification/Sampler.v ===== *)
(** * Sampling a token from its logits

    Models [ArgmaxKernel], [SampleKernel] and [LaunchSampleBatch] of [engine/src/kernels.cu]:
    the threads of a block share the logits of a row, combine their results by a tree of
    steps on shared memory, and either find a largest logit or draw a token from the nucleus.
    Numbers are IEEE binary32 as the engine is compiled ([--use_fast_math]: subnormal numbers
    count as zero); the exponential of the device is a parameter.

    The property says that the token is in range, a greedy one has a largest logit, and a
    drawn one belongs to a nucleus of the required mass, with one exception: the last token of
    the vocabulary is the result when no thread claims the draw. That rounding makes this
    happen is the other theorem. *)

From Stdlib Require Import Floats.SpecFloat.
From S2P Require Import Prelude Strided GoStrings Chatml Client Generate Rounding.
Local Open Scope go_scope.

(** ** Numbers of the device *)
Definition zero_f : float32 := S754_zero false.
Definition half_f : float32 := S754_finite false 8388608 (-24).

(** [-1e30f] *)
Definition kNegInf : float32 := S754_finite true 13234890 76.

Example kNegInf_ok : kNegInf = binary_normalize 24 128 (- 10 ^ 30) 0 false.
Proof. vm_compute. reflexivity. Qed.

Definition ftz (x : float32) : float32 :=
  match x with
  | S754_finite s m _ => if (m <? 8388608)%positive then S754_zero s else x
  | _ => x
  end.

Definition fadd (x y : float32) : float32 := ftz (SFadd 24 128 (ftz x) (ftz y)).
Definition fsub (x y : float32) : float32 := ftz (SFsub 24 128 (ftz x) (ftz y)).
Definition fmul (x y : float32) : float32 := ftz (SFmul 24 128 (ftz x) (ftz y)).
Definition flt (x y : float32) : bool := SFltb (ftz x) (ftz y).
Definition fge (x y : float32) : bool := SFleb (ftz y) (ftz x).

(** The greater number; a NaN is no number. *)
Definition fmaxf (x y : float32) : float32 :=
  match x, y with
  | S754_nan, _ => y
  | _, S754_nan => x
  | _, _ => if flt x y then y else x
  end.

(** ** A block of threads *)
Definition kSampleThreads : nat := 256.

(** The tree: steps of size [2 ^ (k - 1)], ..., 2, 1 on the shared array. *)
Fixpoint reduce {A} (op : A -> A -> A) (k : nat) (l : list A) : list A :=
  match k with
  | O => l
  | S k => let s := (2 ^ k)%nat in reduce op k (zip_with op (take s l) (take s (drop s l)) ++ drop s l)
  end.

(** The first element after the last step. *)
Definition reduced {A} (op : A -> A -> A) (dflt : A) (l : list A) : A := default dflt (head (reduce op 8 l)).

(** ** The greedy choice *)
Definition better (a b : float32 * nat) : float32 * nat := if flt a.1 b.1 then b else a.

Definition thread_best (lg : list float32) (tid : nat) : float32 * nat :=
  foldl (fun best iv => better best (iv.2, iv.1)) (kNegInf, 0%nat) (strided (length lg) (imap pair lg) tid kSampleThreads).

Definition ArgmaxKernel (lg : list float32) : nat :=
  (reduced better (kNegInf, 0%nat) (thread_best lg <$> seq 0 kSampleThreads)).2.

(** ** The draw *)
Section draw.
Context (expf : float32 -> float32).

Definition chunk_of {A} (l : list A) : nat := ((length l + kSampleThreads - 1) / kSampleThreads)%nat.

(** The elements of each thread: thread [tid] has those from [tid * chunk] to the next
    thread's ([thread_slices_lookup]). *)
Fixpoint slices {A} (n chunk : nat) (l : list A) : list (list A) :=
  match n with
  | O => []
  | S n => take chunk l :: slices n chunk (drop chunk l)
  end.

Definition thread_slices {A} (l : list A) : list (list A) := slices kSampleThreads (chunk_of l) l.

Definition row_max (lg : list float32) : float32 := reduced fmaxf kNegInf (foldl fmaxf kNegInf <$> thread_slices lg).

Definition weights (lg : list float32) (it : float32) : list float32 :=
  let m := row_max lg in (fun x => expf (fmul (fsub x m) it)) <$> lg.

(** What each thread sums: all its weights, or those from a threshold on. *)
Definition sums (ws : list float32) : list float32 :=
  foldl fadd zero_f <$> thread_slices ws.

Definition masses (ws : list float32) (wt : float32) : list float32 :=
  foldl (fun acc w => if fge w wt then fadd acc w else acc) zero_f <$> thread_slices ws.

(** The sums before each thread, and the total. *)
Fixpoint bases (acc : float32) (svals : list float32) : list float32 * float32 :=
  match svals with
  | [] => ([], acc)
  | x :: svals => let '(bs, total) := bases (fadd acc x) svals in (acc :: bs, total)
  end.

Definition mass_of (ws : list float32) (wt : float32) : float32 := reduced fadd zero_f (masses ws wt).

(** The bisection for the threshold of the nucleus. *)
Fixpoint bisect (rounds : nat) (ws : list float32) (need wlo whi : float32) : float32 :=
  match rounds with
  | O => wlo
  | S rounds =>
      let mid := fmul half_f (fadd wlo whi) in
      if fge (mass_of ws mid) need then bisect rounds ws need mid whi else bisect rounds ws need wlo mid
  end.

(** A thread's search for the token at the target. *)
Fixpoint walk (ws : list (nat * float32)) (wt acc target : float32) : option nat :=
  match ws with
  | [] => None
  | (i, w) :: ws =>
      if fge w wt then
        let acc := fadd acc w in
        if fge acc target then Some i else walk ws wt acc target
      else walk ws wt acc target
  end.

Definition threshold (ws : list float32) (topp : float32) : float32 :=
  if flt topp float32_one then bisect 32 ws (fmul topp (bases zero_f (sums ws)).2) zero_f float32_one else zero_f.

(** The writes of the threads to [result]. *)
Definition claims (ws : list float32) (topp u : float32) : list nat :=
  let wt := threshold ws topp in
  let svals := if flt topp float32_one then masses ws wt else sums ws in
  let '(base, total) := bases zero_f svals in
  let target := fmul u total in
  let owned := thread_slices (imap pair ws) in
  omap (fun tid =>
    match base !! tid, svals !! tid, owned !! tid with
    | Some b, Some v, Some own => if fge target b && flt target (fadd b v) then walk own wt b target else None
    | _, _, _ => None
    end) (seq 0 kSampleThreads).

(** Should several threads claim the draw, any may be the last to write. *)
Definition SampleKernel (lg : list float32) (it topp u : float32) : nat :=
  default (length lg - 1)%nat (last (claims (weights lg it) topp u)).

Definition SampleBatch (lg : list float32) (it topp u : float32) : Z :=
  Z.of_nat (if fge zero_f it then ArgmaxKernel lg else SampleKernel lg it topp u).

End draw.

(** ** The order of numbers *)
Definition rank (x : float32) : Z * Z * Z :=
  match x with
  | S754_infinity true => (-2, 0, 0)
  | S754_finite true m e => (-1, - e, - Z.pos m)
  | S754_finite false m e => (1, e, Z.pos m)
  | S754_infinity false => (2, 0, 0)
  | _ => (0, 0, 0)
  end%Z.

Definition below (a b : Z * Z * Z) : Prop :=
  let '(a1, a2, a3) := a in let '(b1, b2, b3) := b in (a1 < b1 \/ a1 = b1 /\ (a2 < b2 \/ a2 = b2 /\ a3 < b3))%Z.

Ltac settle :=
  split; [first [by intros [=]|intros _; split; [done|split; [done|lia]]]|intros (? & ? & ?); first [done|lia]].

Lemma SFltb_below x y : SFltb x y = true <-> x <> S754_nan /\ y <> S754_nan /\ below (rank x) (rank y).
Proof.
  unfold SFltb, SFcompare, below, rank. destruct x as [[]|[]| |[] m e], y as [[]|[]| |[] m' e']; try by settle.
  - destruct (Z.compare_spec e e') as [-> |Hlt|Hlt]; cbn [CompOpp]; [|by settle..].
    change (Pos.compare_cont Eq m m') with (m ?= m')%positive. destruct (Pos.compare_spec m m'); cbn [CompOpp]; by settle.
  - destruct (Z.compare_spec e e') as [-> |Hlt|Hlt]; [|by settle..].
    change (Pos.compare_cont Eq m m') with (m ?= m')%positive. destruct (Pos.compare_spec m m'); by settle.
Qed.

(** [a] is at least [b]; a NaN is below every number. *)
Definition atleast (a b : float32) : Prop := flt a b = false.

Lemma ftz_nan x : ftz x = S754_nan <-> x = S754_nan.
Proof. destruct x; cbn; [done..|]. destruct (_ <? _)%positive; done. Qed.

Lemma flt_below x y : flt x y = true <-> x <> S754_nan /\ y <> S754_nan /\ below (rank (ftz x)) (rank (ftz y)).
Proof. unfold flt. rewrite SFltb_below. by rewrite !ftz_nan. Qed.

Lemma atleast_refl a : atleast a a.
Proof. unfold atleast. destruct (flt a a) eqn:E; [|done]. apply flt_below in E as (_ & _ & E). unfold below in E. destruct (rank (ftz a)) as [[]]. lia. Qed.

Lemma atleast_trans a b c : b <> S754_nan -> atleast a b -> atleast b c -> atleast a c.
Proof.
  unfold atleast. intros Hb H1 H2. destruct (flt a c) eqn:E; [|done]. apply flt_below in E as (Ha & Hc & E).
  assert (~ below (rank (ftz a)) (rank (ftz b))) as N1 by (intros N; assert (flt a b = true) by (by apply flt_below); congruence).
  assert (~ below (rank (ftz b)) (rank (ftz c))) as N2 by (intros N; assert (flt b c = true) by (by apply flt_below); congruence).
  unfold below in *. destruct (rank (ftz a)) as [[]], (rank (ftz b)) as [[]], (rank (ftz c)) as [[]]. lia.
Qed.

Lemma flt_atleast a b : flt a b = true -> atleast b a /\ a <> S754_nan /\ b <> S754_nan.
Proof.
  intros E. apply flt_below in E as (Ha & Hb & E). split; [|done]. unfold atleast. destruct (flt b a) eqn:E'; [|done].
  apply flt_below in E' as (_ & _ & E'). unfold below in *. destruct (rank (ftz a)) as [[]], (rank (ftz b)) as [[]]. lia.
Qed.

(** ** The tree *)
Section choice.
Context {A : Type} (op : A -> A -> A) (P : A -> Prop) (R : A -> A -> Prop).
Context (Hop : forall a b, P a -> P b -> (op a b = a \/ op a b = b) /\ R (op a b) a /\ R (op a b) b).
Context (Htrans : forall a b c, P b -> R a b -> R b c -> R a c).

(** An operation that chooses leaves the choice among all. *)
Lemma reduce_choice k : forall l, Forall P l -> (2 ^ k <= length l)%nat ->
  exists r, head (reduce op k l) = Some r /\ r ∈ take (2 ^ k) l /\ forall x, x ∈ take (2 ^ k) l -> x = r \/ R r x.
Proof using Hop Htrans.
  induction k as [|k IH]; intros l HP Hl; cbn [reduce].
  - destruct l as [|x l]; [simpl in Hl; lia|]. exists x. cbn. split; [done|]. split; [by left|]. intros y [-> |Hy]%elem_of_cons; [by left|].
    by apply not_elem_of_nil in Hy.
  - set (s := (2 ^ k)%nat) in *. change (2 ^ S k)%nat with (s + (s + 0))%nat in *.
    assert (Hz : length (zip_with op (take s l) (take s (drop s l))) = s) by (rewrite length_zip_with, !length_take, length_drop; lia).
    assert (HPz : Forall P (zip_with op (take s l) (take s (drop s l)))).
    { apply Forall_lookup_2. intros i x Hx. apply lookup_zip_with_Some in Hx as (a & b & -> & Ha & Hb).
      apply lookup_take_Some in Ha as [Ha _]. apply lookup_take_Some in Hb as [Hb _]. rewrite lookup_drop in Hb.
      pose proof (Forall_lookup_1 _ _ _ _ HP Ha) as Pa. pose proof (Forall_lookup_1 _ _ _ _ HP Hb) as Pb.
      by destruct (Hop a b Pa Pb) as ([-> | ->] & _). }
    destruct (IH (zip_with op (take s l) (take s (drop s l)) ++ drop s l)) as (r & Hr & Hin & Hmax).
    { apply Forall_app. split; [done|]. by apply Forall_drop. }
    { rewrite length_app. lia. }
    rewrite take_app_le, take_ge in Hin, Hmax by lia. exists r. split; [done|].
    assert (Hlook : forall i a b, (i < s)%nat -> l !! i = Some a -> l !! (s + i)%nat = Some b ->
      zip_with op (take s l) (take s (drop s l)) !! i = Some (op a b)).
    { intros i a b Hi Ha Hb. apply lookup_zip_with_Some. exists a, b. split; [done|]. split; [by rewrite lookup_take_lt|].
      rewrite lookup_take_lt by done. by rewrite lookup_drop. }
    assert (Hrow : forall i, (i < s)%nat -> exists a b, l !! i = Some a /\ l !! (s + i)%nat = Some b).
    { intros i Hi. destruct (lookup_lt_is_Some_2 l i) as [a Ha]; [lia|]. destruct (lookup_lt_is_Some_2 l (s + i)) as [b Hb]; [lia|]. by exists a, b. }
    assert (Hbeats : forall i a b x, (i < s)%nat -> l !! i = Some a -> l !! (s + i)%nat = Some b -> x = a \/ x = b -> R r x).
    { intros i a b x Hi Ha Hb Hx. pose proof (Hlook i a b Hi Ha Hb) as Hab.
      pose proof (Forall_lookup_1 _ _ _ _ HP Ha) as Pa. pose proof (Forall_lookup_1 _ _ _ _ HP Hb) as Pb.
      destruct (Hop a b Pa Pb) as (_ & R1 & R2). assert (R (op a b) x) as Rx by (by destruct Hx as [-> | ->]).
      destruct (Hmax (op a b)) as [<-|Hr']; [by eapply list_elem_of_lookup_2|done|]. apply (Htrans _ (op a b)); [|done|done].
      by apply (Forall_lookup_1 _ _ _ _ HPz Hab). }
    split.
    + apply list_elem_of_lookup in Hin as [i Hi]. pose proof (lookup_lt_Some _ _ _ Hi) as Hlt. rewrite Hz in Hlt.
      destruct (Hrow i Hlt) as (a & b & Ha & Hb). rewrite (Hlook i a b Hlt Ha Hb) in Hi. injection Hi as <-.
      destruct (Hop a b) as ([-> | ->] & _); [by apply (Forall_lookup_1 _ _ _ _ HP Ha)|by apply (Forall_lookup_1 _ _ _ _ HP Hb)| |].
      * apply (list_elem_of_lookup_2 _ i). by rewrite lookup_take_lt by lia.
      * apply (list_elem_of_lookup_2 _ (s + i)). by rewrite lookup_take_lt by lia.
    + intros x Hx. right. apply list_elem_of_lookup in Hx as [j Hj]. apply lookup_take_Some in Hj as [Hj Hlt].
      destruct (decide (j < s)%nat) as [Hs|Hs].
      * destruct (Hrow j Hs) as (a & b & Ha & Hb). apply (Hbeats j a b); [done..|]. left. congruence.
      * destruct (Hrow (j - s)%nat) as (a & b & Ha & Hb); [lia|]. apply (Hbeats (j - s)%nat a b); [lia|done|done|]. right.
        replace (s + (j - s))%nat with j in Hb by lia. congruence.
Qed.

End choice.

(** ** The greedy choice is a largest logit *)
Definition number (a : float32 * nat) : Prop := a.1 <> S754_nan.
Definition beats (a b : float32 * nat) : Prop := atleast a.1 b.1.

Lemma better_ok a b : number a -> (better a b = a \/ better a b = b) /\ number (better a b) /\ beats (better a b) a /\ beats (better a b) b.
Proof.
  intros Ha. unfold better, beats, number. destruct (flt a.1 b.1) eqn:E.
  - apply flt_atleast in E as (H & _ & Hb). split; [by right|]. split; [done|]. split; [done|apply atleast_refl].
  - split; [by left|]. split; [done|]. split; [apply atleast_refl|exact E].
Qed.

Lemma scan_ok (l : list (nat * float32)) : forall acc, number acc ->
  let r := foldl (fun best iv => better best (iv.2, iv.1)) acc l in
  number r /\ beats r acc /\ (forall i v, (i, v) ∈ l -> beats r (v, i)) /\ (r = acc \/ (r.2, r.1) ∈ l).
Proof.
  induction l as [|[i v] l IH]; intros acc Ha; cbn [foldl].
  - split; [done|]. split; [apply atleast_refl|]. split; [intros i v H; by apply not_elem_of_nil in H|by left].
  - destruct (better_ok acc (v, i) Ha) as (Hc & Hn & B1 & B2). destruct (IH _ Hn) as (Hr & R1 & R2 & R3). cbn [fst snd] in *.
    set (r := foldl _ _ l) in *. assert (Htr : forall x, beats (better acc (v, i)) x -> beats r x).
    { intros x Hx. by apply (atleast_trans _ (better acc (v, i)).1). }
    split; [done|]. split; [by apply Htr|]. split.
    + intros i' v' [[= -> ->]|H]%elem_of_cons; [by apply Htr|by apply R2].
    + destruct R3 as [-> |R3]; [|by right; right]. destruct Hc as [-> | ->]; [by left|right; by left].
Qed.

Lemma imap_pair {A} (l : list A) i x : (i, x) ∈ imap pair l <-> l !! i = Some x.
Proof.
  rewrite elem_of_lookup_imap. split; [by intros (j & y & [= -> ->] & H)|]. intros H. by exists i, x.
Qed.

(** Every logit belongs to a thread. *)
Lemma thread_logits (lg : list float32) i v :
  (exists tid, (tid < kSampleThreads)%nat /\ (i, v) ∈ strided (length lg) (imap pair lg) tid kSampleThreads) <-> lg !! i = Some v.
Proof.
  rewrite <- imap_pair, <- (strides_once kSampleThreads (imap pair lg)) by (unfold kSampleThreads; lia).
  rewrite list_elem_of_In, in_concat. unfold strides. rewrite length_imap. split.
  - intros (tid & Hlt & H). eexists. split; apply list_elem_of_In; [|exact H]. apply list_elem_of_fmap. exists tid. split; [done|].
    apply elem_of_seq. lia.
  - intros (l & Hl & H). apply list_elem_of_In, list_elem_of_fmap in Hl as (tid & -> & Ht). apply elem_of_seq in Ht.
    exists tid. split; [lia|]. by apply list_elem_of_In.
Qed.

Lemma thread_best_ok lg tid :
  number (thread_best lg tid) /\ beats (thread_best lg tid) (kNegInf, 0%nat) /\
  (forall i v, (i, v) ∈ strided (length lg) (imap pair lg) tid kSampleThreads -> beats (thread_best lg tid) (v, i)) /\
  (thread_best lg tid = (kNegInf, 0%nat) \/ ((thread_best lg tid).2, (thread_best lg tid).1) ∈ strided (length lg) (imap pair lg) tid kSampleThreads).
Proof. by apply scan_ok. Qed.

Lemma ArgmaxKernel_ok lg :
  (exists v, lg !! ArgmaxKernel lg = Some v /\ forall x, x ∈ lg -> atleast v x) \/
  (ArgmaxKernel lg = 0%nat /\ forall x, x ∈ lg -> atleast kNegInf x).
Proof.
  unfold ArgmaxKernel, reduced.
  destruct (reduce_choice better number beats) with (k := 8%nat) (l := thread_best lg <$> seq 0 kSampleThreads) as (r & -> & Hin & Hmax).
  - intros a b Ha _. destruct (better_ok a b Ha) as (H1 & _ & H2 & H3). done.
  - intros a b c Hb. by apply atleast_trans.
  - apply Forall_fmap, Forall_forall. intros tid _. apply (thread_best_ok lg tid).
  - rewrite length_fmap, length_seq. done.
  - rewrite take_ge in Hin, Hmax by (by rewrite length_fmap, length_seq). cbn [default from_option].
    assert (Hall : forall x, x ∈ lg -> atleast r.1 x).
    { intros x Hx. apply list_elem_of_lookup in Hx as [i Hi]. apply thread_logits in Hi as (tid & Ht & Hi).
      destruct (thread_best_ok lg tid) as (Hn & _ & Hb & _). specialize (Hb i x Hi).
      destruct (Hmax (thread_best lg tid)) as [<-|Hr]; [apply list_elem_of_fmap_2, elem_of_seq; lia|exact Hb|].
      by apply (atleast_trans _ (thread_best lg tid).1). }
    apply list_elem_of_fmap in Hin as (tid & -> & Ht). apply elem_of_seq in Ht. destruct (thread_best_ok lg tid) as (_ & _ & _ & [E|E]).
    + right. rewrite E in *. by split.
    + left. exists (thread_best lg tid).1. split; [|exact Hall]. apply thread_logits. exists tid. split; [lia|exact E].
Qed.

(** ** What is drawn is in the nucleus *)
Lemma slices_lookup {A} n c : forall (l : list A) tid own,
  slices n c l !! tid = Some own <-> (tid < n)%nat /\ own = take c (drop (tid * c) l).
Proof.
  induction n as [|n IH]; intros l tid own; cbn [slices].
  - rewrite lookup_nil. split; [done|lia].
  - destruct tid as [|tid]; cbn [lookup list_lookup].
    + rewrite drop_0. split; [by intros [= <-]; split; [lia|]|by intros [_ ->]].
    + etrans; [apply IH|]. rewrite drop_drop. change (S tid * c)%nat with (c + tid * c)%nat. split; intros [H1 H2]; (split; [lia|done]).
Qed.

Lemma thread_slices_lookup {A} (l : list A) tid own :
  thread_slices l !! tid = Some own <-> (tid < kSampleThreads)%nat /\ own = take (chunk_of l) (drop (tid * chunk_of l) l).
Proof. apply slices_lookup. Qed.

(** The tokens of a thread that are in the nucleus, each with the sum reached with it. *)
Fixpoint running (wt acc : float32) (ws : list (nat * float32)) : list (nat * float32) :=
  match ws with
  | [] => []
  | (i, w) :: ws => if fge w wt then (i, fadd acc w) :: running wt (fadd acc w) ws else running wt acc ws
  end.

(** The first of them at which the sum reaches the target. *)
Definition first_reaching (target : float32) (l : list (nat * float32)) (i : nat) : Prop :=
  exists pre x post, l = pre ++ (i, x) :: post /\ fge x target = true /\ Forall (fun jx => fge jx.2 target = false) pre.

Lemma walk_running ws wt target : forall acc,
  match walk ws wt acc target with
  | Some i => first_reaching target (running wt acc ws) i
  | None => Forall (fun jx => fge jx.2 target = false) (running wt acc ws)
  end.
Proof.
  induction ws as [|[j w] ws IH]; intros acc; cbn [walk running]; [constructor|].
  destruct (fge w wt); [|apply IH]. cbv zeta. destruct (fge (fadd acc w) target) eqn:E.
  - by exists [], (fadd acc w), (running wt (fadd acc w) ws).
  - specialize (IH (fadd acc w)). destruct (walk ws wt (fadd acc w) target) as [i|]; [|by constructor].
    destruct IH as (pre & x & post & -> & Hx & Hp). exists ((j, fadd acc w) :: pre), x, post.
    split; [done|]. split; [done|]. by constructor.
Qed.

Lemma first_reaching_unique target l i i' : first_reaching target l i -> first_reaching target l i' -> i = i'.
Proof.
  intros (pre & x & post & -> & Hx & Hp). revert pre Hp. intros pre. induction pre as [|[j y] pre IH]; intros Hp (pre' & x' & post' & E & Hx' & Hp').
  - destruct pre' as [|z pre']; [by injection E|]. injection E as <- E. apply Forall_inv in Hp'. cbn in Hp'. congruence.
  - apply Forall_cons in Hp as [Hj Hp]. destruct pre' as [|z pre']; [injection E as -> -> E; cbn in Hj; congruence|].
    injection E as <- E. apply Forall_cons in Hp' as [_ Hp']. apply IH; [done|]. by exists pre', x', post'.
Qed.

Lemma running_nucleus wt ws : forall acc i x, (i, x) ∈ running wt acc ws -> exists w, (i, w) ∈ ws /\ fge w wt = true.
Proof.
  induction ws as [|[j w] ws IH]; intros acc i x; cbn [running]; [by intros ?%not_elem_of_nil|].
  destruct (fge w wt) eqn:E; [intros [[= -> ->]|H]%elem_of_cons; [exists w; split; [by left|done]|]|intros H];
    apply IH in H as (w' & Hin & Hw); exists w'; (split; [by right|done]).
Qed.

(** The target and what each thread sums and starts from. *)
Definition parts (ws : list float32) (topp : float32) : list float32 :=
  if flt topp float32_one then masses ws (threshold ws topp) else sums ws.
Definition total (ws : list float32) (topp : float32) : float32 := (bases zero_f (parts ws topp)).2.

(** The thread whose part of the total holds the target. *)
Definition owner (ws : list float32) (topp target : float32) (tid : nat) (base : float32) (own : list (nat * float32)) : Prop :=
  exists part, (bases zero_f (parts ws topp)).1 !! tid = Some base /\ parts ws topp !! tid = Some part /\
    own = take (chunk_of ws) (drop (tid * chunk_of ws) (imap pair ws)) /\
    fge target base = true /\ flt target (fadd base part) = true.

Lemma length_slices {A} n c : forall l : list A, length (slices n c l) = n.
Proof. induction n as [|n IH]; intros l; cbn [slices length]; [done|by rewrite IH]. Qed.

Lemma length_parts ws topp : length (parts ws topp) = kSampleThreads.
Proof. unfold parts, masses, sums, thread_slices. destruct (flt _ _); by rewrite length_fmap, length_slices. Qed.

(** The token that a draw asks for. *)
Definition drawn (ws : list float32) (topp u : float32) (i : nat) : Prop :=
  let target := fmul u (total ws topp) in
  exists tid base own, owner ws topp target tid base own /\
    first_reaching target (running (threshold ws topp) base own) i.

Lemma claims_spec ws topp u i : i ∈ claims ws topp u <-> drawn ws topp u i.
Proof.
  unfold claims, drawn, owner, total. fold (parts ws topp). destruct (bases zero_f (parts ws topp)) as [bs tot] eqn:Eb. cbn [fst snd].
  set (target := fmul u tot). set (wt := threshold ws topp). rewrite list_elem_of_omap. split.
  - intros (tid & _ & Hc). destruct (bs !! tid) as [b|] eqn:E1; [|done]. destruct (parts ws topp !! tid) as [v|] eqn:E2; [|done].
    destruct (thread_slices _ !! tid) as [own|] eqn:E3; [|done]. destruct (fge target b) eqn:E4; [|done].
    destruct (flt target (fadd b v)) eqn:E5; [|done]. cbn [andb] in Hc. pose proof (walk_running own wt target b) as Hw.
    rewrite Hc in Hw. apply thread_slices_lookup in E3 as [_ ->]. exists tid, b. eexists. split; [|exact Hw]. exists v.
    unfold chunk_of. by rewrite length_imap.
  - intros (tid & b & own & (v & E1 & E2 & -> & E4 & E5) & Hf). exists tid.
    pose proof (lookup_lt_Some _ _ _ E2) as Ht. rewrite length_parts in Ht. split; [apply elem_of_seq; lia|].
    rewrite E1, E2. assert (thread_slices (imap pair ws) !! tid = Some (take (chunk_of ws) (drop (tid * chunk_of ws) (imap pair ws)))) as ->.
    { apply thread_slices_lookup. unfold chunk_of. by rewrite length_imap. }
    rewrite E4, E5. cbn [andb]. match type of Hf with first_reaching _ (running _ _ ?own) _ => pose proof (walk_running own wt target b) as Hw end.
    destruct (walk _ wt b target) as [j|]; [f_equal; by eapply first_reaching_unique|].
    destruct Hf as (pre & x & post & E & Hx & _). rewrite E in Hw. apply Forall_app in Hw as [_ Hw]. apply Forall_inv in Hw. cbn in Hw. congruence.
Qed.

Lemma claims_ok ws topp u i : i ∈ claims ws topp u -> exists w, ws !! i = Some w /\ fge w (threshold ws topp) = true.
Proof.
  intros (tid & b & own & (v & _ & _ & -> & _) & (pre & x & post & E & _))%claims_spec.
  assert (Hin : (i, x) ∈ running (threshold ws topp) b (take (chunk_of ws) (drop (tid * chunk_of ws) (imap pair ws)))).
  { rewrite E. apply elem_of_app. right. by left. }
  apply running_nucleus in Hin as (w & Hin & Hw). exists w. split; [|done]. apply imap_pair.
  apply elem_of_take in Hin as (k & Hk & _). rewrite lookup_drop in Hk. by eapply list_elem_of_lookup_2.
Qed.

(** *** Some thread's part holds a target below the total *)
Lemma flt_or_fge x y : x <> S754_nan -> y <> S754_nan -> flt x y = false -> fge x y = true.
Proof.
  unfold flt, fge, SFltb, SFleb. rewrite <- (ftz_nan x), <- (ftz_nan y). generalize (ftz x) (ftz y). clear x y. intros x y Hx Hy.
  assert (Hsym : SFcompare y x = option_map CompOpp (SFcompare x y)).
  { unfold SFcompare. destruct x as [[]|[]| |[] m e], y as [[]|[]| |[] m' e']; try done; rewrite (Z.compare_antisym e' e);
      destruct (e' ?= e)%Z; cbn [CompOpp option_map]; try done; rewrite ?CompOpp_involutive;
      change (Pos.compare_cont Eq) with Pos.compare; rewrite (Pos.compare_antisym m' m), ?CompOpp_involutive; done. }
  rewrite Hsym. destruct (SFcompare x y) as [[]|] eqn:E; cbn; try done. exfalso.
  destruct x as [[]|[]| |[] m e], y as [[]|[]| |[] m' e']; try done; unfold SFcompare in E; destruct (e ?= e')%Z; done.
Qed.

Lemma fadd_nan y : fadd S754_nan y = S754_nan.
Proof. done. Qed.

Lemma bases_nan svals : (bases S754_nan svals).2 = S754_nan.
Proof. induction svals as [|x svals IH]; [done|]. cbn [bases]. rewrite fadd_nan. by destruct (bases S754_nan svals). Qed.

Lemma owner_exists target svals : forall acc,
  fge target acc = true -> flt target (bases acc svals).2 = true ->
  exists t b v, (bases acc svals).1 !! t = Some b /\ svals !! t = Some v /\ fge target b = true /\ flt target (fadd b v) = true.
Proof.
  induction svals as [|x svals IH]; intros acc Hge Hlt; cbn [bases] in *.
  - exfalso. cbn [snd] in Hlt. unfold fge, flt, SFleb, SFltb in *. unfold SFcompare in *.
    destruct (ftz target) as [[]|[]| |[] m e], (ftz acc) as [[]|[]| |[] m' e']; try done; rewrite (Z.compare_antisym e e') in Hge;
      destruct (e ?= e')%Z; cbn [CompOpp] in *; try done; change (Pos.compare_cont Eq) with Pos.compare in *;
      rewrite (Pos.compare_antisym m m') in Hge; by destruct (m ?= m')%positive.
  - destruct (bases (fadd acc x) svals) as [bs tot] eqn:E. cbn [fst snd] in *.
    destruct (flt target (fadd acc x)) eqn:Ex; [by exists 0%nat, acc, x|].
    apply flt_below in Hlt as Hlt'. destruct Hlt' as (Ht & Htot & _).
    destruct (IH (fadd acc x)) as (t & b & v & H); [|by rewrite E|exists (S t), b, v; by rewrite E in H].
    apply flt_or_fge; [done| |done]. intros En. rewrite En in E. pose proof (bases_nan svals) as Hn. rewrite E in Hn. by apply Htot.
Qed.

(** So a draw that no thread claims is one whose sums fall short of the target. *)
Lemma unclaimed ws topp u (target := fmul u (total ws topp)) :
  claims ws topp u = [] -> fge target zero_f = true -> flt target (total ws topp) = true ->
  exists tid base own, owner ws topp target tid base own /\
    Forall (fun ix => fge ix.2 target = false) (running (threshold ws topp) base own).
Proof.
  intros Hc H0 Ht. destruct (owner_exists target (parts ws topp) zero_f H0 Ht) as (tid & b & v & H1 & H2 & H3 & H4).
  assert (Ho : owner ws topp target tid b (take (chunk_of ws) (drop (tid * chunk_of ws) (imap pair ws)))) by by exists v.
  exists tid, b. eexists. split; [exact Ho|]. match type of Ho with owner _ _ _ _ _ ?own => pose proof (walk_running own (threshold ws topp) target b) as Hw end.
  destruct (walk _ _ b target) as [i|]; [|exact Hw]. exfalso. assert (Hi : i ∈ claims ws topp u) by (apply claims_spec; unfold drawn; eauto).
  rewrite Hc in Hi. by apply not_elem_of_nil in Hi.
Qed.

(** *** The bisection *)

(** The mass the nucleus must have. *)
Definition required (ws : list float32) (topp : float32) : float32 := fmul topp (bases zero_f (sums ws)).2.

Definition normal (n : Z) (x : float32) : Prop :=
  exists m e, x = S754_finite false m e /\ mantissa m /\ (-23 - n <= e <= 0)%Z.

(** The interval after [n] rounds: a number in it is known up to [2 ^ -n] and the rounding of
    the midpoints. *)
Record bracketing (n : Z) (lo hi : float32) : Prop := {
  br_lo : lo = zero_f \/ normal n lo;
  br_hi : normal n hi;
  br_order : (units lo <= units hi <= 2 ^ 149)%Z;
  br_width : (units hi - units lo <= 2 ^ (149 - n) + 2 ^ 126)%Z;
}.

Lemma normal_S n x : normal n x -> normal (n + 1) x.
Proof. intros (m & e & -> & Hm & He). exists m, e. split; [done|]. split; [done|lia]. Qed.

Lemma ftz_normal m e : mantissa m -> ftz (S754_finite false m e) = S754_finite false m e.
Proof. intros [Hm _]. unfold ftz. destruct (Pos.ltb_spec m 8388608); [lia|done]. Qed.

Lemma fmul_half m e : mantissa m -> (-100 <= e <= 30)%Z -> fmul half_f (S754_finite false m e) = S754_finite false m (e - 1).
Proof.
  intros Hm He. unfold fmul. rewrite (ftz_normal m e Hm). change (ftz half_f) with (S754_finite false 8388608 (-24)).
  rewrite SFmul_half by done. by apply ftz_normal.
Qed.

Lemma units_half m e : (-100 <= e)%Z -> units (S754_finite false m e) = (2 * units (S754_finite false m (e - 1)))%Z.
Proof. intros He. cbn [units]. replace (e + 149)%Z with (Z.succ (e - 1 + 149)) by lia. rewrite Z.pow_succ_r by lia. lia. Qed.

Lemma normal_range n x : (0 <= n <= 40)%Z -> normal n x -> exists m e, x = S754_finite false m e /\ mantissa m /\ (-100 <= e <= 0)%Z /\ (-23 - n <= e)%Z.
Proof. intros Hn (m & e & -> & Hm & He). exists m, e. split; [done|]. split; [done|lia]. Qed.

(** The midpoint of an interval lies in it, close to its middle. *)
Lemma midpoint_ok n lo hi (mid := fmul half_f (fadd lo hi)) : (0 <= n <= 40)%Z -> bracketing n lo hi ->
  normal (n + 1) mid /\ (units lo <= units mid <= units hi)%Z /\ (Z.abs (2 * units mid - (units lo + units hi)) <= 2 ^ 126)%Z.
Proof.
  intros Hn [Hlo Hhi Hord _]. destruct (normal_range n hi Hn Hhi) as (my & ey & -> & Hmy & Hey & Hey'). subst mid.
  destruct Hlo as [-> |Hlo].
  - change (fadd zero_f ?y) with (ftz (SFadd 24 128 (S754_zero false) (ftz y))). rewrite (ftz_normal my ey Hmy).
    cbn [SFadd]. rewrite (ftz_normal my ey Hmy), fmul_half by (done || lia).
    split; [exists my, (ey - 1)%Z; split; [done|]; split; [done|lia]|]. rewrite (units_half my ey) in * by lia.
    assert (0 <= units (S754_finite false my (ey - 1)))%Z by (cbn [units]; lia). change (units zero_f) with 0%Z in *. lia.
  - destruct (normal_range n lo Hn Hlo) as (mx & ex & -> & Hmx & Hex & Hex').
    destruct (SFadd_normal mx ex my ey Hmx Hmy Hex Hey ltac:(lia)) as (m & e & k & E & Hm & He & Hb & Hk & Hk1 & Hk2).
    unfold fadd. rewrite (ftz_normal mx ex Hmx), (ftz_normal my ey Hmy), E, (ftz_normal m e Hm), fmul_half by (done || lia).
    rewrite (units_half m e) in Hb, Hk2 by lia. split; [exists m, (e - 1)%Z; split; [done|split; [done|]]|].
    + split; [lia|]. destruct (Z.le_gt_cases e 1); [lia|]. exfalso. cbn [units] in Hb, Hord. destruct Hm as [Hm _].
      assert (2 ^ 149 <= 2 ^ (e - 1 + 149))%Z by (apply Z.pow_le_mono_r; lia). nia.
    + split; [lia|]. assert (Hk3 : (2 ^ k <= 2 ^ 127)%Z) by lia. lia.
Qed.

Lemma bracketing_lo n lo hi : (0 <= n <= 40)%Z -> bracketing n lo hi -> bracketing (n + 1) lo (fmul half_f (fadd lo hi)).
Proof.
  intros Hn H. destruct (midpoint_ok n lo hi Hn H) as (Hm & Hb & Hd). destruct H as [Hlo Hhi Hord Hw]. split; [|done|lia|].
  - destruct Hlo as [?|?]; [by left|right; by apply normal_S].
  - replace (149 - n)%Z with (Z.succ (149 - (n + 1))) in Hw by lia. rewrite Z.pow_succ_r in Hw by lia. lia.
Qed.

Lemma bracketing_hi n lo hi : (0 <= n <= 40)%Z -> bracketing n lo hi -> bracketing (n + 1) (fmul half_f (fadd lo hi)) hi.
Proof.
  intros Hn H. destruct (midpoint_ok n lo hi Hn H) as (Hm & Hb & Hd). destruct H as [Hlo Hhi Hord Hw]. split; [by right|by apply normal_S|lia|].
  replace (149 - n)%Z with (Z.succ (149 - (n + 1))) in Hw by lia. rewrite Z.pow_succ_r in Hw by lia. lia.
Qed.

(** The bisection ends on a threshold from which the mass suffices, or on none, next to a
    number from which it does not, or to 1. *)
Lemma bisect_ok ws need rounds : forall n lo hi, (0 <= n)%Z -> (n + Z.of_nat rounds <= 40)%Z -> bracketing n lo hi ->
  lo = zero_f \/ fge (mass_of ws lo) need = true -> hi = float32_one \/ fge (mass_of ws hi) need = false ->
  exists hi', bracketing (n + Z.of_nat rounds) (bisect rounds ws need lo hi) hi' /\
    (bisect rounds ws need lo hi = zero_f \/ fge (mass_of ws (bisect rounds ws need lo hi)) need = true) /\
    (hi' = float32_one \/ fge (mass_of ws hi') need = false).
Proof.
  induction rounds as [|k IH]; intros n lo hi Hn Hr Hb Hlo Hhi; cbn [bisect].
  - rewrite Z.add_0_r. by exists hi.
  - cbv zeta. rewrite Nat2Z.inj_succ in *. replace (n + Z.succ (Z.of_nat k))%Z with (n + 1 + Z.of_nat k)%Z by lia.
    destruct (fge (mass_of ws (fmul half_f (fadd lo hi))) need) eqn:E.
    + apply IH; [lia|lia|apply bracketing_hi; [lia|done]|by right|done].
    + apply IH; [lia|lia|apply bracketing_lo; [lia|done]|done|by right].
Qed.

(** The threshold of the nucleus, up to [2 ^ -22]. *)
Lemma threshold_ok ws topp (wt := threshold ws topp) : flt topp float32_one = true ->
  exists hi, (units wt <= units hi < units wt + 2 ^ 127)%Z /\
    (wt = zero_f \/ fge (mass_of ws wt) (required ws topp) = true) /\
    (hi = float32_one \/ fge (mass_of ws hi) (required ws topp) = false).
Proof.
  intros Ht. subst wt. unfold threshold. rewrite Ht.
  destruct (bisect_ok ws (required ws topp) 32 0 zero_f float32_one) as (hi & Hb & H1 & H2); [lia|lia| |by left|by left|].
  { split; [by left| | |].
    - exists 8388608%positive, (-23)%Z. split; [done|]. split; [by split|lia].
    - by vm_compute.
    - by vm_compute. }
  exists hi. split; [|by split]. destruct Hb as [_ _ Hb1 Hb2]. change (2 ^ (149 - (0 + Z.of_nat 32)))%Z with (2 ^ 117)%Z in Hb2.
  unfold required in Hb1, Hb2. lia.
Qed.

Lemma threshold_none ws topp : flt topp float32_one = false -> threshold ws topp = zero_f.
Proof. intros H. unfold threshold. by rewrite H. Qed.

Lemma weights_length expf lg it : length (weights expf lg it) = length lg.
Proof. apply length_fmap. Qed.

Lemma SampleKernel_ok expf lg it topp u : lg <> [] -> let ws := weights expf lg it in
  (claims ws topp u = [] /\ SampleKernel expf lg it topp u = (length lg - 1)%nat) \/
  (SampleKernel expf lg it topp u ∈ claims ws topp u).
Proof.
  intros Hne ws. unfold SampleKernel. fold ws. destruct (claims ws topp u) as [|c cs _] using rev_ind; [by left|]. right.
  rewrite last_snoc. cbn. apply elem_of_app. right. by left.
Qed.

(** The token is one of the vocabulary. *)
Lemma SampleBatch_range expf lg it topp u : lg <> [] ->
  exists i, SampleBatch expf lg it topp u = Z.of_nat i /\ i = (if fge zero_f it then ArgmaxKernel lg else SampleKernel expf lg it topp u) /\
    (i < length lg)%nat.
Proof.
  intros Hne. unfold SampleBatch. eexists. split; [done|]. split; [done|]. assert (0 < length lg)%nat as Hl by (destruct lg; [done|simpl; lia]).
  destruct (fge zero_f it).
  - destruct (ArgmaxKernel_ok lg) as [(v & Hv & _)|[-> _]]; [by eapply lookup_lt_Some|done].
  - destruct (SampleKernel_ok expf lg it topp u Hne) as [[_ ->]|HS]; [lia|]. apply claims_ok in HS as (w & Hw & _).
    apply lookup_lt_Some in Hw. by rewrite weights_length in Hw.
Qed.

(** ** Properties *)

(** C39: sampling answers what was asked: whatever the logits, the token is one of the
    vocabulary. With a temperature of zero its logit is at least every other, or it is 0 and
    no logit exceeds -1e30, the number the search starts from. Otherwise a threshold is
    applied to the weights: none when top-p is 1 or more; else, up to [2 ^ -22], the
    greatest from which their mass, as the kernel sums it, suffices for top-p: it does
    suffice, or the threshold is 0, and does not from a number that is less than [2 ^ -22]
    above, or that number is 1. The token is the one in the nucleus at which the sum from
    the start of its thread first reaches the target, a share [u] of the total, its thread
    being one whose part of the total holds the target. Only when there is no such token is
    it the last of the vocabulary; with a target below the total some thread's part does
    hold it, and then the sums of that thread, taken one by one, all fall short of it. *)
Theorem sampled_token expf lg it topp u : lg <> [] ->
  let ws := weights expf lg it in let wt := threshold ws topp in let target := fmul u (total ws topp) in
  exists i, SampleBatch expf lg it topp u = Z.of_nat i /\ (i < length lg)%nat /\
    (fge zero_f it = true -> (exists v, lg !! i = Some v /\ forall x, x ∈ lg -> flt v x = false) \/
                             (i = 0%nat /\ forall x, x ∈ lg -> flt kNegInf x = false)) /\
    (fge zero_f it = false ->
      (flt topp float32_one = false -> wt = zero_f) /\
      (flt topp float32_one = true -> exists hi, (units wt <= units hi < units wt + 2 ^ 127)%Z /\
         (wt = zero_f \/ fge (mass_of ws wt) (required ws topp) = true) /\
         (hi = float32_one \/ fge (mass_of ws hi) (required ws topp) = false)) /\
      (forall j, drawn ws topp u j -> exists w, ws !! j = Some w /\ fge w wt = true) /\
      (drawn ws topp u i \/
       (forall j, ~ drawn ws topp u j) /\ i = (length lg - 1)%nat /\
       (fge target zero_f = true -> flt target (total ws topp) = true ->
          exists tid base own, owner ws topp target tid base own /\
            Forall (fun ix => fge ix.2 target = false) (running wt base own)))).
Proof.
  intros Hne ws wt target. destruct (SampleBatch_range expf lg it topp u Hne) as (i & E & Hi & Hl). exists i. split; [done|]. split; [done|].
  subst i. destruct (fge zero_f it); (split; first [by intros [=]|intros _]).
  - apply ArgmaxKernel_ok.
  - split; [by apply threshold_none|]. split; [by apply threshold_ok|]. split; [by intros j ?%claims_spec%claims_ok|].
    destruct (SampleKernel_ok expf lg it topp u Hne) as [[Hc ?]|Hc]; [right|left; by apply claims_spec].
    split; [intros j Hj%claims_spec; fold ws in Hc; rewrite Hc in Hj; by apply not_elem_of_nil in Hj|]. split; [done|].
    by apply unclaimed.
Qed.

(** *** Rounding *)

(** Logits of a vocabulary of 1024: one likely token, four of weight [4.77e-8] that share a
    thread, and others too unlikely to be represented; the last is among these. *)
Definition rare : float32 := S754_finite true 8838801 (-19).
Definition never : float32 := S754_finite true 13107200 (-17).
Definition rare_weight : float32 := S754_finite false 13421773 (-48).
Definition escape_logits : list float32 := [zero_f; never; never; never; rare; rare; rare; rare] ++ replicate 1016 never.
Definition escape_topp : float32 := S754_finite false 16777215 (-24).
Definition escape_u : float32 := S754_finite false 16777214 (-24).
Definition escape_weights : list float32 :=
  [float32_one; zero_f; zero_f; zero_f; rare_weight; rare_weight; rare_weight; rare_weight] ++ replicate 1016 zero_f.

Lemma escape_weights_ok expf : expf zero_f = float32_one -> expf rare = rare_weight -> expf never = zero_f ->
  weights expf escape_logits float32_one = escape_weights.
Proof.
  intros E0 E1 E2. unfold weights. assert (row_max escape_logits = zero_f) as -> by (vm_compute; reflexivity).
  assert (Hf : forall x y, fmul (fsub x zero_f) float32_one = x -> expf x = y -> expf (fmul (fsub x zero_f) float32_one) = y) by by intros x y ->.
  pose proof (Hf _ _ (eq_refl : fmul (fsub zero_f zero_f) float32_one = zero_f) E0) as F0.
  pose proof (Hf _ _ (eq_refl : fmul (fsub rare zero_f) float32_one = rare) E1) as F1.
  pose proof (Hf _ _ (eq_refl : fmul (fsub never zero_f) float32_one = never) E2) as F2.
  unfold escape_logits, escape_weights. rewrite fmap_app, fmap_replicate, F2. cbn [fmap list_fmap]. by rewrite F0, F1, F2.
Qed.

Lemma escape_computed : let wt := threshold escape_weights escape_topp in
  fge zero_f wt = false /\ fge rare_weight wt = true /\ fge float32_one wt = true /\ claims escape_weights escape_topp escape_u = [].
Proof. vm_compute. auto. Qed.

(** Rounding lets a draw fall through: at temperature 1 and with a random number and a
    top-p below 1, the nucleus holds five tokens and not the last of the vocabulary, and yet
    the last is the result. A thread's sum of its weights, added to those of the threads
    before it, is more than what it reaches by adding them one by one, so no thread finds
    the token for a target in between. *)
Lemma sampling_leaves_nucleus expf : expf zero_f = float32_one -> expf rare = rare_weight -> expf never = zero_f ->
  let ws := weights expf escape_logits float32_one in let wt := threshold ws escape_topp in
  flt escape_u float32_one = true /\ flt escape_topp float32_one = true /\
  (forall i w, ws !! i = Some w -> fge w wt = true <-> (i = 0 \/ 4 <= i < 8)%nat) /\
  SampleBatch expf escape_logits float32_one escape_topp escape_u = 1023%Z.
Proof.
  intros E0 E1 E2. unfold SampleBatch, SampleKernel. rewrite (escape_weights_ok expf E0 E1 E2). cbv zeta.
  destruct escape_computed as (H0 & H1 & H2 & ->). split; [reflexivity|]. split; [reflexivity|]. split; [|reflexivity].
  set (wt := threshold escape_weights escape_topp) in *. clearbody wt. intros i w Hi.
  do 8 (destruct i as [|i]; [injection Hi as <-; rewrite ?H0, ?H1, ?H2; split; [done || lia|done || lia]|]).
  apply lookup_replicate in Hi as [-> _]. rewrite H0. split; [done|lia].
Qed.

(** ** Witnesses *)

(** An exponential with the values at hand. *)
Definition toy_expf (x : float32) : float32 :=
  match x with S754_zero _ => float32_one | S754_finite true 8838801 (-19) => rare_weight | _ => zero_f end.

Lemma sampling_leaves_nucleus_witness :
  SampleBatch toy_expf escape_logits float32_one escape_topp escape_u = 1023%Z /\
  weights toy_expf escape_logits float32_one !! 1023%nat = Some zero_f.
Proof.
  destruct (sampling_leaves_nucleus toy_expf eq_refl eq_refl eq_refl) as (_ & _ & _ & E). split; [exact E|].
  rewrite (escape_weights_ok toy_expf eq_refl eq_refl eq_refl). reflexivity.
Defined.

(** A greedy choice among three, one of them no number; and a draw among three, two of them likely. *)
Lemma sampled_token_witness :
  (exists i, SampleBatch toy_expf [kNegInf; S754_nan; rare] zero_f float32_one half_f = Z.of_nat i /\ (i < 3)%nat /\
     exists v, [kNegInf; S754_nan; rare] !! i = Some v /\ flt v rare = false) /\
  SampleBatch toy_expf [zero_f; rare; zero_f] float32_one half_f half_f = 2%Z /\
  drawn (weights toy_expf [zero_f; rare; zero_f] float32_one) half_f half_f 2.
Proof.
  split; [|split; [vm_compute; reflexivity|]].
  - destruct (sampled_token toy_expf [kNegInf; S754_nan; rare] zero_f float32_one half_f ltac:(discriminate)) as (i & E & Hl & Hg & _).
    exists i. split; [exact E|]. split; [exact Hl|]. destruct (Hg eq_refl) as [(v & Hv & Hmax)|[_ Hmax]].
    + exists v. split; [exact Hv|]. apply Hmax. right. right. left.
    + exfalso. assert (rare ∈ [kNegInf; S754_nan; rare]) as Hin by (right; right; left). specialize (Hmax rare Hin). vm_compute in Hmax. discriminate.
  - destruct (sampled_token toy_expf [zero_f; rare; zero_f] float32_one half_f half_f ltac:(discriminate)) as (i & E & _ & _ & Hd).
    assert (Z.of_nat i = 2%Z) as Hi by (rewrite <- E; vm_compute; reflexivity). assert (i = 2%nat) as -> by lia.
    destruct (Hd eq_refl) as (_ & _ & _ & [H|(Hno & _)]); [exact H|]. exfalso. apply (Hno 2%nat), claims_spec.
    assert (claims (weights toy_expf [zero_f; rare; zero_f] float32_one) half_f half_f = [2%nat]) as -> by (vm_compute; reflexivity). left.
Defined.
