(* ===== verification/ModelRuntime.v ===== *)
(** * The forward pass of the engine

    Models [ModelRuntime::Forward] of [engine/src/model_runtime.cu] on the state of the
    device: the inputs of the pass ([StepContext]), the activation buffers as rows, the keys
    and values of every layer as flat memory, and the cache of captured graphs. The host
    side produces a list of kernel launches ([RunLayersBody]); [exec] is what a launch does.
    What the kernels compute from the rows they read is the record [Arithmetic]; where they
    read and write is modelled here, in [KvStore] and in [Attention]. A row whose offset
    leaves the 32 bits it is computed in, a token outside the embedding table and a position
    outside the rotation tables are [Panic] ([exec]); [RowKernels] has the kernels' own index
    computations.

    [ForwardOk] proves that it keeps the contract the scheduler relies on
    ([PagedRuntime.forward_ok]), for every batch that fits the sizes it was made with. *)

From Stdlib Require Import Floats.SpecFloat.
From S2P Require Import Prelude GoStrings Chatml Client Generate BlockAllocator Sequence Scheduler PagedRuntime StepContext KvStore.
From S2P Require Import Attention GraphCache Sampler.
Local Open Scope go_scope.

Definition kNumLayers : nat := 36.
Definition kRowSlack : Z := 16.
Definition kVocabSize : Z := 151936.
Definition kHiddenSize : Z := 4096.
Definition kIntermediate : Z := 12288.

(** The weights by their use. *)
Inductive norm := InNorm (l : nat) | PostNorm (l : nat) | FinalNorm.
Inductive matrix := QkvProj (l : nat) | OProj (l : nat) | GateUp (l : nat) | Down (l : nat).

(** What the kernels compute: rows from rows. [V] is an element of a row; a matrix
    product may depend on the number of rows. *)
Record Arithmetic (V : Type) := {
  embed : Z -> list V;
  rmsnorm : norm -> list V -> list V;
  add_row : list V -> list V -> list V;
  add_rmsnorm : norm -> list V -> list V -> list V;
  gemm : Z -> matrix -> list V -> list V;
  head_norm_rope : nat -> Z -> list V -> list V;
  silu_mul : list V -> list V;
  attend_decode : list V -> list (list (list (list V * list V))) -> list V;
  attend_prefill : list V -> list (bool * (list V * list V)) -> list V;
  lm_head : Z -> list V -> list float32;
  expf : float32 -> float32;
}.
Arguments embed {V}. Arguments rmsnorm {V}. Arguments add_row {V}. Arguments add_rmsnorm {V}. Arguments gemm {V}.
Arguments head_norm_rope {V}. Arguments silu_mul {V}. Arguments attend_decode {V}. Arguments attend_prefill {V}.
Arguments lm_head {V}. Arguments expf {V}.

(** ** Launches *)
Inductive launch :=
  | Embed (M : Z)
  | Rmsnorm (w : norm) (M : Z)
  | AddRmsnorm (w : norm) (M : Z)
  | Gemm (w : matrix) (M : Z)
  | HeadNormRope (l : nat) (M : Z)
  | StoreKv (l : nat) (M : Z)
  | AttnDecode (l : nat) (n_decode : Z)
  | AttnPrefill (l : nat) (R max_qlen : Z)
  | SiluMul (M : Z)
  | Add (M : Z).

Definition layer_launches (n_rows n_decode n_prefill max_qlen : Z) (l : nat) : list launch :=
  [if (l =? 0)%nat then Rmsnorm (InNorm l) n_rows else AddRmsnorm (InNorm l) n_rows; Gemm (QkvProj l) n_rows; HeadNormRope l n_rows;
   StoreKv l n_rows]
  ++ (if (n_decode <=? 0)%Z then [] else [AttnDecode l n_decode])
  ++ (if (n_prefill <=? 0)%Z then [] else [AttnPrefill l n_prefill max_qlen])
  ++ [Gemm (OProj l) n_rows; AddRmsnorm (PostNorm l) n_rows; Gemm (GateUp l) n_rows; SiluMul n_rows; Gemm (Down l) n_rows].

Definition RunLayersBody (n_rows n_decode n_prefill max_qlen : Z) : list launch :=
  Embed n_rows :: concat (layer_launches n_rows n_decode n_prefill max_qlen <$> seq 0 kNumLayers) ++ [Add n_rows].

(** Passes that only decode replay a captured graph. *)
Definition RunLayers (graphs : GraphCache (list launch)) (ctx : StepContext) : run (GraphCache (list launch) * list launch) :=
  let body := RunLayersBody (n_rows ctx) (n_decode ctx) (n_prefill ctx) (prefill_max_qlen ctx) in
  if (n_prefill ctx =? 0)%Z && (0 <? n_decode ctx)%Z then Run graphs (n_rows ctx) (n_decode ctx) body
  else Ret (graphs, body).

(** ** The device *)
Inductive buffer := X | Xb | Xb2 | Qkv | Attn | Gateup | Hmlp | Xg.

#[export] Instance buffer_eq_dec : EqDecision buffer.
Proof. solve_decision. Defined.

Section runtime.
Context {V : Type} `{!Inhabited V} (A : Arithmetic V).

Abbreviation row := (list V).

Record gpu := {
  ctx_ : StepContext;
  buf_ : buffer -> list row;
  kv_ : nat -> Z -> V;
}.

Definition set_ctx (g : gpu) (c : StepContext) : gpu := {| ctx_ := c; buf_ := buf_ g; kv_ := kv_ g |}.
Definition set_buf (g : gpu) (b : buffer) (rows : list row) : gpu :=
  {| ctx_ := ctx_ g; buf_ := fun b' => if decide (b = b') then rows else buf_ g b'; kv_ := kv_ g |}.
Definition set_layer (g : gpu) (l : nat) (m : Z -> V) : gpu :=
  {| ctx_ := ctx_ g; buf_ := buf_ g; kv_ := fun l' => if decide (l = l') then m else kv_ g l' |}.

(** A kernel that computes each of the first [M] rows of [out] from the same row of its
    input. *)
Definition row_wise {B} (M : Z) (f : B -> row) (inp : list B) (out : list row) : run (list row) :=
  if (M <=? len inp)%Z && (M <=? len out)%Z then Ret (overwrite out 0 (f <$> take (Z.to_nat M) inp)) else Panic.

(** An offset of a row, computed as an [int]; one that wraps points outside the buffer. *)
Definition fits_int (off : Z) : bool := (int32 off =? off)%Z.

(** The first [M] rows of a buffer; the last has the furthest offset. *)
Definition rows_fit (stride M : Z) : bool := (M <=? 0)%Z || fits_int ((M - 1) * stride).

(** Row [i] of a table of [n] rows. *)
Definition in_table (n stride i : Z) : bool := (0 <=? i)%Z && (i <? n)%Z && fits_int (i * stride).

Definition guard {B} (b : bool) (m : run B) : run B := if b then m else Panic.

(** The buffer of the projections, row after row. *)
Definition flat (rows : list row) : device_buffer :=
  let stride := (q_dim + 2 * kv_dim)%Z in
  {| size_ := len rows * stride;
     at_ := fun a => nth (Z.to_nat (a mod stride)) (nth (Z.to_nat (a / stride)) rows []) inhabitant |}.

Context (max_ctx num_blocks : Z).

(** The size of a layer of the store. *)
Definition layer_size : Z := (num_blocks * kKvPlanes * kKvBlock * kv_dim)%Z.

Definition exec (g : gpu) (k : launch) : run gpu :=
  let residual := zip (buf_ g X) (buf_ g Xb2) in
  match k with
  | Embed M =>
      guard (forallb (in_table kVocabSize kHiddenSize) (take (Z.to_nat M) (ids (ctx_ g))) && rows_fit kHiddenSize M)
        (let* r := row_wise M (embed A) (ids (ctx_ g)) (buf_ g X) in Ret (set_buf g X r))
  | Rmsnorm w M =>
      guard (rows_fit kHiddenSize M) (let* r := row_wise M (rmsnorm A w) (buf_ g X) (buf_ g Xb) in Ret (set_buf g Xb r))
  | AddRmsnorm w M =>
      guard (rows_fit kHiddenSize M)
        (let* rb := row_wise M (fun '(x, y) => add_rmsnorm A w x y) residual (buf_ g Xb) in
         let* r := row_wise M (fun '(x, y) => add_row A x y) residual (buf_ g X) in
         Ret (set_buf (set_buf g X r) Xb rb))
  | Gemm w M =>
      let '(inp, out) := match w with QkvProj _ => (Xb, Qkv) | OProj _ => (Attn, Xb2) | GateUp _ => (Xb, Gateup) | Down _ => (Hmlp, Xb2) end in
      let* r := row_wise M (gemm A M w) (buf_ g inp) (buf_ g out) in Ret (set_buf g out r)
  | HeadNormRope l M =>
      guard (forallb (in_table max_ctx (kHeadDim / 2)) (take (Z.to_nat M) (pos (ctx_ g))) && rows_fit (q_dim + 2 * kv_dim) M)
        (let* r := row_wise M (fun '(x, p) => head_norm_rope A l p x) (zip (buf_ g Qkv) (pos (ctx_ g))) (buf_ g Qkv) in
         Ret (set_buf g Qkv r))
  | StoreKv l M =>
      let* ws := StoreKV (flat (buf_ g Qkv)) (ctx_ g) M in
      if forallb (fun w => (0 <=? w.1)%Z && (w.1 <? layer_size)%Z) (concat ws) then
        Ret (set_layer g l (foldl write (kv_ g l) (concat ws)))
      else Panic
  | AttnDecode l n =>
      let* ws := LaunchAttnDecode (attend_decode A) (kv_ g l) (buf_ g Qkv) (ctx_ g) n in
      let* r := scatter (buf_ g Attn) ws in Ret (set_buf g Attn r)
  | AttnPrefill l R max_qlen =>
      let* ws := LaunchAttnPrefill (attend_prefill A) (kv_ g l) (buf_ g Qkv) (ctx_ g) R max_qlen in
      let* r := scatter (buf_ g Attn) ws in Ret (set_buf g Attn r)
  | SiluMul M =>
      guard (rows_fit (2 * kIntermediate) M)
        (let* r := row_wise M (silu_mul A) (buf_ g Gateup) (buf_ g Hmlp) in Ret (set_buf g Hmlp r))
  | Add M =>
      guard (fits_int (M * kHiddenSize))
        (let* r := row_wise M (fun '(x, y) => add_row A x y) residual (buf_ g X) in Ret (set_buf g X r))
  end.

Fixpoint exec_all (g : gpu) (ks : list launch) : run gpu :=
  match ks with
  | [] => Ret g
  | k :: ks => let* g := exec g k in exec_all g ks
  end.

(** The last rows, their logits and the sampled tokens. *)
Definition RunHeadAndSample (g : gpu) : run (gpu * list Z) :=
  let c := ctx_ g in
  let n := n_sample c in
  if (n =? 0)%Z then Ret (g, []) else
  guard (rows_fit kVocabSize n) (
  let* last_rows := collect (fun i =>
    let* r := zindex (lrows c) i in guard (fits_int (r * kHiddenSize)) (zindex (buf_ g X) r)) (seqZ 0 n) in
  let* xg := row_wise n (fun x => x) last_rows (buf_ g Xg) in
  let* xb := row_wise n (rmsnorm A FinalNorm) xg (buf_ g Xb) in
  let g := set_buf (set_buf g Xg xg) Xb xb in
  let* out := collect (fun i =>
    let* x := zindex xb i in
    let* it := zindex (dev (invT c)) i in
    let* tp := zindex (dev (topp c)) i in
    let* r := zindex (dev (u c)) i in
    Ret (SampleBatch (expf A) (lm_head A n x) it tp r)) (seqZ 0 n) in
  Ret (g, out)).

(** The rows, requests and positions up to which no offset wraps: of the rows the products
    of [SiluMulKernel] decide, of the requests those of the sampler, of the positions those of
    the rotation. *)
Definition kMaxRows : Z := 87382.
Definition kMaxSampled : Z := 14135.
Definition kMaxPositions : Z := (2 ^ 25)%Z.

(** The random numbers, and how many have been drawn. *)
Context (rng : nat -> float32).

Record Device_ := { gpu_ : gpu; layers_graph_ : GraphCache (list launch); drawn_ : nat }.

Definition Forward_ (d : Device_) (inp : ForwardInput) : run (Device_ * list Z) :=
  let n := length (logits_rows inp) in
  let* c := PrepareInputs (ctx_ (gpu_ d)) inp (rng <$> seq (drawn_ d) n) in
  let* (graphs, launches) := RunLayers (layers_graph_ d) c in
  let* g := exec_all (set_ctx (gpu_ d) c) launches in
  let* (g, out) := RunHeadAndSample g in
  Ret ({| gpu_ := g; layers_graph_ := graphs; drawn_ := drawn_ d + n |}, out).

End runtime.
Arguments gpu : clear implicits.
Arguments Device_ : clear implicits.
