(* ===== verification/ForwardOk.v ===== *)
(** * The forward pass keeps the paged contract

    The specification of a row - what the model computes for a token from the keys and
    values of the positions before it ([row_pass]) - and the proof that [ModelRuntime]
    implements it for all rows of a batch at once: [Forward_refines], and with it the
    instances of [Scheduler.Runtime] and [PagedRuntime.PagedRuntime] that the theorems of
    [SchedulerSpec], [Answers] and [Delivery] apply to. *)

From Stdlib Require Import Floats.SpecFloat.
From S2P Require Import Prelude GoStrings Chatml Client Generate BlockAllocator Sequence Scheduler PagedRuntime StepContext KvStore.
From S2P Require Import Attention GraphCache Sampler ModelRuntime.
Local Open Scope go_scope.

Section spec.
Context {V : Type} `{!Inhabited V} (A : Arithmetic V).

Abbreviation row := (list V).
Abbreviation entry := (list V * list V)%type.

(** ** One row *)

(** What may differ between passes: the number of rows, and whether the row's request
    decodes and how many do. *)
Record shape := { sh_rows : Z; sh_mode : option Z }.

(** The key ([pl = 0]) or value ([pl = 1]) in a row of the projections. *)
Definition kv_part (pl : Z) (r : row) : row := (fun i => nth (Z.to_nat (q_dim + pl * kv_dim + i)) r inhabitant) <$> seqZ 0 kv_dim.
Definition own_entry (r : row) : entry := (kv_part 0 r, kv_part 1 r).

(** The residual stream enters a layer as a row and what is still to be added to it. *)
Definition residual (l : nat) (st : row * row) : row * row :=
  let '(x, y) := st in
  if (l =? 0)%nat then (x, rmsnorm A (InNorm l) x) else (add_row A x y, add_rmsnorm A (InNorm l) x y).

Definition projected (sh : shape) (p : Z) (l : nat) (xb : row) : row := head_norm_rope A l p (gemm A (sh_rows sh) (QkvProj l) xb).

Definition layer_out (sh : shape) (l : nat) (x attn : row) : row * row :=
  let y := gemm A (sh_rows sh) (OProj l) attn in
  (add_row A x y, gemm A (sh_rows sh) (Down l) (silu_mul A (gemm A (sh_rows sh) (GateUp l) (add_rmsnorm A (PostNorm l) x y)))).

(** A layer, for the row at position [p], given the keys and values before it. *)
Definition row_layer (sh : shape) (p : Z) (hist : list entry) (l : nat) (st : row * row) : (row * row) * entry :=
  let '(x, xb) := residual l st in
  let q := projected sh p l xb in
  (layer_out sh l x (attended (attend_decode A) (attend_prefill A) (sh_mode sh) q (hist ++ [own_entry q])), own_entry q).

Fixpoint row_layers (sh : shape) (p : Z) (hist : nat -> list entry) (ls : list nat) (st : row * row) : (row * row) * list entry :=
  match ls with
  | [] => (st, [])
  | l :: ls =>
      let '(st, e) := row_layer sh p (hist l) l st in
      let '(st, es) := row_layers sh p hist ls st in (st, e :: es)
  end.

(** Layer [l] of positions whose keys and values are given for all layers. *)
Definition layer_of (kvs : list (list entry)) (l : nat) : list entry := (fun kv => nth l kv ([], [])) <$> kvs.

Definition row_pass (sh : shape) (kvs : list (list entry)) (t : Z) : (row * row) * list entry :=
  row_layers sh (len kvs) (layer_of kvs) (seq 0 kNumLayers) (embed A t, []).

(** ** The instances *)
Definition slot_of (g : gpu V) (b o : nat) : list entry := (fun l => cached (kv_ g l) (b, o)) <$> seq 0 kNumLayers.

Definition may_compute (kvs : list (list entry)) (t : Z) (kv : list entry) : Prop := exists sh, kv = (row_pass sh kvs t).2.

(** [kvs] includes the position of the last token [t]. *)
Definition may_pick (kvs : list (list entry)) (t : Z) (sp : SampleParams) (tok : Z) : Prop :=
  exists sh n r, let '((x, y), _) := row_pass sh (removelast kvs) t in
    tok = SampleBatch (expf A) (lm_head A n (rmsnorm A FinalNorm (add_row A x y))) (inverse_temp (temp sp)) (top_p sp) r.

Context (max_ctx : Z) (num_blocks : nat) (rng : nat -> float32) (rows slots blocks : nat).

(** The buffers have the sizes they are made with. *)
Definition buffers_ok (g : gpu V) : Prop := forall b, length (buf_ g b) = match b with Xg => slots | _ => rows end.

(** Every captured graph is the one of its shape. *)
Definition graphs_ok (c : GraphCache (list launch)) : Prop :=
  exists h, cache_ok (fun '(n_rows, n_decode) => RunLayersBody n_rows n_decode 0 1) h c.

Record runs (d : Device_ V) : Prop := {
  run_sized : sized (ctx_ (gpu_ d)) rows slots blocks;
  run_buffers : buffers_ok (gpu_ d);
  run_graphs : graphs_ok (layers_graph_ d);
  run_tables : (Z.of_nat (slots * blocks) < 2 ^ 31)%Z;
}.

Definition gpu_forward (d : Device_ V) (inp : ForwardInput) : Device_ V * list Z :=
  match Forward_ A max_ctx (Z.of_nat num_blocks) rng d inp with
  | Ret x => x
  | _ => (d, replicate (length (logits_rows inp)) 0%Z)
  end.

Definition gpu_runtime : Runtime := {| Device := Device_ V; Forward := gpu_forward |}.

Definition gpu_paged : PagedRuntime gpu_runtime :=
  {| KV := list entry; slot := fun d : @Device gpu_runtime => slot_of (gpu_ d); computes := may_compute; picks := may_pick;
     device_ok := runs; max_rows := Z.min (Z.of_nat rows) kMaxRows; max_requests := Z.min (Z.of_nat slots) kMaxSampled;
     max_table := Z.of_nat blocks; max_position := Z.min max_ctx kMaxPositions; max_block := Z.of_nat num_blocks; max_token := kVocabSize |}.

End spec.

Lemma zip_length {B C} (b1 : list B) (b2 : list C) n : (n <= length b1)%nat -> (n <= length b2)%nat -> (n <= length (zip b1 b2))%nat.
Proof. intros H1 H2. rewrite length_zip_with. lia. Qed.

(** The results of a loop, each with what is known of it. *)
Lemma collect_each {B} (f : Z -> run B) (P : nat -> B -> Prop) n :
  (forall i, (i < n)%nat -> exists y, f (Z.of_nat i) = Ret y /\ P i y) ->
  exists ys, collect f (seqZ 0 (Z.of_nat n)) = Ret ys /\ length ys = n /\ forall i y, ys !! i = Some y -> P i y.
Proof.
  intros H. assert (forall m k, (m + k = n)%nat -> exists ys, collect f (seqZ (Z.of_nat m) (Z.of_nat k)) = Ret ys /\ length ys = k /\
    forall i y, ys !! i = Some y -> P (m + i)%nat y) as Hg; [|by apply (Hg 0%nat n)].
  intros m k. revert m. induction k as [|k IH]; intros m Hm; [by exists []|]. rewrite seqZ_cons by lia. cbn [collect].
  destruct (H m ltac:(lia)) as (y & -> & Hy). cbn [run_bind]. replace (Z.succ (Z.of_nat m)) with (Z.of_nat (S m)) by lia.
  replace (Z.pred (Z.of_nat (S k))) with (Z.of_nat k) by lia. destruct (IH (S m) ltac:(lia)) as (ys & -> & Hl & Hys). cbn [run_bind].
  exists (y :: ys). split; [done|]. split; [by cbn; rewrite Hl|]. intros [|i] z Hz; [injection Hz as <-; by rewrite Nat.add_0_r|].
  rewrite Nat.add_succ_r. by apply Hys.
Qed.

(** The chunks that are sampled after. *)
Definition sampled_chunks (chs : list chunk) : list chunk := filter (fun c => is_Some (ck_sample c)) chs.

Lemma sampled_at chs : forall start i c, sampled_chunks chs !! i = Some c ->
  exists r, chs !! r = Some c /\ sampled_rows start chs !! i = Some (start + Z.of_nat (first_row chs r) + len (ck_tokens c) - 1)%Z /\
    omap ck_sample chs !! i = ck_sample c.
Proof.
  unfold sampled_chunks. induction chs as [|c0 chs IH]; intros start i c H; [done|]. rewrite filter_cons in H. cbn [sampled_rows omap list_omap].
  assert (Hfirst : forall r, first_row (c0 :: chs) (S r) = (length (ck_tokens c0) + first_row chs r)%nat).
  { intros r. unfold first_row. cbn [fmap list_fmap firstn concat]. by rewrite length_app. }
  destruct (ck_sample c0) as [sp|] eqn:Es; cbn [app].
  - rewrite decide_True in H by done. destruct i as [|i].
    + injection H as <-. exists 0%nat. split; [done|]. rewrite Es. split; [|done]. cbn. f_equal. lia.
    + destruct (IH (start + len (ck_tokens c0))%Z i c H) as (r & Hr & Hs & Ho). exists (S r). split; [done|]. split; [|done].
      etrans; [exact Hs|]. rewrite Hfirst. f_equal. unfold len. lia.
  - rewrite decide_False in H by (by intros [? ?]). destruct (IH (start + len (ck_tokens c0))%Z i c H) as (r & Hr & Hs & Ho). exists (S r).
    split; [done|]. split; [|done]. rewrite Hs, Hfirst. f_equal. unfold len. lia.
Qed.

Lemma sampled_count chs : length (sampled_chunks chs) = length (omap ck_sample chs).
Proof.
  unfold sampled_chunks. induction chs as [|c chs IH]; [done|]. rewrite filter_cons. cbn [omap list_omap].
  destruct (ck_sample c); [rewrite decide_True by done; cbn; by rewrite IH|rewrite decide_False by (by intros [? ?]); exact IH].
Qed.

Lemma fits_int_small z : (- 2 ^ 31 <= z < 2 ^ 31)%Z -> fits_int z = true.
Proof. intros H. unfold fits_int. rewrite int32_id by done. apply Z.eqb_refl. Qed.

Lemma guard_inv {B} b (m : run B) x : guard b m = Ret x -> b = true /\ m = Ret x.
Proof. by destruct b. Qed.

(** ** All rows of a batch *)
Section batch.
Context {V : Type} `{!Inhabited V} (A : Arithmetic V).
Context (Hmasked : masked_ignored (attend_prefill A)).
Context (max_ctx : Z) (num_blocks rows slots blocks : nat).
Context (c0 : StepContext) (chs : list chunk) (draws : list float32).
Context (Hsized : sized c0 rows slots blocks) (Hdesc : describes c0 chs blocks draws).
Context (Hrows : (length (in_tokens (input_of chs)) <= rows)%nat) (Happart : apart_chunks chs).
Context (Htable : forall c, c ∈ chs -> (ck_end c <= block_size * length (ck_table c))%nat).
Context (Hctx : forall c, c ∈ chs -> (Z.of_nat (ck_end c) <= max_ctx)%Z).
Context (Hpool : forall c, c ∈ chs -> Forall (fun b => b < num_blocks)%nat (ck_table c)).

Abbreviation row := (list V).
Abbreviation exec := (exec A max_ctx (Z.of_nat num_blocks)).
Abbreviation exec_all := (exec_all A max_ctx (Z.of_nat num_blocks)).

(** A value for each token of each chunk. *)
Abbreviation rowwise B := (chunk -> nat -> Z -> B).

Definition rows_are {B} (buf : list B) (f : rowwise B) : Prop :=
  forall r c k t, chs !! r = Some c -> ck_tokens c !! k = Some t -> buf !! (first_row chs r + k)%nat = Some (f c k t).

Definition n_tokens : nat := length (in_tokens (input_of chs)).

Lemma row_bound r c k t : chs !! r = Some c -> ck_tokens c !! k = Some t -> (first_row chs r + k < n_tokens)%nat.
Proof using Type. intros Hr Hk. by eapply lookup_lt_Some, (input_row chs r c k t). Qed.

Lemma row_wise_ok {B} (h : B -> row) inp out f : rows_are inp f -> (n_tokens <= length inp)%nat -> (n_tokens <= length out)%nat ->
  exists out', row_wise (n_rows c0) h inp out = Ret out' /\ length out' = length out /\ rows_are out' (fun c k t => h (f c k t)).
Proof using Hdesc.
  clear Hsized Hrows Happart Htable Hctx Hpool Hmasked. intros Hf Hi Ho. unfold row_wise. rewrite (ds_rows _ _ _ _ Hdesc).
  change (len (in_tokens (input_of chs))) with (Z.of_nat n_tokens). unfold len. rewrite !(proj2 (Z.leb_le _ _)) by lia. cbn [andb]. rewrite Nat2Z.id.
  assert (Hl : length (h <$> take n_tokens inp) = n_tokens) by (rewrite length_fmap, length_take; lia).
  eexists. split; [done|]. split; [apply overwrite_length; lia|]. intros r c k t Hr Hk. pose proof (row_bound r c k t Hr Hk) as Hlt.
  rewrite <- (Nat.add_0_l (first_row chs r + k)%nat). apply overwrite_holds; [lia|].
  rewrite list_lookup_fmap, lookup_take_lt by done. by rewrite (Hf r c k t Hr Hk).
Qed.

Lemma rows_zip {B C} (b1 : list B) (b2 : list C) f1 f2 : rows_are b1 f1 -> rows_are b2 f2 -> rows_are (zip b1 b2) (fun c k t => (f1 c k t, f2 c k t)).
Proof using Type.
  intros H1 H2 r c k t Hr Hk. rewrite lookup_zip_with. by rewrite (H1 r c k t Hr Hk), (H2 r c k t Hr Hk).
Qed.

Lemma rows_are_ext {B} (b : list B) f f' : rows_are b f -> (forall c k t, f c k t = f' c k t) -> rows_are b f'.
Proof using Type. intros H E r c k t Hr Hk. rewrite <- E. by apply (H r). Qed.

(** What is the same before and after a launch. *)
Record good (g : gpu V) : Prop := {
  good_ctx : ctx_ g = c0;
  good_buffers : buffers_ok rows slots g;
}.

Lemma good_length g b : good g -> b <> Xg -> (n_tokens <= length (buf_ g b))%nat.
Proof using Hrows. clear Hsized Hdesc Happart Htable Hctx Hpool Hmasked. intros [_ Hb] Hne. rewrite Hb. destruct b; done. Qed.

Lemma good_set g b r : good g -> length r = length (buf_ g b) -> good (set_buf g b r).
Proof using Type.
  intros [H1 H2] Hl. split; [done|]. intros b'. cbn [set_buf buf_]. case_decide as E; [subst b'; by rewrite Hl, H2|apply H2].
Qed.

Lemma exec_all_app g ks ks' : exec_all g (ks ++ ks') = let* g := exec_all g ks in exec_all g ks'.
Proof using Type. revert g. induction ks as [|k ks IH]; intros g; [done|]. cbn [app ModelRuntime.exec_all]. destruct (exec g k); [apply IH|done..]. Qed.

(** A launch that computes a buffer row by row. *)
Lemma exec_row_wise {B} g k (h : B -> row) inp out f :
  exec g k = (let* r := row_wise (n_rows c0) h inp (buf_ g out) in Ret (set_buf g out r)) ->
  good g -> out <> Xg -> (n_tokens <= length inp)%nat -> rows_are inp f ->
  exists r, exec g k = Ret (set_buf g out r) /\ good (set_buf g out r) /\ rows_are r (fun c k t => h (f c k t)).
Proof using Hdesc Hrows.
  intros E Hg Hout Hi Hf. destruct (row_wise_ok h inp (buf_ g out) f Hf Hi (good_length g out Hg Hout)) as (r & Er & Hl & Hr).
  exists r. rewrite E, Er. split; [done|]. split; [by apply good_set|done].
Qed.

Context (Htokens : forall c, c ∈ chs -> Forall (fun t => 0 <= t < kVocabSize)%Z (ck_tokens c)).
Context (Hfew : (Z.of_nat (length (in_tokens (input_of chs))) <= kMaxRows)%Z) (Hreqs : (Z.of_nat (length chs) <= kMaxSampled)%Z).
Context (Hends : forall c, c ∈ chs -> (Z.of_nat (ck_end c) <= kMaxPositions)%Z) (Hwide : (Z.of_nat (slots * blocks) < 2 ^ 31)%Z).

(** No offset of a row wraps. *)
Lemma rows_fit_all stride : (0 <= stride <= 2 * kIntermediate)%Z -> rows_fit stride (n_rows c0) = true.
Proof using Hdesc Hfew.
  clear -Hdesc Hfew. intros Hs. unfold rows_fit. rewrite (ds_rows _ _ _ _ Hdesc). unfold len. destruct (Z.leb_spec (Z.of_nat (length (in_tokens (input_of chs)))) 0); [done|].
  apply fits_int_small. unfold kMaxRows, kIntermediate in *. nia.
Qed.

(** *** Up to the projections *)
Definition shape_of (c : chunk) : shape := {| sh_rows := n_rows c0; sh_mode := mode_of c0 c |}.

Lemma AddRmsnorm_ok g w (x y : rowwise row) : good g -> rows_are (buf_ g X) x -> rows_are (buf_ g Xb2) y ->
  exists g', exec g (AddRmsnorm w (n_rows c0)) = Ret g' /\ good g' /\ kv_ g' = kv_ g /\
    rows_are (buf_ g' X) (fun c k t => add_row A (x c k t) (y c k t)) /\
    rows_are (buf_ g' Xb) (fun c k t => add_rmsnorm A w (x c k t) (y c k t)).
Proof using Hdesc Hrows Hfew.
  intros Hg Hx Hy. pose proof (rows_zip _ _ _ _ Hx Hy) as Hz.
  assert (Hlz : (n_tokens <= length (zip (buf_ g X) (buf_ g Xb2)))%nat) by (apply zip_length; by apply good_length).
  destruct (row_wise_ok (fun '(x, y) => add_rmsnorm A w x y) _ (buf_ g Xb) _ Hz Hlz (good_length g Xb Hg ltac:(done))) as (rb & Eb & Lb & Rb).
  destruct (row_wise_ok (fun '(x, y) => add_row A x y) _ (buf_ g X) _ Hz Hlz (good_length g X Hg ltac:(done))) as (r & E & Lr & R).
  cbn [ModelRuntime.exec]. rewrite rows_fit_all by done. cbn [guard]. rewrite Eb. cbn [run_bind]. rewrite E. cbn [run_bind]. eexists. split; [done|].
  split; [apply good_set; [by apply good_set|done]|]. split; [done|]. split; [exact R|exact Rb].
Qed.

Lemma residual_ok g l (st : rowwise (row * row)) : good g -> rows_are (buf_ g X) (fun c k t => (st c k t).1) ->
  (l <> 0%nat -> rows_are (buf_ g Xb2) (fun c k t => (st c k t).2)) ->
  exists g', exec g (if (l =? 0)%nat then Rmsnorm (InNorm l) (n_rows c0) else AddRmsnorm (InNorm l) (n_rows c0)) = Ret g' /\ good g' /\
    kv_ g' = kv_ g /\ rows_are (buf_ g' X) (fun c k t => (residual A l (st c k t)).1) /\
    rows_are (buf_ g' Xb) (fun c k t => (residual A l (st c k t)).2).
Proof using Hdesc Hrows Hfew.
  intros Hg Hx Hy. unfold residual. destruct (Nat.eqb_spec l 0) as [-> |Hl].
  - destruct (exec_row_wise g (Rmsnorm (InNorm 0) (n_rows c0)) (rmsnorm A (InNorm 0)) (buf_ g X) Xb _ ltac:(cbn [ModelRuntime.exec]; by rewrite rows_fit_all) Hg ltac:(done)
      (good_length g X Hg ltac:(done)) Hx) as (r & E & G & R).
    eexists. split; [exact E|]. split; [exact G|]. split; [done|].
    split; eapply rows_are_ext; [exact Hx| |exact R|]; intros c k t; cbn beta; by destruct (st c k t).
  - destruct (AddRmsnorm_ok g (InNorm l) _ _ Hg Hx (Hy Hl)) as (g' & E & G & K & R1 & R2).
    exists g'. split; [exact E|]. split; [exact G|]. split; [exact K|].
    split; eapply rows_are_ext; [exact R1| |exact R2|]; intros c k t; cbn beta; by destruct (st c k t).
Qed.

Lemma row_of m : (m < n_tokens)%nat -> exists r c k t, chs !! r = Some c /\ ck_tokens c !! k = Some t /\ m = (first_row chs r + k)%nat.
Proof using Type.
  intros Hm. destruct (lookup_lt_is_Some_2 (row_addrs chs) m) as [a Ha]; [by rewrite row_addrs_length|].
  destruct (row_chunk _ _ _ Ha) as (r & c & k & t & Hr & Hk & -> & _). by exists r, c, k, t.
Qed.

Lemma position_of r c k t : chs !! r = Some c -> ck_tokens c !! k = Some t ->
  pos c0 !! (first_row chs r + k)%nat = Some (Z.of_nat (ck_start c + k)) /\ (Z.of_nat (ck_start c + k) < max_ctx)%Z.
Proof using Hdesc Hctx Hrows Hwide.
  intros Hr Hk. split; [apply (ds_row _ _ _ _ Hdesc r c k t Hr Hk)|].
  pose proof (Hctx c (list_elem_of_lookup_2 _ _ _ Hr)). apply lookup_lt_Some in Hk. unfold ck_end in *. lia.
Qed.

Lemma rope_in_table : forallb (in_table max_ctx (kHeadDim / 2)) (take (Z.to_nat (n_rows c0)) (pos c0)) = true.
Proof using Hdesc Hctx Hrows Hends Hwide.
  apply forallb_forall. intros p Hp. apply list_elem_of_In, list_elem_of_lookup in Hp as [m Hm]. apply lookup_take_Some in Hm as [Hm Hlt].
  rewrite (ds_rows _ _ _ _ Hdesc) in Hlt. unfold len in Hlt. rewrite Nat2Z.id in Hlt.
  destruct (row_of m Hlt) as (r & c & k & t & Hr & Hk & ->). destruct (position_of r c k t Hr Hk) as [Hp Hb]. rewrite Hm in Hp. injection Hp as ->.
  pose proof (Hends c (list_elem_of_lookup_2 _ _ _ Hr)) as He. apply lookup_lt_Some in Hk. unfold ck_end, kMaxPositions in *.
  unfold in_table. rewrite (proj2 (Z.leb_le _ _)), (proj2 (Z.ltb_lt _ _)) by lia. apply fits_int_small. change (kHeadDim / 2)%Z with 64%Z. lia.
Qed.

Lemma embed_in_table : forallb (in_table kVocabSize kHiddenSize) (take (Z.to_nat (n_rows c0)) (ids c0)) = true.
Proof using Hdesc Htokens Hrows Hwide.
  apply forallb_forall. intros t Hp. apply list_elem_of_In, list_elem_of_lookup in Hp as [m Hm]. apply lookup_take_Some in Hm as [Hm Hlt].
  rewrite (ds_rows _ _ _ _ Hdesc) in Hlt. unfold len in Hlt. rewrite Nat2Z.id in Hlt.
  destruct (row_of m Hlt) as (r & c & k & t' & Hr & Hk & ->). rewrite (proj1 (ds_row _ _ _ _ Hdesc r c k t' Hr Hk)) in Hm. injection Hm as <-.
  pose proof (Forall_lookup_1 _ _ _ _ (Htokens c (list_elem_of_lookup_2 _ _ _ Hr)) Hk) as Ht. cbn beta in Ht. unfold kVocabSize in Ht.
  unfold in_table, kVocabSize. rewrite (proj2 (Z.leb_le _ _)), (proj2 (Z.ltb_lt _ _)) by lia. apply fits_int_small. unfold kHiddenSize. lia.
Qed.

Lemma projections_ok g l (xb : rowwise row) : good g -> rows_are (buf_ g Xb) xb ->
  exists g', exec_all g [Gemm (QkvProj l) (n_rows c0); HeadNormRope l (n_rows c0)] = Ret g' /\ good g' /\ kv_ g' = kv_ g /\
    buf_ g' X = buf_ g X /\ rows_are (buf_ g' Qkv) (fun c k t => projected A (shape_of c) (Z.of_nat (ck_start c + k)) l (xb c k t)).
Proof using Hdesc Hrows Hsized Hctx Hwide Hfew Hends.
  intros Hg Hx. cbn [ModelRuntime.exec_all].
  destruct (exec_row_wise g (Gemm (QkvProj l) (n_rows c0)) (gemm A (n_rows c0) (QkvProj l)) (buf_ g Xb) Qkv _ eq_refl Hg ltac:(done)
    (good_length g Xb Hg ltac:(done)) Hx) as (r & -> & G & R). cbn [run_bind]. set (g1 := set_buf g Qkv r) in *.
  assert (Hpos : rows_are (pos c0) (fun c k _ => Z.of_nat (ck_start c + k))).
  { intros r' c k t Hr Hk. by apply (position_of r' c k t). }
  assert (Hz : (n_tokens <= length (zip (buf_ g1 Qkv) (pos c0)))%nat).
  { apply zip_length; [by apply good_length|]. rewrite (sz_pos _ _ _ _ Hsized). done. }
  destruct (exec_row_wise g1 (HeadNormRope l (n_rows c0)) (fun '(x, p) => head_norm_rope A l p x) (zip (buf_ g1 Qkv) (pos c0)) Qkv
    (fun c k t => (gemm A (n_rows c0) (QkvProj l) (xb c k t), Z.of_nat (ck_start c + k)))) as (r' & -> & G' & R'); [|done..| |].
  - cbn [ModelRuntime.exec]. rewrite (good_ctx _ G), rope_in_table, rows_fit_all by done. done.
  - by apply (rows_zip (buf_ g1 Qkv) (pos c0)).
  - eexists. split; [done|]. split; [done|]. split; [done|]. split; [done|]. exact R'.
Qed.

(** *** Storing and attending *)
Lemma flat_row (b : list row) (m : nat) (r : row) pl i : b !! m = Some r -> (0 <= pl < 2)%Z -> (0 <= i < kv_dim)%Z ->
  row_value (flat b) (Z.of_nat m) pl i = nth (Z.to_nat (q_dim + pl * kv_dim + i)) r inhabitant.
Proof using Type.
  clear. intros Hb Hpl Hi. unfold row_value, flat. cbn [at_]. set (stride := (q_dim + 2 * kv_dim)%Z). set (j := (q_dim + pl * kv_dim + i)%Z).
  assert (0 <= j < stride)%Z as Hj by (unfold j, stride, q_dim, kv_dim, kNumHeads, kNumKvHeads, kHeadDim in *; lia).
  replace (Z.of_nat m * stride + (q_dim + pl * kv_dim) + i)%Z with (Z.of_nat m * stride + j)%Z by (unfold j; lia).
  rewrite Z.div_add_l, (Z.div_small j), Z.add_0_r, Nat2Z.id by lia. rewrite Z.add_comm, Z.mod_add, Z.mod_small by lia.
  by rewrite (nth_lookup_Some _ _ _ _ Hb).
Qed.

Lemma cached_ext (m : Z -> V) a (f : Z -> row) :
  (forall pl i, (0 <= pl < 2)%Z -> (0 <= i < kv_dim)%Z -> m (kv_address a pl i) = nth (Z.to_nat i) (f pl) inhabitant) ->
  (forall pl, (0 <= pl < 2)%Z -> length (f pl) = Z.to_nat kv_dim) -> cached m a = (f 0%Z, f 1%Z).
Proof using Type.
  clear. intros Hm Hl. assert (forall pl, (0 <= pl < 2)%Z -> segment m (kv_address a pl 0) kv_dim = f pl) as H.
  { intros pl Hpl. apply list_eq_same_length with (Z.to_nat kv_dim); [by apply Hl|by rewrite segment_length|].
    intros i x y Hi Hx Hy. rewrite segment_lookup in Hx by lia. injection Hx as <-.
    replace (kv_address a pl 0 + Z.of_nat i)%Z with (kv_address a pl (Z.of_nat i)) by (unfold kv_address; lia).
    rewrite Hm, Nat2Z.id by lia. by apply nth_lookup_Some. }
  unfold cached. rewrite !H by lia. done.
Qed.

Lemma kv_part_nth pl i (r : row) : (0 <= i < kv_dim)%Z -> nth (Z.to_nat i) (kv_part pl r) inhabitant = nth (Z.to_nat (q_dim + pl * kv_dim + i)) r inhabitant.
Proof using Type.
  clear. intros Hi. apply nth_lookup_Some. unfold kv_part. rewrite list_lookup_fmap, lookup_seqZ_lt by lia. cbn. f_equal. f_equal. lia.
Qed.

Lemma store_ok g l (q : rowwise row) : good g -> rows_are (buf_ g Qkv) q ->
  exists m, exec g (StoreKv l (n_rows c0)) = Ret (set_layer g l m) /\
    (forall r c k t, chs !! r = Some c -> ck_tokens c !! k = Some t -> cached m (addr (ck_table c) (ck_start c + k)) = own_entry (q c k t)) /\
    (forall b o, (o < block_size)%nat -> (forall c p, c ∈ chs -> written c p -> addr (ck_table c) p <> (b, o)) ->
       cached m (b, o) = cached (kv_ g l) (b, o)).
Proof using Hsized Hdesc Happart Htable Hpool Hrows Hwide Hfew.
  intros Hg Hq. destruct (StoreKV_ok (flat (buf_ g Qkv)) c0 chs rows slots blocks draws num_blocks Hsized Hdesc Happart Htable Hpool Hwide)
    as (ws & E & _ & Hrange & Hw).
  { rewrite (ds_rows _ _ _ _ Hdesc). unfold len, kMaxStoreRows, kMaxRows in *. lia. }
  { cbn [flat size_]. rewrite (ds_rows _ _ _ _ Hdesc). pose proof (good_length g Qkv Hg ltac:(done)). unfold n_tokens in *.
    unfold len, q_dim, kv_dim, kNumHeads, kNumKvHeads, kHeadDim. lia. }
  destruct (Hw (kv_ g l) (concat ws) (reflexivity _)) as [H1 H2]. clear Hw.
  exists (foldl write (kv_ g l) (concat ws)). split; [|split].
  - cbn [ModelRuntime.exec]. rewrite (good_ctx _ Hg), E. cbn [run_bind].
    assert (forallb (fun w => (0 <=? w.1)%Z && (w.1 <? layer_size (Z.of_nat num_blocks))%Z) (concat ws) = true) as ->; [|done].
    apply forallb_forall. intros w Hin. apply list_elem_of_In, Hrange in Hin. unfold layer_size. apply andb_true_iff.
    split; [apply Z.leb_le|apply Z.ltb_lt]; apply Hin.
  - intros r c k t Hr Hk. apply (cached_ext _ _ (fun pl => kv_part pl (q c k t))).
    + intros pl i Hpl Hi. rewrite (H1 r c k t pl i Hr Hk Hpl Hi), (flat_row _ _ (q c k t)); [|by apply (Hq r c k t)|done|done].
      by rewrite kv_part_nth.
    + intros pl _. unfold kv_part. by rewrite length_fmap, length_seqZ.
  - intros b o Ho Hno. apply (cached_ext _ _ (fun pl => segment (kv_ g l) (kv_address (b, o) pl 0) kv_dim)).
    + intros pl i Hpl Hi. rewrite (H2 b o pl i Ho Hpl Hi Hno). symmetry. apply nth_lookup_Some. rewrite segment_lookup by lia.
      f_equal. f_equal. unfold kv_address. lia.
    + intros pl _. apply segment_length.
Qed.

Lemma attention_steps g l (q : rowwise row) : good g -> rows_are (buf_ g Qkv) q ->
  exists g', exec_all g ((if (n_decode c0 <=? 0)%Z then [] else [AttnDecode l (n_decode c0)]) ++
      (if (n_prefill c0 <=? 0)%Z then [] else [AttnPrefill l (n_prefill c0) (prefill_max_qlen c0)])) = Ret g' /\
    good g' /\ kv_ g' = kv_ g /\ buf_ g' X = buf_ g X /\
    rows_are (buf_ g' Attn) (fun c k t => attended (attend_decode A) (attend_prefill A) (mode_of c0 c) (q c k t) (upto (kv_ g l) c (ck_start c + k))).
Proof using Hsized Hdesc Hrows Htable Hmasked Hwide.
  intros Hg Hq. destruct (attention_ok (attend_decode A) (attend_prefill A) c0 chs rows slots blocks draws Hsized Hdesc Htable Hwide (kv_ g l) (buf_ g Qkv)
    (good_length g Qkv Hg ltac:(done)) Hmasked (buf_ g Attn) (good_length g Attn Hg ltac:(done))) as (attn' & E & Hl & H).
  assert (exists g', exec_all g ((if (n_decode c0 <=? 0)%Z then [] else [AttnDecode l (n_decode c0)]) ++
      (if (n_prefill c0 <=? 0)%Z then [] else [AttnPrefill l (n_prefill c0) (prefill_max_qlen c0)])) = Ret g' /\
      ctx_ g' = c0 /\ kv_ g' = kv_ g /\ buf_ g' Attn = attn' /\ forall b, b <> Attn -> buf_ g' b = buf_ g b) as (g' & E' & K1 & K2 & K3 & K4).
  { unfold attention in E. pose proof (good_ctx _ Hg) as Hc. destruct (Z.leb_spec (n_decode c0) 0) as [Hd|Hd].
    - unfold LaunchAttnDecode in E. rewrite (proj2 (Z.leb_le _ _) Hd) in E. cbn [run_bind scatter app] in E |- *.
      destruct (Z.leb_spec (n_prefill c0) 0) as [Hp|Hp].
      + unfold LaunchAttnPrefill in E. rewrite (proj2 (Z.leb_le _ _) Hp) in E. cbn in E. injection E as <-. by exists g.
      + cbn [ModelRuntime.exec_all ModelRuntime.exec]. rewrite Hc. apply bind_inv in E as (ps & -> & Es). cbn [run_bind]. rewrite Es. cbn [run_bind].
        eexists. split; [done|]. split; [done|]. split; [done|]. split; [done|]. intros b Hb. cbn [set_buf buf_]. by rewrite decide_False.
    - apply bind_inv in E as (ds & Ed & E). apply bind_inv in E as (a1 & E1 & E).
      cbn [app ModelRuntime.exec_all ModelRuntime.exec]. rewrite Hc, Ed. cbn [run_bind]. rewrite E1. cbn [run_bind].
      destruct (Z.leb_spec (n_prefill c0) 0) as [Hp|Hp].
      + unfold LaunchAttnPrefill in E. rewrite (proj2 (Z.leb_le _ _) Hp) in E. cbn in E. injection E as <-.
        eexists. split; [done|]. split; [done|]. split; [done|]. split; [done|]. intros b Hb. cbn [set_buf buf_]. by rewrite decide_False.
      + apply bind_inv in E as (ps & Ep & E). cbn [ModelRuntime.exec_all ModelRuntime.exec set_buf ctx_ kv_ buf_]. rewrite Hc.
        rewrite decide_False, decide_True by done. rewrite Ep. cbn [run_bind]. rewrite E. cbn [run_bind].
        eexists. split; [done|]. split; [done|]. split; [done|]. split; [done|]. intros b Hb. cbn [set_buf buf_]. by rewrite !decide_False. }
  exists g'. split; [exact E'|]. split; [|split; [done|split; [by apply K4|]]].
  - split; [done|]. intros b. destruct (decide (b = Attn)) as [-> |Hb]; [by rewrite K3, Hl, (good_buffers _ Hg)|]. rewrite K4 by done. apply (good_buffers _ Hg).
  - intros r c k t Hr Hk. rewrite K3, (H r c k t Hr Hk), (Hq r c k t Hr Hk). done.
Qed.

(** *** A layer *)
Lemma outputs_ok g l (x attn : rowwise row) : good g -> rows_are (buf_ g X) x -> rows_are (buf_ g Attn) attn ->
  exists g', exec_all g [Gemm (OProj l) (n_rows c0); AddRmsnorm (PostNorm l) (n_rows c0); Gemm (GateUp l) (n_rows c0);
      SiluMul (n_rows c0); Gemm (Down l) (n_rows c0)] = Ret g' /\ good g' /\ kv_ g' = kv_ g /\
    rows_are (buf_ g' X) (fun c k t => (layer_out A (shape_of c) l (x c k t) (attn c k t)).1) /\
    rows_are (buf_ g' Xb2) (fun c k t => (layer_out A (shape_of c) l (x c k t) (attn c k t)).2).
Proof using Hdesc Hrows Hfew.
  intros Hg Hx Ha. cbn [ModelRuntime.exec_all].
  destruct (exec_row_wise g (Gemm (OProj l) (n_rows c0)) (gemm A (n_rows c0) (OProj l)) (buf_ g Attn) Xb2 _ eq_refl Hg ltac:(done)
    (good_length g Attn Hg ltac:(done)) Ha) as (r1 & -> & G1 & R1). cbn [run_bind]. set (g1 := set_buf g Xb2 r1) in *.
  destruct (AddRmsnorm_ok g1 (PostNorm l) x _ G1 Hx R1) as (g2 & -> & G2 & K2 & X2 & B2). cbn [run_bind].
  destruct (exec_row_wise g2 (Gemm (GateUp l) (n_rows c0)) (gemm A (n_rows c0) (GateUp l)) (buf_ g2 Xb) Gateup _ eq_refl G2 ltac:(done)
    (good_length g2 Xb G2 ltac:(done)) B2) as (r3 & -> & G3 & R3). cbn [run_bind]. set (g3 := set_buf g2 Gateup r3) in *.
  destruct (exec_row_wise g3 (SiluMul (n_rows c0)) (silu_mul A) (buf_ g3 Gateup) Hmlp _ ltac:(cbn [ModelRuntime.exec]; by rewrite rows_fit_all) G3 ltac:(done)
    (good_length g3 Gateup G3 ltac:(done)) R3) as (r4 & -> & G4 & R4). cbn [run_bind]. set (g4 := set_buf g3 Hmlp r4) in *.
  destruct (exec_row_wise g4 (Gemm (Down l) (n_rows c0)) (gemm A (n_rows c0) (Down l)) (buf_ g4 Hmlp) Xb2 _ eq_refl G4 ltac:(done)
    (good_length g4 Hmlp G4 ltac:(done)) R4) as (r5 & -> & G5 & R5). cbn [run_bind].
  eexists. split; [done|]. split; [exact G5|]. split; [exact K2|]. split; [exact X2|exact R5].
Qed.

(** The keys and values before a position. *)
Definition before (m : Z -> V) (c : chunk) (p : nat) : list (list V * list V) := (fun q => cached m (addr (ck_table c) q)) <$> seq 0 p.

Lemma upto_before m c p : upto m c p = before m c p ++ [cached m (addr (ck_table c) p)].
Proof using Type. unfold upto, before. by rewrite seq_S, fmap_app. Qed.

Definition layer_row (m : Z -> V) (l : nat) (st : rowwise (row * row)) : rowwise ((row * row) * (list V * list V)) :=
  fun c k t => row_layer A (shape_of c) (Z.of_nat (ck_start c + k)) (before m c (ck_start c + k)) l (st c k t).

Lemma layer_ok g l (st : rowwise (row * row)) : good g -> rows_are (buf_ g X) (fun c k t => (st c k t).1) ->
  (l <> 0%nat -> rows_are (buf_ g Xb2) (fun c k t => (st c k t).2)) ->
  exists g', exec_all g (layer_launches (n_rows c0) (n_decode c0) (n_prefill c0) (prefill_max_qlen c0) l) = Ret g' /\ good g' /\
    (forall l', l' <> l -> kv_ g' l' = kv_ g l') /\
    (forall b o, (o < block_size)%nat -> (forall c p, c ∈ chs -> written c p -> addr (ck_table c) p <> (b, o)) ->
       cached (kv_ g' l) (b, o) = cached (kv_ g l) (b, o)) /\
    (forall r c k t, chs !! r = Some c -> ck_tokens c !! k = Some t ->
       cached (kv_ g' l) (addr (ck_table c) (ck_start c + k)) = (layer_row (kv_ g' l) l st c k t).2) /\
    rows_are (buf_ g' X) (fun c k t => (layer_row (kv_ g' l) l st c k t).1.1) /\
    rows_are (buf_ g' Xb2) (fun c k t => (layer_row (kv_ g' l) l st c k t).1.2).
Proof using Hsized Hdesc Hrows Happart Htable Hctx Hpool Hmasked Hwide Hfew Hends.
  intros Hg Hx Hy. destruct (residual_ok g l st Hg Hx Hy) as (g1 & E1 & G1 & K1 & X1 & B1).
  destruct (projections_ok g1 l _ G1 B1) as (g2 & E2 & G2 & K2 & X2 & Q2).
  destruct (store_ok g2 l _ G2 Q2) as (m & E3 & S3 & S3'). set (g3 := set_layer g2 l m) in *.
  assert (Hm : kv_ g3 l = m) by (cbn [g3 set_layer kv_]; by rewrite decide_True).
  assert (G3 : good g3) by by destruct G2; split.
  destruct (attention_steps g3 l _ G3 Q2) as (g4 & E4 & G4 & K4 & X4 & A4). rewrite Hm in A4.
  assert (HX4 : rows_are (buf_ g4 X) (fun c k t => (residual A l (st c k t)).1)) by (rewrite X4; cbn [g3 set_layer buf_]; by rewrite X2).
  destruct (outputs_ok g4 l _ _ G4 HX4 A4) as (g5 & E5 & G5 & K5 & X5 & Y5). exists g5.
  assert (Hkl : kv_ g5 l = m) by by rewrite K5, K4. rewrite Hkl.
  assert (Hrow : forall r c k t, chs !! r = Some c -> ck_tokens c !! k = Some t ->
    layer_row m l st c k t = (layer_out A (shape_of c) l (residual A l (st c k t)).1
      (attended (attend_decode A) (attend_prefill A) (mode_of c0 c) (projected A (shape_of c) (Z.of_nat (ck_start c + k)) l (residual A l (st c k t)).2)
         (upto m c (ck_start c + k))), own_entry (projected A (shape_of c) (Z.of_nat (ck_start c + k)) l (residual A l (st c k t)).2))).
  { intros r c k t Hr Hk. unfold layer_row, row_layer. destruct (residual A l (st c k t)) as [x xb] eqn:Er. cbn [fst snd].
    rewrite upto_before, (S3 r c k t Hr Hk), Er. done. }
  split; [|split; [done|split; [|split; [|split; [|split]]]]].
  - unfold layer_launches. rewrite exec_all_app. cbn [ModelRuntime.exec_all]. rewrite E1. cbn [run_bind].
    cbn [ModelRuntime.exec_all] in E2. destruct (exec g1 _) as [ga| |]; cbn [run_bind] in E2 |- *; [|done..].
    destruct (exec ga _) as [gb| |]; cbn [run_bind] in E2 |- *; [|done..]. injection E2 as ->. rewrite E3. cbn [run_bind].
    rewrite app_assoc, exec_all_app, E4. cbn [run_bind]. exact E5.
  - intros l' Hl'. rewrite K5, K4. cbn [g3 set_layer kv_]. rewrite decide_False by done. by rewrite K2, K1.
  - intros b o Ho Hno. rewrite (S3' b o Ho Hno), K2, K1. done.
  - intros r c k t Hr Hk. rewrite (Hrow r c k t Hr Hk). apply (S3 r c k t Hr Hk).
  - intros r c k t Hr Hk. rewrite (Hrow r c k t Hr Hk). apply (X5 r c k t Hr Hk).
  - intros r c k t Hr Hk. rewrite (Hrow r c k t Hr Hk). apply (Y5 r c k t Hr Hk).
Qed.

(** *** All layers *)
Definition unwritten (b o : nat) : Prop := forall c p, c ∈ chs -> written c p -> addr (ck_table c) p <> (b, o).

Definition layers_row (kv : nat -> Z -> V) (ls : list nat) (st : rowwise (row * row)) : rowwise ((row * row) * list (list V * list V)) :=
  fun c k t => row_layers A (shape_of c) (Z.of_nat (ck_start c + k)) (fun l => before (kv l) c (ck_start c + k)) ls (st c k t).

Lemma layers_row_cons kv l ls st c k t :
  layers_row kv (l :: ls) st c k t =
  let r := layers_row kv ls (fun c k t => (layer_row (kv l) l st c k t).1) c k t in (r.1, (layer_row (kv l) l st c k t).2 :: r.2).
Proof using Type.
  unfold layers_row, layer_row. cbn [row_layers]. destruct (row_layer _ _ _ _ _ (st c k t)) as [st1 e]. cbn [fst snd].
  by destruct (row_layers _ _ _ _ ls st1).
Qed.

Lemma layers_ok n : forall from g (st : rowwise (row * row)), good g -> rows_are (buf_ g X) (fun c k t => (st c k t).1) ->
  (from <> 0%nat -> rows_are (buf_ g Xb2) (fun c k t => (st c k t).2)) ->
  exists g', exec_all g (concat (layer_launches (n_rows c0) (n_decode c0) (n_prefill c0) (prefill_max_qlen c0) <$> seq from n)) = Ret g' /\ good g' /\
    (forall l, (l < from)%nat -> kv_ g' l = kv_ g l) /\
    (forall l b o, (o < block_size)%nat -> unwritten b o -> cached (kv_ g' l) (b, o) = cached (kv_ g l) (b, o)) /\
    (forall r c k t, chs !! r = Some c -> ck_tokens c !! k = Some t ->
       (fun l => cached (kv_ g' l) (addr (ck_table c) (ck_start c + k))) <$> seq from n = (layers_row (kv_ g') (seq from n) st c k t).2) /\
    rows_are (buf_ g' X) (fun c k t => (layers_row (kv_ g') (seq from n) st c k t).1.1) /\
    ((from + n <> 0)%nat -> rows_are (buf_ g' Xb2) (fun c k t => (layers_row (kv_ g') (seq from n) st c k t).1.2)).
Proof using Hsized Hdesc Hrows Happart Htable Hctx Hpool Hmasked Hwide Hfew Hends.
  induction n as [|n IH]; intros from g st Hg Hx Hy.
  - exists g. cbn [seq fmap list_fmap concat ModelRuntime.exec_all]. split; [done|]. split; [done|]. split; [done|]. split; [done|].
    split; [done|]. split; [exact Hx|]. intros Hf. apply Hy. lia.
  - cbn [seq fmap list_fmap concat]. destruct (layer_ok g from st Hg Hx Hy) as (g1 & E1 & G1 & K1 & U1 & S1 & X1 & Y1).
    destruct (IH (S from) g1 _ G1 X1 (fun _ => Y1)) as (g2 & E2 & G2 & K2 & U2 & S2 & X2 & Y2). exists g2.
    assert (Hfrom : kv_ g2 from = kv_ g1 from) by (apply K2; lia).
    split; [rewrite exec_all_app, E1; exact E2|]. split; [done|]. split; [|split; [|split; [|split]]].
    + intros l Hl. rewrite K2 by lia. apply K1. lia.
    + intros l b o Ho Hu. rewrite U2 by done. destruct (decide (l = from)) as [-> |Hne]; [by apply U1|by rewrite K1].
    + intros r c k t Hr Hk. rewrite layers_row_cons, Hfrom. cbn zeta. cbn [snd]. f_equal; [by apply (S1 r c k t)|by apply (S2 r c k t)].
    + intros r c k t Hr Hk. rewrite layers_row_cons, Hfrom. cbn zeta. cbn [fst]. by apply (X2 r c k t).
    + intros _ r c k t Hr Hk. rewrite layers_row_cons, Hfrom. cbn zeta. cbn [fst]. apply (Y2 ltac:(lia) r c k t Hr Hk).
Qed.

(** The keys and values of a chunk's sequence, all layers. *)
Definition history (g : gpu V) (c : chunk) (p : nat) : list (list (list V * list V)) :=
  (fun q => slot_of g (addr (ck_table c) q).1 (addr (ck_table c) q).2) <$> seq 0 p.

Lemma layer_of_history g c p l : (l < kNumLayers)%nat -> layer_of (history g c p) l = before (kv_ g l) c p.
Proof using Type.
  intros Hl. unfold layer_of, history, before. rewrite <- list_fmap_compose. apply list_fmap_ext. intros i q _. cbn [compose].
  apply nth_lookup_Some. unfold slot_of. rewrite list_lookup_fmap, lookup_seq_lt by done. cbn [fmap option_fmap option_map Nat.add]. by destruct (addr (ck_table c) q).
Qed.

Lemma row_layers_ext sh p hist hist' ls : (forall l, l ∈ ls -> hist l = hist' l) -> forall st, row_layers A sh p hist ls st = row_layers A sh p hist' ls st.
Proof using Type.
  induction ls as [|l ls IH]; intros H st; [done|]. cbn [row_layers]. rewrite (H l) by by left.
  destruct (row_layer _ _ _ _ _ _) as [st1 e]. rewrite IH; [done|]. intros l' Hl'. apply H. by right.
Qed.

Lemma embed_irrelevant sh p hist x y y' :
  row_layers A sh p hist (seq 0 kNumLayers) (x, y) = row_layers A sh p hist (seq 0 kNumLayers) (x, y').
Proof using Type.
  change (seq 0 kNumLayers) with (0%nat :: seq 1 35). cbn [row_layers].
  replace (row_layer A sh p (hist 0%nat) 0 (x, y)) with (row_layer A sh p (hist 0%nat) 0 (x, y')); [done|].
  unfold row_layer, residual. by rewrite Nat.eqb_refl.
Qed.

Lemma layers_row_pass g c k t x :
  layers_row (kv_ g) (seq 0 kNumLayers) (fun c k t => (embed A t, x)) c k t = row_pass A (shape_of c) (history g c (ck_start c + k)) t.
Proof using Type.
  unfold layers_row, row_pass. rewrite (embed_irrelevant _ _ _ _ x []). unfold history at 1, len. rewrite length_fmap, length_seq.
  apply row_layers_ext. intros l Hl. symmetry. apply layer_of_history. apply elem_of_seq in Hl. clear - Hl. lia.
Qed.

Lemma add_fits : fits_int (n_rows c0 * kHiddenSize) = true.
Proof using Hdesc Hfew.
  clear -Hdesc Hfew. apply fits_int_small. rewrite (ds_rows _ _ _ _ Hdesc). unfold len, kMaxRows, kHiddenSize in *. lia.
Qed.

Lemma body_ok g : good g ->
  exists g', exec_all g (RunLayersBody (n_rows c0) (n_decode c0) (n_prefill c0) (prefill_max_qlen c0)) = Ret g' /\ good g' /\
    (forall b o, (o < block_size)%nat -> unwritten b o -> slot_of g' b o = slot_of g b o) /\
    (forall r c k t, chs !! r = Some c -> ck_tokens c !! k = Some t ->
       let '(b, o) := addr (ck_table c) (ck_start c + k) in slot_of g' b o = (row_pass A (shape_of c) (history g' c (ck_start c + k)) t).2) /\
    rows_are (buf_ g' X) (fun c k t => let '((x, y), _) := row_pass A (shape_of c) (history g' c (ck_start c + k)) t in add_row A x y).
Proof using Hsized Hdesc Hrows Happart Htable Hctx Hpool Hmasked Hwide Htokens Hfew Hends.
  intros Hg. unfold RunLayersBody. cbn [ModelRuntime.exec_all].
  assert (Hids : rows_are (ids (ctx_ g)) (fun _ _ t => t)).
  { rewrite (good_ctx _ Hg). intros r c k t Hr Hk. apply (ds_row _ _ _ _ Hdesc r c k t Hr Hk). }
  destruct (exec_row_wise g (Embed (n_rows c0)) (embed A) (ids (ctx_ g)) X (fun _ _ t => t)) as (r1 & -> & G1 & R1);
    [cbn [ModelRuntime.exec]; by rewrite (good_ctx _ Hg), embed_in_table, rows_fit_all|exact Hg|done|rewrite (good_ctx _ Hg), (sz_ids _ _ _ _ Hsized); done|exact Hids|].
  cbn [run_bind]. set (g1 := set_buf g X r1) in *.
  destruct (layers_ok kNumLayers 0 g1 (fun c k t => (embed A t, [])) G1 R1 ltac:(done)) as (g2 & E2 & G2 & _ & U2 & S2 & X2 & Y2).
  specialize (Y2 ltac:(done)). rewrite exec_all_app, E2. cbn [run_bind ModelRuntime.exec_all].
  pose proof (rows_zip _ _ _ _ X2 Y2) as Z2.
  destruct (exec_row_wise g2 (Add (n_rows c0)) (fun '(x, y) => add_row A x y) (zip (buf_ g2 X) (buf_ g2 Xb2)) X _ ltac:(cbn [ModelRuntime.exec]; by rewrite add_fits) G2 ltac:(done)
    (zip_length _ _ _ (good_length g2 X G2 ltac:(done)) (good_length g2 Xb2 G2 ltac:(done))) Z2) as (r3 & -> & G3 & R3). cbn [run_bind].
  eexists. split; [done|]. split; [exact G3|]. split; [|split].
  - intros b o Ho Hu. apply list_fmap_ext. intros i l Hl. by apply (U2 l b o).
  - intros r c k t Hr Hk. pose proof (S2 r c k t Hr Hk) as HS. rewrite layers_row_pass in HS.
    destruct (addr (ck_table c) (ck_start c + k)) as [b o] eqn:Ea. exact HS.
  - intros r c k t Hr Hk. cbn [set_buf buf_]. rewrite decide_True by done. rewrite (R3 r c k t Hr Hk), layers_row_pass. cbn beta.
    change (history (set_buf g2 X r3)) with (history g2).
    by destruct (row_pass A (shape_of c) (history g2 c (ck_start c + k)) t) as [[x y] es].
Qed.

(** *** The sampled tokens *)
Context (Hdraws : length draws = length (omap ck_sample chs)) (Hne : forall c, c ∈ chs -> ck_tokens c <> []).

Lemma chunks_in_rows : (length chs <= n_tokens)%nat.
Proof using Hne.
  unfold n_tokens. cbn [in_tokens input_of]. clear - Hne. induction chs as [|c l IH]; [done|]. cbn [length fmap list_fmap concat]. rewrite length_app.
  specialize (IH ltac:(intros c' Hc'; apply Hne; by right)). destruct (ck_tokens c) eqn:E; [exfalso; apply (Hne c); [by left|exact E]|]. simpl. lia.
Qed.

Lemma head_ok g (fin : rowwise row) : good g -> rows_are (buf_ g X) fin ->
  exists g' out, RunHeadAndSample A g = Ret (g', out) /\ good g' /\ kv_ g' = kv_ g /\
    Forall2 (fun c tok => exists sp t0 n r, ck_sample c = Some sp /\ last (ck_tokens c) = Some t0 /\
      tok = SampleBatch (expf A) (lm_head A n (rmsnorm A FinalNorm (fin c (length (ck_tokens c) - 1)%nat t0))) (inverse_temp (temp sp)) (top_p sp) r)
      (sampled_chunks chs) out.
Proof using Hsized Hdesc Hrows Hne Hdraws Hwide Hreqs Hfew.
  intros Hg HX. destruct (ds_sample _ _ _ _ Hdesc) as (Hn & Hlr & Hit & Htp & Hu). pose proof (good_ctx _ Hg) as Hc.
  set (sc := sampled_chunks chs). assert (Hns : n_sample c0 = Z.of_nat (length sc)) by (unfold sc; by rewrite sampled_count).
  unfold RunHeadAndSample. rewrite Hc, Hns. destruct (Z.eqb_spec (Z.of_nat (length sc)) 0) as [E0|_].
  { exists g, []. split; [done|]. split; [done|]. split; [done|]. destruct sc; [constructor|simpl in E0; lia]. }
  assert (Hsc : forall i c, sc !! i = Some c -> exists r t0, chs !! r = Some c /\ last (ck_tokens c) = Some t0 /\
    ck_tokens c !! (length (ck_tokens c) - 1)%nat = Some t0 /\
    lrows c0 !! i = Some (Z.of_nat (first_row chs r + (length (ck_tokens c) - 1)))).
  { intros i c Hi. destruct (sampled_at chs 0 i c Hi) as (r & Hr & Hs & _). apply list_elem_of_lookup_2 in Hr as Hin.
    pose proof (Hne c Hin) as Hnil. remember (ck_tokens c) as toks eqn:Etoks. clear Etoks. destruct toks as [|t ts _] using rev_ind; [done|]. rewrite last_snoc. exists r, t. split; [done|]. split; [done|].
    specialize (Hlr i _ Hs). cbn [Nat.add] in Hlr. unfold len in Hlr. rewrite length_app in *. cbn [length] in *. split.
    - by rewrite lookup_app_r, Nat.add_sub, Nat.sub_diag by lia.
    - rewrite Hlr. f_equal. lia. }
  assert (Hle : (length sc <= n_tokens)%nat).
  { pose proof chunks_in_rows. unfold sc. rewrite sampled_count. pose proof (length_omap_le ck_sample chs). lia. }
  assert (Hle' : (length sc <= slots)%nat).
  { pose proof (requests_fit c0 chs rows slots blocks draws Hsized Hdesc). unfold sc.
    rewrite sampled_count. pose proof (length_omap_le ck_sample chs). lia. }
  assert (Hfit : rows_fit kVocabSize (Z.of_nat (length sc)) = true).
  { unfold rows_fit. destruct (Z.leb_spec (Z.of_nat (length sc)) 0); [done|]. apply fits_int_small.
    assert (length sc <= length chs)%nat by (unfold sc; rewrite sampled_count; apply length_omap_le). unfold kMaxSampled, kVocabSize in *. lia. }
  rewrite Hfit. cbn [guard].
  (* the rows *)
  destruct (collect_each (fun i => let* r := zindex (lrows c0) i in guard (fits_int (r * kHiddenSize)) (zindex (buf_ g X) r))
    (fun i x => exists c t0, sc !! i = Some c /\ last (ck_tokens c) = Some t0 /\ x = fin c (length (ck_tokens c) - 1)%nat t0) (length sc))
    as (rs & -> & Lrs & Hrs).
  { intros i Hi. destruct (lookup_lt_is_Some_2 sc i Hi) as [c Hci]. destruct (Hsc i c Hci) as (r & t0 & Hr & Hlast & Hk & Hlri).
    exists (fin c (length (ck_tokens c) - 1)%nat t0). rewrite (zindex_Some _ _ _ Hlri). cbn [run_bind].
    pose proof (row_bound r c _ t0 Hr Hk) as Hb. unfold n_tokens in Hb. rewrite fits_int_small by (unfold kMaxRows, kHiddenSize in *; lia).
    cbn [guard]. split; [apply zindex_Some; by apply (HX r c _ t0)|]. by exists c, t0. }
  cbn [run_bind].
  assert (Hwise : forall (h : row -> row) (inp out : list row), (length sc <= length inp)%nat -> (length sc <= length out)%nat ->
    exists out', row_wise (Z.of_nat (length sc)) h inp out = Ret out' /\ length out' = length out /\
      forall i x, (i < length sc)%nat -> inp !! i = Some x -> out' !! i = Some (h x)).
  { clear. intros h inp out H1 H2. unfold row_wise, len. rewrite !(proj2 (Z.leb_le _ _)) by lia. cbn [andb]. rewrite Nat2Z.id.
    assert (length (h <$> take (length sc) inp) = length sc) by (rewrite length_fmap, length_take; lia).
    eexists. split; [done|]. split; [apply overwrite_length; lia|]. intros i x Hi Hx. rewrite <- (Nat.add_0_l i) at 1.
    apply overwrite_holds; [lia|]. rewrite list_lookup_fmap, lookup_take_lt by done. by rewrite Hx. }
  destruct (Hwise (fun x => x) rs (buf_ g Xg)) as (xg & -> & Lxg & Hxg); [lia|by rewrite (good_buffers _ Hg)|]. cbn [run_bind].
  destruct (Hwise (rmsnorm A FinalNorm) xg (buf_ g Xb)) as (xb & -> & Lxb & Hxb);
    [rewrite Lxg, (good_buffers _ Hg); done|pose proof (good_length g Xb Hg ltac:(done)); lia|]. cbn [run_bind].
  destruct (collect_each (fun i => let* x := zindex xb i in let* it := zindex (dev (invT c0)) i in let* tp := zindex (dev (topp c0)) i in
      let* r := zindex (dev (u c0)) i in Ret (SampleBatch (expf A) (lm_head A (Z.of_nat (length sc)) x) it tp r))
    (fun i tok => exists c sp t0 n r, sc !! i = Some c /\ ck_sample c = Some sp /\ last (ck_tokens c) = Some t0 /\
      tok = SampleBatch (expf A) (lm_head A n (rmsnorm A FinalNorm (fin c (length (ck_tokens c) - 1)%nat t0))) (inverse_temp (temp sp)) (top_p sp) r) (length sc))
    as (out & -> & Lout & Hout).
  { intros i Hi. destruct (lookup_lt_is_Some_2 rs i) as [x Hx]; [lia|]. destruct (Hrs i x Hx) as (c & t0 & Hci & Hlast & ->).
    rewrite (zindex_Some _ _ _ (Hxb i _ Hi (Hxg i _ Hi Hx))). cbn [run_bind].
    destruct (sampled_at chs 0 i c Hci) as (r & Hr & _ & Hom). pose proof (list_elem_of_lookup_2 _ _ _ Hci) as Hin.
    apply list_elem_of_filter in Hin as [[sp Hsp] _]. rewrite Hsp in Hom. destruct (lookup_lt_is_Some_2 draws i) as [dr Hdr]; [rewrite Hdraws, <- sampled_count; exact Hi|].
    assert (Hi1 : dev (invT c0) !! i = Some (inverse_temp (temp sp))) by (apply (Hit i); by rewrite list_lookup_fmap, Hom).
    assert (Hi2 : dev (topp c0) !! i = Some (top_p sp)) by (apply (Htp i); by rewrite list_lookup_fmap, Hom).
    assert (Hi3 : dev (u c0) !! i = Some dr) by (apply (Hu i); rewrite <- Hdraws, firstn_all; done).
    rewrite (zindex_Some _ _ _ Hi1). cbn [run_bind]. rewrite (zindex_Some _ _ _ Hi2). cbn [run_bind]. rewrite (zindex_Some _ _ _ Hi3). cbn [run_bind].
    eexists. split; [done|]. by exists c, sp, t0, (Z.of_nat (length sc)), dr. }
  cbn [run_bind]. eexists _, out. split; [done|]. split; [apply good_set; [by apply good_set|done]|]. split; [done|].
  apply Forall2_same_length_lookup_2; [done|]. intros i c tok Hci Htok. destruct (Hout i tok Htok) as (c' & sp & t0 & n & r & Hc' & H1 & H2 & H3).
  rewrite Hci in Hc'. injection Hc' as <-. by exists sp, t0, n, r.
Qed.

End batch.

(** What the theorems assume of the arithmetic: the positions that the prompt kernel masks
    contribute nothing, and the output projection has a row for each token of the
    vocabulary. *)
Record arithmetic_ok {V} (A : Arithmetic V) : Prop := {
  ar_masked : masked_ignored (attend_prefill A);
  ar_logits : forall n x, len (lm_head A n x) = kVocabSize;
}.

(** ** The whole pass *)
Section forward.
Context {V : Type} `{!Inhabited V} (A : Arithmetic V).
Context (max_ctx : Z) (num_blocks : nat) (rng : nat -> float32) (rows slots blocks : nat).

Abbreviation runtime := (gpu_runtime A max_ctx num_blocks rng).
Abbreviation paged := (gpu_paged A max_ctx num_blocks rng rows slots blocks).

Lemma body_no_prefill n d mx : RunLayersBody n d 0 mx = RunLayersBody n d 0 1.
Proof using Type. unfold RunLayersBody. do 3 f_equal. Qed.

Lemma RunLayers_ok graphs c : graphs_ok graphs -> exists graphs',
  RunLayers graphs c = Ret (graphs', RunLayersBody (n_rows c) (n_decode c) (n_prefill c) (prefill_max_qlen c)) /\ graphs_ok graphs'.
Proof using Type.
  intros [h Hh]. unfold RunLayers. destruct (Z.eqb_spec (n_prefill c) 0) as [E|_]; [|by exists graphs; split; [|exists h]].
  destruct (0 <? n_decode c)%Z; [|by exists graphs; split; [|exists h]]. cbn [andb]. rewrite E, body_no_prefill.
  destruct (Run_ok (fun '(a, b) => RunLayersBody a b 0 1) h graphs (n_rows c) (n_decode c) Hh) as (graphs' & -> & Hok & _).
  exists graphs'. split; [done|]. by eexists.
Qed.

(** Every batch gets a token for each row it wants sampled. *)
Lemma FillSampling_count c inp draws c' : FillSampling c inp draws = Ret c' -> n_sample c' = len (logits_rows inp).
Proof using Type.
  unfold FillSampling. intros (lr & _ & H)%bind_inv. apply bind_inv in H as ([[hi ht] hu] & _ & H).
  apply bind_inv in H as (it & _ & H). apply bind_inv in H as (tp & _ & H). apply bind_inv in H as (ud & _ & H). injection H as <-. done.
Qed.

Lemma PrepareInputs_count c inp draws c' : PrepareInputs c inp draws = Ret c' -> n_sample c' = len (logits_rows inp).
Proof using Type.
  unfold PrepareInputs. intros (c1 & _ & H)%bind_inv. apply bind_inv in H as (c2 & _ & H). apply bind_inv in H as (c3 & _ & H).
  by apply FillSampling_count in H.
Qed.

Lemma exec_ctx g k g' : exec A max_ctx (Z.of_nat num_blocks) g k = Ret g' -> ctx_ g' = ctx_ g.
Proof using Type.
  destruct k as [| | |w| | | | | |]; cbn [exec]; [| | |destruct w| | | | | |]; intros H; try apply guard_inv in H as [_ H];
    apply bind_inv in H as (r & _ & H); try (apply bind_inv in H as (r' & _ & H)); try (case_match; [|done]); by injection H as <-.
Qed.

Lemma exec_all_ctx ks : forall g g', exec_all A max_ctx (Z.of_nat num_blocks) g ks = Ret g' -> ctx_ g' = ctx_ g.
Proof using Type.
  induction ks as [|k ks IH]; intros g g'; [by intros [= <-]|]. intros (g1 & H1%exec_ctx & H2%IH)%bind_inv. by rewrite H2.
Qed.

Lemma collect_length {B} (f : Z -> run B) ks : forall ys, collect f ks = Ret ys -> length ys = length ks.
Proof using Type.
  induction ks as [|i ks IH]; intros ys; [by intros [= <-]|]. cbn [collect]. intros (y & _ & H)%bind_inv.
  apply bind_inv in H as (ys' & H%IH & [= <-]). cbn. by rewrite H.
Qed.

Lemma RunHeadAndSample_count g g' out : (0 <= n_sample (ctx_ g))%Z -> RunHeadAndSample A g = Ret (g', out) -> len out = n_sample (ctx_ g).
Proof using Type.
  intros Hn. unfold RunHeadAndSample. destruct (Z.eqb_spec (n_sample (ctx_ g)) 0) as [E|_]; [intros [= _ <-]; by rewrite E|].
  intros [_ H]%guard_inv. apply bind_inv in H as (rs & _ & H). apply bind_inv in H as (xg & _ & H). apply bind_inv in H as (xb & _ & H).
  apply bind_inv in H as (o & Ho%collect_length & [= _ <-]). rewrite length_seqZ in Ho. unfold len. lia.
Qed.

#[export] Instance gpu_samples : RuntimeOk runtime.
Proof using Type.
  intros d inp. cbn [Forward gpu_runtime]. unfold gpu_forward.
  destruct (Forward_ A max_ctx (Z.of_nat num_blocks) rng d inp) as [[d' out]| |] eqn:E; cbn [snd]; [|apply length_replicate..].
  cbn [snd]. unfold Forward_ in E. apply bind_inv in E as (c & Hc%PrepareInputs_count & E). apply bind_inv in E as ([gs ks] & _ & E).
  apply bind_inv in E as (g & Hg%exec_all_ctx & E). apply bind_inv in E as ([g' o] & Ho & [= _ <-]).
  cbn [set_ctx ctx_] in Hg. apply RunHeadAndSample_count in Ho; rewrite Hg, Hc in *; unfold len in *; lia.
Qed.

(** The keys and values are those of the contract. *)
Lemma history_view d c p : history (gpu_ d) c p = view (PR := paged) d (ck_table c) p.
Proof using Type. done. Qed.

Lemma slot_of_kv (g g' : gpu V) b o : kv_ g' = kv_ g -> slot_of g' b o = slot_of g b o.
Proof using Type. intros H. unfold slot_of. by rewrite H. Qed.

Lemma last_position (c : chunk) t0 : last (ck_tokens c) = Some t0 ->
  ck_tokens c !! (length (ck_tokens c) - 1)%nat = Some t0 /\ ck_end c = S (ck_start c + (length (ck_tokens c) - 1)).
Proof using Type.
  rewrite last_lookup. intros H. pose proof (lookup_lt_Some _ _ _ H). replace (length (ck_tokens c) - 1)%nat with (pred (length (ck_tokens c))) by lia.
  split; [done|]. unfold ck_end. lia.
Qed.

Lemma view_removelast d c p : removelast (view (PR := paged) d (ck_table c) (S p)) = view (PR := paged) d (ck_table c) p.
Proof using Type. unfold view. rewrite seq_S, fmap_app. cbn [fmap list_fmap]. apply removelast_last. Qed.


Lemma Forward_ok d chs : masked_ignored (attend_prefill A) -> runs rows slots blocks d -> chunks_ok (PR := paged) chs ->
  exists d' out, Forward_ A max_ctx (Z.of_nat num_blocks) rng d (input_of chs) = Ret (d', out) /\ forward_ok (PR := paged) d chs d' out.
Proof using Type.
  intros Hm [Hs Hb Hgr Hwide] [Hrows Hreqs Hchunk Hids Hap]. cbn in Hrows, Hreqs. unfold len in Hrows, Hreqs, Hchunk.
  cbn [max_table max_position max_block max_token gpu_paged] in Hchunk, Hids. assert (Hne : forall c, c ∈ chs -> ck_tokens c <> []) by (intros c Hc; by apply Hchunk).
  set (draws := rng <$> seq (drawn_ d) (length (logits_rows (input_of chs)))).
  assert (Hdraws : length draws = length (omap ck_sample chs)).
  { unfold draws. rewrite length_fmap, length_seq. apply sampled_lengths. }
  destruct (PrepareInputs_ok (ctx_ (gpu_ d)) chs draws rows slots blocks Hs) as (c0 & E0 & S0 & D0); [cbn; lia|lia| |lia|].
  { intros c Hc. destruct (Hchunk c Hc) as (_ & _ & H & _). lia. }
  destruct (RunLayers_ok (layers_graph_ d) c0 Hgr) as (graphs & E1 & Hgr').
  set (g0 := set_ctx (gpu_ d) c0). assert (G0 : good rows slots c0 g0) by by split.
  assert (Hr : (length (in_tokens (input_of chs)) <= rows)%nat) by (cbn; lia).
  assert (Hf : (Z.of_nat (length (in_tokens (input_of chs))) <= kMaxRows)%Z) by (cbn; lia).
  assert (Hq : (Z.of_nat (length chs) <= kMaxSampled)%Z) by lia.
  destruct (body_ok A Hm max_ctx num_blocks rows slots blocks c0 chs draws S0 D0 Hr Hap) with (g := g0) as (g1 & E2 & G1 & U1 & S1 & X1).
  1, 2, 3, 6: intros c Hc; destruct (Hchunk c Hc) as (_ & H1 & _ & H2 & H3); first [lia|eapply Forall_impl; [exact H3|]; cbn; lia].
  1, 2, 3, 4: done.
  destruct (head_ok A rows slots blocks c0 chs draws S0 D0 Hr Hf Hq Hwide Hdraws Hne g1 _ G1 X1) as (g2 & out & E3 & G2 & K2 & H2).
  eexists _, out. split.
  { unfold Forward_. fold draws. rewrite E0. cbn [run_bind]. rewrite E1. cbn [run_bind]. fold g0. rewrite E2. cbn [run_bind]. by rewrite E3. }
  set (d' := {| gpu_ := g2; layers_graph_ := graphs; drawn_ := _ |}).
  assert (Hhist : forall c p, history g1 c p = view (PR := paged) d' (ck_table c) p).
  { intros c p. apply list_fmap_ext. intros i q _. symmetry. by apply slot_of_kv. }
  split.
  - intros c k t Hc Hk. apply list_elem_of_lookup in Hc as [r Hrc]. specialize (S1 r c k t Hrc Hk). rewrite Hhist in S1. exists (shape_of c0 c).
    etrans; [|exact S1]. by apply slot_of_kv.
  - intros b o Ho Hu. etrans; [by apply (slot_of_kv g1)|]. by apply U1.
  - eapply Forall2_impl; [exact H2|]. intros c tok (sp & t0 & n & r & Hsp & Hlast & ->). exists sp, t0. split; [done|]. split; [done|].
    destruct (last_position c t0 Hlast) as [_ Hend]. exists (shape_of c0 c), n, r. rewrite Hend, view_removelast, <- Hhist.
    by destruct (row_pass A (shape_of c0 c) _ t0) as [[x y] es].
  - destruct G2 as [Gc Gb]. split; cbn [gpu_ layers_graph_ d']; [by rewrite Gc|done..].
Qed.

Lemma collect_inv {B} (f : Z -> run B) ks : forall ys, collect f ks = Ret ys -> forall y, y ∈ ys -> exists k, f k = Ret y.
Proof using Type.
  induction ks as [|k ks IH]; intros ys; cbn [collect]; [by intros [= <-] y ?%not_elem_of_nil|].
  intros (y0 & Hy & H)%bind_inv y. apply bind_inv in H as (ys' & H & [= <-]). intros [-> |Hin]%elem_of_cons; [by exists k|by apply (IH ys')].
Qed.

(** A sampled token is in the vocabulary, of which [lm_head] gives a logit each. *)
Lemma sampled_range d inp : (forall n x, len (lm_head A n x) = kVocabSize) -> Forall (fun t => 0 <= t < kVocabSize)%Z (gpu_forward A max_ctx num_blocks rng d inp).2.
Proof using Type.
  intros Hlm. unfold gpu_forward. destruct (Forward_ A max_ctx (Z.of_nat num_blocks) rng d inp) as [[d' out]| |] eqn:E; cbn [snd];
    [|by apply Forall_replicate..].
  unfold Forward_ in E. apply bind_inv in E as (c & _ & E). apply bind_inv in E as ([gs ks] & _ & E).
  apply bind_inv in E as (g & _ & E). apply bind_inv in E as ([g' o] & Ho & [= _ <-]). clear - Ho Hlm. unfold RunHeadAndSample in Ho.
  destruct (n_sample (ctx_ g) =? 0)%Z; [by injection Ho as _ <-|]. apply guard_inv in Ho as [_ H].
  apply bind_inv in H as (rs & _ & H). apply bind_inv in H as (xg & _ & H). apply bind_inv in H as (xb & _ & H).
  apply bind_inv in H as (out & Hout & [= _ <-]). apply Forall_forall. intros t Ht. destruct (collect_inv _ _ _ Hout t Ht) as (k & Hk).
  apply bind_inv in Hk as (x & _ & Hk). apply bind_inv in Hk as (it & _ & Hk). apply bind_inv in Hk as (tp & _ & Hk).
  apply bind_inv in Hk as (r & _ & [= <-]). specialize (Hlm (n_sample (ctx_ g)) x). set (lg := lm_head A _ x) in *.
  destruct (SampleBatch_range (expf A) lg it tp r) as (i & -> & _ & Hi); [by intros E; rewrite E in Hlm|]. unfold len in Hlm. lia.
Qed.

Lemma gpu_paged_ok : arithmetic_ok A -> PagedRuntimeOk runtime paged.
Proof using Type.
  intros [Hm Hlm]. split; [|intros d inp; by apply sampled_range]. intros d chs Hd Hok. cbn [Forward gpu_runtime]. unfold gpu_forward. destruct (Forward_ok d chs Hm Hd Hok) as (d' & out & -> & H). exact H.
Qed.

End forward.

(** ** A device as it starts *)
Section fresh.
Context {V : Type}.

(** The buffers and the store start with any contents. *)
Definition new_gpu (max_rows slots max_ctx junk : Z) (rows : buffer -> nat -> list V) (kv : nat -> Z -> V) : gpu V :=
  {| ctx_ := new_StepContext max_rows slots max_ctx junk;
     buf_ := fun b => rows b <$> seq 0 (Z.to_nat match b with Xg => slots | _ => max_rows end);
     kv_ := kv |}.

Definition new_ModelRuntime (max_ctx slots token_budget junk : Z) (rows : buffer -> nat -> list V) (kv : nat -> Z -> V) : Device_ V :=
  {| gpu_ := new_gpu (Z.max 1 token_budget + kRowSlack) slots max_ctx junk rows kv; layers_graph_ := new_cache; drawn_ := 0 |}.

Lemma new_ModelRuntime_runs max_ctx slots token_budget junk rows kv : (0 <= slots)%Z -> (0 <= max_ctx)%Z ->
  (slots * BlocksFor max_ctx < 2 ^ 31)%Z ->
  runs (Z.to_nat (Z.max 1 token_budget + kRowSlack)) (Z.to_nat slots) (Z.to_nat (BlocksFor max_ctx))
    (new_ModelRuntime max_ctx slots token_budget junk rows kv).
Proof using Type.
  intros Hs Hm Hw. split; cbn [gpu_ ctx_ layers_graph_ new_ModelRuntime new_gpu].
  - by apply new_StepContext_sized.
  - intros b. unfold new_gpu. cbn [buf_]. etrans; [apply length_fmap|]. rewrite length_seq. by destruct b.
  - exists []. apply new_cache_ok.
  - assert (0 <= BlocksFor max_ctx)%Z by (unfold BlocksFor, kKvBlock; apply Z.quot_pos; lia). rewrite Nat2Z.inj_mul, !Z2Nat.id by done. exact Hw.
Qed.

End fresh.

(** ** Property *)

(** C8: [ModelRuntime::Forward] keeps the contract the scheduler relies on. For any batch
    of chunks that fits the buffers and the 32-bit offsets of the kernels (at most 87382
    rows and 14135 requests, positions below 2^25), whose tokens are of the vocabulary and
    whose chunks do not share a slot that one of them writes, on a device in any state that
    passes leave behind, and under the hypothesis that masked positions contribute nothing to
    the prompt kernel (it fails on Inf or NaN in memory no pass has written): the inputs are
    packed, the 36 layers are launched - replayed from a captured graph or not - and the
    tokens are sampled without a read or write out of bounds; afterwards every position of
    every chunk holds, in all layers, the keys and values that the model computes for its
    token from the positions before it in its own block table, every other slot is
    unchanged, and each request's token is sampled from the logits of its last row with its
    own parameters. *)
Theorem Forward_refines {V} `{!Inhabited V} (A : Arithmetic V) max_ctx num_blocks rng rows slots blocks d chs :
  masked_ignored (attend_prefill A) -> runs rows slots blocks d ->
  chunks_ok (PR := gpu_paged A max_ctx num_blocks rng rows slots blocks) chs ->
  exists d' out, Forward_ A max_ctx (Z.of_nat num_blocks) rng d (input_of chs) = Ret (d', out) /\
    forward_ok (PR := gpu_paged A max_ctx num_blocks rng rows slots blocks) d chs d' out.
Proof. apply Forward_ok. Qed.

(** ** Witness *)

(** An arithmetic that tells rows apart. *)
Definition toy_arithmetic : Arithmetic Z :=
  {| embed := fun t => [t]; rmsnorm := fun _ x => x; add_row := zip_with Z.add; add_rmsnorm := fun _ => zip_with Z.add;
     gemm := fun M _ x => x ++ [M]; head_norm_rope := fun l p x => Z.of_nat l :: p :: x; silu_mul := fun x => x;
     attend_decode := keys_decode; attend_prefill := keys_prefill; lm_head := fun _ x => binary_normalize 24 128 (foldl Z.add 0%Z x) 0 false :: replicate (Z.to_nat kVocabSize - 1) zero_f; expf := toy_expf |}.

Lemma toy_arithmetic_ok : arithmetic_ok toy_arithmetic.
Proof.
  split; [exact keys_ignore|]. intros n x. unfold len. cbn [lm_head toy_arithmetic length]. rewrite length_replicate. reflexivity.
Qed.

Definition toy_device : Device_ Z := new_ModelRuntime 64 4 8 (-1) (fun _ _ => []) (fun _ a => a).

Abbreviation toy_paged := (gpu_paged toy_arithmetic 64 9 (fun _ => one_f) 24 4 4).

Lemma three_chunks_ok : chunks_ok (PR := toy_paged) three_chunks.
Proof.
  destruct three_stored as (_ & _ & _ & Ha & Ht & Hp). destruct three_fit as (_ & H1 & H2 & H3 & _). split.
  - apply Nat2Z.inj_le. exact H1.
  - apply Nat2Z.inj_le. exact H2.
  - intros c Hc. split; [|split; [by apply Ht|split; [apply Nat2Z.inj_le; by apply H3|split]]].
    + clear - Hc. revert Hc. unfold three_chunks. rewrite !elem_of_cons. intros [-> |[-> |[-> |H]]]; [done..|by apply not_elem_of_nil in H].
    + clear - Hc. revert Hc. unfold three_chunks. rewrite !elem_of_cons. intros [-> |[-> |[-> |H]]]; [vm_compute; congruence..|by apply not_elem_of_nil in H].
    + eapply Forall_impl; [by apply Hp|]. cbn. lia.
  - intros c. unfold three_chunks. rewrite !elem_of_cons. intros [-> |[-> |[-> |H]]]; [..|by apply not_elem_of_nil in H];
      repeat constructor; vm_compute; congruence.
  - exact Ha.
Qed.

Lemma Forward_refines_witness : exists d' t,
  Forward_ toy_arithmetic 64 9 (fun _ => one_f) toy_device (input_of three_chunks) = Ret (d', [t]) /\
  (exists sh, slot_of (gpu_ d') 4 1 = (row_pass toy_arithmetic sh [slot_of (gpu_ d') 4 0] 11).2) /\
  slot_of (gpu_ d') 7 1 = slot_of (gpu_ toy_device) 7 1.
Proof.
  destruct (Forward_refines toy_arithmetic 64 9 (fun _ => one_f) 24 4 4 toy_device three_chunks keys_ignore
    (new_ModelRuntime_runs 64 4 8 (-1) _ _ ltac:(done) ltac:(done) ltac:(done)) three_chunks_ok) as (d' & out & E & H).
  assert (Hl : length out = 1%nat) by (rewrite <- (Forall2_length _ _ _ (fw_sampled _ _ _ _ H)); vm_compute; reflexivity).
  destruct out as [|t [|]]; [discriminate|exists d', t|discriminate]. split; [exact E|]. split.
  - destruct (fw_written _ _ _ _ H _ 1%nat 11%Z (list_elem_of_here _ _) eq_refl) as [sh Hsh]. cbn [ck_table ck_start Nat.add] in Hsh.
    assert (Hv : view (PR := toy_paged) d' [4%nat] 1 = [slot_of (gpu_ d') 4 0]) by reflexivity.
    assert (Hsl : slot_at (PR := toy_paged) d' [4%nat] 1 = slot_of (gpu_ d') 4 1) by reflexivity.
    exists sh. rewrite <- Hsl, <- Hv. exact Hsh.
  - apply (fw_kept _ _ _ _ H 7%nat 1%nat); [vm_compute; lia|apply three_elsewhere].
Defined.
