(* ===== verification/RapidJson.v ===== *)
(** * Values of RapidJSON

    Models the part of [rapidjson/document.h] that the engine reads its files with. The
    parser is a parameter of the files that use it. The library checks what it is asked with
    [RAPIDJSON_ASSERT], which is [assert] in this build (the release flags are [-O3] alone):
    asking for a member that is not there, or a value of another type, ends the process,
    here [Panic]. *)

From Stdlib Require Import Floats.SpecFloat.
From S2P Require Import Prelude GoStrings Client.
Local Open Scope go_scope.

(** A number is an integer where it fits 64 bits, signed or not. *)
Inductive doc :=
  | DNull
  | DBool (b : bool)
  | DInt (z : Z)
  | DDouble (x : float64)
  | DString (s : bytes)
  | DArray (l : list doc)
  | DObject (l : list (bytes * doc)).

(** The first member of a name. *)
Fixpoint FindMember (l : list (bytes * doc)) (name : bytes) : option doc :=
  match l with
  | [] => None
  | (n, d) :: l => if bool_decide (n = name) then Some d else FindMember l name
  end.

(** [GetObject], [GetArray], ...: the value under its type. *)
Definition GetObject (d : doc) : run (list (bytes * doc)) := match d with DObject l => Ret l | _ => Panic end.
Definition GetArray (d : doc) : run (list doc) := match d with DArray l => Ret l | _ => Panic end.
Definition GetString (d : doc) : run bytes := match d with DString s => Ret s | _ => Panic end.
Definition GetInt (d : doc) : run Z := match d with DInt z => if bool_decide (in_int 32 z) then Ret z else Panic | _ => Panic end.
Definition GetInt64 (d : doc) : run Z := match d with DInt z => if bool_decide (in_int 64 z) then Ret z else Panic | _ => Panic end.
Definition GetDouble (d : doc) : run float64 :=
  match d with DDouble x => Ret x | DInt z => Ret (binary_normalize 53 1024 z 0 false) | _ => Panic end.

Definition HasMember (d : doc) (name : bytes) : run bool :=
  let* l := GetObject d in Ret (match FindMember l name with Some _ => true | None => false end).

(** [d["name"]] *)
Definition member (d : doc) (name : bytes) : run doc :=
  let* l := GetObject d in match FindMember l name with Some v => Ret v | None => Panic end.

(** [d[i]] *)
Definition element (d : doc) (i : nat) : run doc := let* l := GetArray d in index_at l i.

(** The text of a C string ends at a zero byte. *)
Fixpoint c_str (s : bytes) : bytes :=
  match s with
  | [] => []
  | b :: s => if Byte.eqb b x00 then [] else b :: c_str s
  end.
