(* ===== verification/ModelSpec.v ===== *)
(** * The check of a checkpoint against the build

    Models [ModelSpec::Load] of [engine/src/model_spec.cc]: the engine is compiled for one
    model, and refuses a directory whose [config.json] describes another. The parser is a
    parameter; an exception is an error value.

    [Load_checks] says what is accepted and that a refusal names every dimension that
    differs, for every file that has the members; [Load_aborts], that a file without one ends
    the process. *)

From Stdlib Require Import Floats.SpecFloat.
From S2P Require Import Prelude GoStrings Client Json Supervisor KvStore ModelRuntime RapidJson.
Local Open Scope go_scope.

(** ** The build *)
Definition kArch : bytes := go "Qwen3ForCausalLM".
(** [1e-6f] and [1000000.0f], as [double] *)
Definition kRmsEps : float64 := S754_finite false 4722366470946816 (-72).
Definition kRopeTheta : float64 := S754_finite false 8589934592000000 (-33).

Section load.
(** The parser: [None] is a parse error. *)
Context (Parse : bytes -> option doc).

(** *** The list of what differs *)
Definition mismatch (m key got want : bytes) : bytes :=
  m ++ (if bool_decide (m = []) then [] else go ", ") ++ key ++ go "=" ++ got ++ go " (built for " ++ want ++ go ")".

Definition chk_i (m key : bytes) (got want : Z) : bytes :=
  if (got =? want)%Z then m else mismatch m key (itoa got) (itoa want).

(** [1e-4] *)
Definition tolerance : float64 := S754_finite false 7378697629483821 (-66).

Definition close_to (got want : float64) : bool :=
  negb (SFltb (SFmul 53 1024 tolerance (SFabs want)) (SFabs (SFsub 53 1024 got want))).

(** [std::to_string] of a [double]: six decimals. *)
Definition to_string (x : float64) : bytes :=
  match x with
  | S754_nan => go "nan"
  | S754_infinity s => if s then go "-inf" else go "inf"
  | _ => format_float 6 x
  end.

Definition chk_f (m key : bytes) (got want : float64) : bytes :=
  if close_to got want then m else mismatch m key (to_string got) (to_string want).

Definition no_config (dir : bytes) : bytes :=
  go "no config.json at '" ++ dir ++ go "'; --model must point at a model directory (config.json + *.safetensors).".
Definition invalid_config (dir : bytes) : bytes := go "invalid config.json at '" ++ dir ++ go "'.".
Definition unsupported (arch dir : bytes) : bytes :=
  go "unsupported architecture '" ++ (if bool_decide (arch = []) then go "unknown" else arch) ++ go "' at '" ++ dir ++
  go "'; the engine supports Qwen3-8B (" ++ kArch ++ go ").".
Definition not_this_build (dir m : bytes) : bytes :=
  go "model at '" ++ dir ++ go "' does not match this build (" ++ m ++ go "); the engine is compiled for Qwen3-8B.".

(** The first architecture, or the empty string. *)
Definition architecture (d : doc) : run bytes :=
  let* has := HasMember d (go "architectures") in
  if has then
    let* a := member d (go "architectures") in
    match a with DArray (DString s :: _) => Ret (c_str s) | _ => Ret [] end
  else Ret [].

Definition head_dim (d : doc) : run Z :=
  let* has := HasMember d (go "head_dim") in
  if has then let* v := member d (go "head_dim") in GetInt v
  else
    let* v := member d (go "hidden_size") in let* hidden := GetInt v in
    let* v := member d (go "num_attention_heads") in let* heads := GetInt v in
    if (heads =? 0)%Z then Panic else
    if bool_decide (in_int 32 (Z.quot hidden heads)) then Ret (Z.quot hidden heads) else Panic.

Definition check_int (d : doc) (m key : bytes) (want : Z) : run bytes :=
  let* v := member d key in let* got := GetInt v in Ret (chk_i m key got want).

Definition check_float (d : doc) (m key : bytes) (want : float64) : run bytes :=
  let* v := member d key in let* got := GetDouble v in Ret (chk_f m key got want).

Definition dimensions (d : doc) : run bytes :=
  let* hd := head_dim d in
  let m := chk_i [] (go "head_dim") hd kHeadDim in
  let* m := check_int d m (go "num_attention_heads") kNumHeads in
  let* m := check_int d m (go "num_key_value_heads") kNumKvHeads in
  let* m := check_int d m (go "hidden_size") kHiddenSize in
  let* m := check_int d m (go "num_hidden_layers") (Z.of_nat kNumLayers) in
  let* m := check_int d m (go "intermediate_size") kIntermediate in
  let* m := check_int d m (go "vocab_size") kVocabSize in
  let* m := check_float d m (go "rms_norm_eps") kRmsEps in
  check_float d m (go "rope_theta") kRopeTheta.

(** [config] is the text of [config.json], if the file can be read; the result is the
    directory of the model, or the message of the exception. *)
Definition Load (dir : bytes) (config : option bytes) : run (result bytes bytes) :=
  match config with
  | None => Ret (Err (no_config dir))
  | Some text =>
      match Parse (c_str text) with
      | Some (DObject l) =>
          let* arch := architecture (DObject l) in
          if negb (bool_decide (arch = kArch)) then Ret (Err (unsupported arch dir)) else
          let* m := dimensions (DObject l) in
          Ret (if bool_decide (m = []) then Ok dir else Err (not_this_build dir m))
      | _ => Ret (Err (invalid_config dir))
      end
  end.

End load.

(** ** What a configuration says *)
Record Config := {
  c_arch : bytes;
  c_head_dim : Z; c_heads : Z; c_kv_heads : Z; c_hidden : Z; c_layers : Z; c_inter : Z; c_vocab : Z;
  c_eps : float64; c_theta : float64;
}.

(** The members of a configuration, with the head dimension given or derived. *)
Definition int_members (c : Config) : list (bytes * Z) :=
  [(go "num_attention_heads", c_heads c); (go "num_key_value_heads", c_kv_heads c); (go "hidden_size", c_hidden c);
   (go "num_hidden_layers", c_layers c); (go "intermediate_size", c_inter c); (go "vocab_size", c_vocab c)].

Definition float_members (c : Config) : list (bytes * float64) := [(go "rms_norm_eps", c_eps c); (go "rope_theta", c_theta c)].

(** The members without which there is no configuration. *)
Definition required : list bytes :=
  [go "num_attention_heads"; go "num_key_value_heads"; go "hidden_size"; go "num_hidden_layers"; go "intermediate_size"; go "vocab_size";
   go "rms_norm_eps"; go "rope_theta"].

Definition arch_of (l : list (bytes * doc)) : bytes :=
  match FindMember l (go "architectures") with Some (DArray (DString s :: _)) => c_str s | _ => [] end.

Record config_of (l : list (bytes * doc)) (c : Config) : Prop := {
  co_arch : c_arch c = arch_of l;
  co_int : forall key z, (key, z) ∈ int_members c -> FindMember l key = Some (DInt z) /\ in_int 32 z;
  co_head_dim : match FindMember l (go "head_dim") with
                | Some d => d = DInt (c_head_dim c) /\ in_int 32 (c_head_dim c)
                | None => c_heads c <> 0%Z /\ c_head_dim c = Z.quot (c_hidden c) (c_heads c) /\ in_int 32 (c_head_dim c)
                end;
  co_float : forall key x, (key, x) ∈ float_members c -> exists d, FindMember l key = Some d /\ GetDouble d = Ret x;
}.

(** The model the engine is built for. *)
Record built_for (c : Config) : Prop := {
  bf_head_dim : c_head_dim c = 128%Z; bf_heads : c_heads c = 32%Z; bf_kv_heads : c_kv_heads c = 8%Z; bf_hidden : c_hidden c = 4096%Z;
  bf_layers : c_layers c = 36%Z; bf_inter : c_inter c = 12288%Z; bf_vocab : c_vocab c = 151936%Z;
  bf_eps : close_to (c_eps c) kRmsEps = true; bf_theta : close_to (c_theta c) kRopeTheta = true;
}.

Definition entry (key got want : bytes) : bytes := key ++ go "=" ++ got ++ go " (built for " ++ want ++ go ")".

Definition int_entry (key : bytes) (got want : Z) : list bytes := if (got =? want)%Z then [] else [entry key (itoa got) (itoa want)].
Definition float_entry (key : bytes) (got want : float64) : list bytes :=
  if close_to got want then [] else [entry key (to_string got) (to_string want)].

(** The dimensions that differ. *)
Definition differences (c : Config) : list bytes :=
  int_entry (go "head_dim") (c_head_dim c) 128 ++ int_entry (go "num_attention_heads") (c_heads c) 32 ++
  int_entry (go "num_key_value_heads") (c_kv_heads c) 8 ++ int_entry (go "hidden_size") (c_hidden c) 4096 ++
  int_entry (go "num_hidden_layers") (c_layers c) 36 ++ int_entry (go "intermediate_size") (c_inter c) 12288 ++
  int_entry (go "vocab_size") (c_vocab c) 151936 ++ float_entry (go "rms_norm_eps") (c_eps c) kRmsEps ++
  float_entry (go "rope_theta") (c_theta c) kRopeTheta.

(** The list as the message has it. *)
Definition joined (l : list bytes) : bytes := join (go ", ") l.

(** ** Lemmas *)
Lemma joined_nil l : Forall (fun x => x <> []) l -> joined l = [] <-> l = [].
Proof.
  intros H. destruct l as [|x l]; [done|]. apply Forall_cons in H as [Hx _]. unfold joined. cbn [join]. destruct l; split; try done; intros E.
  by apply app_nil in E as [? _].
Qed.

Lemma joined_snoc l x : joined (l ++ [x]) = joined l ++ (if bool_decide (l = []) then [] else go ", ") ++ x.
Proof.
  unfold joined. induction l as [|y l IH]; [done|]. rewrite bool_decide_false by done. cbn [app].
  destruct l as [|z l]; [done|]. rewrite bool_decide_false in IH by done.
  change (join (go ", ") (y :: (z :: l) ++ [x])) with (y ++ go ", " ++ join (go ", ") ((z :: l) ++ [x])).
  change (join (go ", ") (y :: z :: l)) with (y ++ go ", " ++ join (go ", ") (z :: l)). rewrite IH. by rewrite <- !app_assoc.
Qed.

Definition proper (l : list bytes) : Prop := Forall (fun x => x <> []) l.

Lemma mismatch_joined l key got want : proper l -> key <> [] -> mismatch (joined l) key got want = joined (l ++ [entry key got want]).
Proof.
  intros Hl Hk. unfold mismatch. rewrite joined_snoc. unfold entry. f_equal. f_equal.
  destruct (decide (l = [])) as [-> |Hne]; [done|]. rewrite !bool_decide_false; [done|done|]. by rewrite joined_nil.
Qed.

Lemma chk_i_joined l key got want : proper l -> key <> [] ->
  chk_i (joined l) key got want = joined (l ++ int_entry key got want) /\ proper (l ++ int_entry key got want).
Proof.
  intros Hl Hk. unfold chk_i, int_entry. destruct (got =? want)%Z; [by rewrite app_nil_r|]. split; [by apply mismatch_joined|].
  apply Forall_app. split; [done|]. constructor; [|done]. unfold entry. by intros [? _]%app_nil.
Qed.

Lemma chk_f_joined l key got want : proper l -> key <> [] ->
  chk_f (joined l) key got want = joined (l ++ float_entry key got want) /\ proper (l ++ float_entry key got want).
Proof.
  intros Hl Hk. unfold chk_f, float_entry. destruct (close_to got want); [by rewrite app_nil_r|]. split; [by apply mismatch_joined|].
  apply Forall_app. split; [done|]. constructor; [|done]. unfold entry. by intros [? _]%app_nil.
Qed.

Section read.
Context (l : list (bytes * doc)).

Lemma check_int_ok ds key z want : FindMember l key = Some (DInt z) -> in_int 32 z -> proper ds -> key <> [] ->
  check_int (DObject l) (joined ds) key want = Ret (joined (ds ++ int_entry key z want)) /\ proper (ds ++ int_entry key z want).
Proof using Type.
  intros H Hz Hp Hk. unfold check_int, member. cbn [GetObject run_bind]. rewrite H. cbn [run_bind GetInt].
  rewrite bool_decide_true by done. cbn [run_bind]. destruct (chk_i_joined ds key z want Hp Hk) as [-> ?]. done.
Qed.

Lemma check_float_ok ds key d x want : FindMember l key = Some d -> GetDouble d = Ret x -> proper ds -> key <> [] ->
  check_float (DObject l) (joined ds) key want = Ret (joined (ds ++ float_entry key x want)) /\ proper (ds ++ float_entry key x want).
Proof using Type.
  intros H Hx Hp Hk. unfold check_float, member. cbn [GetObject run_bind]. rewrite H. cbn [run_bind]. rewrite Hx. cbn [run_bind].
  destruct (chk_f_joined ds key x want Hp Hk) as [-> ?]. done.
Qed.

Lemma head_dim_ok c : config_of l c -> head_dim (DObject l) = Ret (c_head_dim c).
Proof using Type.
  intros [_ Hi Hh _]. unfold head_dim, HasMember, member. cbn [GetObject run_bind].
  destruct (FindMember l (go "head_dim")) as [d|].
  - destruct Hh as [-> Hz]. cbn [run_bind GetInt]. by rewrite bool_decide_true.
  - destruct Hh as (Hne & Hq & Hz). destruct (Hi (go "hidden_size") (c_hidden c)) as [-> H1]; [do 2 right; left|].
    destruct (Hi (go "num_attention_heads") (c_heads c)) as [-> H2]; [left|]. cbn [run_bind GetInt]. rewrite !bool_decide_true by done.
    cbn [run_bind]. rewrite (proj2 (Z.eqb_neq _ _) Hne), <- Hq. by rewrite bool_decide_true.
Qed.

(** A check adds its entry to the list and the checks go on. *)
Lemma then_int ds key z want (k : bytes -> run bytes) out : FindMember l key = Some (DInt z) /\ in_int 32 z -> key <> [] -> proper ds ->
  (proper (ds ++ int_entry key z want) -> k (joined (ds ++ int_entry key z want)) = Ret (joined out) /\ proper out) ->
  (let* m := check_int (DObject l) (joined ds) key want in k m) = Ret (joined out) /\ proper out.
Proof using Type. intros [H Hz] Hk Hp IH. destruct (check_int_ok ds key z want H Hz Hp Hk) as [-> P]. by apply IH. Qed.

Lemma then_float ds key x want (k : bytes -> run bytes) out : (exists d, FindMember l key = Some d /\ GetDouble d = Ret x) -> key <> [] ->
  proper ds -> (proper (ds ++ float_entry key x want) -> k (joined (ds ++ float_entry key x want)) = Ret (joined out) /\ proper out) ->
  (let* m := check_float (DObject l) (joined ds) key want in k m) = Ret (joined out) /\ proper out.
Proof using Type. intros (d & H & Hx) Hk Hp IH. destruct (check_float_ok ds key d x want H Hx Hp Hk) as [-> P]. by apply IH. Qed.

Lemma dimensions_ok c : config_of l c -> dimensions (DObject l) = Ret (joined (differences c)) /\ proper (differences c).
Proof using Type.
  intros H. unfold dimensions. rewrite (head_dim_ok c H). cbn [run_bind]. destruct H as [_ Hi _ Hf].
  destruct (chk_i_joined [] (go "head_dim") (c_head_dim c) kHeadDim) as [E P]; [by constructor|done|].
  change (joined []) with (@nil byte) in E. rewrite E. clear E. revert P. cbn [app]. intros P.
  do 6 (eapply then_int; [apply Hi; repeat first [left | right]|done|done|clear P; intros P]).
  eapply then_float; [apply Hf; left|done|done|]. clear P. intros P.
  destruct (Hf (go "rope_theta") (c_theta c)) as (d & H & Hx); [right; left|].
  destruct (check_float_ok _ _ d _ kRopeTheta H Hx P) as [-> P1]; [done|]. unfold differences. by rewrite !app_assoc.
Qed.

(** Without one of its members the checks do not end. *)
Lemma check_int_ends m key want : check_int (DObject l) m key want = Panic \/ exists m', check_int (DObject l) m key want = Ret m'.
Proof using Type.
  unfold check_int, member. cbn [GetObject run_bind]. destruct (FindMember l key) as [[]|]; cbn [run_bind GetInt]; eauto.
  case_bool_decide; cbn [run_bind]; eauto.
Qed.

Lemma check_float_ends m key want : check_float (DObject l) m key want = Panic \/ exists m', check_float (DObject l) m key want = Ret m'.
Proof using Type. unfold check_float, member. cbn [GetObject run_bind]. destruct (FindMember l key) as [[]|]; cbn [run_bind GetDouble]; eauto. Qed.

Lemma missing_int key m want : FindMember l key = None -> check_int (DObject l) m key want = Panic.
Proof using Type. intros H. unfold check_int, member. cbn [GetObject run_bind]. by rewrite H. Qed.

Lemma missing_float key m want : FindMember l key = None -> check_float (DObject l) m key want = Panic.
Proof using Type. intros H. unfold check_float, member. cbn [GetObject run_bind]. by rewrite H. Qed.

Lemma head_dim_ends : head_dim (DObject l) = Panic \/ exists z, head_dim (DObject l) = Ret z.
Proof using Type.
  unfold head_dim, HasMember, member. cbn [GetObject run_bind]. destruct (FindMember l (go "head_dim")) as [[]|]; cbn [run_bind GetInt]; eauto.
  - case_bool_decide; eauto.
  - destruct (FindMember l (go "hidden_size")) as [[]|]; cbn [run_bind GetInt]; eauto. case_bool_decide; cbn [run_bind]; eauto.
    destruct (FindMember l (go "num_attention_heads")) as [[]|]; cbn [run_bind GetInt]; eauto. case_bool_decide; cbn [run_bind]; eauto.
    destruct (_ =? 0)%Z; eauto. case_bool_decide; eauto.
Qed.

End read.

Lemma panics {A B} (x : run A) (k : A -> run B) : (x = Panic \/ exists a, x = Ret a) -> (forall a, x = Ret a -> k a = Panic) -> run_bind x k = Panic.
Proof. intros [-> |[a E]] H; [done|]. rewrite E. by apply H. Qed.

Lemma architecture_ok l : architecture (DObject l) = Ret (arch_of l).
Proof.
  unfold architecture, arch_of, HasMember, member. cbn [GetObject run_bind]. destruct (FindMember l (go "architectures")) as [d|]; [|done].
  cbn [run_bind]. destruct d as [| | | | |[|[] ?]|]; done.
Qed.

Lemma int_entry_nil key got want : int_entry key got want = [] <-> got = want.
Proof. unfold int_entry. destruct (Z.eqb_spec got want); split; congruence. Qed.

Lemma float_entry_nil key got want : float_entry key got want = [] <-> close_to got want = true.
Proof. unfold float_entry. destruct (close_to got want); split; congruence. Qed.

Lemma nil_app {A} (l1 l2 : list A) : l1 ++ l2 = [] <-> l1 = [] /\ l2 = [].
Proof. split; [apply app_nil|by intros [-> ->]]. Qed.

Lemma differences_nil c : differences c = [] <-> built_for c.
Proof.
  unfold differences. rewrite !nil_app, !int_entry_nil, !float_entry_nil. split.
  - intros (? & ? & ? & ? & ? & ? & ? & ? & ?). by split.
  - intros []. by repeat split.
Qed.

(** A file that cannot be read, or that is not an object, is refused. *)
Lemma Load_refuses Parse dir :
  Load Parse dir None = Ret (Err (no_config dir)) /\
  (forall text, (forall l, Parse (c_str text) <> Some (DObject l)) -> Load Parse dir (Some text) = Ret (Err (invalid_config dir))).
Proof. split; [done|]. intros text H. unfold Load. destruct (Parse (c_str text)) as [[]|] eqn:E; try done. by destruct (H l). Qed.

(** The first check without its member. *)
Ltac check_aborts :=
  first [by apply missing_float | by rewrite missing_int by done | by rewrite missing_float by done |
         apply panics; [first [apply check_int_ends | apply check_float_ends]|intros ? _; check_aborts]].

(** What the process ends for, where [Load] has a message for every other fault of the file: a
    dimension that is not in the configuration. *)
Lemma Load_aborts Parse dir text l key : Parse (c_str text) = Some (DObject l) -> arch_of l = kArch ->
  key ∈ required -> FindMember l key = None -> Load Parse dir (Some text) = Panic.
Proof.
  intros HP Ha Hk Hn. unfold Load. rewrite HP, architecture_ok. cbn [run_bind]. rewrite Ha, bool_decide_true by done. cbn [negb].
  assert (dimensions (DObject l) = Panic) as ->; [|done]. unfold dimensions. apply panics; [apply head_dim_ends|]. intros hd _.
  unfold required in Hk. rewrite !elem_of_cons, elem_of_nil in Hk.
  destruct Hk as [-> |[-> |[-> |[-> |[-> |[-> |[-> |[-> |[]]]]]]]]]; check_aborts.
Qed.

Lemma Load_result Parse dir text l c : Parse (c_str text) = Some (DObject l) -> config_of l c ->
  Load Parse dir (Some text) =
  Ret (if bool_decide (c_arch c = kArch) then if bool_decide (differences c = []) then Ok dir else Err (not_this_build dir (joined (differences c)))
       else Err (unsupported (c_arch c) dir)).
Proof.
  intros HP Hc. destruct (dimensions_ok l c Hc) as [Ed Pd]. unfold Load. rewrite HP, architecture_ok, <- (co_arch _ _ Hc). cbn [run_bind].
  case_bool_decide; cbn [negb]; [|done]. rewrite Ed. cbn [run_bind]. f_equal. by rewrite (bool_decide_ext _ _ (joined_nil _ Pd)).
Qed.

(** ** Property *)

(** C29: of the checkpoints whose configuration is a JSON object with the architecture and every
    dimension, each of its type, the engine accepts exactly those that name the architecture
    and every dimension it was compiled with, the two real numbers within the tolerance, and
    refuses every other with a message: the architecture if that differs, and otherwise the
    list of all dimensions that differ, each with the value found and the value expected. (A
    dimension that is missing or of another type is not refused but aborts the engine:
    [Load_aborts].) *)
Theorem Load_checks Parse dir text l c : Parse (c_str text) = Some (DObject l) -> config_of l c ->
  (Load Parse dir (Some text) = Ret (Ok dir) <-> c_arch c = kArch /\ built_for c) /\
  (c_arch c <> kArch -> Load Parse dir (Some text) = Ret (Err (unsupported (c_arch c) dir))) /\
  (c_arch c = kArch -> ~ built_for c -> Load Parse dir (Some text) = Ret (Err (not_this_build dir (joined (differences c))))).
Proof.
  intros HP Hc. rewrite (Load_result Parse dir text l c HP Hc), <- differences_nil. repeat case_bool_decide; naive_solver.
Qed.

(** ** Witness *)

(** The configuration of Qwen3-8B, and another with the layers of a smaller model. *)
Definition config_json (layers : Z) : list (bytes * doc) :=
  [(go "architectures", DArray [DString kArch]); (go "head_dim", DInt 128); (go "hidden_size", DInt 4096); (go "intermediate_size", DInt 12288);
   (go "num_attention_heads", DInt 32); (go "num_hidden_layers", DInt layers); (go "num_key_value_heads", DInt 8);
   (go "rms_norm_eps", DDouble (S754_finite false 4722366482869645 (-72))); (go "rope_theta", DInt 1000000); (go "vocab_size", DInt 151936)].

Definition qwen3 (layers : Z) : Config :=
  {| c_arch := kArch; c_head_dim := 128; c_heads := 32; c_kv_heads := 8; c_hidden := 4096; c_layers := layers; c_inter := 12288; c_vocab := 151936;
     c_eps := S754_finite false 4722366482869645 (-72); c_theta := kRopeTheta |}.

Lemma qwen3_config layers : in_int 32 layers -> config_of (config_json layers) (qwen3 layers).
Proof.
  intros Hl. split; [done| | |].
  - intros key z. unfold int_members. rewrite !elem_of_cons, elem_of_nil.
    intros [[= -> ->]|[[= -> ->]|[[= -> ->]|[[= -> ->]|[[= -> ->]|[[= -> ->]|[]]]]]]]; (split; [reflexivity|done]).
  - by split.
  - intros key x. unfold float_members. rewrite !elem_of_cons, elem_of_nil.
    intros [[= -> ->]|[[= -> ->]|[]]]; eexists; (split; [reflexivity|vm_compute; reflexivity]).
Qed.

Definition parse_config (layers : Z) (text : bytes) : option doc := Some (DObject (config_json layers)).

Lemma Load_checks_witness :
  Load (parse_config 36) (go "/models/Qwen3-8B") (Some (go "{}")) = Ret (Ok (go "/models/Qwen3-8B")) /\
  Load (parse_config 28) (go "/models/small") (Some (go "{}")) =
    Ret (Err (go "model at '/models/small' does not match this build (num_hidden_layers=28 (built for 36)); the engine is compiled for Qwen3-8B.")).
Proof.
  split.
  - apply (proj1 (Load_checks (parse_config 36) _ _ (config_json 36) (qwen3 36) eq_refl (qwen3_config 36 ltac:(done)))).
    split; [done|]. split; vm_compute; reflexivity.
  - rewrite (proj2 (proj2 (Load_checks (parse_config 28) (go "/models/small") (go "{}") (config_json 28) (qwen3 28) eq_refl (qwen3_config 28 ltac:(done)))));
      [vm_compute; reflexivity|done|by intros []].
Defined.

(** A configuration without the number of layers. *)
Example Load_aborts_ex :
  Load (fun _ => Some (DObject (filter (fun kv => fst kv <> go "num_hidden_layers") (config_json 36)))) (go "/models/x") (Some (go "{}")) = Panic.
Proof. apply (Load_aborts _ _ _ _ (go "num_hidden_layers") eq_refl); [done|do 3 right; left|done]. Qed.
