(* ===== verification/SafeTensors.v ===== *)
(** * The weights of a checkpoint

    Models [SafeTensors] of [engine/src/safetensors.cc] (shards mapped into memory, tensors
    found by name) and the upload of the weights of [engine/src/model_runtime.cu]
    ([UploadTensors], [ModelWeights]), which fuses projections by concatenation. The files
    and the JSON parser are parameters; a shard is the bytes of its file, mapped to whole
    pages. Elements are bit patterns: 16 bits of BF16, or the 32 bits of the float with the
    same value.

    The specification is the format: [shard_file] writes a shard, [checkpoint] says that a
    directory holds the shards of an index. The property says that what a directory was
    written with is what the device holds, each fused matrix being its parts in order. *)

From Stdlib Require Import Floats.SpecFloat.
From stdpp Require Import gmap.
From S2P Require Import Prelude GoStrings Client Supervisor KvStore ModelRuntime RapidJson.
Local Open Scope go_scope.

(** An exception of C++ is an error value; what ends the process is [Panic]. *)
Definition try_bind {E A B} (m : run (result E A)) (k : A -> run (result E B)) : run (result E B) :=
  match m with Ret (Ok a) => k a | Ret (Err e) => Ret (Err e) | Panic => Panic | Fuel => Fuel end.

Notation "'let?' x := m 'in' k" := (try_bind m (fun x => k))
  (at level 10, x pattern, m at level 100, k at level 200) : go_scope.

(** ** Little-endian integers *)
Fixpoint le_decode (l : bytes) : Z := match l with [] => 0 | b :: l => bz b + 256 * le_decode l end.
Fixpoint le_encode (n : nat) (z : Z) : bytes := match n with O => [] | S n => byte_of_Z z :: le_encode n (z / 256) end.

(** [const uint16_t*] over bytes. *)
Fixpoint u16s (l : bytes) : list Z := match l with a :: b :: l => (bz a + 256 * bz b)%Z :: u16s l | _ => [] end.

(** ** Mapped files *)
Definition kPage : Z := 4096.

(** What is mapped of a file: whole pages, the last filled with zeros. *)
Definition mapping (file : bytes) : bytes := file ++ repeat x00 (Z.to_nat ((- len file) mod kPage)).

(** The [n] bytes at an address, relative to the first: a read outside of the mapping faults. *)
Definition read_bytes (file : bytes) (o n : Z) : run bytes :=
  if (n =? 0)%Z then Ret [] else
  if (0 <=? o)%Z && (o + n <=? len (mapping file))%Z then Ret (take (Z.to_nat n) (drop (Z.to_nat o) (mapping file))) else Panic.

(** A pointer or a [size_t]. *)
Definition size_t (z : Z) : Z := (z mod 2 ^ 64)%Z.

(** [data] points into the mapping of [file]. *)
Record TensorView := { file : bytes; data : Z; nbytes : Z; shape : list Z; dtype : bytes }.

(** Overflow, which is undefined, wraps. *)
Definition Numel (shape : list Z) : Z := foldl (fun n s => int64 (n * s)) 1%Z shape.

Abbreviation Tensors := (gmap bytes TensorView).

Section load.
(** The parser: of a text that ends at its zero byte, and of the first [n] of the bytes that
    follow an address. [None] is a parse error. *)
Context (Parse : bytes -> option doc) (ParseN : bytes -> Z -> run (option doc)).
(** The cosine and the sine of the angle of a position and a pair of dimensions. *)
Context (rope_cos rope_sin : nat -> nat -> float32).
(** The content of a file that can be opened. *)
Context (read_file : bytes -> option bytes).

Definition Get (tensors_ : Tensors) (name : bytes) : result bytes TensorView :=
  match tensors_ !! name with Some t => Ok t | None => Err (go "tensor not found: " ++ name) end.

(** *** A shard *)
Fixpoint int64s (l : list doc) : run (list Z) :=
  match l with
  | [] => Ret []
  | d :: l => let* z := GetInt64 d in let* zs := int64s l in Ret (z :: zs)
  end.

Definition tensor_of (file : bytes) (data_begin : Z) (meta : doc) : run TensorView :=
  let* d := member meta (go "dtype") in let* ty := GetString d in
  let* d := member meta (go "shape") in let* ds := GetArray d in let* dims := int64s ds in
  let* d := member meta (go "data_offsets") in let* b := element d 0 in let* first := GetInt64 b in
  let* d := member meta (go "data_offsets") in let* e := element d 1 in let* last := GetInt64 e in
  Ret {| file := file; data := size_t (data_begin + first); nbytes := size_t (int64 (last - first)); shape := dims; dtype := c_str ty |}.

Fixpoint add_tensors (file : bytes) (data_begin : Z) (members : list (bytes * doc)) (tensors_ : Tensors) : run Tensors :=
  match members with
  | [] => Ret tensors_
  | (name, meta) :: members =>
      let name := c_str name in
      if bool_decide (name = go "__metadata__") then add_tensors file data_begin members tensors_ else
      let* tensor := tensor_of file data_begin meta in
      add_tensors file data_begin members (<[name := tensor]> tensors_)
  end.

(** A file without bytes cannot be mapped; the size of an open file can be read. *)
Definition MapShard (tensors_ : Tensors) (path : bytes) : run (result bytes Tensors) :=
  match read_file path with
  | None => Ret (Err (go "cannot open shard: " ++ path))
  | Some [] => Ret (Err (go "mmap failed: " ++ path))
  | Some file =>
      let* h := read_bytes file 0 8 in
      let header_len := le_decode h in
      let data_begin := size_t (8 + header_len) in
      let* root := ParseN (drop 8 (mapping file)) header_len in
      match root with
      | Some (DObject members) => let* ts := add_tensors file data_begin members tensors_ in Ret (Ok ts)
      | _ => Ret (Err (go "invalid safetensors header: " ++ path))
      end
  end.

(** *** A directory *)

(** [std::string]s by their bytes. *)
Fixpoint bytes_ltb (s t : bytes) : bool :=
  match s, t with
  | _, [] => false
  | [], _ :: _ => true
  | a :: s, b :: t => (bz a <? bz b)%Z || ((bz a =? bz b)%Z && bytes_ltb s t)
  end.

(** [std::set::insert] *)
Fixpoint set_insert (x : bytes) (l : list bytes) : list bytes :=
  match l with
  | [] => [x]
  | y :: l' => if bytes_ltb x y then x :: l else if bytes_ltb y x then y :: set_insert x l' else l
  end.

Fixpoint shard_names (weight_map : list (bytes * doc)) (shards : list bytes) : run (list bytes) :=
  match weight_map with
  | [] => Ret shards
  | (_, d) :: weight_map => let* s := GetString d in shard_names weight_map (set_insert (c_str s) shards)
  end.

Definition index_path (dir : bytes) : bytes := dir ++ go "/model.safetensors.index.json".

Definition index_shards (dir : bytes) : run (result bytes (list bytes)) :=
  match read_file (index_path dir) with
  | None => Ret (Ok [go "model.safetensors"])
  | Some text =>
      match Parse (c_str text) with
      | None => Ret (Err (go "invalid safetensors index: " ++ index_path dir))
      | Some root =>
          let* has := HasMember root (go "weight_map") in
          if negb has then Ret (Err (go "invalid safetensors index: " ++ index_path dir)) else
          let* d := member root (go "weight_map") in let* l := GetObject d in
          let* shards := shard_names l [] in Ret (Ok shards)
      end
  end.

Definition shard_path (dir shard : bytes) : bytes := dir ++ go "/" ++ shard.

Fixpoint map_shards (dir : bytes) (shards : list bytes) (tensors_ : Tensors) : run (result bytes Tensors) :=
  match shards with
  | [] => Ret (Ok tensors_)
  | shard :: shards => let? ts := MapShard tensors_ (shard_path dir shard) in map_shards dir shards ts
  end.

Definition LoadDir (dir : bytes) : run (result bytes Tensors) :=
  let? shards := index_shards dir in map_shards dir shards ∅.

(** *** The upload *)

(** The element a word of the file becomes: itself, or the float with its value. *)
Definition bf16 (w : Z) : Z := w.
Definition Bf16ToFloat (w : Z) : Z := Z.shiftl w 16.

Fixpoint total_numel (st : Tensors) (names : list bytes) (total : Z) : result bytes Z :=
  match names with
  | [] => Ok total
  | name :: names => let! t := Get st name in total_numel st names (size_t (total + Numel (shape t)))
  end.

(** [DeviceBuffer::Upload] of [xs] at an offset; outside of the buffer it fails. *)
Definition Upload (buf : list Z) (xs : list Z) (off : Z) : run (list Z) :=
  if (off + len xs <=? len buf)%Z then Ret (take (Z.to_nat off) buf ++ xs ++ drop (Z.to_nat (off + len xs)) buf) else Panic.

(** A negative number of elements ends the process. *)
Fixpoint upload_all (conv : Z -> Z) (st : Tensors) (names : list bytes) (off : Z) (d : list Z) : run (result bytes (list Z)) :=
  match names with
  | [] => Ret (Ok d)
  | name :: names =>
      match Get st name with
      | Err e => Ret (Err e)
      | Ok t =>
          let count := Numel (shape t) in
          if (count <? 0)%Z then Panic else
          let* bs := read_bytes (file t) (data t) (2 * count) in
          let* d := Upload d (conv <$> u16s bs) off in
          upload_all conv st names (size_t (off + count)) d
      end
  end.

(** Device memory is allocated with any contents, [junk]. *)
Definition UploadTensors (conv : Z -> Z) (junk : Z) (st : Tensors) (names : list bytes) : run (result bytes (list Z)) :=
  match total_numel st names 0 with
  | Err e => Ret (Err e)
  | Ok total => upload_all conv st names 0 (replicate (Z.to_nat total) junk)
  end.

(** *** The weights *)
Record Layer := {
  w_qkv : list Z; w_o_proj : list Z; w_q_norm : list Z; w_k_norm : list Z; w_gateup : list Z; w_down : list Z;
  w_in_norm : list Z; w_post_norm : list Z;
}.

Record Weights := {
  w_embed : list Z; w_fnorm : list Z; w_lm_head : list Z; w_cos : list float32; w_sin : list float32; w_layers : list Layer;
}.

(** [RopeTables::Build]: a row of angles for every position. A negative length is one that no
    vector has. *)
Definition rope_half : nat := Z.to_nat (Z.quot kHeadDim 2).

Definition rope_table (f : nat -> nat -> float32) (max_ctx : Z) : list float32 :=
  concat ((fun p => f p <$> seq 0 rope_half) <$> seq 0 (Z.to_nat max_ctx)).

Definition Build (max_ctx : Z) : result bytes (list float32 * list float32) :=
  if (max_ctx <? 0)%Z then Err (go "cannot create std::vector larger than max_size()")
  else Ok (rope_table rope_cos max_ctx, rope_table rope_sin max_ctx).

Definition layer_prefix (l : nat) : bytes := go "model.layers." ++ itoa (Z.of_nat l) ++ go ".".
Definition attn_name (l : nat) (n : bytes) : bytes := layer_prefix l ++ go "self_attn." ++ n.
Definition mlp_name (l : nat) (n : bytes) : bytes := layer_prefix l ++ go "mlp." ++ n.

Definition LayerWeights (junk : Z) (st : Tensors) (l : nat) : run (result bytes Layer) :=
  let? qkv := UploadTensors bf16 junk st [attn_name l (go "q_proj.weight"); attn_name l (go "k_proj.weight"); attn_name l (go "v_proj.weight")] in
  let? o_proj := UploadTensors bf16 junk st [attn_name l (go "o_proj.weight")] in
  let? q_norm := UploadTensors Bf16ToFloat junk st [attn_name l (go "q_norm.weight")] in
  let? k_norm := UploadTensors Bf16ToFloat junk st [attn_name l (go "k_norm.weight")] in
  let? gateup := UploadTensors bf16 junk st [mlp_name l (go "gate_proj.weight"); mlp_name l (go "up_proj.weight")] in
  let? down := UploadTensors bf16 junk st [mlp_name l (go "down_proj.weight")] in
  let? in_norm := UploadTensors Bf16ToFloat junk st [layer_prefix l ++ go "input_layernorm.weight"] in
  let? post_norm := UploadTensors Bf16ToFloat junk st [layer_prefix l ++ go "post_attention_layernorm.weight"] in
  Ret (Ok {| w_qkv := qkv; w_o_proj := o_proj; w_q_norm := q_norm; w_k_norm := k_norm; w_gateup := gateup; w_down := down;
             w_in_norm := in_norm; w_post_norm := post_norm |}).

Fixpoint all_layers (junk : Z) (st : Tensors) (ls : list nat) : run (result bytes (list Layer)) :=
  match ls with
  | [] => Ret (Ok [])
  | l :: ls => let? w := LayerWeights junk st l in let? ws := all_layers junk st ls in Ret (Ok (w :: ws))
  end.

Definition ModelWeights (junk : Z) (dir : bytes) (max_ctx : Z) : run (result bytes Weights) :=
  let? st := LoadDir dir in
  let? embed := UploadTensors bf16 junk st [go "model.embed_tokens.weight"] in
  let? fnorm := UploadTensors Bf16ToFloat junk st [go "model.norm.weight"] in
  let? lm_head := UploadTensors bf16 junk st [go "lm_head.weight"] in
  let? (cos, sin) := Ret (Build max_ctx) in
  let? layers := all_layers junk st (seq 0 kNumLayers) in
  Ret (Ok {| w_embed := embed; w_fnorm := fnorm; w_lm_head := lm_head; w_cos := cos; w_sin := sin; w_layers := layers |}).

End load.

(** ** The format *)

(** A tensor of a checkpoint: its elements are the BF16 words. *)
Record Tensor := { tn_name : bytes; tn_dtype : bytes; tn_shape : list Z; tn_elems : list Z }.

#[export] Instance tensor_eq_dec : EqDecision Tensor.
Proof. solve_decision. Defined.

Definition tensor_data (t : Tensor) : bytes := concat (le_encode 2 <$> tn_elems t).

Definition plain (s : bytes) : Prop := x00 ∉ s.

Record tensor_ok (t : Tensor) : Prop := {
  to_name : plain (tn_name t) /\ tn_name t <> go "__metadata__";
  to_shape : Forall (fun d => 0 < d)%Z (tn_shape t) /\ foldr Z.mul 1%Z (tn_shape t) = len (tn_elems t);
  to_elems : Forall (fun w => 0 <= w < 65536)%Z (tn_elems t);
  to_dtype : tn_dtype t = go "BF16";
}.

(** The entry of a tensor whose data is at an offset. *)
Definition tensor_meta (off : Z) (t : Tensor) : doc :=
  DObject [(go "dtype", DString (tn_dtype t)); (go "shape", DArray (DInt <$> tn_shape t));
           (go "data_offsets", DArray [DInt off; DInt (off + len (tensor_data t))])].

Fixpoint entries (off : Z) (ts : list Tensor) : list (bytes * doc) :=
  match ts with
  | [] => []
  | t :: ts => (tn_name t, tensor_meta off t) :: entries (off + len (tensor_data t)) ts
  end.

Record Shard := { sh_header : bytes; sh_metadata : option doc; sh_tensors : list Tensor }.

Definition shard_members (s : Shard) : list (bytes * doc) :=
  match sh_metadata s with Some d => [(go "__metadata__", d)] | None => [] end ++ entries 0 (sh_tensors s).

(** The length of the header, the header, the data of the tensors in order. *)
Definition shard_file (s : Shard) : bytes :=
  le_encode 8 (len (sh_header s)) ++ sh_header s ++ concat (tensor_data <$> sh_tensors s).

Definition tensors_in (ck : list (bytes * Shard)) : list Tensor := ck ≫= fun p => sh_tensors (snd p).

Section format.
Context (Parse : bytes -> option doc) (ParseN : bytes -> Z -> run (option doc)) (read_file : bytes -> option bytes).

(** The header is a text of the entries; a file has less than [2^60] bytes. *)
Record shard_ok (s : Shard) : Prop := {
  so_tensors : Forall tensor_ok (sh_tensors s);
  so_size : (len (shard_file s) < 2 ^ 60)%Z;
  so_header : forall rest, ParseN (sh_header s ++ rest) (len (sh_header s)) = Ret (Some (DObject (shard_members s)));
}.

(** The shards of a directory: those of the index, or one of a fixed name. *)
Definition indexed (dir : bytes) (names : list bytes) : Prop :=
  match read_file (index_path dir) with
  | None => names = [go "model.safetensors"]
  | Some text => exists l wm, Parse (c_str text) = Some (DObject l) /\ FindMember l (go "weight_map") = Some (DObject wm) /\
      (forall k d, (k, d) ∈ wm -> exists n, d = DString n /\ n ∈ names) /\ (forall n, n ∈ names -> plain n /\ exists k, (k, DString n) ∈ wm)
  end.

(** The shards of a directory by their names; no two tensors have the same name. *)
Record checkpoint (dir : bytes) (ck : list (bytes * Shard)) : Prop := {
  ck_index : indexed dir (fst <$> ck);
  ck_files : forall n s, (n, s) ∈ ck -> read_file (shard_path dir n) = Some (shard_file s) /\ shard_ok s;
  ck_nodup : NoDup (fst <$> ck);
  ck_unique : forall t u, t ∈ tensors_in ck -> u ∈ tensors_in ck -> tn_name t = tn_name u -> t = u;
}.

End format.

(** The elements under a name. *)
Definition elems (ck : list (bytes * Shard)) (name : bytes) : list Z :=
  match list_find (fun t => tn_name t = name) (tensors_in ck) with Some (_, t) => tn_elems t | None => [] end.

(** The names of the weights of a layer, and of all. *)
Definition layer_names (l : nat) : list bytes :=
  (attn_name l <$> [go "q_proj.weight"; go "k_proj.weight"; go "v_proj.weight"; go "o_proj.weight"; go "q_norm.weight"; go "k_norm.weight"]) ++
  (mlp_name l <$> [go "gate_proj.weight"; go "up_proj.weight"; go "down_proj.weight"]) ++
  [layer_prefix l ++ go "input_layernorm.weight"; layer_prefix l ++ go "post_attention_layernorm.weight"].

Definition weight_names : list bytes :=
  [go "model.embed_tokens.weight"; go "model.norm.weight"; go "lm_head.weight"] ++ concat (layer_names <$> seq 0 kNumLayers).

(** The weights of a model, by the elements of its tensors. *)
Definition layer_of (e : bytes -> list Z) (l : nat) : Layer :=
  {| w_qkv := e (attn_name l (go "q_proj.weight")) ++ e (attn_name l (go "k_proj.weight")) ++ e (attn_name l (go "v_proj.weight"));
     w_o_proj := e (attn_name l (go "o_proj.weight"));
     w_q_norm := Bf16ToFloat <$> e (attn_name l (go "q_norm.weight")); w_k_norm := Bf16ToFloat <$> e (attn_name l (go "k_norm.weight"));
     w_gateup := e (mlp_name l (go "gate_proj.weight")) ++ e (mlp_name l (go "up_proj.weight"));
     w_down := e (mlp_name l (go "down_proj.weight"));
     w_in_norm := Bf16ToFloat <$> e (layer_prefix l ++ go "input_layernorm.weight");
     w_post_norm := Bf16ToFloat <$> e (layer_prefix l ++ go "post_attention_layernorm.weight") |}.

Definition weights_of (rope_cos rope_sin : nat -> nat -> float32) (e : bytes -> list Z) (max_ctx : Z) : Weights :=
  {| w_embed := e (go "model.embed_tokens.weight"); w_fnorm := Bf16ToFloat <$> e (go "model.norm.weight"); w_lm_head := e (go "lm_head.weight");
     w_cos := rope_table rope_cos max_ctx; w_sin := rope_table rope_sin max_ctx; w_layers := layer_of e <$> seq 0 kNumLayers |}.

(** ** Lemmas on bytes *)
Lemma length_le_encode n z : length (le_encode n z) = n.
Proof. revert z. induction n as [|n IH]; intros z; cbn [le_encode length]; [done|]. by rewrite IH. Qed.

Lemma bz_mod z : bz (byte_of_Z z) = (z mod 256)%Z.
Proof.
  assert (byte_of_Z z = byte_of_Z (z mod 256)) as -> by (unfold byte_of_Z; by rewrite Z.mod_mod).
  apply bz_byte_of_Z. by apply Z.mod_pos_bound.
Qed.

Lemma le_decode_encode n z : (0 <= z < 256 ^ Z.of_nat n)%Z -> le_decode (le_encode n z) = z.
Proof.
  revert z. induction n as [|n IH]; intros z Hz; cbn [le_encode le_decode]; [cbn in Hz; lia|].
  rewrite Nat2Z.inj_succ, Z.pow_succ_r in Hz by lia. rewrite IH, bz_mod; [rewrite (Z.div_mod z 256) at 3; lia|].
  split; [apply Z.div_pos; lia|]. apply Z.div_lt_upper_bound; lia.
Qed.

Lemma u16s_encode l : Forall (fun w => 0 <= w < 65536)%Z l -> u16s (concat (le_encode 2 <$> l)) = l.
Proof.
  induction 1 as [|w l Hw _ IH]; [done|].
  change (u16s _) with ((bz (byte_of_Z w) + 256 * bz (byte_of_Z (w / 256)))%Z :: u16s (concat (le_encode 2 <$> l))). rewrite IH, !bz_mod. f_equal.
  rewrite (Z.mod_small (w / 256)) by (split; [apply Z.div_pos; lia|apply Z.div_lt_upper_bound; lia]). rewrite (Z.div_mod w 256) at 3; lia.
Qed.

Lemma len_tensor_data t : len (tensor_data t) = (2 * len (tn_elems t))%Z.
Proof.
  unfold tensor_data, len. induction (tn_elems t) as [|w l IH]; [done|]. rewrite fmap_cons, concat_cons, length_app, length_le_encode, Nat2Z.inj_add, IH.
  cbn [length]. lia.
Qed.

Lemma c_str_plain s : plain s -> c_str s = s.
Proof.
  unfold plain. induction s as [|b s IH]; [done|]. rewrite not_elem_of_cons. intros [Hb Hs]. cbn [c_str].
  destruct (Byte.eqb b x00) eqn:E; [by apply Byte.byte_dec_bl in E|]. by rewrite IH.
Qed.

(** A read inside of the file. *)
Lemma read_inside f a b c : f = a ++ b ++ c -> read_bytes f (len a) (len b) = Ret b.
Proof.
  intros ->. unfold read_bytes. destruct (Z.eqb_spec (len b) 0) as [E|_]; [destruct b; [done|unfold len in E; cbn in E; lia]|].
  unfold mapping. rewrite (proj2 (Z.leb_le 0 (len a))) by (unfold len; lia).
  rewrite (proj2 (Z.leb_le _ _)) by (unfold len; rewrite !length_app; lia). cbn [andb]. unfold len. rewrite !Nat2Z.id, <- app_assoc, drop_app_length.
  by rewrite <- app_assoc, take_app_length.
Qed.

(** ** Lemmas on shapes *)
Lemma foldr_mul_pos (l : list Z) : Forall (fun d => 0 < d)%Z l -> (0 < foldr Z.mul 1 l)%Z.
Proof. induction 1; cbn; lia. Qed.

Lemma foldl_mul_int64 (l : list Z) n : Forall (fun d => 0 < d)%Z l -> (0 < n)%Z -> (n * foldr Z.mul 1 l < 2 ^ 63)%Z ->
  foldl (fun n s => int64 (n * s)) n l = (n * foldr Z.mul 1 l)%Z.
Proof.
  intros H. revert n. induction H as [|d l Hd Hl IH]; intros n Hn Hb; cbn [foldl foldr] in *; [lia|].
  pose proof (foldr_mul_pos l Hl) as Hp. assert (int64 (n * d) = n * d)%Z as -> by (apply wrap_id; [done|]; unfold in_int; nia).
  rewrite IH by nia. lia.
Qed.

Lemma Numel_ok t : tensor_ok t -> (len (tn_elems t) < 2 ^ 63)%Z -> Numel (tn_shape t) = len (tn_elems t).
Proof. intros [_ [Hs Hp] _ _] Hb. unfold Numel. rewrite foldl_mul_int64; rewrite ?Hp; try lia; done. Qed.

(** ** Reading a shard *)

(** The view of a tensor: its shape, and its data where the view points. *)
Definition holds (m : Tensors) (t : Tensor) : Prop :=
  exists v, m !! tn_name t = Some v /\ shape v = tn_shape t /\ read_bytes (file v) (data v) (2 * len (tn_elems t)) = Ret (tensor_data t).

Lemma int64s_ints l : Forall (fun d => in_int 64 d) l -> int64s (DInt <$> l) = Ret l.
Proof. induction 1 as [|d l Hd _ IH]; [done|]. cbn [fmap list_fmap int64s GetInt64]. rewrite bool_decide_true by done. cbn [run_bind]. by rewrite IH. Qed.

Lemma le_foldr_mul (l : list Z) : Forall (fun d => 0 < d)%Z l -> Forall (fun d => 0 < d <= foldr Z.mul 1 l)%Z l.
Proof.
  induction 1 as [|d l Hd Hl IH]; [done|]. pose proof (foldr_mul_pos l Hl). cbn [foldr]. constructor; [nia|].
  eapply Forall_impl; [exact IH|]. cbn. nia.
Qed.

Lemma size_t_id z : (0 <= z < 2 ^ 64)%Z -> size_t z = z.
Proof. apply Z.mod_small. Qed.

Lemma tensor_of_ok f pre post db off t : f = pre ++ tensor_data t ++ post -> len pre = (db + off)%Z -> (0 <= db)%Z -> (0 <= off)%Z ->
  (len f < 2 ^ 60)%Z -> tensor_ok t ->
  exists v, tensor_of f db (tensor_meta off t) = Ret v /\ shape v = tn_shape t /\
    read_bytes (file v) (data v) (2 * len (tn_elems t)) = Ret (tensor_data t).
Proof.
  intros Hf Hp Hdb Hoff Hs [_ [Hsh Hn] _ _]. assert (len f = len pre + (2 * len (tn_elems t) + len post))%Z as El.
  { rewrite <- len_tensor_data, Hf. unfold len. rewrite !length_app. lia. }
  assert (0 <= len (tn_elems t) /\ 0 <= len post)%Z as [? ?] by (unfold len; lia).
  unfold tensor_of, tensor_meta. cbn [member GetObject run_bind].
  assert (forall a b c, FindMember [(go "dtype", a); (go "shape", b); (go "data_offsets", c)] (go "dtype") = Some a /\
    FindMember [(go "dtype", a); (go "shape", b); (go "data_offsets", c)] (go "shape") = Some b /\
    FindMember [(go "dtype", a); (go "shape", b); (go "data_offsets", c)] (go "data_offsets") = Some c) as HF by by repeat split.
  destruct (HF (DString (tn_dtype t)) (DArray (DInt <$> tn_shape t)) (DArray [DInt off; DInt (off + len (tensor_data t))])) as (-> & -> & ->).
  cbn [run_bind GetString GetArray]. rewrite int64s_ints.
  2: { eapply Forall_impl; [apply le_foldr_mul, Hsh|]. cbn. intros d. rewrite Hn. unfold in_int. lia. }
  cbn [run_bind element GetArray index_at lookup list_lookup GetInt64]. rewrite len_tensor_data, !bool_decide_true by (unfold in_int; lia).
  cbn [run_bind].
  eexists. split; [done|]. cbn [shape file data]. split; [done|]. rewrite <- len_tensor_data, size_t_id by lia. rewrite <- Hp. by eapply read_inside.
Qed.

Lemma add_entries_ok f post db ts : (0 <= db)%Z -> (len f < 2 ^ 60)%Z -> Forall tensor_ok ts -> forall pre off m,
  f = pre ++ concat (tensor_data <$> ts) ++ post -> len pre = (db + off)%Z -> (0 <= off)%Z ->
  exists m', add_tensors f db (entries off ts) m = Ret m' /\
    (forall t, t ∈ ts -> (forall u, u ∈ ts -> tn_name t = tn_name u -> t = u) -> holds m' t) /\
    (forall n, n ∉ tn_name <$> ts -> m' !! n = m !! n).
Proof.
  intros Hdb Hs. induction 1 as [|t ts Ht Hts IH]; intros pre off m Hf Hp Hoff; cbn [entries add_tensors].
  { exists m. split; [done|]. split; [intros t []%not_elem_of_nil|done]. }
  rewrite fmap_cons, concat_cons in Hf. destruct (to_name t Ht) as [Hpl Hne]. rewrite c_str_plain, bool_decide_false by done.
  destruct (tensor_of_ok f pre (concat (tensor_data <$> ts) ++ post) db off t) as (v & -> & Hv); [by rewrite Hf, <- !app_assoc|done..|]. cbn [run_bind].
  destruct (IH (pre ++ tensor_data t) (off + len (tensor_data t)) (<[tn_name t := v]> m))%Z as (m' & E & H1 & H2);
    [by rewrite Hf, <- !app_assoc|unfold len in *; rewrite length_app; lia|unfold len; lia|]. exists m'. split; [done|]. split.
  - intros u Hu Hun. destruct (decide (u ∈ ts)) as [Hin|Hnin]; [apply H1; [done|]; intros w Hw; apply Hun; by right|].
    apply elem_of_cons in Hu as [-> |]; [|done]. exists v. rewrite H2; [by rewrite lookup_insert_eq|].
    intros (w & Ew & Hw)%list_elem_of_fmap. rewrite (Hun w) in Hnin; [done|by right|done].
  - intros n Hn. rewrite fmap_cons, not_elem_of_cons in Hn. destruct Hn as [Hn1 Hn2]. rewrite H2 by done. by rewrite lookup_insert_ne.
Qed.

(** ** Reading a directory *)
Lemma bytes_ltb_total s t : bytes_ltb s t = false -> bytes_ltb t s = false -> s = t.
Proof.
  revert t. induction s as [|a s IH]; intros [|b t]; cbn [bytes_ltb]; try done.
  destruct (Z.ltb_spec (bz a) (bz b)), (Z.ltb_spec (bz b) (bz a)), (Z.eqb_spec (bz a) (bz b)), (Z.eqb_spec (bz b) (bz a)); cbn; try done; try lia.
  intros H1 H2. f_equal; [by apply bz_inj|by apply IH].
Qed.

Lemma elem_of_set_insert x y l : x ∈ set_insert y l <-> x = y \/ x ∈ l.
Proof.
  induction l as [|z l IH]; cbn [set_insert]; [by rewrite list_elem_of_singleton, elem_of_nil; tauto|].
  destruct (bytes_ltb y z) eqn:E1; [by rewrite elem_of_cons|]. destruct (bytes_ltb z y) eqn:E2; rewrite !elem_of_cons; [rewrite IH; tauto|].
  rewrite (bytes_ltb_total y z) by done. tauto.
Qed.

Section directory.
Context (Parse : bytes -> option doc) (ParseN : bytes -> Z -> run (option doc)) (read_file : bytes -> option bytes).

#[local] Notation MapShard := (MapShard ParseN read_file).

(** The views are those of the tensors of a list, and of another map. *)
Definition adds (ts : list Tensor) (m m' : Tensors) : Prop :=
  (forall t, t ∈ ts -> (forall u, u ∈ ts -> tn_name t = tn_name u -> t = u) -> holds m' t) /\
  (forall n, n ∉ tn_name <$> ts -> m' !! n = m !! n).

Lemma add_members_ok f db s post pre m : f = pre ++ concat (tensor_data <$> sh_tensors s) ++ post -> len pre = db ->
  (len f < 2 ^ 60)%Z -> Forall tensor_ok (sh_tensors s) ->
  exists m', add_tensors f db (shard_members s) m = Ret m' /\ adds (sh_tensors s) m m'.
Proof using Type.
  intros Hf Hp Hs Ht. assert (add_tensors f db (shard_members s) m = add_tensors f db (entries 0 (sh_tensors s)) m) as ->.
  { unfold shard_members. destruct (sh_metadata s); [|done]. cbn [app add_tensors]. by rewrite bool_decide_true by by vm_compute. }
  apply (add_entries_ok f post db (sh_tensors s)) with (pre := pre); [unfold len in *; lia|done|done|done|lia|done].
Qed.

Lemma MapShard_ok s path m : shard_ok ParseN s -> read_file path = Some (shard_file s) ->
  exists m', MapShard m path = Ret (Ok m') /\ adds (sh_tensors s) m m'.
Proof using Type.
  intros [Ht Hs Hh] Hf. unfold SafeTensors.MapShard. rewrite Hf.
  assert (0 <= len (sh_header s))%Z by (unfold len; lia).
  assert (len (shard_file s) = 8 + len (sh_header s) + len (concat (tensor_data <$> sh_tensors s)))%Z as El.
  { unfold shard_file, len. rewrite !length_app, length_le_encode. lia. }
  assert (0 <= len (concat (tensor_data <$> sh_tensors s)))%Z by (unfold len; lia).
  assert (read_bytes (shard_file s) 0 8 = Ret (le_encode 8 (len (sh_header s)))) as Eh.
  { by apply (read_inside _ [] (le_encode 8 (len (sh_header s))) (sh_header s ++ concat (tensor_data <$> sh_tensors s))). }
  destruct (shard_file s) as [|b f] eqn:E; [unfold len at 1 in El; cbn in El; lia|]. rewrite <- E in *. rewrite Eh. cbn [run_bind].
  rewrite le_decode_encode, size_t_id by (cbn; lia).
  assert (exists rest, drop 8 (mapping (shard_file s)) = sh_header s ++ rest) as [rest ->].
  { unfold mapping, shard_file. rewrite <- !app_assoc. eexists. by rewrite drop_app_length' by by rewrite length_le_encode. }
  rewrite Hh. cbn [run_bind].
  destruct (add_members_ok (shard_file s) (8 + len (sh_header s)) s [] (le_encode 8 (len (sh_header s)) ++ sh_header s) m) as (m' & -> & Ha); try done.
  { unfold shard_file. by rewrite app_nil_r, <- app_assoc. }
  { unfold len. rewrite length_app, length_le_encode. lia. }
  by exists m'.
Qed.

Lemma shard_names_ok wm shards : (forall k d, (k, d) ∈ wm -> exists n, d = DString n /\ plain n) ->
  exists l, shard_names wm shards = Ret l /\ forall n, n ∈ l <-> n ∈ shards \/ exists k, (k, DString n) ∈ wm.
Proof using Type.
  revert shards. induction wm as [|[k d] wm IH]; intros shards H; cbn [shard_names].
  { exists shards. split; [done|]. intros n. split; [by left|]. intros [?|[k []%not_elem_of_nil]]; done. }
  destruct (H k d) as (n & -> & Hn); [left|]. cbn [GetString run_bind]. rewrite c_str_plain by done.
  destruct (IH (set_insert n shards)) as (l & E & Hl); [intros k' d' Hk; apply (H k' d'); by right|]. exists l. split; [done|]. intros x.
  rewrite Hl, elem_of_set_insert. split.
  - intros [[-> |Hx]|[k' Hk]]; [right; exists k; left|by left|right; exists k'; by right].
  - intros [Hx|[k' [[= -> ->]|Hk]%elem_of_cons]]; [by left; right|by left; left|right; by exists k'].
Qed.

Lemma index_ok dir names : indexed Parse read_file dir names ->
  exists l, index_shards Parse read_file dir = Ret (Ok l) /\ forall n, n ∈ l <-> n ∈ names.
Proof using Type.
  unfold indexed, index_shards. destruct (read_file (index_path dir)) as [text|].
  - intros (l & wm & -> & Hf & H1 & H2). unfold HasMember, member. cbn [GetObject run_bind]. rewrite Hf. cbn [negb run_bind GetObject].
    destruct (shard_names_ok wm []) as (ns & -> & Hns).
    { intros k d Hk. destruct (H1 k d Hk) as (n & -> & Hn). destruct (H2 n Hn) as [? _]. eauto. }
    exists ns. split; [done|]. intros n. rewrite Hns, elem_of_nil. split.
    + intros [[]|[k Hk]]. destruct (H1 k _ Hk) as (? & [= <-] & ?). done.
    + intros Hn. right. by apply H2.
  - intros ->. by exists [go "model.safetensors"].
Qed.

Context (dir : bytes) (ck : list (bytes * Shard)) (Hck : checkpoint Parse ParseN read_file dir ck).

Lemma in_checkpoint n s t : (n, s) ∈ ck -> t ∈ sh_tensors s -> t ∈ tensors_in ck.
Proof using Type.
  intros Hs Ht. unfold tensors_in. apply list_elem_of_bind. by exists (n, s).
Qed.

Lemma shard_unique n s s' : (n, s) ∈ ck -> (n, s') ∈ ck -> s = s'.
Proof using Hck.
  intros [i Hi]%list_elem_of_lookup [j Hj]%list_elem_of_lookup. pose proof (ck_nodup _ _ _ _ _ Hck) as Hn.
  assert (i = j) as <- by (eapply (NoDup_lookup _ i j n Hn); by rewrite list_lookup_fmap, ?Hi, ?Hj). rewrite Hi in Hj. by injection Hj.
Qed.

Lemma adds_holds n s m m' : (n, s) ∈ ck -> adds (sh_tensors s) m m' ->
  (forall t, t ∈ sh_tensors s -> holds m' t) /\ (forall t, t ∈ tensors_in ck -> holds m t -> holds m' t).
Proof using Hck.
  intros Hs [H1 H2]. assert (forall t, t ∈ sh_tensors s -> holds m' t) as H3.
  { intros t Ht. apply H1; [done|]. intros u Hu. by apply (ck_unique _ _ _ _ _ Hck); eapply in_checkpoint. }
  split; [done|]. intros t Ht (v & Hv & Hr). destruct (decide (tn_name t ∈ tn_name <$> sh_tensors s)) as [(u & Eu & Hu)%list_elem_of_fmap|Hn].
  - assert (t = u) as -> by (apply (ck_unique _ _ _ _ _ Hck); [done|by eapply in_checkpoint|done]). by apply H3.
  - exists v. by rewrite H2.
Qed.

Lemma map_shards_ok ns m : (forall n, n ∈ ns -> n ∈ fst <$> ck) ->
  exists m', map_shards ParseN read_file dir ns m = Ret (Ok m') /\ (forall t, t ∈ tensors_in ck -> holds m t -> holds m' t) /\
    (forall n s t, n ∈ ns -> (n, s) ∈ ck -> t ∈ sh_tensors s -> holds m' t).
Proof using Hck.
  revert m. induction ns as [|n ns IH]; intros m Hns; cbn [map_shards].
  { exists m. split; [done|]. split; [done|]. intros n s t []%not_elem_of_nil. }
  destruct (proj1 (list_elem_of_fmap _ _ _) (Hns n ltac:(left))) as ([n' s] & -> & Hs). cbn [fst] in *.
  destruct (ck_files _ _ _ _ _ Hck n' s Hs) as [Hf Hok]. destruct (MapShard_ok s _ m Hok Hf) as (m1 & -> & Ha). cbn [try_bind].
  destruct (adds_holds n' s m m1 Hs Ha) as [H1 H2]. destruct (IH m1) as (m2 & E & H3 & H4); [intros x Hx; apply Hns; by right|].
  exists m2. split; [done|]. split; [by auto|]. intros x s' t [-> |Hx]%elem_of_cons Hs' Ht; [|by eapply H4].
  rewrite (shard_unique n' s' s) in Ht by done. apply H3; [by apply (in_checkpoint n' s)|by apply H1].
Qed.

Lemma LoadDir_ok : exists m, LoadDir Parse ParseN read_file dir = Ret (Ok m) /\ forall t, t ∈ tensors_in ck -> holds m t.
Proof using Hck.
  unfold LoadDir. destruct (index_ok dir _ (ck_index _ _ _ _ _ Hck)) as (ns & -> & Hns). cbn [try_bind].
  destruct (map_shards_ok ns ∅) as (m & -> & _ & H); [intros n; apply Hns|]. exists m. split; [done|].
  intros t ([n s] & Ht & Hs)%list_elem_of_bind. eapply H; [|done|done]. apply Hns, list_elem_of_fmap. by exists (n, s).
Qed.

(** ** The upload *)

(** A tensor of a name that is there. *)
Lemma elems_ok m name : (forall t, t ∈ tensors_in ck -> holds m t) -> name ∈ tn_name <$> tensors_in ck ->
  exists t v, t ∈ tensors_in ck /\ elems ck name = tn_elems t /\ Get m name = Ok v /\ shape v = tn_shape t /\
    read_bytes (file v) (data v) (2 * len (tn_elems t)) = Ret (tensor_data t).
Proof using Type.
  intros H (u & -> & Hu)%list_elem_of_fmap. unfold elems. destruct (list_find _ _) as [[i t]|] eqn:E.
  - apply list_find_Some in E as (Ht & En & _). apply list_elem_of_lookup_2 in Ht. destruct (H t Ht) as (v & Hv & Hr). rewrite En in Hv.
    exists t, v. unfold Get. by rewrite Hv.
  - apply list_find_None in E. rewrite Forall_forall in E. by destruct (E u Hu).
Qed.

(** The elements of all tensors of a list of names, one after the other. *)
Definition fused (names : list bytes) : list Z := concat (elems ck <$> names).

Lemma elems_bound name : name ∈ tn_name <$> tensors_in ck -> (0 <= len (elems ck name) < 2 ^ 60)%Z.
Proof using Hck.
  intros (u & -> & Hu)%list_elem_of_fmap. unfold elems. destruct (list_find _ _) as [[i t]|] eqn:E; [|done].
  apply list_find_Some in E as (Ht & _). apply list_elem_of_lookup_2, list_elem_of_bind in Ht as ([n s] & Ht & Hs).
  destruct (ck_files _ _ _ _ _ Hck n s Hs) as [_ [_ Hb _]]. cbn [snd] in Ht. apply list_elem_of_split in Ht as (l1 & l2 & E).
  split; [unfold len; lia|]. eapply Z.le_lt_trans; [|exact Hb]. transitivity (len (tensor_data t)); [rewrite len_tensor_data; unfold len; lia|].
  unfold shard_file. rewrite E, fmap_app, fmap_cons, concat_app, concat_cons. unfold len. rewrite !length_app. lia.
Qed.

Section upload.
Context (m : Tensors) (Hm : forall t, t ∈ tensors_in ck -> holds m t).

Lemma get_ok name : name ∈ tn_name <$> tensors_in ck -> exists v, Get m name = Ok v /\ Numel (shape v) = len (elems ck name) /\
  exists bs, read_bytes (file v) (data v) (2 * len (elems ck name)) = Ret bs /\ u16s bs = elems ck name.
Proof using Hck Hm.
  intros Hn. pose proof (elems_bound name Hn) as Hb. destruct (elems_ok m name Hm Hn) as (t & v & Ht & E & Hg & Hs & Hr).
  assert (tensor_ok t) as Hok.
  { apply list_elem_of_bind in Ht as ([n s] & Ht & Hs'). destruct (ck_files _ _ _ _ _ Hck n s Hs') as [_ [H _ _]].
    rewrite Forall_forall in H. by apply H. }
  exists v. rewrite E in *. split; [done|]. rewrite Hs. split; [apply Numel_ok; [done|lia]|]. exists (tensor_data t). split; [done|].
  apply u16s_encode, to_elems, Hok.
Qed.

Lemma total_ok names total : Forall (fun n => n ∈ tn_name <$> tensors_in ck) names -> (0 <= total)%Z ->
  (total + len (fused names) < 2 ^ 64)%Z -> total_numel m names total = Ok (total + len (fused names))%Z.
Proof using Hck Hm.
  intros H. revert total. induction H as [|n names Hn H IH]; intros total Ht Hb; cbn [total_numel]; [f_equal; unfold len; cbn; lia|].
  destruct (get_ok n Hn) as (v & -> & En & _). cbn [rbind]. rewrite En.
  assert (len (fused (n :: names)) = len (elems ck n) + len (fused names))%Z as El by (unfold fused, len; rewrite fmap_cons, concat_cons, length_app; lia).
  rewrite El in Hb. assert (0 <= len (elems ck n) /\ 0 <= len (fused names))%Z as [? ?] by (unfold len; lia). rewrite size_t_id, IH by lia. f_equal. lia.
Qed.

Lemma upload_all_ok conv names done rest : Forall (fun n => n ∈ tn_name <$> tensors_in ck) names -> length rest = length (fused names) ->
  (len done + len rest < 2 ^ 64)%Z ->
  upload_all conv m names (len done) (done ++ rest) = Ret (Ok (done ++ (conv <$> fused names))).
Proof using Hck Hm.
  intros H. revert done rest. induction H as [|n names Hn H IH]; intros done rest El Hb; cbn [upload_all].
  { destruct rest; [done|by cbn in El]. }
  destruct (get_ok n Hn) as (v & -> & -> & bs & -> & Hu). destruct (Z.ltb_spec (len (elems ck n)) 0) as [?|_]; [unfold len in *; lia|].
  cbn [run_bind]. rewrite Hu. unfold fused in *. rewrite fmap_cons, concat_cons in *. rewrite length_app in El. unfold Upload, len in *.
  rewrite (proj2 (Z.leb_le _ _)) by (rewrite length_app, length_fmap; lia). cbn [run_bind]. rewrite Nat2Z.id, take_app_length, length_fmap, size_t_id by lia.
  replace (Z.to_nat (Z.of_nat (length done) + Z.of_nat (length (elems ck n)))) with (length done + length (elems ck n))%nat by lia.
  rewrite drop_app_add, <- Nat2Z.inj_add. specialize (IH (done ++ (conv <$> elems ck n)) (drop (length (elems ck n)) rest)).
  rewrite <- !app_assoc, length_app, length_fmap, length_drop in IH. rewrite IH by lia. by rewrite fmap_app.
Qed.

Lemma UploadTensors_ok conv junk names : Forall (fun n => n ∈ tn_name <$> tensors_in ck) names -> (length names <= 8)%nat ->
  UploadTensors conv junk m names = Ret (Ok (conv <$> fused names)).
Proof using Hck Hm.
  intros H Hl. assert (len (fused names) <= len names * 2 ^ 60)%Z as Hb.
  { clear Hl. induction H as [|n names Hn H IH]; [done|]. unfold fused, len in *. rewrite fmap_cons, concat_cons, length_app. cbn [length].
    pose proof (elems_bound n Hn). unfold len in *. lia. }
  assert (len names <= 8)%Z by (unfold len; lia). unfold UploadTensors. rewrite total_ok by (done || lia).
  assert (0 <= len (fused names))%Z by (unfold len; lia). rewrite Z.add_0_l.
  apply (upload_all_ok conv names [] (replicate (Z.to_nat (len (fused names))) junk)); [done| |]; unfold len in *; rewrite length_replicate; cbn [length]; lia.
Qed.

End upload.
End directory.

(** ** The weights *)
Lemma fmap_bf16 (l : list Z) : bf16 <$> l = l.
Proof. induction l as [|w l IH]; [done|]. rewrite fmap_cons. by rewrite IH. Qed.

Section weights.
Context (Parse : bytes -> option doc) (ParseN : bytes -> Z -> run (option doc)) (read_file : bytes -> option bytes).
Context (dir : bytes) (ck : list (bytes * Shard)) (Hck : checkpoint Parse ParseN read_file dir ck).
Context (m : Tensors) (Hm : forall t, t ∈ tensors_in ck -> holds m t).

#[local] Ltac upload :=
  erewrite UploadTensors_ok; [cbn [try_bind]|exact Hck|exact Hm|by repeat (apply Forall_cons; split; [assumption|])|cbn [length]; lia].

Lemma LayerWeights_ok junk l : Forall (fun n => n ∈ tn_name <$> tensors_in ck) (layer_names l) ->
  LayerWeights junk m l = Ret (Ok (layer_of (elems ck) l)).
Proof using Hck Hm.
  intros H. unfold layer_names in H. cbn [fmap list_fmap app] in H. rewrite !Forall_cons in H.
  destruct H as (? & ? & ? & ? & ? & ? & ? & ? & ? & ? & ? & _). unfold LayerWeights. do 8 upload.
  unfold fused, layer_of. cbn [fmap list_fmap concat]. by rewrite !fmap_bf16, !app_nil_r.
Qed.

Lemma all_layers_ok junk ls : Forall (fun n => n ∈ tn_name <$> tensors_in ck) (concat (layer_names <$> ls)) ->
  all_layers junk m ls = Ret (Ok (layer_of (elems ck) <$> ls)).
Proof using Hck Hm.
  induction ls as [|l ls IH]; [done|]. rewrite fmap_cons, concat_cons, Forall_app. intros [H1 H2]. cbn [all_layers].
  rewrite LayerWeights_ok by done. cbn [try_bind]. by rewrite IH.
Qed.

Lemma single_ok conv junk n : n ∈ tn_name <$> tensors_in ck -> UploadTensors conv junk m [n] = Ret (Ok (conv <$> elems ck n)).
Proof using Hck Hm. intros H. upload. unfold fused. cbn [fmap list_fmap concat]. by rewrite app_nil_r. Qed.

End weights.

(** The type and the length that the header gives a tensor are not looked at, only its shape:
    elements of another type are uploaded as if they were BF16. *)
Definition relabel (ty : bytes -> bytes) (n : Z -> Z) (v : TensorView) : TensorView :=
  {| file := file v; data := data v; nbytes := n (nbytes v); shape := shape v; dtype := ty (dtype v) |}.

Lemma UploadTensors_ignores (ty : bytes -> bytes) (n conv : Z -> Z) (junk : Z) (st : Tensors) (names : list bytes) :
  UploadTensors conv junk (relabel ty n <$> st : Tensors) names = UploadTensors conv junk st names.
Proof.
  assert (forall name, Get (relabel ty n <$> st : Tensors) name = match Get st name with Ok v => Ok (relabel ty n v) | Err e => Err e end) as Hg.
  { intros name. unfold Get. rewrite lookup_fmap. by destruct (st !! name). }
  assert (forall ns t, total_numel (relabel ty n <$> st : Tensors) ns t = total_numel st ns t) as Ht.
  { induction ns as [|a ns IH]; intros t; cbn [total_numel]; [done|]. rewrite Hg. destruct (Get st a); cbn [rbind]; [|done]. apply IH. }
  unfold UploadTensors. rewrite Ht. destruct (total_numel st names 0) as [t|]; [|done]. generalize (replicate (Z.to_nat t) junk). generalize 0%Z. clear t.
  induction names as [|a ns IH]; intros off d; cbn [upload_all]; [done|]. rewrite Hg. destruct (Get st a) as [v|]; [|done]. cbn [relabel shape file data].
  destruct (Numel (shape v) <? 0)%Z; [done|]. destruct (read_bytes _ _ _); cbn [run_bind]; [|done..]. destruct (Upload _ _ _); cbn [run_bind]; [|done..]. apply IH.
Qed.

Lemma ModelWeights_ok Parse ParseN rope_cos rope_sin read_file dir ck junk max_ctx :
  checkpoint Parse ParseN read_file dir ck -> Forall (fun n => n ∈ tn_name <$> tensors_in ck) weight_names -> (0 <= max_ctx)%Z ->
  ModelWeights Parse ParseN rope_cos rope_sin read_file junk dir max_ctx = Ret (Ok (weights_of rope_cos rope_sin (elems ck) max_ctx)).
Proof.
  intros Hck Hn Hx. unfold ModelWeights. destruct (LoadDir_ok _ _ _ _ _ Hck) as (m & -> & Hm). cbn [try_bind].
  apply Forall_app in Hn as [Hn Hl]. rewrite !Forall_cons in Hn. destruct Hn as (H1 & H2 & H3 & _).
  rewrite !(single_ok _ _ _ _ _ Hck _ Hm) by done. cbn [try_bind]. unfold Build. destruct (Z.ltb_spec max_ctx 0) as [|_]; [lia|]. cbn [try_bind].
  rewrite (all_layers_ok _ _ _ _ _ Hck _ Hm) by done. cbn [try_bind]. unfold weights_of. by rewrite !fmap_bf16.
Qed.

(** The sign, the exponent and the fraction of a number with 8 bits of exponent and [n] of
    fraction: its value is that of [1 + m / 2 ^ n], scaled. *)
Definition fields (n w : Z) : Z * Z * Z := (Z.shiftr w (n + 8), Z.shiftr w n mod 256, w mod 2 ^ n)%Z.

Lemma Bf16ToFloat_fields w : (0 <= w < 65536)%Z ->
  let '(s, e, m) := fields 7 w in fields 23 (Bf16ToFloat w) = (s, e, m * 2 ^ 16)%Z.
Proof.
  intros Hw. unfold fields, Bf16ToFloat. rewrite Z.shiftl_mul_pow2, !Z.shiftr_div_pow2 by lia.
  change (2 ^ (7 + 8))%Z with 32768%Z. change (2 ^ (23 + 8))%Z with (32768 * 65536)%Z. change (2 ^ 7)%Z with 128%Z.
  change (2 ^ 23)%Z with (128 * 65536)%Z. change (2 ^ 16)%Z with 65536%Z.
  rewrite !Z.div_mul_cancel_r, Zmult_mod_distr_r by lia. done.
Qed.

(** ** Property *)

(** C9: what a model directory was written with is what the device holds: of every directory
    in the format of safetensors that has the tensors of the model as BF16 - in one shard or
    in those of an index - each weight is uploaded as the elements of its tensor, bit for bit,
    the norms as floats of the same sign, exponent and fraction, and the fused matrices as the
    elements of their parts, one after the other. A tensor of another type is not refused and
    is read as if it were BF16; the property is not about it. *)
Theorem weights_read_back Parse ParseN rope_cos rope_sin read_file dir ck junk max_ctx :
  checkpoint Parse ParseN read_file dir ck -> Forall (fun n => n ∈ tn_name <$> tensors_in ck) weight_names -> (0 <= max_ctx)%Z ->
  ModelWeights Parse ParseN rope_cos rope_sin read_file junk dir max_ctx = Ret (Ok (weights_of rope_cos rope_sin (elems ck) max_ctx)) /\
  forall t w, t ∈ tensors_in ck -> w ∈ tn_elems t ->
    let '(s, e, m) := fields 7 w in fields 23 (Bf16ToFloat w) = (s, e, m * 2 ^ 16)%Z.
Proof.
  intros Hck Hn Hx. split; [by apply ModelWeights_ok|]. intros t w Ht Hw. apply Bf16ToFloat_fields.
  apply list_elem_of_bind in Ht as ([n s] & Ht & Hs). apply (ck_files _ _ _ _ _ Hck) in Hs as [_ [Hok _ _]].
  rewrite Forall_forall in Hok. pose proof (to_elems _ (Hok t Ht)) as He. rewrite Forall_forall in He. by apply He.
Qed.

(** ** Witness *)

(** A model whose tensors have two elements each, in one shard. *)
Definition tiny_tensor (i : nat) (name : bytes) : Tensor :=
  {| tn_name := name; tn_dtype := go "BF16"; tn_shape := [1; 2]%Z; tn_elems := [Z.of_nat i; 40000]%Z |}.

Definition tiny_shard : Shard :=
  {| sh_header := go "{}"; sh_metadata := Some DNull; sh_tensors := imap tiny_tensor weight_names |}.

Definition tiny_checkpoint : list (bytes * Shard) := [(go "model.safetensors", tiny_shard)].

Definition tiny_files (path : bytes) : option bytes :=
  if bool_decide (path = go "/m/model.safetensors") then Some (shard_file tiny_shard) else None.

Definition tiny_parser (text : bytes) (n : Z) : run (option doc) := Ret (Some (DObject (shard_members tiny_shard))).

Lemma tiny_names : NoDup weight_names /\ Forall (fun n => plain n /\ n <> go "__metadata__") weight_names.
Proof. unfold plain. split; apply (bool_decide_unpack _); vm_compute; exact I. Qed.

Lemma tiny_tensors t : t ∈ tensors_in tiny_checkpoint -> exists i n, weight_names !! i = Some n /\ t = tiny_tensor i n.
Proof.
  intros ([n s] & Ht & Hs)%list_elem_of_bind. apply list_elem_of_singleton in Hs as [= -> ->]. cbn [snd sh_tensors tiny_shard] in Ht.
  apply elem_of_lookup_imap in Ht as (i & x & -> & Hx). eauto.
Qed.

Lemma tiny_ok Parse files dir : files (index_path dir) = None ->
  files (shard_path dir (go "model.safetensors")) = Some (shard_file tiny_shard) -> checkpoint Parse tiny_parser files dir tiny_checkpoint.
Proof.
  intros Hidx Hf. destruct tiny_names as [Hnd Hpl]. split.
  - unfold indexed. by rewrite Hidx.
  - intros n s [= -> ->]%list_elem_of_singleton. split; [exact Hf|]. split; [| |done].
    + apply Forall_forall. intros t Ht. destruct (tiny_tensors t) as (i & n & Hn & ->); [apply list_elem_of_bind; exists (go "model.safetensors", tiny_shard); by split; [|left]|].
      split; [|split; [by repeat constructor|done]| |done].
      * rewrite Forall_lookup in Hpl. by apply (Hpl i).
      * assert (i < length weight_names)%nat by by eapply lookup_lt_Some. assert (length weight_names = 399)%nat as E by by vm_compute.
        repeat constructor; cbn; lia.
    + by vm_compute.
  - apply NoDup_singleton.
  - intros t u Ht Hu. destruct (tiny_tensors t Ht) as (i & n & Hi & ->), (tiny_tensors u Hu) as (j & n' & Hj & ->). cbn [tn_name tiny_tensor]. intros ->.
    by rewrite (NoDup_lookup _ i j n' Hnd Hi Hj).
Qed.

Lemma tiny_complete : Forall (fun n => n ∈ tn_name <$> tensors_in tiny_checkpoint) weight_names.
Proof.
  apply Forall_forall. intros n [i Hi]%list_elem_of_lookup. apply list_elem_of_fmap. exists (tiny_tensor i n). split; [done|].
  apply list_elem_of_bind. exists (go "model.safetensors", tiny_shard). split; [|by left]. cbn [snd sh_tensors tiny_shard].
  apply elem_of_lookup_imap. eauto.
Qed.

Lemma weights_read_back_witness : exists w,
  ModelWeights (fun _ => None) tiny_parser (fun _ _ => S754_zero false) (fun _ _ => S754_zero false) tiny_files 7 (go "/m") 2 = Ret (Ok w) /\
  length (w_layers w) = 36%nat /\ w_qkv <$> (w_layers w !! 1%nat) = Some [14; 40000; 15; 40000; 16; 40000]%Z /\
  w_fnorm w = [65536; 2621440000]%Z.
Proof.
  eexists. split.
  - refine (proj1 (weights_read_back _ _ _ _ _ _ tiny_checkpoint 7 2 _ _ _)); [|exact tiny_complete|done]. apply tiny_ok; vm_compute; reflexivity.
  - split; [|split]; vm_compute; reflexivity.
Defined.
