(* ===== verification/RowKernels.v ===== *)
(** * The kernels that work row by row

    Models where the kernels of [engine/src/kernels.cu] other than the sampler read and
    write: [RmsnormKernel], [AddRmsnormKernel], [EmbedKernel], [HeadNormRopeKernel],
    [GatherRowsKernel], [AddKernel] and [SiluMulKernel], on flat device memory and with the
    32-bit products of the code ([int32]); an offset is added to a pointer, which has 64 bits.
    What a block computes from the elements it reads is a parameter.

    The property says that up to 87382 rows - the first bound that any of them has - they
    keep within their buffers and compute, in whatever order the threads run, what
    [ModelRuntime] says of them: one row from one row. *)

From S2P Require Import Prelude GoStrings Sequence StepContext KvStore Attention ModelRuntime ModelSpec SafeTensors.
Local Open Scope go_scope.

(** ** Kernels *)

(** [n] elements from a pointer. *)
Definition read_row {A} (mem : list A) (base n : Z) : run (list A) := collect (fun i => zindex mem (base + i)%Z) (seqZ 0 n).

Section kernels.
Context {V : Type}.

(** The writes of a block, of its element [i] at [base + i]. *)
Definition row_writes (base : Z) (vs : list V) : list (Z * V) := imap (fun i v => ((base + Z.of_nat i)%Z, v)) vs.

(** Block [m] of each kernel. *)
Definition RmsnormKernel (f : list V -> list V) (x : list V) (H m : Z) : run (list (Z * V)) :=
  let off := int32 (m * H) in
  let* xr := read_row x off H in
  Ret (row_writes off (f xr)).

(** The writes to [x] and those to [out]. *)
Definition AddRmsnormKernel (add f : list V -> list V -> list V) (x res : list V) (H m : Z) : run (list (Z * V) * list (Z * V)) :=
  let off := int32 (m * H) in
  let* xr := read_row x off H in
  let* rr := read_row res off H in
  Ret (row_writes off (add xr rr), row_writes off (f xr rr)).

Definition EmbedKernel (ids : list Z) (embed : list V) (H m : Z) : run (list (Z * V)) :=
  let* id := zindex ids m in
  let* src := read_row embed (int32 (id * H)) H in
  Ret (row_writes (int32 (m * H)) src).

Definition GatherRowsKernel (x : list V) (rows : list Z) (H i : Z) : run (list (Z * V)) :=
  let* r := zindex rows i in
  let* src := read_row x (int32 (r * H)) H in
  Ret (row_writes (int32 (i * H)) src).

(** [f q cs sn v]: the head [v], of a query or not, normed and rotated. *)
Definition HeadNormRopeKernel {F} (f : bool -> list F -> list F -> list V -> list V) (buf : list V) (cos_tab sin_tab : list F) (pos : list Z)
    (n_q n_kv head_dim stride row : Z) : run (list (Z * V)) :=
  let hpr := (n_q + n_kv)%Z in
  let m := (row / hpr)%Z in
  let g := (row mod hpr)%Z in
  let half := Z.shiftr head_dim 1 in
  let v := (int32 (m * stride) + int32 (g * head_dim))%Z in
  let* x := read_row buf v head_dim in
  let* p := zindex pos m in
  let* cb := read_row cos_tab (int32 (p * half)) half in
  let* sb := read_row sin_tab (int32 (p * half)) half in
  Ret (row_writes v (f (g <? n_q)%Z cb sb x)).

(** Thread [i] of each kernel. *)
Definition AddKernel (add : V -> V -> V) (out inp : list V) (N i : Z) : run (list (Z * V)) :=
  if (i <? N)%Z then let* x := zindex out i in let* y := zindex inp i in Ret [(i, add x y)] else Ret [].

Definition SiluMulKernel (silu : V -> V -> V) (gateup : list V) (M I idx : Z) : run (list (Z * V)) :=
  if (int32 (M * I) <=? idx)%Z then Ret [] else
  let m := Z.quot idx I in
  let i := Z.rem idx I in
  let row := int32 (int32 (m * 2) * I) in
  let* g := zindex gateup (row + i)%Z in
  let* u := zindex gateup (row + int32 (I + i))%Z in
  Ret [(idx, silu g u)].

(** *** Launches *)
Definition blocks {B} (kernel : Z -> run B) (n : Z) : run (list B) := collect kernel (seqZ 0 n).

(** A grid of blocks of 256 threads for [N] elements. *)
Definition threads {B} (kernel : Z -> run B) (N : Z) : run (list B) :=
  let block := 256%Z in
  let grid := Z.quot (int32 (N + block - 1)) block in
  blocks (fun i => kernel (int32 i)) (grid * block).

Definition LaunchAdd (add : V -> V -> V) (out inp : list V) (N : Z) : run (list (list (Z * V))) := threads (AddKernel add out inp N) N.

Definition LaunchSiluMul (silu : V -> V -> V) (gateup : list V) (M I : Z) : run (list (list (Z * V))) :=
  threads (SiluMulKernel silu gateup M I) (int32 (M * I)).

(** The memory after writes, in their order. *)
Fixpoint store (mem : list V) (ws : list (Z * V)) : run (list V) :=
  match ws with
  | [] => Ret mem
  | (a, v) :: ws => let* mem := set_at mem a v in store mem ws
  end.

End kernels.

(** ** Memory as rows *)

(** The rows, some of them replaced. *)
Definition updated {V} (new : nat -> option (list V)) (rows : list (list V)) : list (list V) := imap (fun k r => default r (new k)) rows.

(** What a kernel writes: the elements of rows of [H] elements, by their numbers. *)
Definition writes_rows {V} (H : nat) (new : nat -> option (list V)) (ws : list (Z * V)) : Prop :=
  forall a v, (a, v) ∈ ws <-> exists k r i, new k = Some r /\ r !! i = Some v /\ a = Z.of_nat (k * H + i).

Definition uniform {V} (H : nat) (rows : list (list V)) : Prop := Forall (fun r => length r = H) rows.

Section stored.
Context {V : Type} (H : nat) (HH : (0 < H)%nat).

Lemma lookup_rows (rows : list (list V)) : uniform H rows -> forall k i, (i < H)%nat ->
  concat rows !! (k * H + i)%nat = rows !! k ≫= (.!! i).
Proof using HH.
  induction 1 as [|r rows Hr Hrs IH]; intros k i Hi; [done|]. cbn [concat]. destruct k as [|k].
  - by rewrite lookup_app_l by lia.
  - rewrite lookup_app_r by lia. cbn [lookup list_lookup]. rewrite <- IH by done. f_equal. lia.
Qed.

Lemma length_rows (rows : list (list V)) : uniform H rows -> length (concat rows) = (length rows * H)%nat.
Proof using HH. induction 1 as [|r rows Hr _ IH]; [done|]. cbn [concat length]. rewrite length_app, IH. lia. Qed.

Lemma writes_stored (ws : list (Z * V)) new : forall mem,
  (forall a v, (a, v) ∈ ws -> (0 <= a)%Z /\ new !! Z.to_nat a = Some v) -> length mem = length new ->
  (forall j, (forall v, (Z.of_nat j, v) ∉ ws) -> mem !! j = new !! j) -> store mem ws = Ret new.
Proof using Type.
  clear HH H.
  induction ws as [|[a v] ws IH]; intros mem Hw Hl Hm; cbn [store].
  { f_equal. apply list_eq. intros j. apply Hm. intros v. apply not_elem_of_nil. }
  destruct (Hw a v) as [Ha Hv]; [left|]. pose proof (lookup_lt_Some _ _ _ Hv) as Hlt.
  rewrite <- (Z2Nat.id a) by done. rewrite set_at_lt by lia. cbn [run_bind]. apply IH.
  - intros b w Hb. apply Hw. by right.
  - by rewrite length_insert.
  - intros j Hj. destruct (decide (j = Z.to_nat a)) as [-> |Hne].
    + rewrite list_lookup_insert_eq by lia. done.
    + rewrite list_lookup_insert_ne by done. apply Hm. intros w [[= E _]|Hin]%elem_of_cons; [lia|by apply (Hj w)].
Qed.

Lemma rows_stored (rows : list (list V)) new ws : uniform H rows -> (forall k r, new k = Some r -> (k < length rows)%nat /\ length r = H) ->
  writes_rows H new ws -> forall order, order ≡ₚ ws -> store (concat rows) order = Ret (concat (updated new rows)).
Proof using HH.
  intros Hu Hnew Hw order Ho.
  assert (uniform H (updated new rows)) as Hu'.
  { apply Forall_lookup. intros k r Hk. unfold updated in Hk. rewrite list_lookup_imap in Hk. destruct (rows !! k) as [r0|] eqn:E; [|done].
    injection Hk as <-. destruct (new k) as [r1|] eqn:En; cbn; [by apply (Hnew k)|]. unfold uniform in Hu. rewrite Forall_lookup in Hu. by apply (Hu k). }
  apply writes_stored.
  - intros a v Hin. rewrite Ho in Hin. apply Hw in Hin as (k & r & i & Hk & Hi & ->). destruct (Hnew k r Hk) as [Hlt Hlen].
    split; [lia|]. pose proof (lookup_lt_Some _ _ _ Hi). rewrite Nat2Z.id, lookup_rows by (done || lia). unfold updated. rewrite list_lookup_imap.
    destruct (lookup_lt_is_Some_2 rows k Hlt) as [r0 ->]. cbn. by rewrite Hk.
  - rewrite !length_rows by done. unfold updated. by rewrite length_imap.
  - intros j Hj. rewrite (Nat.div_mod_eq j H), (Nat.mul_comm H) in *. pose proof (Nat.mod_upper_bound j H ltac:(lia)) as Hi.
    set (k := (j / H)%nat) in *. set (i := (j mod H)%nat) in *. rewrite !lookup_rows by done. unfold updated. rewrite list_lookup_imap.
    destruct (rows !! k) as [r0|] eqn:E; [|done]. cbn. destruct (new k) as [r|] eqn:En; [|done]. cbn. destruct (Hnew k r En) as [_ Hlen].
    destruct (lookup_lt_is_Some_2 r i ltac:(lia)) as [v Hv]. destruct (Hj v). rewrite Ho. apply Hw. by exists k, r, i.
Qed.

(** Blocks that write a row each. *)
Lemma elem_of_row_writes base (vs : list V) a v : (a, v) ∈ row_writes base vs <-> exists i, vs !! i = Some v /\ a = (base + Z.of_nat i)%Z.
Proof using Type.
  unfold row_writes. rewrite elem_of_lookup_imap. split; [intros (i & x & [= -> ->] & Hx); eauto|intros (i & Hi & ->); eauto].
Qed.

Lemma blocks_rows (kernel : Z -> run (list (Z * V))) (n : nat) (at_ : nat -> nat) (r : nat -> list V) new :
  (forall b, (b < n)%nat -> kernel (Z.of_nat b) = Ret (row_writes (Z.of_nat (at_ b * H)) (r b))) ->
  (forall k x, new k = Some x <-> exists b, (b < n)%nat /\ k = at_ b /\ x = r b) ->
  exists ws, blocks kernel (Z.of_nat n) = Ret ws /\ writes_rows H new (concat ws).
Proof using Type.
  clear HH. intros Hk Hn. exists ((fun b => row_writes (Z.of_nat (at_ b * H)) (r b)) <$> seq 0 n). split.
  { unfold blocks. change 0%Z with (Z.of_nat 0). apply collect_seqZ. intros b Hb. apply Hk. lia. }
  intros a v. rewrite list_elem_of_In, in_concat. split.
  - intros (l & Hl & Hv). apply list_elem_of_In, list_elem_of_fmap in Hl as (b & -> & Hb). apply elem_of_seq in Hb.
    apply list_elem_of_In, elem_of_row_writes in Hv as (i & Hi & ->). exists (at_ b), (r b), i. split; [|split; [done|lia]].
    apply Hn. exists b. split; [lia|done].
  - intros (k & x & i & Hx & Hi & ->). apply Hn in Hx as (b & Hb & -> & ->). eexists. rewrite <- !list_elem_of_In. split.
    + apply list_elem_of_fmap. exists b. split; [done|]. apply elem_of_seq. lia.
    + apply elem_of_row_writes. exists i. split; [done|lia].
Qed.

(** The first [M] rows. *)
Definition first_rows (M : nat) (r : nat -> list V) (k : nat) : option (list V) := if (k <? M)%nat then Some (r k) else None.

Lemma first_rows_Some M r k x : first_rows M r k = Some x <-> (k < M)%nat /\ x = r k.
Proof using Type. clear HH H. unfold first_rows. destruct (Nat.ltb_spec k M); split; try naive_solver lia. Qed.

(** Threads that write an element each. *)
Lemma threads_rows (kernel : Z -> run (list (Z * V))) (M : nat) (e : nat -> V) (r : nat -> list V) :
  (forall j, (j < M * H)%nat -> kernel (Z.of_nat j) = Ret [(Z.of_nat j, e j)]) ->
  (forall j, (M * H <= j)%nat -> (Z.of_nat j < 2 ^ 31)%Z -> kernel (Z.of_nat j) = Ret []) ->
  (forall k, (k < M)%nat -> length (r k) = H) -> (forall k i, (k < M)%nat -> (i < H)%nat -> r k !! i = Some (e (k * H + i)%nat)) ->
  (Z.of_nat (M * H) + 255 < 2 ^ 31)%Z ->
  exists ws, threads kernel (Z.of_nat (M * H)) = Ret ws /\ writes_rows H (first_rows M r) (concat ws).
Proof using HH.
  intros H1 H2 Hl Hr Hb. set (N := (M * H)%nat) in *.
  set (T := ((N + 255) / 256 * 256)%nat). assert (N <= T < N + 256)%nat as HT.
  { unfold T. pose proof (Nat.div_mod_eq (N + 255) 256). pose proof (Nat.mod_upper_bound (N + 255) 256 ltac:(lia)). lia. }
  exists ((fun j => if (j <? N)%nat then [(Z.of_nat j, e j)] else []) <$> seq 0 T). split.
  - unfold threads, blocks. assert (int32 (Z.of_nat N + 256 - 1) = Z.of_nat (N + 255)) as -> by (unfold int32; rewrite wrap_id; unfold in_int; lia).
    rewrite Z.quot_div_nonneg by lia. replace (Z.of_nat (N + 255) / 256 * 256)%Z with (Z.of_nat T) by (unfold T; rewrite Nat2Z.inj_mul, Nat2Z.inj_div; lia).
    change 0%Z with (Z.of_nat 0). apply collect_seqZ. intros j Hj. unfold int32. rewrite wrap_id by (unfold in_int; lia).
    destruct (Nat.ltb_spec j N); [by apply H1|apply H2; lia].
  - intros a v. rewrite list_elem_of_In, in_concat. split.
    + intros (l & Hl' & Hv). apply list_elem_of_In, list_elem_of_fmap in Hl' as (j & -> & Hj). destruct (Nat.ltb_spec j N) as [Hlt|]; [|done].
      apply list_elem_of_In, list_elem_of_singleton in Hv as [= -> ->]. pose proof (Nat.div_mod_eq j H). pose proof (Nat.mod_upper_bound j H ltac:(lia)).
      assert (j / H < M)%nat by (apply Nat.div_lt_upper_bound; lia).
      exists (j / H)%nat, (r (j / H)%nat), (j mod H)%nat. split; [by apply first_rows_Some|]. rewrite Hr by lia.
      replace (j / H * H + j mod H)%nat with j by lia. done.
    + intros (k & x & i & [Hk ->]%first_rows_Some & Hi & ->). pose proof (lookup_lt_Some _ _ _ Hi). rewrite Hl in * by done. rewrite Hr in Hi by done.
      injection Hi as <-. eexists. rewrite <- !list_elem_of_In. split.
      * apply list_elem_of_fmap. exists (k * H + i)%nat. split; [done|]. apply elem_of_seq. unfold N in *. nia.
      * rewrite (proj2 (Nat.ltb_lt _ _)) by (unfold N; nia). by left.
Qed.

End stored.

(** ** The kernels, row by row *)

(** The writes of a kernel, in any order, make of the rows in memory the rows that
    [row_wise] computes. *)
Definition implements {V} (rows : list (list V)) (kernel : run (list (list (Z * V)))) (spec : run (list (list V))) : Prop :=
  exists ws rows', kernel = Ret ws /\ spec = Ret rows' /\ forall order, order ≡ₚ concat ws -> store (concat rows) order = Ret (concat rows').

Section rows.
Context {V : Type} (H M : nat) (HH : (0 < H)%nat) (HM : (Z.of_nat (M * H) + 255 < 2 ^ 31)%Z).

Lemma read_row_ok (xs : list (list V)) k r : uniform H xs -> xs !! k = Some r -> read_row (concat xs) (Z.of_nat (k * H)) (Z.of_nat H) = Ret r.
Proof using HH.
  clear HM. intros Hu Hk. assert (length r = H) as Hl by (unfold uniform in Hu; rewrite Forall_lookup in Hu; by apply (Hu k)).
  pose proof (collect_listed (fun i => zindex (concat xs) (Z.of_nat (k * H) + i)%Z) id r) as E. rewrite list_fmap_id in E. unfold len in E.
  rewrite Hl in E. apply E. intros i x Hx. rewrite <- Nat2Z.inj_add. apply zindex_Some.
  rewrite lookup_rows by (done || by apply lookup_lt_Some in Hx; lia). by rewrite Hk.
Qed.

Lemma offset_ok k : (k < M)%nat -> int32 (Z.of_nat k * Z.of_nat H) = Z.of_nat (k * H).
Proof using HH HM. intros Hk. unfold int32. rewrite wrap_id; [lia|done|]. unfold in_int. assert (k * H < M * H)%nat by nia. lia. Qed.

Lemma updated_first r (os : list (list V)) : (M <= length os)%nat -> updated (first_rows M r) os = overwrite os 0 (r <$> seq 0 M).
Proof using Type.
  clear HM HH H. intros HM'. apply list_eq. intros k. unfold updated. rewrite list_lookup_imap. destruct (decide (k < M)%nat) as [Hk|Hk].
  - pose proof (overwrite_holds os 0 (r <$> seq 0 M) ltac:(rewrite length_fmap, length_seq; lia) k (r k)) as E. rewrite Nat.add_0_l in E.
    rewrite E by by rewrite list_lookup_fmap, lookup_seq_lt.
    destruct (lookup_lt_is_Some_2 os k ltac:(lia)) as [o ->]. cbn. unfold first_rows. by rewrite (proj2 (Nat.ltb_lt _ _)).
  - rewrite overwrite_outside by (rewrite length_fmap, length_seq; lia). unfold first_rows. rewrite (proj2 (Nat.ltb_ge _ _)) by lia. by destruct (os !! k).
Qed.

Lemma row_wise_first {B} (f : B -> list V) (inp : list B) (r : nat -> list V) (os : list (list V)) : (M <= length inp)%nat -> (M <= length os)%nat ->
  (forall k x, inp !! k = Some x -> (k < M)%nat -> r k = f x) -> row_wise (Z.of_nat M) f inp os = Ret (updated (first_rows M r) os).
Proof using Type.
  clear HM HH H. intros Hi Ho Hr. rewrite updated_first by done. unfold row_wise, len. rewrite !(proj2 (Z.leb_le _ _)) by lia. cbn [andb]. rewrite Nat2Z.id. do 2 f_equal.
  apply list_eq. intros k. rewrite !list_lookup_fmap. destruct (decide (k < M)%nat) as [Hk|Hk].
  - rewrite lookup_take_lt, lookup_seq_lt by done. destruct (lookup_lt_is_Some_2 inp k ltac:(lia)) as [x Hx]. rewrite Hx. cbn. by rewrite (Hr k x).
  - by rewrite lookup_take_ge, lookup_seq_ge by lia.
Qed.

(** A kernel with a block for each row. *)
Lemma implements_blocks {B} (kernel : Z -> run (list (Z * V))) (f : B -> list V) (inp : list B) (os : list (list V)) :
  uniform H os -> (M <= length inp)%nat -> (M <= length os)%nat ->
  (forall k x, inp !! k = Some x -> (k < M)%nat -> kernel (Z.of_nat k) = Ret (row_writes (Z.of_nat (k * H)) (f x)) /\ length (f x) = H) ->
  implements os (blocks kernel (Z.of_nat M)) (row_wise (Z.of_nat M) f inp os).
Proof using HH.
  clear HM. intros Hu Hi Ho Hk. set (r := fun k => match inp !! k with Some x => f x | None => [] end).
  assert (forall k x, inp !! k = Some x -> r k = f x) as Hr by (intros k x Hx; unfold r; by rewrite Hx).
  destruct (blocks_rows H kernel M id r (first_rows M r)) as (ws & E & Hw).
  - intros b Hb. destruct (lookup_lt_is_Some_2 inp b ltac:(lia)) as [x Hx]. rewrite (Hr b x Hx). by apply Hk.
  - intros k x. rewrite first_rows_Some. unfold id. split; [intros [? ->]; eauto|by intros (b & ? & -> & ->)].
  - exists ws, (updated (first_rows M r) os). split; [done|]. split; [apply row_wise_first; auto|].
    apply (rows_stored H HH os (first_rows M r)); [done| |done]. intros k x [Hlt ->]%first_rows_Some. split; [lia|].
    destruct (lookup_lt_is_Some_2 inp k ltac:(lia)) as [y Hy]. rewrite (Hr k y Hy). by apply (Hk k y).
Qed.

(** A kernel with a thread for each element. *)
Lemma implements_threads `{!Inhabited V} {B} (kernel : Z -> run (list (Z * V))) (f : B -> list V) (inp : list B) (os : list (list V)) :
  uniform H os -> (M <= length inp)%nat -> (M <= length os)%nat ->
  (forall k x, inp !! k = Some x -> (k < M)%nat -> length (f x) = H) ->
  (forall k x i v, inp !! k = Some x -> (k < M)%nat -> f x !! i = Some v ->
     kernel (Z.of_nat (k * H + i)) = Ret [(Z.of_nat (k * H + i), v)]) ->
  (forall j, (M * H <= j)%nat -> (Z.of_nat j < 2 ^ 31)%Z -> kernel (Z.of_nat j) = Ret []) ->
  implements os (threads kernel (Z.of_nat (M * H))) (row_wise (Z.of_nat M) f inp os).
Proof using HH HM.
  intros Hu Hi Ho Hl Hk Hpast. set (r := fun k => match inp !! k with Some x => f x | None => [] end).
  assert (forall k x, inp !! k = Some x -> r k = f x) as Hr by (intros k x Hx; unfold r; by rewrite Hx).
  assert (forall k, (k < M)%nat -> exists x, inp !! k = Some x /\ r k = f x /\ length (f x) = H) as Hin.
  { intros k Hlt. destruct (lookup_lt_is_Some_2 inp k ltac:(lia)) as [x Hx]. exists x. split; [done|]. split; [by apply Hr|by apply (Hl k)]. }
  destruct (threads_rows H HH kernel M (fun j => r (j / H)%nat !!! (j mod H)%nat) r) as (ws & E & Hw); try done.
  - intros j Hj. pose proof (Nat.div_mod_eq j H). pose proof (Nat.mod_upper_bound j H ltac:(lia)).
    assert (j / H < M)%nat as Hlt by (apply Nat.div_lt_upper_bound; lia). destruct (Hin _ Hlt) as (x & Hx & -> & Hlen).
    destruct (lookup_lt_is_Some_2 (f x) (j mod H) ltac:(lia)) as [v Hv]. rewrite (list_lookup_total_correct _ _ _ Hv).
    replace j with (j / H * H + j mod H)%nat at 1 2 by lia. by apply (Hk _ x).
  - intros k Hlt. by destruct (Hin k Hlt) as (x & _ & -> & ?).
  - intros k i Hlt Hii. rewrite Nat.div_add_l, Nat.div_small, Nat.add_0_r by lia. rewrite Nat.add_comm, Nat.Div0.mod_add, Nat.mod_small by lia.
    destruct (Hin k Hlt) as (x & _ & -> & ?). by apply list_lookup_lookup_total_lt; lia.
  - exists ws, (updated (first_rows M r) os). split; [done|]. split; [apply row_wise_first; auto|].
    apply (rows_stored H HH os (first_rows M r)); [done| |done]. intros k x [Hlt ->]%first_rows_Some. split; [lia|].
    by destruct (Hin k Hlt) as (x & _ & -> & ?).
Qed.

Lemma Rmsnorm_ok f (xs os : list (list V)) : uniform H xs -> uniform H os -> (M <= length xs)%nat -> (M <= length os)%nat ->
  (forall x, length x = H -> length (f x) = H) ->
  implements os (blocks (RmsnormKernel f (concat xs) (Z.of_nat H)) (Z.of_nat M)) (row_wise (Z.of_nat M) f xs os).
Proof using HH HM.
  intros Hx Ho H1 H2 Hf. apply implements_blocks; [done..|]. intros k x Hk Hlt. unfold RmsnormKernel. rewrite offset_ok by done.
  rewrite (read_row_ok xs k x) by done. split; [done|]. apply Hf. unfold uniform in Hx. rewrite Forall_lookup in Hx. by apply (Hx k).
Qed.

Lemma lookup_zip {A C} (xs : list A) (ys : list C) k x y : zip xs ys !! k = Some (x, y) -> xs !! k = Some x /\ ys !! k = Some y.
Proof using Type. intros E. apply lookup_zip_with_Some in E as (a & b & [= -> ->] & ? & ?). done. Qed.

Lemma length_zip_ge {A C} (xs : list A) (ys : list C) : (M <= length xs)%nat -> (M <= length ys)%nat -> (M <= length (zip xs ys))%nat.
Proof using Type. clear HM HH H. intros. rewrite length_zip_with. lia. Qed.

(** The results of a loop, one by one. *)
Lemma collect_map {A B C} (f : A -> run B) (g : B -> C) l :
  (let* ys := collect f l in Ret (g <$> ys)) = collect (fun x => let* y := f x in Ret (g y)) l.
Proof using Type.
  induction l as [|x l IH]; [done|]. cbn [collect]. destruct (f x); cbn [run_bind]; [|done..]. rewrite <- IH. by destruct (collect f l).
Qed.

Lemma AddRmsnormKernel_ok add f (xs rs os : list (list V)) : uniform H xs -> uniform H rs -> uniform H os ->
  (M <= length xs)%nat -> (M <= length rs)%nat -> (M <= length os)%nat ->
  (forall x y, length x = H -> length y = H -> length (add x y) = H /\ length (f x y) = H) ->
  let launch := blocks (AddRmsnormKernel add f (concat xs) (concat rs) (Z.of_nat H)) (Z.of_nat M) in
  implements xs (let* ws := launch in Ret (fst <$> ws)) (row_wise (Z.of_nat M) (fun '(x, y) => add x y) (zip xs rs) xs) /\
  implements os (let* ws := launch in Ret (snd <$> ws)) (row_wise (Z.of_nat M) (fun '(x, y) => f x y) (zip xs rs) os).
Proof using HH HM.
  intros Hx Hr Ho H1 H2 H3 Hf launch. unfold launch, blocks. rewrite !collect_map.
  assert (forall k x y, zip xs rs !! k = Some (x, y) -> (k < M)%nat ->
    AddRmsnormKernel add f (concat xs) (concat rs) (Z.of_nat H) (Z.of_nat k) =
    Ret (row_writes (Z.of_nat (k * H)) (add x y), row_writes (Z.of_nat (k * H)) (f x y)) /\ length (add x y) = H /\ length (f x y) = H) as Hk.
  { intros k x y [Hkx Hky]%lookup_zip Hlt. unfold AddRmsnormKernel. rewrite offset_ok by done. rewrite (read_row_ok xs k x), (read_row_ok rs k y) by done.
    split; [done|]. unfold uniform in Hx, Hr. rewrite Forall_lookup in Hx, Hr. apply Hf; [by apply (Hx k)|by apply (Hr k)]. }
  split; apply implements_blocks; try done; try (by apply length_zip_ge); intros k [x y] Hz Hlt; destruct (Hk k x y Hz Hlt) as (-> & ? & ?); done.
Qed.

Lemma Embed_ok ids (table os : list (list V)) : uniform H table -> uniform H os -> (M <= length ids)%nat -> (M <= length os)%nat ->
  (Z.of_nat (length table * H) < 2 ^ 31)%Z -> Forall (fun id => 0 <= id < len table)%Z ids ->
  implements os (blocks (EmbedKernel ids (concat table) (Z.of_nat H)) (Z.of_nat M))
    (row_wise (Z.of_nat M) (fun id => nth (Z.to_nat id) table []) ids os).
Proof using HH HM.
  intros Ht Ho H1 H2 Hb Hids. apply implements_blocks; [done..|]. intros k id Hk Hlt. unfold EmbedKernel. rewrite (zindex_Some _ _ _ Hk). cbn [run_bind].
  rewrite Forall_lookup in Hids. pose proof (Hids k id Hk) as Hr. unfold len in Hr.
  destruct (lookup_lt_is_Some_2 table (Z.to_nat id) ltac:(lia)) as [r Hr']. rewrite (nth_lookup_Some _ _ _ _ Hr').
  assert (int32 (id * Z.of_nat H) = Z.of_nat (Z.to_nat id * H)) as -> by (unfold int32; rewrite wrap_id; [lia|done|unfold in_int; nia]).
  rewrite (read_row_ok table _ r) by done. cbn [run_bind]. rewrite offset_ok by done. split; [done|].
  unfold uniform in Ht. rewrite Forall_lookup in Ht. by apply (Ht (Z.to_nat id)).
Qed.

Lemma GatherRows_ok (xs : list (list V)) rows (os : list (list V)) : uniform H xs -> uniform H os -> (M <= length rows)%nat -> (M <= length os)%nat ->
  (Z.of_nat (length xs * H) < 2 ^ 31)%Z -> Forall (fun r => 0 <= r < len xs)%Z rows ->
  implements os (blocks (GatherRowsKernel (concat xs) rows (Z.of_nat H)) (Z.of_nat M))
    (row_wise (Z.of_nat M) (fun r => nth (Z.to_nat r) xs []) rows os).
Proof using HH HM. apply Embed_ok. Qed.

Lemma elements_ok : int32 (Z.of_nat M * Z.of_nat H) = Z.of_nat (M * H).
Proof using HM. clear HH. unfold int32. rewrite wrap_id; [lia|done|unfold in_int; lia]. Qed.

Lemma lookup_row (xs : list (list V)) k x i v : uniform H xs -> xs !! k = Some x -> x !! i = Some v -> concat xs !! (k * H + i)%nat = Some v.
Proof using HH.
  clear HM. intros Hu Hk Hi. unfold uniform in Hu. rewrite Forall_lookup in Hu. pose proof (Hu k x Hk). pose proof (lookup_lt_Some _ _ _ Hi).
  rewrite lookup_rows; [by rewrite Hk|done|by apply Forall_lookup|lia].
Qed.

Lemma Add_ok `{!Inhabited V} add (xs ys : list (list V)) : uniform H xs -> uniform H ys -> (M <= length xs)%nat -> (M <= length ys)%nat ->
  implements xs (LaunchAdd add (concat xs) (concat ys) (int32 (Z.of_nat M * Z.of_nat H)))
    (row_wise (Z.of_nat M) (fun '(x, y) => zip_with add x y) (zip xs ys) xs).
Proof using HH HM.
  intros Hx Hy H1 H2. unfold LaunchAdd. rewrite elements_ok. apply implements_threads; [done|by apply length_zip_ge|done|..].
  - intros k [x y] [Hkx Hky]%lookup_zip Hlt. unfold uniform in *. rewrite Forall_lookup in Hx, Hy. rewrite length_zip_with, (Hx k x), (Hy k y) by done. lia.
  - intros k [x y] i v [Hkx Hky]%lookup_zip Hlt Hi. apply lookup_zip_with_Some in Hi as (a & b & -> & Ha & Hb). unfold AddKernel.
    assert (i < H)%nat by (unfold uniform in *; rewrite Forall_lookup in Hx; rewrite <- (Hx k x) by done; by eapply lookup_lt_Some).
    rewrite (proj2 (Z.ltb_lt _ _)) by nia. rewrite (zindex_Some (concat xs) (k * H + i) a) by by apply (lookup_row xs k x).
    cbn [run_bind]. by rewrite (zindex_Some (concat ys) (k * H + i) b) by by apply (lookup_row ys k y).
  - intros j Hj _. unfold AddKernel. by rewrite (proj2 (Z.ltb_ge _ _)) by lia.
Qed.

End rows.

Lemma SiluMul_ok {V} `{!Inhabited V} (H M : nat) (HH : (0 < H)%nat) silu (gs os : list (list V)) :
  (Z.of_nat (M * H) + 255 < 2 ^ 31)%Z -> (Z.of_nat (2 * H) < 2 ^ 31)%Z -> (Z.of_nat ((M - 1) * (2 * H)) < 2 ^ 31)%Z ->
  uniform (2 * H) gs -> uniform H os -> (M <= length gs)%nat -> (M <= length os)%nat ->
  implements os (LaunchSiluMul silu (concat gs) (Z.of_nat M) (Z.of_nat H))
    (row_wise (Z.of_nat M) (fun g => zip_with silu (take H g) (drop H g)) gs os).
Proof.
  intros HM H2H Hlast Hg Ho H1 H2. unfold LaunchSiluMul. rewrite elements_ok by done. apply implements_threads; [done..| | |].
  - intros k g Hk Hlt. unfold uniform in Hg. rewrite Forall_lookup in Hg. rewrite length_zip_with, length_take, length_drop, (Hg k g) by done. lia.
  - intros k g i v Hk Hlt Hi. apply lookup_zip_with_Some in Hi as (a & b & -> & Ha & Hb). apply lookup_take_Some in Ha as [Ha HiH].
    rewrite lookup_drop in Hb. unfold SiluMulKernel. rewrite elements_ok by done. rewrite (proj2 (Z.leb_gt _ _)) by nia.
    assert (Z.quot (Z.of_nat (k * H + i)) (Z.of_nat H) = Z.of_nat k /\ Z.rem (Z.of_nat (k * H + i)) (Z.of_nat H) = Z.of_nat i) as [-> ->].
    { rewrite Z.quot_div_nonneg, Z.rem_mod_nonneg by lia. split; [symmetry; apply (Z.div_unique_pos _ _ _ (Z.of_nat i)); lia|].
      symmetry. apply (Z.mod_unique_pos _ _ (Z.of_nat k)); lia. }
    assert (k * (2 * H) <= (M - 1) * (2 * H))%nat by (apply Nat.mul_le_mono_r; lia).
    assert (int32 (Z.of_nat k * 2) = Z.of_nat (k * 2)) as -> by (unfold int32; rewrite wrap_id; [lia|done|unfold in_int; nia]).
    assert (int32 (Z.of_nat (k * 2) * Z.of_nat H) = Z.of_nat (k * (2 * H))) as -> by (unfold int32; rewrite wrap_id; [lia|done|unfold in_int; lia]).
    assert (int32 (Z.of_nat H + Z.of_nat i) = Z.of_nat (H + i)) as -> by (unfold int32; rewrite wrap_id; [lia|done|unfold in_int; lia]).
    rewrite <- !Nat2Z.inj_add, (zindex_Some (concat gs) (k * (2 * H) + i) a) by (apply (lookup_row (2 * H) ltac:(lia) gs k g); done).
    cbn [run_bind]. by rewrite (zindex_Some (concat gs) (k * (2 * H) + (H + i)) b) by (apply (lookup_row (2 * H) ltac:(lia) gs k g); done).
  - intros j Hj Hb. unfold SiluMulKernel. rewrite elements_ok by done. by rewrite (proj2 (Z.leb_le _ _)) by lia.
Qed.

(** *** Heads *)
Section heads.
Context {V F : Type} (hd n : nat) (Hhd : (0 < hd)%nat) (Hn : (0 < n)%nat).

(** The heads of a row. *)
Definition heads (x : list V) : list (list V) := (fun g => slice x (g * hd) (g * hd + hd)) <$> seq 0 n.

(** A row whose first [hp] heads are normed and rotated, [nq] of them queries. *)
Definition rotated (f : bool -> list F -> list F -> list V -> list V) (hp nq : nat) (cs sn : list F) (x : list V) : list V :=
  concat (imap (fun g h => if (g <? hp)%nat then f (g <? nq)%nat cs sn h else h) (heads x)).

Lemma lookup_heads x g : (g < n)%nat -> heads x !! g = Some (slice x (g * hd) (g * hd + hd)).
Proof using Type. intros Hg. unfold heads. by rewrite list_lookup_fmap, lookup_seq_lt. Qed.

Lemma heads_uniform x : length x = (n * hd)%nat -> uniform hd (heads x) /\ length (heads x) = n.
Proof using Type.
  clear Hhd Hn. intros Hx. unfold heads. split; [|by rewrite length_fmap, length_seq]. apply Forall_fmap, Forall_forall. intros g Hg%elem_of_seq. cbn.
  rewrite length_slice by nia. lia.
Qed.

Lemma head_element (x : list V) g i : (g < n)%nat -> (i < hd)%nat -> slice x (g * hd) (g * hd + hd) !! i = x !! (g * hd + i)%nat.
Proof using Type. clear Hhd Hn. intros Hg Hi. unfold slice. rewrite lookup_take_lt by lia. by rewrite lookup_drop. Qed.

(** Two lists that agree by rows. *)
Lemma by_rows (H L : nat) (a b : list V) : (0 < H)%nat -> length a = (L * H)%nat -> length b = (L * H)%nat ->
  (forall k i, (k < L)%nat -> (i < H)%nat -> a !! (k * H + i)%nat = b !! (k * H + i)%nat) -> a = b.
Proof using Type.
  clear Hhd Hn hd n. intros HH Ha Hb Hab. apply list_eq. intros j. destruct (decide (j < L * H)%nat) as [Hj|Hj].
  - pose proof (Nat.div_mod_eq j H). pose proof (Nat.mod_upper_bound j H ltac:(lia)). replace j with (j / H * H + j mod H)%nat by lia.
    apply Hab; [apply Nat.div_lt_upper_bound; lia|done].
  - by rewrite !lookup_ge_None_2 by lia.
Qed.

Lemma heads_concat x : length x = (n * hd)%nat -> concat (heads x) = x.
Proof using Hhd.
  intros Hx. destruct (heads_uniform x Hx) as [Hu Hl]. apply (by_rows hd n); [done|by rewrite (length_rows hd Hhd), Hl|done|].
  intros g i Hg Hi. rewrite (lookup_rows hd Hhd) by done. rewrite lookup_heads by done. by apply head_element.
Qed.

Lemma rotated_uniform f hp nq cs sn x : (forall q h, length h = hd -> length (f q cs sn h) = hd) -> length x = (n * hd)%nat ->
  uniform hd (imap (fun g h => if (g <? hp)%nat then f (g <? nq)%nat cs sn h else h) (heads x)) /\ length (rotated f hp nq cs sn x) = (n * hd)%nat.
Proof using Hhd.
  intros Hf Hx. destruct (heads_uniform x Hx) as [Hu Hl].
  assert (uniform hd (imap (fun g h => if (g <? hp)%nat then f (g <? nq)%nat cs sn h else h) (heads x))) as H.
  { apply Forall_lookup. intros g r Hg. rewrite list_lookup_imap in Hg. destruct (heads x !! g) as [h|] eqn:E; [|done]. injection Hg as <-.
    unfold uniform in Hu. rewrite Forall_lookup in Hu. destruct (g <? hp)%nat; [apply Hf|]; by apply (Hu g). }
  split; [done|]. unfold rotated. by rewrite (length_rows hd Hhd), length_imap, Hl.
Qed.

(** All heads of all rows. *)
Definition all_heads (xs : list (list V)) : list (list V) := concat (heads <$> xs).

Lemma all_heads_ok xs : uniform (n * hd) xs -> uniform hd (all_heads xs) /\ concat (all_heads xs) = concat xs /\
  length (all_heads xs) = (length xs * n)%nat /\
  forall k x g, xs !! k = Some x -> (g < n)%nat -> all_heads xs !! (k * n + g)%nat = Some (slice x (g * hd) (g * hd + hd)).
Proof using Hhd Hn.
  intros Hx. unfold all_heads. assert (uniform n (heads <$> xs)) as Hu.
  { apply Forall_fmap. eapply Forall_impl; [exact Hx|]. intros x Hl. by destruct (heads_uniform x Hl). }
  split; [|split; [|split]].
  - clear Hu. induction Hx as [|x xs Hl _ IH]; [constructor|]. cbn. apply Forall_app. split; [by apply heads_uniform|exact IH].
  - clear Hu. induction Hx as [|x xs Hl _ IH]; [done|]. rewrite fmap_cons, !concat_cons, concat_app, IH. by rewrite heads_concat.
  - rewrite (length_rows n Hn) by done. by rewrite length_fmap.
  - intros k x g Hk Hg. rewrite (lookup_rows n Hn) by done. rewrite list_lookup_fmap, Hk. cbn. by apply lookup_heads.
Qed.

End heads.

Lemma split_index w k g : (g < w)%nat -> ((k * w + g) / w = k /\ (k * w + g) mod w = g)%nat.
Proof. intros Hg. rewrite Nat.div_add_l, Nat.div_small by lia. rewrite (Nat.add_comm (k * w)), Nat.Div0.mod_add, Nat.mod_small by lia. lia. Qed.

Section rope.
Context {V F : Type} (hd n hp nq half M : nat) (f : bool -> list F -> list F -> list V -> list V).
Context (Hhd : (0 < hd)%nat) (Hp : (0 < hp <= n)%nat) (Hhalf : Z.shiftr (Z.of_nat hd) 1 = Z.of_nat half) (Hhalf0 : (0 < half)%nat).
Context (HM : (Z.of_nat (M * (n * hd)) < 2 ^ 31)%Z).
Context (Hf : forall q cs sn h, length h = hd -> length (f q cs sn h) = hd).
Context (xs : list (list V)) (cs sn : list (list F)) (pos : list Z).
Context (Hxs : uniform (n * hd) xs) (Hlx : (M <= length xs)%nat) (Hlp : (M <= length pos)%nat).
Context (Hcs : uniform half cs) (Hsn : uniform half sn) (Hpos : Forall (fun p => 0 <= p < len cs /\ p < len sn)%Z pos).
Context (Htab : (Z.of_nat (length cs * half) < 2 ^ 31)%Z).

#[local] Notation row p x := (rotated hd n f hp nq (nth (Z.to_nat p) cs []) (nth (Z.to_nat p) sn []) x).
#[local] Notation kernel := (HeadNormRopeKernel f (concat xs) (concat cs) (concat sn) pos (Z.of_nat nq) (Z.of_nat (hp - nq)) (Z.of_nat hd) (Z.of_nat (n * hd))).

(** Block [g] of row [k]. *)
Lemma rope_block k g x p : (nq <= hp)%nat -> xs !! k = Some x -> pos !! k = Some p -> (k < M)%nat -> (g < hp)%nat ->
  kernel (Z.of_nat (k * hp + g)) =
  Ret (row_writes (Z.of_nat ((k * n + g) * hd)) (f (g <? nq)%nat (nth (Z.to_nat p) cs []) (nth (Z.to_nat p) sn []) (slice x (g * hd) (g * hd + hd)))).
Proof using All.
  intros Hq Hk Hkp Hlt Hg. unfold HeadNormRopeKernel. rewrite <- Nat2Z.inj_add. replace (nq + (hp - nq))%nat with hp by lia.
  rewrite <- Nat2Z.inj_div, <- Nat2Z.inj_mod. destruct (split_index hp k g Hg) as [-> ->]. rewrite Hhalf.
  assert (k * (n * hd) + n * hd <= M * (n * hd))%nat by nia. assert (g * hd <= n * hd)%nat by nia.
  assert (int32 (Z.of_nat k * Z.of_nat (n * hd)) = Z.of_nat (k * (n * hd))) as -> by (unfold int32; rewrite wrap_id; [lia|done|unfold in_int; lia]).
  assert (int32 (Z.of_nat g * Z.of_nat hd) = Z.of_nat (g * hd)) as -> by (unfold int32; rewrite wrap_id; [lia|done|unfold in_int; lia]).
  destruct (all_heads_ok hd n Hhd ltac:(lia) xs Hxs) as (Hu & Hc & _ & Hh).
  rewrite <- Nat2Z.inj_add. replace (k * (n * hd) + g * hd)%nat with ((k * n + g) * hd)%nat by lia.
  rewrite <- Hc, (read_row_ok hd Hhd _ _ _ Hu (Hh k x g Hk ltac:(lia))). cbn [run_bind]. rewrite (zindex_Some _ _ _ Hkp). cbn [run_bind].
  rewrite Forall_lookup in Hpos. pose proof (Hpos k p Hkp) as [Hp1 Hp2]. unfold len in *.
  assert (int32 (p * Z.of_nat half) = Z.of_nat (Z.to_nat p * half)) as -> by (unfold int32; rewrite wrap_id; [lia|done|unfold in_int; nia]).
  destruct (lookup_lt_is_Some_2 cs (Z.to_nat p) ltac:(lia)) as [c Ec], (lookup_lt_is_Some_2 sn (Z.to_nat p) ltac:(lia)) as [s Es].
  rewrite (read_row_ok half Hhalf0 cs _ c Hcs Ec), (read_row_ok half Hhalf0 sn _ s Hsn Es). cbn [run_bind].
  rewrite (nth_lookup_Some _ _ _ _ Ec), (nth_lookup_Some _ _ _ _ Es).
  by assert ((Z.of_nat g <? Z.of_nat nq)%Z = (g <? nq)%nat) as -> by (destruct (Z.ltb_spec (Z.of_nat g) (Z.of_nat nq)), (Nat.ltb_spec g nq); lia || done).
Qed.

(** The new head [g] of row [k]. *)
Definition new_head (k g : nat) : list V :=
  match xs !! k, pos !! k with
  | Some x, Some p => f (g <? nq)%nat (nth (Z.to_nat p) cs []) (nth (Z.to_nat p) sn []) (slice x (g * hd) (g * hd + hd))
  | _, _ => []
  end.

Definition new_heads (j : nat) : option (list V) :=
  if (j / n <? M)%nat && (j mod n <? hp)%nat then Some (new_head (j / n) (j mod n)) else None.

Lemma new_heads_at k g : (k < M)%nat -> (g < n)%nat -> new_heads (k * n + g) = if (g <? hp)%nat then Some (new_head k g) else None.
Proof using All.
  intros Hk Hg. unfold new_heads. destruct (split_index n k g Hg) as [-> ->]. by rewrite (proj2 (Nat.ltb_lt _ _)) by done.
Qed.

Lemma new_heads_Some j y : new_heads j = Some y <->
  exists b, (b < M * hp)%nat /\ j = (b / hp * n + b mod hp)%nat /\ y = new_head (b / hp) (b mod hp).
Proof using All.
  split.
  - unfold new_heads. destruct (Nat.ltb_spec (j / n) M), (Nat.ltb_spec (j mod n) hp); cbn [andb]; try done. intros [= <-].
    exists (j / n * hp + j mod n)%nat. pose proof (Nat.div_mod_eq j n).
    destruct (split_index hp (j / n) (j mod n) ltac:(done)) as [-> ->]. split; [nia|]. split; [lia|done].
  - intros (b & Hb & -> & ->). pose proof (Nat.mod_upper_bound b hp ltac:(lia)).
    rewrite new_heads_at; [by rewrite (proj2 (Nat.ltb_lt _ _)) by done|apply Nat.div_lt_upper_bound; lia|lia].
Qed.

Lemma length_new_head k g : (k < M)%nat -> (g < n)%nat -> length (new_head k g) = hd.
Proof using All.
  intros Hk Hg. unfold new_head. destruct (lookup_lt_is_Some_2 xs k ltac:(lia)) as [x Hx], (lookup_lt_is_Some_2 pos k ltac:(lia)) as [p Hp'].
  rewrite Hx, Hp'. apply Hf. unfold uniform in Hxs. rewrite Forall_lookup in Hxs. rewrite length_slice; [lia|]. rewrite (Hxs k x Hx). nia.
Qed.

(** The new row [k]. *)
Definition new_row (k : nat) : list V := match xs !! k, pos !! k with Some x, Some p => row p x | _, _ => [] end.

Lemma row_length k x : xs !! k = Some x -> length x = (n * hd)%nat.
Proof using All. unfold uniform in Hxs. rewrite Forall_lookup in Hxs. apply Hxs. Qed.

Lemma new_heads_uniform : uniform hd (updated new_heads (all_heads hd n xs)).
Proof using All.
  destruct (all_heads_ok hd n Hhd ltac:(lia) xs Hxs) as (Hu & _). apply Forall_lookup. intros j y Hj. unfold updated in Hj. rewrite list_lookup_imap in Hj.
  destruct (all_heads hd n xs !! j) as [h|] eqn:E; [|done]. injection Hj as <-. destruct (new_heads j) as [z|] eqn:En; cbn.
  - unfold new_heads in En. destruct (Nat.ltb_spec (j / n) M), (Nat.ltb_spec (j mod n) hp); cbn [andb] in En; try done. injection En as <-.
    apply length_new_head; [done|lia].
  - unfold uniform in Hu. rewrite Forall_lookup in Hu. by apply (Hu j).
Qed.

Lemma new_rows_uniform : uniform (n * hd) (updated (first_rows M new_row) xs).
Proof using All.
  apply Forall_lookup. intros k y Hk. unfold updated in Hk. rewrite list_lookup_imap in Hk. destruct (xs !! k) as [x|] eqn:E; [|done].
  injection Hk as <-. unfold first_rows. destruct (Nat.ltb_spec k M); cbn; [|by apply (row_length k)].
  destruct (lookup_lt_is_Some_2 pos k ltac:(lia)) as [p Hp']. unfold new_row. rewrite E, Hp'.
  apply rotated_uniform; [done|intros q h; apply Hf|by apply (row_length k)].
Qed.

(** An element of a head of a row, new or not. *)
Lemma new_element k g i x : xs !! k = Some x -> (g < n)%nat -> (i < hd)%nat ->
  default (slice x (g * hd) (g * hd + hd)) (new_heads (k * n + g)) !! i = default x (first_rows M new_row k) !! (g * hd + i)%nat.
Proof using All.
  intros Hx Hg Hi. destruct (decide (k < M)%nat) as [HkM|HkM].
  - rewrite new_heads_at by done. unfold first_rows. rewrite (proj2 (Nat.ltb_lt _ _) HkM). cbn [default]. unfold new_row, new_head.
    destruct (lookup_lt_is_Some_2 pos k ltac:(lia)) as [p Hp']. rewrite Hx, Hp'. unfold rotated.
    pose proof (proj1 (rotated_uniform hd n Hhd f hp nq (nth (Z.to_nat p) cs []) (nth (Z.to_nat p) sn []) x (fun q h => Hf q _ _ h) (row_length k x Hx))) as Hu.
    rewrite (lookup_rows hd Hhd _ Hu) by done. rewrite list_lookup_imap, (lookup_heads hd n x g Hg). cbn. by destruct (g <? hp)%nat.
  - unfold new_heads, first_rows. destruct (split_index n k g Hg) as [-> ->]. rewrite (proj2 (Nat.ltb_ge k M)) by lia. cbn. by apply (head_element hd n).
Qed.

Lemma new_heads_rows : concat (updated new_heads (all_heads hd n xs)) = concat (updated (first_rows M new_row) xs).
Proof using All.
  destruct (all_heads_ok hd n Hhd ltac:(lia) xs Hxs) as (_ & _ & Hlen & Hh).
  apply (by_rows hd (length xs * n)); [done|..].
  { rewrite (length_rows hd Hhd) by apply new_heads_uniform. unfold updated. by rewrite length_imap, Hlen. }
  { rewrite (length_rows (n * hd)%nat ltac:(nia)) by apply new_rows_uniform. unfold updated. rewrite length_imap. lia. }
  intros j i Hj Hi. rewrite (Nat.div_mod_eq j n). pose proof (Nat.mod_upper_bound j n ltac:(lia)) as Hg.
  set (g := (j mod n)%nat) in *. set (k := (j / n)%nat) in *. rewrite (Nat.mul_comm n k).
  assert (k < length xs)%nat as Hk by (apply Nat.div_lt_upper_bound; lia). destruct (lookup_lt_is_Some_2 xs k Hk) as [x Hx].
  rewrite (lookup_rows hd Hhd _ new_heads_uniform) by done. replace ((k * n + g) * hd + i)%nat with (k * (n * hd) + (g * hd + i))%nat by lia.
  rewrite (lookup_rows (n * hd)%nat ltac:(nia) _ new_rows_uniform) by nia. unfold updated. rewrite !list_lookup_imap, (Hh k x g Hx Hg), Hx.
  by apply new_element.
Qed.

Lemma HeadNormRope_ok : (nq <= hp)%nat ->
  implements xs (blocks kernel (Z.of_nat (M * hp))) (row_wise (Z.of_nat M) (fun '(x, p) => row p x) (zip xs pos) xs).
Proof using All.
  intros Hq. destruct (all_heads_ok hd n Hhd ltac:(lia) xs Hxs) as (Hu & Hc & Hlen & _).
  destruct (blocks_rows hd kernel (M * hp) (fun b => (b / hp * n + b mod hp)%nat) (fun b => new_head (b / hp) (b mod hp)) new_heads) as (ws & E & Hw).
  - intros b Hb. pose proof (Nat.div_mod_eq b hp). pose proof (Nat.mod_upper_bound b hp ltac:(lia)).
    assert (b / hp < M)%nat as Hk by (apply Nat.div_lt_upper_bound; lia). unfold new_head.
    destruct (lookup_lt_is_Some_2 xs (b / hp) ltac:(lia)) as [x Hx], (lookup_lt_is_Some_2 pos (b / hp) ltac:(lia)) as [p Hp']. rewrite Hx, Hp'.
    replace b with (b / hp * hp + b mod hp)%nat at 1 by lia. by apply rope_block.
  - intros j y. apply new_heads_Some.
  - exists ws, (updated (first_rows M new_row) xs). split; [done|]. split.
    { apply row_wise_first; [apply length_zip_ge; done|done|]. intros k [x p] [Hx Hp']%lookup_zip _. unfold new_row. by rewrite Hx, Hp'. }
    intros order Ho. rewrite <- Hc, <- new_heads_rows. apply (rows_stored hd Hhd _ new_heads (concat ws) Hu); [|done|done].
    intros j y (b & Hb & -> & ->)%new_heads_Some. pose proof (Nat.mod_upper_bound b hp ltac:(lia)).
    assert (b / hp < M)%nat by (apply Nat.div_lt_upper_bound; lia). split; [rewrite Hlen; nia|apply length_new_head; lia].
Qed.

End rope.

(** ** Property *)

(** The widths of the rows. *)
Definition hidden : nat := Z.to_nat kHiddenSize.
Definition inter : nat := Z.to_nat kIntermediate.
Definition qkv_width : nat := Z.to_nat (q_dim + 2 * kv_dim).

Lemma qkv_heads : qkv_width = (48 * 128)%nat.
Proof. apply Nat2Z.inj. reflexivity. Qed.

Lemma qkv_stride : (q_dim + 2 * kv_dim)%Z = Z.of_nat (48 * 128).
Proof. reflexivity. Qed.

(** One row more, and the products of [SiluMulKernel] leave 32 bits: the row of the last
    thread block starts before the buffer. *)
Lemma SiluMul_overflows {V} silu (gateup : list V) : SiluMulKernel silu gateup 87383 kIntermediate (87382 * kIntermediate) = Panic.
Proof. reflexivity. Qed.

(** C37: with up to 87382 rows, token ids within the embedding table and positions within the
    tables of the rotation (the kernels check neither), the kernels between the matrix
    products stay within their buffers, and none of their 32-bit products overflows: whatever the order of their
    threads, they turn the rows in memory into those that the forward pass is modelled with,
    each computed from the same row of the inputs - the rotation in place, on the 40 heads of
    the queries and keys and not on those of the values. *)
Theorem row_kernels {V F : Type} `{!Inhabited V} (M : nat) : (Z.of_nat M <= 87382)%Z ->
  (forall ids (table os : list (list V)), uniform hidden table -> uniform hidden os -> (M <= length ids)%nat -> (M <= length os)%nat ->
     (len table <= kVocabSize)%Z -> Forall (fun id => 0 <= id < len table)%Z ids ->
     implements os (blocks (EmbedKernel ids (concat table) kHiddenSize) (Z.of_nat M))
       (row_wise (Z.of_nat M) (fun id => nth (Z.to_nat id) table []) ids os)) /\
  (forall f (xs os : list (list V)), uniform hidden xs -> uniform hidden os -> (M <= length xs)%nat -> (M <= length os)%nat ->
     (forall x, length x = hidden -> length (f x) = hidden) ->
     implements os (blocks (RmsnormKernel f (concat xs) kHiddenSize) (Z.of_nat M)) (row_wise (Z.of_nat M) f xs os)) /\
  (forall add f (xs rs os : list (list V)), uniform hidden xs -> uniform hidden rs -> uniform hidden os ->
     (M <= length xs)%nat -> (M <= length rs)%nat -> (M <= length os)%nat ->
     (forall x y, length x = hidden -> length y = hidden -> length (add x y) = hidden /\ length (f x y) = hidden) ->
     let launch := blocks (AddRmsnormKernel add f (concat xs) (concat rs) kHiddenSize) (Z.of_nat M) in
     implements xs (let* ws := launch in Ret (fst <$> ws)) (row_wise (Z.of_nat M) (fun '(x, y) => add x y) (zip xs rs) xs) /\
     implements os (let* ws := launch in Ret (snd <$> ws)) (row_wise (Z.of_nat M) (fun '(x, y) => f x y) (zip xs rs) os)) /\
  (forall (f : bool -> list F -> list F -> list V -> list V) (xs : list (list V)) (cs sn : list (list F)) pos,
     (forall q c s h, length h = 128%nat -> length (f q c s h) = 128%nat) -> uniform qkv_width xs -> (M <= length xs)%nat -> (M <= length pos)%nat ->
     uniform 64 cs -> uniform 64 sn -> (len cs < 2 ^ 25)%Z -> Forall (fun p => 0 <= p < len cs /\ p < len sn)%Z pos ->
     implements xs
       (blocks (HeadNormRopeKernel f (concat xs) (concat cs) (concat sn) pos kNumHeads kNumKvHeads kHeadDim (q_dim + 2 * kv_dim))
          (Z.of_nat M * (kNumHeads + kNumKvHeads)))
       (row_wise (Z.of_nat M) (fun '(x, p) => rotated 128 48 f 40 32 (nth (Z.to_nat p) cs []) (nth (Z.to_nat p) sn []) x) (zip xs pos) xs)) /\
  (forall silu (gs os : list (list V)), uniform (2 * inter) gs -> uniform inter os -> (M <= length gs)%nat -> (M <= length os)%nat ->
     implements os (LaunchSiluMul silu (concat gs) (Z.of_nat M) kIntermediate)
       (row_wise (Z.of_nat M) (fun g => zip_with silu (take inter g) (drop inter g)) gs os)) /\
  (forall add (xs ys : list (list V)), uniform hidden xs -> uniform hidden ys -> (M <= length xs)%nat -> (M <= length ys)%nat ->
     implements xs (LaunchAdd add (concat xs) (concat ys) (int32 (Z.of_nat M * kHiddenSize)))
       (row_wise (Z.of_nat M) (fun '(x, y) => zip_with add x y) (zip xs ys) xs)) /\
  (forall (xs os : list (list V)) rows, uniform hidden xs -> uniform hidden os -> (M <= length rows)%nat -> (M <= length os)%nat ->
     (len xs < 2 ^ 19)%Z -> Forall (fun r => 0 <= r < len xs)%Z rows ->
     implements os (blocks (GatherRowsKernel (concat xs) rows kHiddenSize) (Z.of_nat M))
       (row_wise (Z.of_nat M) (fun r => nth (Z.to_nat r) xs []) rows os)).
Proof.
  intros HM. assert (Z.of_nat hidden = 4096%Z) as Eh by done. assert (Z.of_nat inter = 12288%Z) as Ei by done.
  assert (kHiddenSize = Z.of_nat hidden) as -> by done. assert (kIntermediate = Z.of_nat inter) as -> by done.
  assert (0 < hidden)%nat as Hh by lia. assert (Z.of_nat (M * hidden) + 255 < 2 ^ 31)%Z as Hb by lia.
  assert (0 < inter)%nat as Hi by lia.
  split; [|split; [|split; [|split; [|split; [|split]]]]].
  - intros ids table os Ht Ho H1 H2 Hv Hids. assert (Z.of_nat (length table * hidden) < 2 ^ 31)%Z as Htab by (unfold len, kVocabSize in Hv; lia).
    exact (Embed_ok hidden M Hh Hb ids table os Ht Ho H1 H2 Htab Hids).
  - intros f xs os Hx Ho H1 H2 Hf. exact (Rmsnorm_ok hidden M Hh Hb f xs os Hx Ho H1 H2 Hf).
  - intros add f xs rs os Hx Hr Ho H1 H2 H3 Hf. exact (AddRmsnormKernel_ok hidden M Hh Hb add f xs rs os Hx Hr Ho H1 H2 H3 Hf).
  - intros f xs cs sn pos Hf Hx H1 H2 Hc Hs Hlen Hpos. rewrite qkv_heads in Hx. unfold len in Hlen.
    replace (Z.of_nat M * (kNumHeads + kNumKvHeads))%Z with (Z.of_nat (M * 40)) by (unfold kNumHeads, kNumKvHeads; lia).
    rewrite qkv_stride.
    refine (HeadNormRope_ok 128 48 40 32 64 M f _ _ eq_refl _ _ Hf xs cs sn pos Hx H1 H2 Hc Hs Hpos _ _); lia.
  - intros silu gs os Hg Ho H1 H2. refine (SiluMul_ok inter M Hi silu gs os _ _ _ Hg Ho H1 H2); lia.
  - intros add xs ys Hx Hy H1 H2. exact (Add_ok hidden M Hh Hb add xs ys Hx Hy H1 H2).
  - intros xs os rows Hx Ho H1 H2 Hlen Hrows. assert (Z.of_nat (length xs * hidden) < 2 ^ 31)%Z as Htab by (unfold len in Hlen; lia).
    exact (GatherRows_ok hidden M Hh Hb xs rows os Hx Ho H1 H2 Htab Hrows).
Qed.

(** ** Witness *)

(** Two rows of ones. *)
Lemma row_kernels_witness : (2 <= 87382)%Z /\
  implements (replicate 2 (replicate inter 0%Z))
    (LaunchSiluMul Z.add (concat (replicate 2 (replicate (2 * inter) 1%Z))) 2 kIntermediate)
    (Ret (replicate 2 (replicate inter 2%Z))).
Proof.
  split; [done|]. pose proof (@row_kernels Z Z _ 2 ltac:(done)) as (_ & _ & _ & _ & Hs & _).
  destruct (Hs Z.add (replicate 2 (replicate (2 * inter) 1%Z)) (replicate 2 (replicate inter 0%Z))) as (ws & rows' & E1 & E2 & E3).
  - apply Forall_replicate, length_replicate.
  - apply Forall_replicate, length_replicate.
  - by rewrite length_replicate.
  - by rewrite length_replicate.
  - exists ws, rows'. split; [exact E1|]. split; [|exact E3]. rewrite <- E2. reflexivity.
Defined.
