(* ===== verification/SchedulerFrame.v ===== *)
(** * What no operation of the scheduler touches

    A request keeps what it was submitted with; its tokens and the events given to its sink
    are only ever added to, and its sink's cancellation flag is only raised by the handler.
    [extends] says so of a whole scheduler, [same_model] that the device is left alone,
    [same_tokens] that no answer grows; all are a [Frame], and every operation of [Scheduler]
    between two forward passes respects every frame, whatever the state: these lemmas need no
    invariant. What hands out the sampled tokens respects the frames that let answers grow
    ([Growing]). *)

From S2P Require Import Prelude GoStrings Chatml Client Generate BlockAllocator Sequence Scheduler.
From stdpp Require Import relations.
Local Open Scope go_scope.

(** ** Running a monadic operation backwards *)
Lemma get_inv {RT : Runtime} (s : Scheduler) i r : get s i = Ret r -> reqs s !! i = Some r.
Proof. unfold get. destruct (reqs s !! i); [|done]. by intros [= <-]. Qed.

(** One bind after the other; a pair that is bound is taken apart. *)
Ltac bind_step H :=
  let x := fresh "x" in let Hx := fresh "Hx" in
  apply bind_inv in H as (x & Hx & H);
  lazymatch type of Hx with
  | get _ _ = Ret _ => apply get_inv in Hx
  | _ => idtac
  end;
  repeat match goal with p : (_ * _)%type |- _ => destruct p end.

(** ** Requests *)
Definition sink_grows (k k' : option GrpcSink) : Prop :=
  match k, k' with
  | Some k, Some k' => q_ k `prefix_of` q_ k' /\ Sequence.cancel k' = Sequence.cancel k
  | None, None => True
  | _, _ => False
  end.

Record grows (r r' : Request) : Prop := {
  grow_prompt : prompt_ r' = prompt_ r;
  grow_budget : max_new_ r' = max_new_ r;
  grow_ctx : max_ctx_ r' = max_ctx_ r;
  grow_params : sp_ r' = sp_ r;
  grow_stop : stop_ids_ r' = stop_ids_ r;
  grow_output : output_ r `prefix_of` output_ r';
  grow_sink : sink_grows (sink_ r) (sink_ r');
}.

#[export] Instance sink_grows_preorder : PreOrder sink_grows.
Proof.
  split.
  - intros [k|]; [by split|done].
  - intros [a|] [b|] [c|]; try done. intros [H1 H2] [H3 H4]. split; [by etrans|congruence].
Qed.

#[export] Instance grows_preorder : PreOrder grows.
Proof.
  split; [by split|]. intros a b c [] []. split; try congruence; by etrans.
Qed.

Lemma grows_cancelled r r' : grows r r' -> is_cancelled r' = is_cancelled r.
Proof.
  intros [_ _ _ _ _ _ H]. unfold is_cancelled, sink_grows in *. by destruct (sink_ r), (sink_ r'); [destruct H|..].
Qed.

(** The bookkeeping of blocks touches nothing of this. *)
Lemma grows_kv r t c n cb h : grows r (set_kv r t c n cb h).
Proof. by split. Qed.

Lemma grows_table r t : grows r (set_table r t).
Proof. apply grows_kv. Qed.

Lemma grows_gen r k out fin : output_ r `prefix_of` out -> sink_grows (sink_ r) k -> grows r (set_gen r k out fin).
Proof. by split. Qed.

Lemma grows_report r msg : grows r (report r msg).
Proof. apply grows_gen; [done|]. destruct (sink_ r) as [k|]; [|done]. split; [by eexists|done]. Qed.

Lemma grows_AcceptSampled r t r' fin : AcceptSampled r t = (r', fin) -> grows r r'.
Proof.
  unfold AcceptSampled. set (r1 := set_gen _ _ _ _). assert (grows r r1) as H1.
  { apply grows_gen; [by eexists|]. destruct (sink_ r) as [k|]; [|done]. split; [by eexists|done]. }
  destruct (negb _); intros [= <- <-]; [done|]. etrans; [exact H1|]. apply grows_gen; [done|].
  cbn [r1 set_gen sink_]. destruct (sink_ r) as [k|]; [|done]. split; [by eexists|done].
Qed.

Lemma grows_EmitChunk r inp n inp' r' : EmitChunk r inp n = Ret (inp', r') -> grows r r'.
Proof.
  unfold EmitChunk, AddTable. cbv beta iota zeta. destruct (emit_rows _ _ _ _ _); [|done..]. intros [= _ <-]. apply grows_kv.
Qed.

Lemma EmitChunk_output r inp n inp' r' : EmitChunk r inp n = Ret (inp', r') -> output_ r' = output_ r.
Proof.
  unfold EmitChunk, AddTable. cbv beta iota zeta. destruct (emit_rows _ _ _ _ _); [|done..]. by intros [= _ <-].
Qed.

(** ** Stores *)
Section runtime.
Context {RT : Runtime}.

Definition extends (s s' : Scheduler) : Prop :=
  forall i, match reqs s !! i with
            | Some r => exists r', reqs s' !! i = Some r' /\ grows r r'
            | None => reqs s' !! i = None
            end.

#[export] Instance extends_preorder : PreOrder extends.
Proof.
  split.
  - intros s i. destruct (reqs s !! i) as [r|]; [|done]. by exists r.
  - intros a b c H1 H2 i. specialize (H1 i). specialize (H2 i). destruct (reqs a !! i) as [r|].
    + destruct H1 as (r1 & E1 & G1). rewrite E1 in H2. destruct H2 as (r2 & E2 & G2). exists r2. split; [done|by etrans].
    + by rewrite H1 in H2.
Qed.

(** Changing the queues or the allocator changes no request. *)
Lemma extends_reqs s s' : reqs s' = reqs s -> extends s s'.
Proof. intros E i. rewrite E. destruct (reqs s !! i) as [r|]; [|done]. by exists r. Qed.

Lemma extends_put s s0 i r r' : reqs s0 = reqs s -> reqs s !! i = Some r -> grows r r' -> extends s (put s0 i r').
Proof.
  intros E Hr Hg j. cbn [put reqs]. rewrite E. destruct (decide (i = j)) as [<-|Hne].
  - rewrite Hr, lookup_insert_eq. by exists r'.
  - rewrite lookup_insert_ne by done. destruct (reqs s !! j) as [x|]; [|done]. by exists x.
Qed.

(** What the operations respect: a relation that a change of the queues, of the allocator
    or of one growing request keeps. *)
Class Frame (R : relation Scheduler) := {
  frame_preorder :: PreOrder R;
  frame_same s s' : reqs s' = reqs s -> model_ s' = model_ s -> R s s';
  frame_put s s0 i r r' : reqs s0 = reqs s -> model_ s0 = model_ s -> reqs s !! i = Some r -> grows r r' ->
    output_ r' = output_ r -> R s (put s0 i r');
}.

(** A frame that lets the answers grow. *)
Class Growing (R : relation Scheduler) := {
  growing_frame :: Frame R;
  growing_put s s0 i r r' : reqs s0 = reqs s -> model_ s0 = model_ s -> reqs s !! i = Some r -> grows r r' -> R s (put s0 i r');
}.

#[export] Instance extends_frame : Growing extends.
Proof. split; [split; [apply _|by intros; apply extends_reqs|]|]; by intros; eapply extends_put. Qed.

(** The operations leave the device alone. *)
Definition same_model (s s' : Scheduler) : Prop := model_ s' = model_ s.

#[export] Instance same_model_frame : Growing same_model.
Proof. split; [|done]. split; [|done|done]. split; [done|]. intros a b c H1 H2. unfold same_model in *. congruence. Qed.

(** The requests of [s'] have the tokens they had. *)
Definition same_tokens (s s' : Scheduler) : Prop :=
  forall i r', reqs s' !! i = Some r' -> exists r, reqs s !! i = Some r /\ prompt_ r' = prompt_ r /\ output_ r' = output_ r.

#[export] Instance same_tokens_frame : Frame same_tokens.
Proof.
  split.
  - split; [intros s i r Hr; by exists r|]. intros a b c H1 H2 i r Hr. destruct (H2 i r Hr) as (r1 & Hr1 & P1 & O1).
    destruct (H1 i r1 Hr1) as (r0 & Hr0 & P0 & O0). exists r0. split; [done|]. split; congruence.
  - intros s s' E _ i r Hr. rewrite E in Hr. by exists r.
  - intros s s0 i r r' E _ Hr Hg Ho j x Hx. cbn [put reqs] in Hx. rewrite E in Hx. apply lookup_insert_Some in Hx as [[<- <-]|[_ Hx]].
    + exists r. split; [done|]. split; [by apply grow_prompt|done].
    + by exists x.
Qed.

(** ** The operations *)
Section frames.
Context {R : relation Scheduler} `{!Frame R}.

Lemma frame_then s s1 s' : reqs s1 = reqs s -> model_ s1 = model_ s -> R s1 s' -> R s s'.
Proof using Frame0. intros H1 H2 H. etrans; [by apply (frame_same s s1)|exact H]. Qed.

Lemma Release_frames s i s' : Release s i = Ret s' -> R s s'.
Proof using Frame0. unfold Release. intros H. bind_step H. bind_step H. injection H as <-. by eapply frame_put. Qed.

Lemma Retire_frames s i s' : Retire s i = Ret s' -> R s s'.
Proof using Frame0.
  unfold Retire. intros H. bind_step H. injection H as <-. etrans; [by eapply Release_frames|]. by apply frame_same.
Qed.

Lemma CacheBlocks_frames s i s' : CacheBlocks s i = Ret s' -> R s s'.
Proof using Frame0. unfold CacheBlocks. intros H. bind_step H. bind_step H. injection H as <-. by eapply frame_put. Qed.

Lemma Grow_frames f : forall s i upto s' ok, Grow f s i upto = Ret (s', ok) -> R s s'.
Proof using Frame0.
  induction f as [|f IH]; intros s i upto s' ok; cbn [Grow]; [done|]. intros H. bind_step H. bind_step H.
  set (s1 := put (set_alloc s b0) i (set_table x l)) in *.
  assert (R s s1) as H1 by by eapply frame_put.
  destruct b; [by injection H as <- _|].
  destruct (victim _ _ _) as [k|].
  - bind_step H. bind_step H. bind_step H. apply IH in H. etrans; [exact H1|].
    etrans; [by eapply Release_frames|]. etrans; [|exact H]. etrans; [by apply (frame_put x1 x1 x0 x2 (ResetForRecompute x2))|by apply frame_same].
  - bind_step H. bind_step H. injection H as <- _. etrans; [exact H1|]. etrans; [|by eapply Retire_frames].
    eapply frame_put; [done|done|done|apply grows_report|done].
Qed.

Section operations.
Context (cfg : SchedulerConfig).

Lemma AcquirePrefix_frames s i s' : AcquirePrefix cfg s i = Ret s' -> R s s'.
Proof using Frame0.
  unfold AcquirePrefix. destruct (negb _); [by intros [= <-]|]. intros H. bind_step H. bind_step H. injection H as <-.
  eapply frame_put; [done|done|done| |by destruct (0 <? _)%Z]. destruct (0 <? _)%Z; [|done]. etrans; apply grows_kv.
Qed.

Lemma drop_cancelled_frames q : forall s s' q', drop_cancelled s q = Ret (s', q') -> R s s'.
Proof using Frame0.
  induction q as [|i q IH]; intros s s' q'; cbn [drop_cancelled]; [by intros [= <- _]|]. intros H. bind_step H.
  destruct (is_cancelled x); bind_step H.
  - etrans; [by eapply Release_frames|by eapply IH].
  - injection H as <- _. by eapply IH.
Qed.

Lemma fill_slots_frames w : forall s s', fill_slots cfg s w = Ret s' -> R s s'.
Proof using Frame0.
  induction w as [|i w IH]; intros s s'; cbn [fill_slots]; [by intros [= <-]; by apply frame_same|].
  destruct (_ <? _)%Z; [|by intros [= <-]; apply frame_same]. intros H. bind_step H. bind_step H.
  assert (R s x0) as H1 by (destruct (bool_decide _); [by eapply AcquirePrefix_frames|by injection Hx0 as <-]).
  etrans; [exact H1|]. etrans; [|by eapply IH]. by apply frame_same.
Qed.

Lemma Refill_frames s s' : Refill cfg s = Ret s' -> R s s'.
Proof using Frame0.
  unfold Refill. intros H. bind_step H. bind_step H. apply drop_cancelled_frames in Hx, Hx0. apply fill_slots_frames in H.
  etrans; [exact Hx|]. eapply frame_then; [| |etrans; [exact Hx0|eapply frame_then; [| |exact H]]]; done.
Qed.

Lemma AddRequest_frames s b i n s' b' : AddRequest s b i n = Ret (s', b') -> R s s'.
Proof using Frame0.
  unfold AddRequest. intros H. bind_step H. bind_step H. injection H as <- _.
  eapply frame_put; [done|done|done|by eapply grows_EmitChunk|by eapply EmitChunk_output].
Qed.

Lemma pack_frames order : forall s b budget s' b' re, pack cfg s b budget order = Ret (s', b', re) -> R s s'.
Proof using Frame0.
  induction order as [|k order IH]; intros s b budget s' b' re; cbn [pack]; [by intros [= <- _ _]|].
  destruct (_ <=? _)%Z; [by intros [= <- _ _]|]. intros H. bind_step H. bind_step H.
  destruct (_ <=? _)%Z; [by eapply IH|]. cbv zeta in H. bind_step H. apply Grow_frames in Hx1.
  destruct (negb _); [by injection H as <- _ _|]. bind_step H. apply AddRequest_frames in Hx2. apply IH in H.
  etrans; [exact Hx1|]. by etrans.
Qed.

Lemma BuildBatch_frames f : forall s s' b, BuildBatch cfg f s = Ret (s', b) -> R s s'.
Proof using Frame0.
  induction f as [|f IH]; intros s s' b; cbn [BuildBatch]; [done|]. intros H. bind_step H. cbv zeta in H. bind_step H.
  apply pack_frames in Hx0. match type of H with context [if ?c then _ else _] => destruct c end.
  - etrans; [exact Hx0|by eapply IH].
  - by injection H as <- _.
Qed.

Lemma advance_all_frames ids : forall s s', advance_all s ids = Ret s' -> R s s'.
Proof using Frame0.
  induction ids as [|i ids IH]; intros s s'; cbn [advance_all]; [by intros [= <-]|]. intros H. bind_step H.
  etrans; [|by eapply IH]. by eapply frame_put.
Qed.

Lemma each_frames (f : Scheduler -> nat -> run Scheduler) ids :
  (forall s i s', f s i = Ret s' -> R s s') -> forall s s', each f s ids = Ret s' -> R s s'.
Proof using Frame0.
  intros Hf. induction ids as [|i ids IH]; intros s s'; cbn [each]; [by intros [= <-]|]. intros H. bind_step H.
  etrans; [by eapply Hf|by eapply IH].
Qed.

(** What follows once the sampled tokens are handed out. *)
Lemma settle_frames s ids finished s' :
  (let* s := if use_prefix_cache cfg then each CacheBlocks s ids else Ret s in each Retire s finished) = Ret s' -> R s s'.
Proof using Frame0.
  intros H. bind_step H. etrans; [|eapply each_frames; [|exact H]; by apply Retire_frames].
  destruct (use_prefix_cache cfg); [|by injection Hx as <-]. eapply each_frames; [|exact Hx]. by apply CacheBlocks_frames.
Qed.

Lemma drain_frames incoming : forall s s', drain cfg s incoming = Ret s' -> R s s'.
Proof using Frame0.
  induction incoming as [|i incoming IH]; intros s s'; cbn [drain]; [by intros [= <-]|].
  destruct (_ && _).
  - intros H. bind_step H. etrans; [|by eapply IH]. eapply frame_put; [done|done|done|apply grows_report|done].
  - intros H. etrans; [|by eapply IH]. by apply frame_same.
Qed.

End operations.
End frames.

(** *** Handing out the sampled tokens *)
Section growing.
Context {R : relation Scheduler} `{!Growing R}.

Lemma accept_all_frames samples ids : forall s k fin s' fin',
  accept_all s samples k ids fin = Ret (s', fin') -> R s s'.
Proof using Growing0.
  induction ids as [|i ids IH]; intros s k fin s' fin'; cbn [accept_all]; [by intros [= <- _]|]. intros H. bind_step H.
  destruct (_ =? _)%Z; [|by eapply IH]. bind_step H. destruct (AcceptSampled x x0) as [r fl] eqn:Ea.
  etrans; [|by eapply IH]. eapply growing_put; [done|done|done|by eapply grows_AcceptSampled].
Qed.

Lemma Finish_frames cfg s batch s' : Finish cfg s batch = Ret s' -> R s s'.
Proof using Growing0.
  unfold Finish, Apply. intros H. bind_step H. bind_step Hx. apply (advance_all_frames (R := R)) in Hx0.
  apply accept_all_frames in Hx. apply (settle_frames (R := R)) in H. etrans; [exact Hx0|]. by etrans.
Qed.

End growing.

Section operations.
Context (cfg : SchedulerConfig).

Lemma Retire_extends s i s' : Retire s i = Ret s' -> extends s s'.
Proof. apply Retire_frames. Qed.

Lemma CacheBlocks_extends s i s' : CacheBlocks s i = Ret s' -> extends s s'.
Proof. apply CacheBlocks_frames. Qed.

Lemma AcquirePrefix_extends s i s' : AcquirePrefix cfg s i = Ret s' -> extends s s'.
Proof. apply AcquirePrefix_frames. Qed.

Lemma fill_slots_extends w s s' : fill_slots cfg s w = Ret s' -> extends s s'.
Proof. apply fill_slots_frames. Qed.

Lemma Refill_extends s s' : Refill cfg s = Ret s' -> extends s s'.
Proof. apply Refill_frames. Qed.

Lemma BuildBatch_extends f s s' b : BuildBatch cfg f s = Ret (s', b) -> extends s s'.
Proof. apply BuildBatch_frames. Qed.

Lemma advance_all_extends ids s s' : advance_all s ids = Ret s' -> extends s s'.
Proof. apply advance_all_frames. Qed.

Lemma Finish_extends s batch s' : Finish cfg s batch = Ret s' -> extends s s'.
Proof. apply Finish_frames. Qed.

Lemma Step_extends s s' : Step cfg s = Ret s' -> extends s s'.
Proof.
  unfold Step. intros H. bind_step H. apply Refill_extends in Hx. bind_step H. apply BuildBatch_extends in Hx0.
  etrans; [exact Hx|]. etrans; [exact Hx0|]. destruct (requests c) as [|i ids]; [by injection H as <-|].
  destruct (Forward _ _) as [d tokens]. apply Finish_extends in H. etrans; [|exact H]. by apply extends_reqs.
Qed.

Lemma drain_extends incoming s s' : drain cfg s incoming = Ret s' -> extends s s'.
Proof. apply drain_frames. Qed.

Lemma run_round_extends s s' : run_round cfg s = Ret s' -> extends s s'.
Proof.
  unfold run_round. destruct (_ && _); [by intros [= <-]|]. intros H. bind_step H. apply drain_extends in Hx.
  etrans; [|etrans; [exact Hx|]]; [by apply extends_reqs|].
  destruct (Busy x); [by apply Step_extends|by injection H as <-].
Qed.

End operations.

End runtime.
