(* ===== verification/SchedulerInv.v ===== *)
(** * The scheduler's invariant

    The invariant of [Scheduler] and the parts of a step that preserve it: giving blocks
    back, dropping cancelled requests, filling the slots and packing a batch. The
    invariant [inv] is relative to what a phase of the step knows about the running
    requests; between two steps they are [live]. Growing a table cannot fail here because
    the pool covers every slot at the full context length ([Grow_fits]). *)

From S2P Require Import Prelude GoStrings Chatml Client Generate BlockAllocator KvTables.
From S2P Require Import Sequence Scheduler.
From stdpp Require Import relations.
Local Open Scope go_scope.

(** ** Requests *)
Definition all_tokens (r : Request) : list Z := prompt_ r ++ output_ r.

Lemma NumTokens_len r : NumTokens r = len (all_tokens r).
Proof. unfold NumTokens, len, all_tokens. rewrite length_app. lia. Qed.

Lemma TokenAt_ok r i : (0 <= i < NumTokens r)%Z ->
  exists t, TokenAt r i = Ret t /\ all_tokens r !! Z.to_nat i = Some t.
Proof.
  intros Hi. rewrite NumTokens_len in Hi. unfold len in Hi.
  destruct (lookup_lt_is_Some_2 (all_tokens r) (Z.to_nat i)) as [t Ht]; [lia|]. exists t. split; [|done].
  unfold TokenAt. rewrite (proj2 (Z.ltb_ge _ _)) by lia. unfold all_tokens in Ht, Hi. unfold index_at, len.
  destruct (Z.ltb_spec i (Z.of_nat (length (prompt_ r)))).
  - rewrite lookup_app_l in Ht by lia. by rewrite Ht.
  - rewrite lookup_app_r in Ht by lia.
    replace (Z.to_nat (i - Z.of_nat (length (prompt_ r)))) with (Z.to_nat i - length (prompt_ r))%nat by lia.
    by rewrite Ht.
Qed.

(** The tokens of a chunk. *)
Definition chunk_tokens (r : Request) (from n : Z) : list Z :=
  take (Z.to_nat n) (drop (Z.to_nat from) (all_tokens r)).

Lemma chunk_tokens_cons r from n :
  (0 <= from)%Z -> (0 < n)%Z -> (from < NumTokens r)%Z ->
  exists t, TokenAt r from = Ret t /\ chunk_tokens r from n = t :: chunk_tokens r (from + 1) (n - 1).
Proof.
  intros H0 Hn Hf. destruct (TokenAt_ok r from ltac:(lia)) as (t & Ht & Hl). exists t. split; [done|].
  unfold chunk_tokens. rewrite (drop_S _ _ _ Hl).
  replace (Z.to_nat n) with (S (Z.to_nat (n - 1))) by lia.
  by replace (Z.to_nat (from + 1)) with (S (Z.to_nat from)) by lia.
Qed.

Lemma length_chunk_tokens r from n :
  (0 <= from)%Z -> (0 <= n)%Z -> (from + n <= NumTokens r)%Z -> len (chunk_tokens r from n) = n.
Proof.
  rewrite NumTokens_len. unfold chunk_tokens, len. intros H0 Hn Hf. rewrite length_take, length_drop. lia.
Qed.

Lemma HashBlock_ok parent r start n :
  (0 <= start)%Z -> (start + n <= NumTokens r)%Z -> exists h, HashBlock parent r start n = Ret h /\ h <> 0%Z.
Proof.
  intros Hs Hn. unfold HashBlock.
  assert (forall k i h, (0 <= i)%Z -> (i + Z.of_nat k <= NumTokens r)%Z -> exists h', hash_tokens r k i h = Ret h') as H.
  { induction k as [|k IH]; intros i h Hi Hk; cbn [hash_tokens]; [by eexists|].
    destruct (TokenAt_ok r i ltac:(lia)) as (t & -> & _). cbn [run_bind]. apply IH; lia. }
  destruct (decide (0 <= n)%Z).
  - destruct (H (Z.to_nat n) start (Z.lxor parent 0x9E3779B97F4A7C15)) as [h ->]; [lia..|]. cbn [run_bind].
    eexists. split; [done|]. by destruct (Z.eqb_spec h 0).
  - replace (Z.to_nat n) with 0%nat by lia. cbn [hash_tokens run_bind].
    eexists. split; [done|]. by destruct (Z.eqb_spec (Z.lxor parent 0x9E3779B97F4A7C15) 0).
Qed.

(** The input after a chunk of [r] was appended. *)
Definition append_chunk (inp : ForwardInput) (r : Request) (n : Z) : ForwardInput :=
  {| in_tokens := in_tokens inp ++ chunk_tokens r (computed_ r) n;
     positions := positions inp ++ seqZ (computed_ r) n;
     req_index := req_index inp ++ replicate (Z.to_nat n) (len (block_tables inp));
     logits_rows := logits_rows inp ++
       (if (computed_ r + n =? NumTokens r)%Z then [(len (in_tokens inp) + n - 1)%Z] else []);
     block_tables := block_tables inp ++ [block_table_ r];
     sample_params := sample_params inp ++ (if (computed_ r + n =? NumTokens r)%Z then [sp_ r] else []) |}.

Lemma emit_rows_ok r ri rows k inp :
  (0 <= computed_ r + k)%Z -> (computed_ r + k + Z.of_nat rows <= NumTokens r)%Z ->
  emit_rows r ri rows k inp = Ret
    {| in_tokens := in_tokens inp ++ chunk_tokens r (computed_ r + k) (Z.of_nat rows);
       positions := positions inp ++ seqZ (computed_ r + k) (Z.of_nat rows);
       req_index := req_index inp ++ replicate rows ri;
       logits_rows := logits_rows inp; block_tables := block_tables inp; sample_params := sample_params inp |}.
Proof.
  revert k inp. induction rows as [|n IH]; intros k inp Hk Hn; cbn [emit_rows].
  { cbn. rewrite !app_nil_r. by destruct inp. }
  destruct (chunk_tokens_cons r (computed_ r + k) (Z.of_nat (S n))) as (t & -> & ->); [lia..|].
  cbn [run_bind]. rewrite IH by lia. unfold AddRow. cbn [in_tokens positions req_index logits_rows block_tables sample_params].
  rewrite (seqZ_cons (computed_ r + k) (Z.of_nat (S n))) by lia. rewrite <- !app_assoc. cbn [app replicate].
  rewrite Z.add_assoc. by replace (Z.of_nat (S n) - 1)%Z with (Z.of_nat n) by lia;
    replace (Z.pred (Z.of_nat (S n))) with (Z.of_nat n) by lia.
Qed.

Definition scheduled (r : Request) (n : Z) : Request :=
  set_kv r (block_table_ r) (computed_ r) n (cached_blocks_ r) (last_hash_ r).

Lemma EmitChunk_ok r inp n :
  (0 <= computed_ r)%Z -> (0 <= n)%Z -> (computed_ r + n <= NumTokens r)%Z ->
  EmitChunk r inp n = Ret (append_chunk inp r n, scheduled r n).
Proof.
  intros H0 Hn Hc. unfold EmitChunk, AddTable. cbv beta iota zeta.
  rewrite emit_rows_ok by lia. cbn [run_bind in_tokens positions req_index logits_rows block_tables sample_params].
  rewrite Z2Nat.id, Z.add_0_r by lia. unfold append_chunk, SampleLastRow, scheduled.
  assert (forall l : list Z, len (l ++ chunk_tokens r (computed_ r) n) = (len l + n)%Z) as E.
  { intros l. unfold len at 1. rewrite length_app. pose proof (length_chunk_tokens r (computed_ r) n H0 Hn Hc) as E.
    unfold len in *. lia. }
  destruct (_ =? _)%Z; cbn [in_tokens positions req_index logits_rows block_tables sample_params];
    rewrite ?E, ?app_nil_r; done.
Qed.

(** ** The invariant *)
Section runtime.
Context {RT : Runtime}.

Definition table_of (s : Scheduler) (i : nat) : list nat :=
  match reqs s !! i with Some r => block_table_ r | None => [] end.
(** The table of a request with its cursor. *)
Definition holding_of (s : Scheduler) (i : nat) : holding :=
  match reqs s !! i with Some r => (block_table_ r, computed_ r) | None => ([], 0%Z) end.
Definition held (s : Scheduler) (ids : list nat) : list holding := holding_of s <$> ids.

Definition live_ids (s : Scheduler) : list nat := inbound_ s ++ waiting_ s ++ running_ s.

(** A request that may go on: its tokens leave room in the budget and none is a stop token. *)
Definition in_budget (r : Request) : Prop :=
  (len (output_ r) < max_new_ r)%Z /\ Forall (fun x => x ∉ stop_ids_ r) (output_ r).

(** The terminal event a request may end with: an error, or the outcome of its tokens. *)
Definition ends (r : Request) (e : pb_event) : Prop :=
  match e with
  | EvError _ => True
  | EvDone reason p c =>
      p = len (prompt_ r) /\ (len (output_ r) <= max_new_ r)%Z /\
      exists ids t, output_ r = ids ++ [t] /\ Forall (fun x => x ∉ stop_ids_ r) ids /\
        (if bool_decide (t ∈ stop_ids_ r) then reason = go "stop" /\ c = len ids
         else reason = go "length" /\ c = len (output_ r) /\
              (len (output_ r) = max_new_ r \/ (max_ctx_ r <= NumTokens r)%Z))
  | _ => False
  end.

(** What the sink of a request has been given. *)
Definition streaming (r : Request) : Prop :=
  (exists k, sink_ r = Some k /\ q_ k = EvTokenId <$> output_ r /\ closed_ k = false) /\ in_budget r.
Definition answered (r : Request) : Prop :=
  exists k e, sink_ r = Some k /\ q_ k = (EvTokenId <$> output_ r) ++ [e] /\ ends r e /\ closed_ k = true.
Definition settled (r : Request) : Prop := answered r \/ (streaming r /\ is_cancelled r = true).
(** A request that has left the queues holds no blocks. *)
Definition retired (r : Request) : Prop := settled r /\ block_table_ r = [].

(** ** The batch a list of requests stands for *)
Definition row_tokens (s : Scheduler) (i : nat) : list Z :=
  match reqs s !! i with Some r => chunk_tokens r (computed_ r) (num_new_ r) | None => [] end.
Definition row_positions (s : Scheduler) (i : nat) : list Z :=
  match reqs s !! i with Some r => seqZ (computed_ r) (num_new_ r) | None => [] end.
Definition row_count (s : Scheduler) (i : nat) : Z :=
  match reqs s !! i with Some r => num_new_ r | None => 0%Z end.

(** The chunk reaches the last token of the request, so its last row is sampled. *)
Definition due (s : Scheduler) (i : nat) : bool :=
  match reqs s !! i with Some r => (computed_ r + num_new_ r =? NumTokens r)%Z | None => false end.
Definition params_of (s : Scheduler) (i : nat) : list SampleParams :=
  match reqs s !! i with Some r => if due s i then [sp_ r] else [] | None => [] end.

Fixpoint last_rows (s : Scheduler) (start : Z) (ids : list nat) : list Z :=
  match ids with
  | [] => []
  | i :: ids =>
      (if due s i then [(start + row_count s i - 1)%Z] else []) ++ last_rows s (start + row_count s i) ids
  end.

Definition batch_input (s : Scheduler) (ids : list nat) : ForwardInput :=
  {| in_tokens := concat (row_tokens s <$> ids);
     positions := concat (row_positions s <$> ids);
     req_index := concat (imap (fun q i => replicate (Z.to_nat (row_count s i)) (Z.of_nat q)) ids);
     logits_rows := last_rows s 0 ids;
     block_tables := table_of s <$> ids;
     sample_params := concat (params_of s <$> ids) |}.

Lemma batch_input_ext s s' ids :
  (forall i, i ∈ ids -> reqs s' !! i = reqs s !! i) -> batch_input s' ids = batch_input s ids.
Proof.
  intros H.
  assert (He : forall A (f : Scheduler -> nat -> A), (forall i, reqs s' !! i = reqs s !! i -> f s' i = f s i) ->
    f s' <$> ids = f s <$> ids).
  { intros A f Hf. apply list_fmap_ext. intros k i Hi. apply Hf, H. by eapply list_elem_of_lookup_2. }
  assert (Hc : forall i, i ∈ ids -> row_count s' i = row_count s i /\ due s' i = due s i).
  { intros i Hi. unfold row_count, due. by rewrite H. }
  unfold batch_input. f_equal.
  - f_equal. apply (He _ row_tokens). intros i Hi. unfold row_tokens. by rewrite Hi.
  - f_equal. apply (He _ row_positions). intros i Hi. unfold row_positions. by rewrite Hi.
  - f_equal. apply imap_ext. intros k i Hi. cbn. destruct (Hc i) as [-> _]; [by eapply list_elem_of_lookup_2|done].
  - clear He H. generalize 0%Z. induction ids as [|i ids IH]; intros z; [done|]. cbn [last_rows].
    destruct (Hc i) as [-> ->]; [by left|]. rewrite IH; [done|]. intros j Hj. apply Hc. by right.
  - apply (He _ table_of). intros i Hi. unfold table_of. by rewrite Hi.
  - f_equal. apply (He _ params_of). intros i Hi. unfold params_of, due. by rewrite Hi.
Qed.

Lemma last_rows_app s start ids ids' :
  last_rows s start (ids ++ ids') =
  last_rows s start ids ++ last_rows s (start + foldr Z.add 0%Z (row_count s <$> ids)) ids'.
Proof.
  revert start. induction ids as [|i ids IH]; intros start; cbn [app last_rows fmap list_fmap foldr]; [by rewrite Z.add_0_r|].
  by rewrite IH, Z.add_assoc, app_assoc.
Qed.

(** A request whose chunk is within its tokens. *)
Definition in_range (r : Request) : Prop :=
  (0 <= computed_ r)%Z /\ (0 <= num_new_ r)%Z /\ (computed_ r + num_new_ r <= NumTokens r)%Z.

Lemma length_batch_tokens s ids :
  (forall i, i ∈ ids -> exists r, reqs s !! i = Some r /\ in_range r) ->
  len (in_tokens (batch_input s ids)) = foldr Z.add 0%Z (row_count s <$> ids).
Proof.
  cbn. induction ids as [|i ids IH]; intros H; [done|]. cbn [fmap list_fmap concat foldr]. unfold len in *.
  rewrite length_app, Nat2Z.inj_add, IH by (intros j Hj; apply H; by right). f_equal.
  destruct (H i) as (r & Hr & H0 & Hn & Hc); [by left|]. unfold row_tokens, row_count. rewrite Hr.
  by apply length_chunk_tokens.
Qed.

Lemma batch_input_snoc s ids i r :
  (forall i, i ∈ ids -> exists r, reqs s !! i = Some r /\ in_range r) -> reqs s !! i = Some r ->
  batch_input s (ids ++ [i]) = append_chunk (batch_input s ids) r (num_new_ r).
Proof.
  intros H Hr. pose proof (length_batch_tokens s ids H) as Hlen. unfold append_chunk. rewrite Hlen.
  unfold batch_input. cbn [in_tokens positions req_index logits_rows block_tables sample_params].
  rewrite !fmap_app, !concat_app, last_rows_app, imap_app, concat_app. cbn [fmap list_fmap concat last_rows imap].
  assert (row_count s i = num_new_ r) as Hc by (unfold row_count; by rewrite Hr).
  assert (due s i = (computed_ r + num_new_ r =? NumTokens r)%Z) as Hd by (unfold due; by rewrite Hr).
  f_equal.
  - f_equal. unfold row_tokens. rewrite Hr. by rewrite app_nil_r.
  - f_equal. unfold row_positions. rewrite Hr. by rewrite app_nil_r.
  - f_equal. cbn. rewrite Hc, app_nil_r. do 2 f_equal. unfold len. rewrite length_fmap. f_equal. lia.
  - f_equal. rewrite Hc, Hd, Z.add_0_l. by rewrite app_nil_r.
  - unfold table_of at 2. by rewrite Hr.
  - f_equal. unfold params_of. rewrite Hr, Hd, app_nil_r. done.
Qed.

Lemma length_last_rows s start ids : length (last_rows s start ids) = length (filter (fun i => due s i = true) ids).
Proof.
  revert start. induction ids as [|i ids IH]; intros start; [done|]. cbn [last_rows]. rewrite length_app, IH, filter_cons.
  destruct (due s i) eqn:E; [by rewrite decide_True|by rewrite decide_False].
Qed.

Section spec.
Context (cfg : SchedulerConfig) (max_ctx : Z) (pool : nat).

(** The longest table. *)
Definition max_blocks : Z := BlocksFor max_ctx.

(** The KV bookkeeping of a request. *)
Record kv_ok (r : Request) : Prop := {
  kv_ctx : max_ctx_ r = max_ctx;
  kv_computed : (0 <= computed_ r <= NumTokens r)%Z;
  kv_cached : (0 <= cached_blocks_ r)%Z /\ (kKvBlock * cached_blocks_ r <= computed_ r)%Z;
  kv_table : (computed_ r <= kKvBlock * len (block_table_ r))%Z /\ (len (block_table_ r) <= max_blocks)%Z;
}.

(** A request between two steps. *)
Record live (r : Request) : Prop := {
  live_kv : kv_ok r;
  live_left : (computed_ r < NumTokens r < max_ctx)%Z;
  live_stream : streaming r;
}.

(** [Q] says more about the running requests. *)
Record inv (Q : nat -> Request -> Prop) (s : Scheduler) : Prop := {
  inv_nodup : NoDup (live_ids s);
  inv_running : forall i, i ∈ running_ s -> exists r, reqs s !! i = Some r /\ Q i r;
  inv_queued : forall i, i ∈ inbound_ s ++ waiting_ s ->
    exists r, reqs s !! i = Some r /\ live r /\ block_table_ r = [];
  inv_alloc : kv_wf (alloc_ s) (held s (running_ s));
  inv_pool : num_blocks_ (alloc_ s) = pool;
  inv_slots : (len (running_ s) <= n_slots cfg)%Z;
  inv_rest : forall i r, reqs s !! i = Some r -> i ∈ live_ids s \/ retired r;
}.

Definition all_live (s : Scheduler) : Prop := inv (fun _ => live) s.

(** *** Changing one running request *)
Lemma held_ext s s' ids : (forall i, i ∈ ids -> holding_of s' i = holding_of s i) -> held s' ids = held s ids.
Proof.
  intros H. apply list_fmap_ext. intros k i Hi. apply H. by eapply list_elem_of_lookup_2.
Qed.

Lemma held_put s a i r ids : i ∉ ids -> held (put (set_alloc s a) i r) ids = held s ids.
Proof.
  intros Hi. apply held_ext. intros j Hj. unfold holding_of. cbn [put set_alloc reqs].
  rewrite lookup_insert_ne; [done|]. by intros ->.
Qed.

Lemma held_snoc s i ids : held s (ids ++ [i]) ≡ₚ holding_of s i :: held s ids.
Proof. unfold held. rewrite fmap_app. symmetry. apply Permutation_cons_append. Qed.

Lemma erase_perm i l : i ∈ l -> l ≡ₚ i :: erase i l.
Proof.
  induction l as [|x l IH]; [by intros ?%not_elem_of_nil|]. cbn [erase].
  destruct (Nat.eqb_spec x i) as [-> |Hx]; [done|]. intros [-> |Hi]%elem_of_cons; [done|].
  rewrite (IH Hi) at 1. by rewrite Permutation_swap.
Qed.

Lemma erase_absent i l : NoDup l -> i ∉ erase i l.
Proof.
  intros Hnd. destruct (decide (i ∈ l)) as [Hi|Hi].
  - rewrite (erase_perm i l Hi) in Hnd. by apply NoDup_cons in Hnd as [? _].
  - assert (erase i l = l) as ->; [|done]. clear Hnd. induction l as [|x l IH]; [done|]. cbn [erase].
    apply not_elem_of_cons in Hi as [Hx Hl]. destruct (Nat.eqb_spec x i); [by subst|]. by rewrite IH.
Qed.

Lemma erase_elem i j l : NoDup l -> i ∈ l -> j ∈ erase i l <-> j ∈ l /\ j <> i.
Proof.
  intros Hnd Hi. pose proof (erase_absent i l Hnd) as Ha. pose proof (erase_perm i l Hi) as Hp.
  assert (j ∈ l <-> j ∈ i :: erase i l) as -> by by rewrite <- Hp.
  rewrite elem_of_cons. destruct (decide (j = i)) as [-> |]; tauto.
Qed.

Lemma inv_running_nodup Q s : inv Q s -> NoDup (running_ s).
Proof. intros H. pose proof (inv_nodup _ _ H) as Hn. unfold live_ids in Hn. rewrite app_assoc in Hn. by apply NoDup_app in Hn as (_ & _ & Hn). Qed.

Lemma held_split s i l : i ∈ l -> held s l ≡ₚ holding_of s i :: held s (erase i l).
Proof. intros Hi. unfold held. rewrite (erase_perm i l Hi) at 1. done. Qed.

Lemma inv_put (Q Q' : nat -> Request -> Prop) s i r a' r' :
  inv Q s -> i ∈ running_ s -> reqs s !! i = Some r ->
  (forall rest, kv_wf (alloc_ s) ((block_table_ r, computed_ r) :: rest) -> kv_wf a' ((block_table_ r', computed_ r') :: rest)) ->
  num_blocks_ a' = num_blocks_ (alloc_ s) -> Q' i r' ->
  (forall j x, j ∈ running_ s -> j <> i -> Q j x -> Q' j x) ->
  inv Q' (put (set_alloc s a') i r').
Proof.
  intros H Hi Hr Hwf Hn HQ HQ'. pose proof (inv_running_nodup Q s H) as Hnd. destruct H as [H1 H2 H3 H4 H5 H6 H7].
  split; cbn [put set_alloc running_ inbound_ waiting_ alloc_ reqs]; [done| | | |by rewrite Hn|done|].
  - intros j Hj. destruct (decide (j = i)) as [-> |Hne]; [exists r'; by rewrite lookup_insert_eq|].
    destruct (H2 j Hj) as (x & Hx & Hq). exists x. rewrite lookup_insert_ne by done. auto.
  - intros j Hj. destruct (H3 j Hj) as (x & Hx & Hl). exists x. split; [|done]. rewrite lookup_insert_ne; [done|].
    intros ->. unfold live_ids in H1. rewrite app_assoc in H1. apply NoDup_app in H1 as (_ & H1 & _). by eapply H1.
  - rewrite (held_split _ i) by done. rewrite held_put by by apply erase_absent.
    rewrite (held_split s i) in H4 by done. unfold holding_of in *. cbn [put set_alloc reqs].
    rewrite lookup_insert_eq. rewrite Hr in H4. by apply Hwf.
  - intros j x. destruct (decide (j = i)) as [-> |Hne].
    + intros _. left. unfold live_ids. cbn. rewrite !elem_of_app. tauto.
    + rewrite lookup_insert_ne by done. apply H7.
Qed.

(** The same with an unchanged allocator and table. *)
Lemma inv_put_same (Q Q' : nat -> Request -> Prop) s i r r' :
  inv Q s -> i ∈ running_ s -> reqs s !! i = Some r -> block_table_ r' = block_table_ r -> (computed_ r <= computed_ r')%Z ->
  Q' i r' -> (forall j x, j ∈ running_ s -> j <> i -> Q j x -> Q' j x) -> inv Q' (put s i r').
Proof.
  intros H Hi Hr Ht Hc HQ HQ'. apply (inv_put Q Q' s i r (alloc_ s) r' H Hi Hr); [|done..].
  intros rest. rewrite Ht. by apply kv_wf_advance.
Qed.

Lemma inv_mono (Q Q' : nat -> Request -> Prop) s :
  (forall i r, i ∈ running_ s -> reqs s !! i = Some r -> Q i r -> Q' i r) -> inv Q s -> inv Q' s.
Proof.
  intros HQ [H1 H2 H3 H4 H5 H6 H7]. split; [done| |done..].
  intros i Hi. destruct (H2 i Hi) as (r & Hr & Hq). exists r. auto.
Qed.

Lemma inv_get Q s i : inv Q s -> i ∈ running_ s -> exists r, get s i = Ret r /\ reqs s !! i = Some r /\ Q i r.
Proof. intros H Hi. destruct (inv_running _ _ H i Hi) as (r & Hr & Hq). exists r. unfold get. by rewrite Hr. Qed.

(** *** The work left *)
Definition weight (s : Scheduler) (i : nat) : nat :=
  match reqs s !! i with
  | Some r => Z.to_nat (2 * max_ctx - NumTokens r - computed_ r)
  | None => 0
  end.
Definition load (s : Scheduler) : nat := sum_list_with (weight s) (live_ids s).

Lemma sum_le (f g : nat -> nat) l :
  (forall i, i ∈ l -> (f i <= g i)%nat) -> (sum_list_with f l <= sum_list_with g l)%nat.
Proof.
  clear.
  induction l as [|i l IH]; intros H; [done|]. simpl. pose proof (H i ltac:(by left)).
  enough (sum_list_with f l <= sum_list_with g l)%nat by lia. apply IH. intros j Hj. apply H. by right.
Qed.

Lemma sum_lt (f g : nat -> nat) l j :
  (forall i, i ∈ l -> (f i <= g i)%nat) -> j ∈ l -> (f j < g j)%nat -> (sum_list_with f l < sum_list_with g l)%nat.
Proof.
  clear.
  induction l as [|i l IH]; intros H Hj Hlt; [by apply not_elem_of_nil in Hj|]. simpl.
  pose proof (H i ltac:(by left)). apply elem_of_cons in Hj as [-> |Hj].
  - enough (sum_list_with f l <= sum_list_with g l)%nat by lia. apply sum_le. intros k Hk. apply H. by right.
  - enough (sum_list_with f l < sum_list_with g l)%nat by lia. apply IH; [|done|done]. intros k Hk. apply H. by right.
Qed.

Lemma sum_sublist (f : nat -> nat) l k : l `sublist_of` k -> (sum_list_with f l <= sum_list_with f k)%nat.
Proof.
  clear. induction 1; simpl; lia. Qed.

(** What every part of a step respects: no request is forgotten or gets more work. *)
Record steps_down (s s' : Scheduler) : Prop := {
  down_dom : dom (reqs s') = dom (reqs s);
  down_weight : forall i, (weight s' i <= weight s i)%nat;
}.

#[export] Instance steps_down_refl : Reflexive steps_down.
Proof. by intros s. Qed.
#[export] Instance steps_down_trans : Transitive steps_down.
Proof. intros s1 s2 s3 [D1 W1] [D2 W2]. split; [congruence|]. intros i. specialize (W1 i). specialize (W2 i). lia. Qed.

Lemma steps_down_put s a i r r' :
  reqs s !! i = Some r -> (NumTokens r + computed_ r <= NumTokens r' + computed_ r')%Z ->
  steps_down s (put (set_alloc s a) i r').
Proof.
  intros Hr Hle. split; cbn.
  - rewrite dom_insert_L. apply elem_of_dom_2 in Hr. set_solver.
  - intros j. unfold weight. cbn. destruct (decide (i = j)) as [<-|Hne].
    + rewrite lookup_insert_eq, Hr. lia.
    + by rewrite lookup_insert_ne.
Qed.

Lemma steps_down_queues s a b c : steps_down s (set_queues s a b c).
Proof. done. Qed.

(** *** Giving blocks back *)
Lemma Release_ok s i r c rest :
  reqs s !! i = Some r -> kv_wf (alloc_ s) ((block_table_ r, c) :: rest) ->
  exists a', Release s i = Ret (put (set_alloc s a') i (set_table r [])) /\ kv_wf a' rest /\
    num_blocks_ a' = num_blocks_ (alloc_ s).
Proof.
  intros Hr Hwf. unfold Release, get. rewrite Hr. cbn [run_bind]. unfold Free.
  destruct (kv_free _ _ _ _ Hwf) as (a' & -> & Hwf' & Hn). by exists a'.
Qed.

Lemma settled_table r t : settled (set_table r t) <-> settled r.
Proof. done. Qed.

Lemma Retire_ok Q s i r :
  inv Q s -> i ∈ running_ s -> reqs s !! i = Some r -> settled r ->
  exists s', Retire s i = Ret s' /\ inv Q s' /\ reqs s' = <[i := set_table r []]> (reqs s) /\
    running_ s' = erase i (running_ s) /\ inbound_ s' = inbound_ s /\ waiting_ s' = waiting_ s.
Proof.
  intros H Hi Hr Hset. pose proof (inv_running_nodup Q s H) as Hnd. destruct H as [H1 H2 H3 H4 H5 H6 H7].
  rewrite (held_split s i) in H4 by done. unfold holding_of at 1 in H4. rewrite Hr in H4.
  unfold Retire. destruct (Release_ok s i r _ _ Hr H4) as (a' & -> & Hwf & Hn). cbn [run_bind].
  eexists. split; [done|]. split; [|done].
  assert (Hlive : live_ids s ≡ₚ i :: (inbound_ s ++ waiting_ s ++ erase i (running_ s))).
  { unfold live_ids. rewrite (erase_perm i (running_ s) Hi) at 1. by rewrite !app_assoc, Permutation_middle. }
  pose proof H1 as Hnd'. rewrite Hlive in Hnd'. apply NoDup_cons in Hnd' as [Hout Hnd'].
  split; cbn [put set_alloc set_queues running_ inbound_ waiting_ alloc_ reqs live_ids].
  - exact Hnd'.
  - intros j Hj. assert (j <> i) by (intros ->; by apply (erase_absent i (running_ s) Hnd)).
    rewrite lookup_insert_ne by done. apply H2. rewrite (erase_perm i (running_ s) Hi). by right.
  - intros j Hj. assert (j <> i) by (intros ->; apply Hout; rewrite app_assoc, elem_of_app; by left).
    rewrite lookup_insert_ne by done. by apply H3.
  - rewrite (held_ext s); [done|]. intros j Hj. unfold holding_of. cbn [set_queues put set_alloc reqs].
    rewrite lookup_insert_ne; [done|]. intros <-. by apply (erase_absent i (running_ s) Hnd).
  - by rewrite Hn.
  - unfold len in *. pose proof (Permutation_length (erase_perm i (running_ s) Hi)) as E. cbn [length] in E. lia.
  - intros j x. destruct (decide (j = i)) as [-> |Hne].
    + rewrite lookup_insert_eq. intros [= <-]. right. by split.
    + rewrite lookup_insert_ne by done. intros Hx. destruct (H7 j x Hx) as [Hj|]; [left|by right].
      rewrite Hlive in Hj. by apply elem_of_cons in Hj as [-> |Hj].
Qed.

Lemma steps_down_retire s s1 i r :
  reqs s !! i = Some r -> reqs s1 = <[i := set_table r []]> (reqs s) -> steps_down s s1.
Proof.
  intros Hr R1. destruct (steps_down_put s (alloc_ s) i r (set_table r []) Hr) as [Hd Hw]; [done|].
  split; [rewrite R1; exact Hd|]. intros j. unfold weight in *. rewrite R1. apply Hw.
Qed.

Lemma each_Retire_ok Q s ids :
  inv Q s -> NoDup ids -> (forall i, i ∈ ids -> i ∈ running_ s) ->
  (forall i r, i ∈ ids -> reqs s !! i = Some r -> settled r) ->
  exists s', each Retire s ids = Ret s' /\ inv Q s' /\ steps_down s s' /\
    (forall i, i ∈ running_ s' <-> i ∈ running_ s /\ i ∉ ids) /\
    (forall i, i ∉ ids -> reqs s' !! i = reqs s !! i) /\ inbound_ s' = inbound_ s /\ waiting_ s' = waiting_ s.
Proof.
  revert s. induction ids as [|i ids IH]; intros s H Hnd Hin Hset; cbn [each].
  { exists s. do 3 (split; [done|]). split; [|done]. intros i. split; [intros; split; [done|apply not_elem_of_nil]|tauto]. }
  apply NoDup_cons in Hnd as [Hni Hnd]. assert (Hi : i ∈ running_ s) by (apply Hin; by left).
  destruct (inv_running _ _ H i Hi) as (r & Hr & _).
  destruct (Retire_ok Q s i r H Hi Hr) as (s1 & -> & H1 & R1 & Q1 & I1 & W1); [apply (Hset i r); [by left|done]|].
  cbn [run_bind]. pose proof (inv_running_nodup Q s H) as Hrun.
  assert (Hmem : forall j, j ∈ running_ s1 <-> j ∈ running_ s /\ j <> i).
  { intros j. rewrite Q1. by apply erase_elem. }
  destruct (IH s1 H1 Hnd) as (s2 & -> & H2 & D2 & M2 & R2 & I2 & W2).
  { intros j Hj. apply Hmem. split; [apply Hin; by right|by intros ->]. }
  { intros j x Hj Hx. rewrite R1, lookup_insert_ne in Hx by (by intros ->). apply (Hset j x); [by right|done]. }
  exists s2. split; [done|]. split; [done|]. split; [|split; [|split; [|split; congruence]]].
  - etrans; [|exact D2]. by apply (steps_down_retire s s1 i r).
  - intros j. rewrite M2, Hmem, not_elem_of_cons. tauto.
  - intros j [Hj Hjs]%not_elem_of_cons. rewrite R2, R1, lookup_insert_ne by done. done.
Qed.

(** *** Cancelled requests *)
Definition kept (s : Scheduler) (i : nat) : bool :=
  match reqs s !! i with Some r => negb (is_cancelled r) | None => true end.

Lemma drop_cancelled_ok s q rest :
  NoDup q -> (forall i, i ∈ q -> is_Some (reqs s !! i)) -> kv_wf (alloc_ s) (held s q ++ rest) ->
  exists s', drop_cancelled s q = Ret (s', filter (fun i => kept s i = true) q) /\
    kv_wf (alloc_ s') (held s' (filter (fun i => kept s i = true) q) ++ rest) /\
    num_blocks_ (alloc_ s') = num_blocks_ (alloc_ s) /\
    inbound_ s' = inbound_ s /\ waiting_ s' = waiting_ s /\ running_ s' = running_ s /\
    (forall i, i ∉ q \/ kept s i = true -> reqs s' !! i = reqs s !! i) /\
    (forall i, i ∈ q -> kept s i = false -> exists r, reqs s !! i = Some r /\ reqs s' !! i = Some (set_table r [])).
Proof.
  revert s rest. induction q as [|i q IH]; intros s rest Hnd Hin Hwf; cbn [drop_cancelled].
  { exists s. split_and!; [done..|]. by intros ? ?%not_elem_of_nil. }
  apply NoDup_cons in Hnd as [Hi Hnd]. destruct (Hin i) as [r Hr]; [by left|].
  assert (Hin' : forall j, j ∈ q -> is_Some (reqs s !! j)) by (intros j Hj; apply Hin; by right).
  unfold get. rewrite Hr. cbn [run_bind]. 
  change (kv_wf (alloc_ s) (holding_of s i :: held s q ++ rest)) in Hwf. unfold holding_of at 1 in Hwf. rewrite Hr in Hwf.
  assert (Hki : kept s i = negb (is_cancelled r)) by (unfold kept; by rewrite Hr).
  rewrite filter_cons. destruct (is_cancelled r) eqn:Ec; cbn [negb] in Hki.
  - destruct (Release_ok s i r _ _ Hr Hwf) as (a' & -> & Hwf' & Hn). cbn [run_bind].
    set (s1 := put _ _ _). assert (Hk : forall j, j ∈ q -> kept s1 j = kept s j).
    { intros j Hj. unfold kept. cbn [s1 put set_alloc reqs]. rewrite lookup_insert_ne; [done|]. by intros ->. }
    assert (Hf : filter (fun j => kept s1 j = true) q = filter (fun j => kept s j = true) q).
    { clear - Hk. induction q as [|j q IH]; [done|]. rewrite !filter_cons, Hk by by left.
      rewrite IH; [done|]. intros j' Hj'. apply Hk. by right. }
    destruct (IH s1 rest Hnd) as (s2 & E & W2 & N2 & I2 & Wa2 & R2 & K2 & D2).
    { intros j Hj. cbn [s1 put set_alloc reqs]. rewrite lookup_insert_ne; [by apply Hin'|]. by intros ->. }
    { unfold s1. rewrite held_put by done. exact Hwf'. }
    rewrite decide_False by (by rewrite Hki). rewrite Hf in E, W2. exists s2.
    split_and!; [done|done|by rewrite N2|done..| |].
    + intros j Hj. destruct (decide (j = i)) as [-> |Hne].
      { exfalso. destruct Hj as [Hj|Hj]; [apply Hj; by left|congruence]. }
      rewrite K2. { cbn [s1 put set_alloc reqs]. by rewrite lookup_insert_ne. }
      destruct Hj as [Hj|Hj]; [left; by apply not_elem_of_cons in Hj as [_ Hj]|].
      destruct (decide (j ∈ q)); [right; by rewrite Hk|by left].
    + intros j [->|Hj]%elem_of_cons Hkj.
      * exists r. split; [done|]. rewrite K2 by by left. cbn [s1 put set_alloc reqs]. by rewrite lookup_insert_eq.
      * destruct (D2 j Hj) as (x & Hx & Hx'); [by rewrite Hk|]. exists x. split; [|done].
        cbn [s1 put set_alloc reqs] in Hx. rewrite lookup_insert_ne in Hx; [done|]. by intros ->.
  - destruct (IH s ((block_table_ r, computed_ r) :: rest) Hnd Hin') as (s2 & E & W2 & N2 & I2 & Wa2 & R2 & K2 & D2).
    { rewrite <- Permutation_middle. exact Hwf. }
    rewrite E. cbn [run_bind]. rewrite decide_True by done. exists s2.
    split_and!; [done| |done..| |].
    + change (kv_wf (alloc_ s2) (holding_of s2 i :: held s2 (filter (fun j => kept s j = true) q) ++ rest)).
      unfold holding_of at 1. rewrite K2 by by left. rewrite Hr, Permutation_middle. exact W2.
    + intros j Hj. apply K2. destruct Hj as [Hj|Hj]; [left; by apply not_elem_of_cons in Hj as [_ Hj]|by right].
    + intros j [->|Hj]%elem_of_cons Hkj; [congruence|by apply D2].
Qed.

(** *** Admission *)

(** A queue whose head has been taken care of. *)
Lemma acquire_loop_ok rounds a r table rest n_blocks parent c :
  kv_wf a ((table, c) :: rest) -> (kKvBlock * (len table + Z.of_nat rounds) <= c)%Z -> (0 <= n_blocks)%Z ->
  (kKvBlock * (n_blocks + Z.of_nat rounds) <= NumTokens r)%Z ->
  exists a' new parent', acquire_loop rounds a r table n_blocks parent =
      Ret (a', table ++ new, (n_blocks + len new)%Z, parent') /\
    kv_wf a' ((table ++ new, c) :: rest) /\ num_blocks_ a' = num_blocks_ a /\ (length new <= rounds)%nat.
Proof.
  revert a table n_blocks parent. induction rounds as [|k IH]; intros a table n parent Hwf Hc Hn Hr; cbn [acquire_loop].
  { exists a, [], parent. rewrite app_nil_r. unfold len. cbn. by rewrite Z.add_0_r. }
  unfold kKvBlock in *. destruct (HashBlock_ok parent r (n * 16) 16) as (h & -> & Hh); [lia..|]. cbn [run_bind].
  destruct (kv_hit a _ _ _ h Hwf) as [->|(b & a1 & -> & Hwf1 & Hn1)]; cbn [run_bind].
  { unfold kKvBlock. lia. }
  { exists a, [], parent. rewrite app_nil_r. unfold len. cbn. rewrite Z.add_0_r. split_and!; [done..|lia]. }
  destruct (IH a1 (table ++ [b]) (n + 1)%Z h Hwf1) as (a2 & new & p & -> & Hwf2 & Hn2 & Hlen); [rewrite len_snoc; lia|lia..|].
  exists a2, (b :: new), p. assert (table ++ b :: new = (table ++ [b]) ++ new) as -> by by rewrite <- app_assoc.
  split_and!; [|done|congruence|simpl; lia]. do 3 f_equal. unfold len. cbn [length]. lia.
Qed.

Context (Hctx : (0 < max_ctx)%Z).

Lemma max_blocks_covers n : (n <= max_ctx)%Z -> (n <= kKvBlock * max_blocks)%Z.
Proof using Hctx. pose proof (BlocksFor_spec max_ctx ltac:(lia)) as H. unfold max_blocks. lia. Qed.

(** A request leaves the waiting queue: its table goes from empty to a cached prefix. *)
Lemma AcquirePrefix_ok s i r rest :
  reqs s !! i = Some r -> live r -> block_table_ r = [] -> kv_wf (alloc_ s) rest ->
  exists a' r', AcquirePrefix cfg s i = Ret (put (set_alloc s a') i r') /\
    kv_wf a' ((block_table_ r', computed_ r') :: rest) /\ num_blocks_ a' = num_blocks_ (alloc_ s) /\ live r' /\
    sink_ r' = sink_ r /\ output_ r' = output_ r /\ prompt_ r' = prompt_ r /\ (computed_ r <= computed_ r')%Z.
Proof using Hctx.
  intros Hr [Hkv Hleft Hstr] Ht Hwf. unfold AcquirePrefix. destruct (use_prefix_cache cfg); cbn [negb].
  2: { exists (alloc_ s), r. rewrite Ht. split; [|split; [by apply kv_wf_empty|done]]. f_equal. unfold put, set_alloc. destruct s; cbn in *.
       by rewrite insert_id. }
  unfold get. rewrite Hr. cbn [run_bind]. rewrite Ht.
  assert (H0 : computed_ r = 0%Z).
  { destruct (kv_table _ Hkv) as [H _], (kv_computed _ Hkv) as [H' _]. rewrite Ht in H. unfold len in H. simpl in H. lia. }
  pose proof (Z.mul_div_le (NumTokens r - 1) kKvBlock ltac:(done)) as Hq.
  rewrite Z.quot_div_nonneg by (unfold kKvBlock; lia).
  assert (0 <= (NumTokens r - 1) / kKvBlock)%Z as Hq0 by (apply Z.div_pos; unfold kKvBlock; lia).
  destruct (acquire_loop_ok (Z.to_nat ((NumTokens r - 1) / kKvBlock)) (alloc_ s) r [] rest 0 0 (NumTokens r))
    as (a' & new & p & -> & Hwf' & Hn & Hlen); [by apply kv_wf_empty|unfold len; cbn [length]; rewrite Z2Nat.id; lia|lia|rewrite Z2Nat.id; lia|].
  cbn [run_bind app] in *. rewrite Z.add_0_l.
  assert (Hnew : (kKvBlock * len new <= NumTokens r - 1)%Z).
  { unfold len. unfold kKvBlock in *. lia. }
  assert (Hmax : (len new <= max_blocks)%Z).
  { pose proof (max_blocks_covers (NumTokens r - 1) ltac:(lia)). unfold kKvBlock in *. lia. }
  pose proof (max_blocks_covers max_ctx ltac:(lia)).
  eexists a', _. split; [done|]. destruct (Z.ltb_spec 0 (len new)) as [Hpos|Hz]; cbn [set_table AdoptPrefix set_kv block_table_ sink_ output_ prompt_ computed_].
  - split_and!; [eapply kv_wf_closed; [|exact Hwf']; lia|done| |done..|unfold kKvBlock; lia]. split; [|split|done]; [split| |]; cbn; try (apply Hkv).
    + unfold NumTokens in *. cbn. unfold kKvBlock in *. lia.
    + unfold kKvBlock. lia.
    + unfold kKvBlock. lia.
    + unfold NumTokens in *. cbn. unfold kKvBlock in *. lia.
    + unfold NumTokens in *. cbn. lia.
  - assert (new = []) as -> by (destruct new; [done|unfold len in Hz; simpl in Hz; lia]).
    split_and!; [by apply kv_wf_empty; apply kv_wf_empty in Hwf'|done| |done..|lia]. split; [|exact Hleft|exact Hstr].
    split; cbn; [apply Hkv|apply Hkv|apply Hkv|]. split; [|done]. rewrite H0. unfold len, kKvBlock. lia.
Qed.

(** *** Filling the slots *)
Lemma fill_one s i rest :
  all_live s -> waiting_ s = i :: rest -> (len (running_ s) < n_slots cfg)%Z ->
  exists s1, (let* r := get s i in if bool_decide (block_table_ r = []) then AcquirePrefix cfg s i else Ret s) = Ret s1 /\
    let s2 := set_queues s1 (inbound_ s1) rest (running_ s1 ++ [i]) in
    all_live s2 /\ steps_down s s2 /\ inbound_ s2 = inbound_ s /\ running_ s2 = running_ s ++ [i].
Proof using Hctx.
  intros H Hw Hlen. destruct (inv_queued _ _ H i) as (r & Hr & Hl & Ht).
  { rewrite Hw, elem_of_app. right. by left. }
  unfold get. rewrite Hr. cbn [run_bind]. rewrite bool_decide_eq_true_2 by done.
  destruct (AcquirePrefix_ok s i r _ Hr Hl Ht (inv_alloc _ _ H)) as (a' & r' & -> & Hwf & Hn & Hl' & Hs & Ho & Hp & Hc).
  eexists. split; [done|]. cbn zeta. destruct H as [H1 H2 H3 H4 H5 H6 H7]. unfold live_ids in *. rewrite Hw in *.
  assert (i ∉ running_ s /\ i ∉ inbound_ s ++ rest) as [Hni Hni'].
  { rewrite <- app_comm_cons, <- Permutation_middle in H1. apply NoDup_cons in H1 as [H1 _].
    rewrite !elem_of_app in H1. rewrite elem_of_app. tauto. }
  assert (Hperm : inbound_ s ++ rest ++ running_ s ++ [i] ≡ₚ inbound_ s ++ (i :: rest) ++ running_ s).
  { rewrite (Permutation_app_comm (running_ s)). cbn [app]. by rewrite <- Permutation_middle. }
  split; [|split; [|done]].
  - split; cbn [put set_alloc set_queues running_ inbound_ waiting_ alloc_ reqs].
    + unfold live_ids. cbn. by rewrite Hperm.
    + intros j [Hj|Hj%list_elem_of_singleton]%elem_of_app.
      * destruct (H2 j Hj) as (x & Hx & Hlx). exists x. rewrite lookup_insert_ne; [done|]. by intros ->.
      * subst j. exists r'. by rewrite lookup_insert_eq.
    + intros j Hj. destruct (H3 j) as (x & Hx & Hlx); [set_solver|]. exists x.
      rewrite lookup_insert_ne; [done|]. by intros ->.
    + rewrite held_snoc, (held_ext s) by (intros j Hj; unfold holding_of; cbn; rewrite lookup_insert_ne; [done|by intros ->]).
      unfold holding_of at 1. cbn. by rewrite lookup_insert_eq.
    + by rewrite Hn.
    + unfold len in *. rewrite length_app. simpl. lia.
    + intros j x. destruct (decide (j = i)) as [-> |Hne].
      * intros _. left. unfold live_ids. cbn. rewrite !elem_of_app. do 3 right. by left.
      * rewrite lookup_insert_ne by done. intros Hx. destruct (H7 j x Hx) as [Hj|]; [left|by right].
        unfold live_ids. cbn. by rewrite Hperm.
  - etrans; [|apply steps_down_queues]. apply (steps_down_put s a' i r r' Hr). unfold NumTokens. rewrite Ho, Hp. lia.
Qed.

Lemma fill_slots_ok s w :
  all_live s -> waiting_ s = w -> (1 <= n_slots cfg)%Z ->
  exists s', fill_slots cfg s w = Ret s' /\ all_live s' /\ steps_down s s' /\ inbound_ s' = inbound_ s /\
    live_ids s' ≡ₚ live_ids s /\ (running_ s' = [] -> waiting_ s' = [] /\ w = [] /\ running_ s = []).
Proof using Hctx.
  revert s. induction w as [|i rest IH]; intros s H Hw Hslots; cbn [fill_slots].
  { exists (set_queues s (inbound_ s) [] (running_ s)). rewrite <- Hw.
    assert (set_queues s (inbound_ s) (waiting_ s) (running_ s) = s) as -> by by destruct s. by rewrite Hw. }
  destruct (Z.ltb_spec (len (running_ s)) (n_slots cfg)) as [Hlt|Hge].
  - destruct (fill_one s i rest H Hw Hlt) as (s1 & E & H2 & Hd & Hi & Hr).
    destruct (get s i) as [r| |]; cbn [run_bind] in E |- *; [|done..]. rewrite E. cbn [run_bind].
    destruct (IH _ H2 eq_refl Hslots) as (s3 & -> & H3 & Hd3 & Hi3 & Hp3 & He3). exists s3.
    split; [done|]. split; [done|]. split; [by etrans|]. split; [congruence|]. split.
    + rewrite Hp3. unfold live_ids in *. rewrite Hi, Hr, Hw. cbn [set_queues waiting_].
      rewrite (Permutation_app_comm (running_ s)). cbn [app]. by rewrite <- Permutation_middle.
    + intros He. apply He3 in He as (_ & _ & He). rewrite Hr in He. by destruct (running_ s).
  - exists s. assert (set_queues s (inbound_ s) (i :: rest) (running_ s) = s) as -> by (destruct s; cbn in *; by subst).
    split; [done|]. split; [done|]. split; [done|]. split; [done|]. split; [done|].
    intros He. rewrite He in Hge. unfold len in Hge. simpl in Hge. lia.
Qed.

(** *** Dropping what was cancelled *)
Definition keep (s : Scheduler) (q : list nat) : list nat := filter (fun i => kept s i = true) q.

Lemma keep_elem s q i : i ∈ keep s q <-> kept s i = true /\ i ∈ q.
Proof. clear. unfold keep. by rewrite list_elem_of_filter. Qed.

(** What [drop_cancelled] does to the store. *)
Record dropped (q : list nat) (s s' : Scheduler) : Prop := {
  drop_same : forall i, i ∉ q \/ kept s i = true -> reqs s' !! i = reqs s !! i;
  drop_gone : forall i, i ∈ q -> kept s i = false -> exists r, reqs s !! i = Some r /\ reqs s' !! i = Some (set_table r []);
}.

Lemma dropped_cases q s s' i : dropped q s s' ->
  reqs s' !! i = reqs s !! i \/
  (i ∈ q /\ exists r, reqs s !! i = Some r /\ is_cancelled r = true /\ reqs s' !! i = Some (set_table r [])).
Proof.
  clear. intros [Hs Hg]. destruct (decide (i ∈ q)) as [Hi|]; [|left; apply Hs; by left].
  destruct (kept s i) eqn:Ek; [left; apply Hs; by right|right]. destruct (Hg i Hi Ek) as (r & Hr & Hr').
  split; [done|]. exists r. unfold kept in Ek. rewrite Hr in Ek. by destruct (is_cancelled r).
Qed.

Lemma dropped_down q s s' a b c : dropped q s s' -> steps_down s (set_queues s' a b c).
Proof.
  clear. intros H. split; cbn.
  - apply set_eq. intros i. rewrite !elem_of_dom.
    destruct (dropped_cases q s s' i H) as [-> |(_ & r & -> & _ & ->)]; [done|by split; eexists].
  - intros i. unfold weight. cbn.
    destruct (dropped_cases q s s' i H) as [-> |(_ & r & -> & _ & ->)]; done.
Qed.

(** The invariant without the cancelled requests of the two queues. *)
Lemma inv_drop q s s' w r :
  all_live s -> dropped q s s' -> w `sublist_of` waiting_ s -> r `sublist_of` running_ s ->
  (forall i, i ∈ w ++ r -> reqs s' !! i = reqs s !! i) -> (forall i, i ∈ q -> i ∈ waiting_ s ++ running_ s) ->
  (forall i, i ∈ waiting_ s ++ running_ s -> i ∈ w ++ r \/ (i ∈ q /\ kept s i = false)) ->
  kv_wf (alloc_ s') (held s' r) -> num_blocks_ (alloc_ s') = num_blocks_ (alloc_ s) ->
  all_live (set_queues s' (inbound_ s) w r).
Proof.
  clear. intros [H1 H2 H3 H4 H5 H6 H7] Hd Hw Hr Hsame Hq Hsplit Hwf Hn.
  assert (Hinb : forall i, i ∈ inbound_ s -> reqs s' !! i = reqs s !! i).
  { intros i Hi. apply (drop_same _ _ _ Hd). left. intros Hiq%Hq. unfold live_ids in H1.
    apply NoDup_app in H1 as (_ & H1 & _). by apply (H1 i). }
  split; cbn [set_queues inbound_ waiting_ running_ reqs alloc_]; [| | |exact Hwf|by rewrite Hn| |].
  - unfold live_ids in *. cbn. eapply sublist_NoDup; [exact H1|].
    apply sublist_app; [done|]. by apply sublist_app.
  - intros i Hi. rewrite Hsame by (apply elem_of_app; by right). apply H2.
    by eapply sublist_subseteq.
  - intros i [Hi|Hi]%elem_of_app.
    + rewrite Hinb by done. apply H3. apply elem_of_app. by left.
    + rewrite Hsame by (apply elem_of_app; by left). apply H3, elem_of_app. right. by eapply sublist_subseteq.
  - apply sublist_length in Hr. unfold len in *. lia.
  - assert (Hstr : forall i y, i ∈ waiting_ s ++ running_ s -> reqs s !! i = Some y -> streaming y).
    { intros i y [Hi|Hi]%elem_of_app Hy.
      - destruct (H3 i) as (z & Hz & Hl & _); [apply elem_of_app; by right|].
        rewrite Hy in Hz. injection Hz as <-. apply (live_stream _ Hl).
      - destruct (H2 i Hi) as (z & Hz & Hl). rewrite Hy in Hz. injection Hz as <-. apply (live_stream _ Hl). }
    intros i x Hx. unfold live_ids in *. cbn. destruct (dropped_cases q s s' i Hd) as [E|(Hi & y & Hy & Hc & E)].
    + rewrite E in Hx. destruct (H7 i x Hx) as [[Hi|Hi]%elem_of_app|]; [left; apply elem_of_app; by left| |by right].
      destruct (Hsplit i Hi) as [Hi'|[Hiq Hk]]; [left; apply elem_of_app; by right|].
      right. destruct (drop_gone _ _ _ Hd i Hiq Hk) as (y & Hy & E'). rewrite E, Hx in E'. rewrite Hx in Hy.
      injection Hy as <-. injection E' as Ey. split; [|by rewrite Ey].
      right. split; [by eapply Hstr|]. unfold kept in Hk. rewrite Hx in Hk. by destruct (is_cancelled x).
    + rewrite E in Hx. injection Hx as <-. right. split; [|done]. right. split; [|exact Hc].
      exact (Hstr i y (Hq i Hi) Hy).
Qed.

Lemma held_empty a s ids rest :
  (forall i, i ∈ ids -> (holding_of s i).1 = []) -> kv_wf a rest <-> kv_wf a (held s ids ++ rest).
Proof.
  clear. unfold held. induction ids as [|i ids IH]; intros H; [done|]. cbn [fmap list_fmap app].
  rewrite IH by (intros j Hj; apply H; by right). pose proof (H i ltac:(by left)) as Hi.
  destruct (holding_of s i) as [t c]. cbn [fst] in Hi. subst t. apply kv_wf_empty.
Qed.

Lemma keep_sublist s q : keep s q `sublist_of` q.
Proof.
  clear. unfold keep. induction q as [|i q IH]; [done|]. rewrite filter_cons. case_decide.
  - by apply sublist_skip.
  - by apply sublist_cons.
Qed.

Lemma waiting_running_disjoint Q s i : inv Q s -> i ∈ waiting_ s -> i ∈ running_ s -> False.
Proof.
  clear. intros H Hw Hr. pose proof (inv_nodup _ _ H) as Hn. unfold live_ids in Hn.
  apply NoDup_app in Hn as (_ & _ & Hn). apply NoDup_app in Hn as (_ & Hn & _). by apply (Hn i).
Qed.

Lemma inv_live_some Q s i : inv Q s -> i ∈ waiting_ s ++ running_ s -> is_Some (reqs s !! i).
Proof.
  clear. intros H [Hi|Hi]%elem_of_app.
  - destruct (inv_queued _ _ H i) as (r & -> & _); [apply elem_of_app; by right|done].
  - destruct (inv_running _ _ H i Hi) as (r & -> & _). done.
Qed.

(** The waiting queue: its requests hold no blocks. *)
Lemma drop_waiting_ok s :
  all_live s ->
  exists s', drop_cancelled s (waiting_ s) = Ret (s', keep s (waiting_ s)) /\
    let s1 := set_queues s' (inbound_ s') (keep s (waiting_ s)) (running_ s') in
    all_live s1 /\ steps_down s s1 /\ inbound_ s1 = inbound_ s /\ running_ s1 = running_ s.
Proof using Type.
  clear. intros H. destruct (drop_cancelled_ok s (waiting_ s) (held s (running_ s)))
    as (s' & E & Hwf & Hn & Hi & Hw & Hr & Hs & Hg).
  - pose proof (inv_nodup _ _ H) as Hnd. unfold live_ids in Hnd. apply NoDup_app in Hnd as (_ & _ & Hnd).
    by apply NoDup_app in Hnd as [Hnd _].
  - intros i Hi. apply (inv_live_some _ s i H). apply elem_of_app. by left.
  - apply held_empty; [|apply (inv_alloc _ _ H)]. intros i Hi.
    destruct (inv_queued _ _ H i) as (r & Hr & _ & Ht); [apply elem_of_app; by right|].
    unfold holding_of. by rewrite Hr.
  - exists s'. split; [exact E|]. cbv zeta.
    assert (Hd : dropped (waiting_ s) s s') by by split.
    assert (Hrun : forall i, i ∈ running_ s -> reqs s' !! i = reqs s !! i).
    { intros i Hi'. apply Hs. left. intros Hw'. by eapply waiting_running_disjoint. }
    assert (Hkeep : forall i, i ∈ keep s (waiting_ s) -> (holding_of s' i).1 = []).
    { intros i [Hk Hi']%keep_elem. unfold holding_of. rewrite Hs by by right.
      destruct (inv_queued _ _ H i) as (r & Hr' & _ & Ht); [apply elem_of_app; by right|]. by rewrite Hr'. }
    rewrite Hi, Hr. split; [|split; [by eapply dropped_down|done]].
    apply (inv_drop (waiting_ s) s s'); [done|done|apply keep_sublist|done| | | | |done].
    + intros i [[Hk Hi']%keep_elem|Hi']%elem_of_app; [apply Hs; by right|by apply Hrun].
    + intros i Hi'. apply elem_of_app. by left.
    + intros i [Hi'|Hi']%elem_of_app; [|left; apply elem_of_app; by right].
      destruct (kept s i) eqn:Ek; [left; apply elem_of_app; left; by apply keep_elem|by right].
    + apply (held_empty _ _ _ _ Hkeep) in Hwf. rewrite (held_ext s); [done|].
      intros i Hi'. unfold holding_of. by rewrite Hrun.
Qed.

Lemma drop_running_ok s :
  all_live s ->
  exists s', drop_cancelled s (running_ s) = Ret (s', keep s (running_ s)) /\
    let s1 := set_queues s' (inbound_ s') (waiting_ s) (keep s (running_ s)) in
    all_live s1 /\ steps_down s s1 /\ inbound_ s1 = inbound_ s.
Proof using Type.
  clear. intros H. destruct (drop_cancelled_ok s (running_ s) [])
    as (s' & E & Hwf & Hn & Hi & Hw & Hr & Hs & Hg).
  - by eapply inv_running_nodup.
  - intros i Hi. apply (inv_live_some _ s i H). apply elem_of_app. by right.
  - rewrite app_nil_r. apply (inv_alloc _ _ H).
  - exists s'. split; [exact E|]. cbv zeta. rewrite Hi. rewrite app_nil_r in Hwf.
    assert (Hd : dropped (running_ s) s s') by by split.
    split; [|split; [by eapply dropped_down|done]].
    apply (inv_drop (running_ s) s s'); [done|done|done|apply keep_sublist| | | |exact Hwf|done].
    + intros i [Hi'|[Hk Hi']%keep_elem]%elem_of_app; [apply Hs; left|apply Hs; by right].
      intros Hr'. by eapply waiting_running_disjoint.
    + intros i Hi'. apply elem_of_app. by right.
    + intros i [Hi'|Hi']%elem_of_app; [left; apply elem_of_app; by left|].
      destruct (kept s i) eqn:Ek; [left; apply elem_of_app; right; by apply keep_elem|by right].
Qed.

Lemma sum_submseteq (f : nat -> nat) l k : l ⊆+ k -> (sum_list_with f l <= sum_list_with f k)%nat.
Proof. clear. induction 1; simpl; lia. Qed.

Lemma load_le s s' : steps_down s s' -> live_ids s' ⊆+ live_ids s -> (load s' <= load s)%nat.
Proof.
  clear. intros [_ Hw] Hsub. unfold load.
  transitivity (sum_list_with (weight s) (live_ids s')); [by apply sum_le|by apply sum_submseteq].
Qed.

Lemma Refill_ok s :
  all_live s -> (1 <= n_slots cfg)%Z ->
  exists s', Refill cfg s = Ret s' /\ all_live s' /\ steps_down s s' /\ inbound_ s' = inbound_ s /\
    live_ids s' ⊆+ live_ids s /\ (running_ s' = [] -> waiting_ s' = []).
Proof using Hctx.
  intros H Hslots. unfold Refill.
  destruct (drop_waiting_ok s H) as (s1 & -> & H1 & D1 & I1 & R1). cbn [run_bind]. cbv zeta in *.
  set (t1 := set_queues s1 _ _ _) in *.
  destruct (drop_running_ok t1 H1) as (s2 & E & H2 & D2 & I2). cbv zeta in *.
  change (running_ t1) with (running_ s1) in *. rewrite E. cbn [run_bind].
  change (waiting_ t1) with (keep s (waiting_ s)) in *. set (t2 := set_queues s2 _ _ _) in *.
  destruct (fill_slots_ok t2 (keep s (waiting_ s)) H2 eq_refl Hslots) as (s3 & -> & H3 & D3 & I3 & P3 & E3).
  exists s3. split; [done|]. split; [done|]. split; [etrans; [exact D1|]; by etrans|]. split; [congruence|]. split.
  - rewrite P3. unfold live_ids. rewrite I2, I1. apply sublist_submseteq.
    cbn [t2 set_queues waiting_ running_]. change (running_ t1 = running_ s) in R1.
    change (running_ s1 = running_ s) in R1. rewrite R1.
    apply sublist_app; [done|]. apply sublist_app; apply keep_sublist.
  - intros He. by apply E3 in He as (? & _).
Qed.

(** *** Growing when the pool covers every slot *)
Context (Hpool : (n_slots cfg * max_blocks <= Z.of_nat pool)%Z).

Lemma BlocksFor_mono m n : (m <= n)%Z -> (BlocksFor m <= BlocksFor n)%Z.
Proof. clear. intros H. unfold BlocksFor. apply Z.quot_le_mono; [done|]. lia. Qed.

Lemma length_remove_dups (l : list nat) : (length (remove_dups l) <= length l)%nat.
Proof. clear. induction l as [|x l IH]; [done|]. cbn. case_decide; simpl; lia. Qed.

Lemma held_bound s ids :
  (forall i, i ∈ ids -> (len (holding_of s i).1 <= max_blocks)%Z) -> (len (owned (held s ids)) <= len ids * max_blocks)%Z.
Proof.
  clear. induction ids as [|i ids IH]; intros H; [done|]. unfold owned, held, len in *. cbn [fmap list_fmap concat].
  rewrite length_app. cbn [length]. pose proof (H i ltac:(by left)).
  assert (Z.of_nat (length (concat (holding_of s <$> ids).*1)) <= Z.of_nat (length ids) * max_blocks)%Z; [|cbn in *; lia].
  apply IH. intros j Hj. apply H. by right.
Qed.

Lemma Grow_fits Q s i r upto f :
  inv Q s -> (forall j x, Q j x -> live x) -> i ∈ running_ s -> reqs s !! i = Some r -> (upto <= max_ctx)%Z ->
  exists a' new, Grow (S f) s i upto = Ret (put (set_alloc s a') i (set_table r (block_table_ r ++ new)), true) /\
    (forall rest, kv_wf (alloc_ s) ((block_table_ r, computed_ r) :: rest) -> kv_wf a' ((block_table_ r ++ new, computed_ r) :: rest)) /\
    num_blocks_ a' = num_blocks_ (alloc_ s) /\ cached_ a' ⊆ cached_ (alloc_ s) /\
    len (block_table_ r ++ new) = Z.max (len (block_table_ r)) (BlocksFor upto).
Proof using Hpool.
  clear Hctx. intros H HQ Hi Hr Hup. pose proof (inv_running_nodup Q s H) as Hnd.
  pose proof (inv_alloc _ _ H) as Hwf. rewrite (held_split s i) in Hwf by done.
  unfold holding_of at 1 in Hwf. rewrite Hr in Hwf. set (others := held s (erase i (running_ s))) in *.
  cbn [Grow]. unfold get. rewrite Hr. cbn [run_bind].
  destruct (kv_grow _ _ _ upto _ Hwf) as (a' & new & ok & E & Hwf' & Hfree & Hn & Hok). rewrite E. cbn [run_bind].
  destruct ok.
  - exists a', new. split; [done|]. split; [|split; [done|split; [by eapply grow_loop_cached|done]]]. intros rest Hrest.
    destruct (kv_grow _ _ _ upto _ Hrest) as (a2 & new2 & ok2 & E2 & Hwf2 & _). rewrite E in E2.
    injection E2 as <- Ht _. by rewrite Ht.
  - exfalso. destruct Hok as [Hnil Hlen]. rewrite Hnil, app_nil_r in Hfree.
    pose proof (Permutation_length (wf_partition _ _ (kv_alloc _ _ Hwf))) as Hp.
    rewrite length_app, length_seq, Hfree, (inv_pool _ _ H), owned_cons in Hp.
    pose proof (length_remove_dups (owned ((block_table_ r, computed_ r) :: others))) as Hd. rewrite owned_cons, length_app in Hd.
    pose proof (BlocksFor_mono _ _ Hup) as Hm. fold max_blocks in Hm.
    assert (len (owned others) <= len (erase i (running_ s)) * max_blocks)%Z as Ho.
    { apply held_bound. intros j Hj. apply erase_elem in Hj as [Hj _]; [|done..].
      destruct (inv_running _ _ H j Hj) as (x & Hx & Hq). unfold holding_of. rewrite Hx.
      apply (kv_table _ (live_kv _ (HQ _ _ Hq))). }
    pose proof (inv_slots _ _ H) as Hs. pose proof (Permutation_length (erase_perm i (running_ s) Hi)) as El. cbn [length] in El.
    assert (0 <= max_blocks)%Z.
    { destruct (inv_running _ _ H i Hi) as (x & Hx & Hq). pose proof (kv_table _ (live_kv _ (HQ _ _ Hq))) as [_ Hb].
      unfold len in Hb. lia. }
    unfold len in *. rewrite length_app in Hlen. nia.
Qed.

(** *** Packing a batch *)
Context (Hchunk : (1 <= prefill_chunk cfg)%Z).

Record planned (r : Request) : Prop := {
  plan_some : (1 <= num_new_ r)%Z;
  plan_range : (computed_ r + num_new_ r <= NumTokens r)%Z;
  plan_blocks : (computed_ r + num_new_ r <= kKvBlock * len (block_table_ r))%Z;
  plan_chunk : (1 < Remaining r)%Z -> (num_new_ r <= prefill_chunk cfg)%Z;
}.

(** The requests of the batch are planned. *)
Definition packing (batch : list nat) (i : nat) (r : Request) : Prop := live r /\ (i ∈ batch -> planned r).

Lemma put_put s a i r r' : put (put (set_alloc s a) i r) i r' = put (set_alloc s a) i r'.
Proof. clear. unfold put, set_alloc. cbn. by rewrite insert_insert_eq. Qed.

Lemma chunk_size_ok rem budget :
  (1 <= rem)%Z -> (1 <= budget)%Z ->
  (1 <= chunk_size cfg rem budget <= Z.min rem budget)%Z /\
  ((1 < rem)%Z -> (chunk_size cfg rem budget <= prefill_chunk cfg)%Z).
Proof using Hchunk.
  clear -Hchunk. intros Hr Hb. unfold chunk_size. destruct (Z.ltb_spec 1 rem); split; try lia.
Qed.

Lemma live_planned r new n :
  live r -> (1 <= n)%Z -> (computed_ r + n <= NumTokens r)%Z -> ((1 < Remaining r)%Z -> (n <= prefill_chunk cfg)%Z) ->
  len (block_table_ r ++ new) = Z.max (len (block_table_ r)) (BlocksFor (computed_ r + n)) ->
  let r' := scheduled (set_table r (block_table_ r ++ new)) n in live r' /\ planned r'.
Proof.
  clear. intros [Hkv Hleft Hstr] Hn Hr Hp Hlen r'.
  pose proof (kv_table _ Hkv) as [Ht1 Ht2]. pose proof (kv_computed _ Hkv) as Hc.
  pose proof (BlocksFor_spec (computed_ r + n) ltac:(lia)) as Hb.
  pose proof (BlocksFor_mono (computed_ r + n) max_ctx ltac:(lia)) as Hm. fold max_blocks in Hm.
  assert (Hcov : (computed_ r + n <= kKvBlock * len (block_table_ r ++ new))%Z) by (unfold kKvBlock in *; lia).
  split; split; try done.
  split; cbn; [apply Hkv|exact Hc|apply Hkv|]. split; [unfold kKvBlock in *; lia|lia].
Qed.

Definition batch_of (s : Scheduler) (ids : list nat) : CurrentBatch :=
  {| input := batch_input s ids; requests := ids; sampled := []; batch_finished := [] |}.

(** What packing does: some requests of the batch get blocks and a chunk, and the prefix
    cache loses the entries of these blocks. *)
Record grown (s s' : Scheduler) : Prop := {
  grown_model : model_ s' = model_ s;
  grown_cached : cached_ (alloc_ s') ⊆ cached_ (alloc_ s);
  grown_reqs : forall i, reqs s' !! i = reqs s !! i \/
    exists r new n, reqs s !! i = Some r /\ i ∈ running_ s /\ reqs s' !! i = Some (scheduled (set_table r (block_table_ r ++ new)) n);
  grown_running : running_ s' = running_ s;
}.

#[export] Instance grown_refl : Reflexive grown.
Proof. intros s. split; try done. by left. Qed.

#[export] Instance grown_trans : Transitive grown.
Proof.
  intros a b c [M1 C1 R1 Q1] [M2 C2 R2 Q2]. split; [congruence|by etrans| |congruence].
  intros i. destruct (R2 i) as [E2|(r2 & new2 & n2 & E2 & H2 & F2)].
  - rewrite E2. apply R1.
  - right. destruct (R1 i) as [E1|(r & new & n & E1 & H1 & F1)].
    + rewrite E1 in E2. rewrite Q1 in H2. by exists r2, new2, n2.
    + rewrite F1 in E2. injection E2 as <-. exists r, (new ++ new2), n2. split; [done|]. split; [done|].
      rewrite F2. unfold scheduled, set_table, set_kv. cbn. by rewrite app_assoc.
Qed.

(** One request more. *)
Lemma pack_one s ids i r n f :
  inv (packing ids) s -> i ∈ running_ s -> i ∉ ids -> (forall j, j ∈ ids -> j ∈ running_ s) ->
  reqs s !! i = Some r -> (1 <= n <= Remaining r)%Z -> ((1 < Remaining r)%Z -> (n <= prefill_chunk cfg)%Z) ->
  exists s', (let* (s1, ok) := Grow (S f) s i (computed_ r + n) in
              let* (s2, batch) := AddRequest s1 (batch_of s ids) i n in
              Ret (s2, ok, batch)) = Ret (s', true, batch_of s' (ids ++ [i])) /\
    inv (packing (ids ++ [i])) s' /\ steps_down s s' /\ (forall j, j <> i -> reqs s' !! j = reqs s !! j) /\
    (inbound_ s' = inbound_ s /\ waiting_ s' = waiting_ s /\ running_ s' = running_ s) /\
    row_count s' i = n /\ grown s s'.
Proof using Hpool.
  clear Hctx Hchunk. intros H Hi Hni Hids Hr Hn Hp.
  assert (Hl : live r). { destruct (inv_running _ _ H i Hi) as (x & Hx & Hq). rewrite Hr in Hx. injection Hx as <-. apply Hq. }
  pose proof (live_left _ Hl) as Hleft. pose proof (kv_computed _ (live_kv _ Hl)) as Hc. unfold Remaining in *.
  destruct (Grow_fits (packing ids) s i r (computed_ r + n) f H) as (a' & new & E & Hwf & Hna & Hca & Hlen);
    [by intros ? ? [? _]|done|done|lia|].
  rewrite E. cbn [run_bind]. unfold AddRequest, get. cbn [put set_alloc reqs]. rewrite lookup_insert_eq. cbn [run_bind batch_of input requests sampled batch_finished].
  rewrite EmitChunk_ok by (cbn; unfold NumTokens in *; cbn; lia). cbn [run_bind]. rewrite put_put.
  set (r' := scheduled _ n). set (s' := put _ i r').
  destruct (live_planned r new n Hl) as [Hl' Hp']; [lia|lia|exact Hp|exact Hlen|]. fold r' in Hl', Hp'.
  assert (Hsame : forall j, j <> i -> reqs s' !! j = reqs s !! j).
  { intros j Hj. cbn. by rewrite lookup_insert_ne. }
  exists s'. split; [|split; [|split; [|split; [done|split; [done|]]]]].
  - unfold batch_of. do 3 f_equal. rewrite (batch_input_snoc s' ids i r').
    + by rewrite (batch_input_ext s s' ids) by (intros j Hj; apply Hsame; by intros ->).
    + intros j Hj. destruct (inv_running _ _ H j (Hids j Hj)) as (x & Hx & Hlx & Hpx). exists x.
      rewrite Hsame by (by intros ->). split; [done|]. specialize (Hpx Hj).
      pose proof (kv_computed _ (live_kv _ Hlx)). destruct Hpx. unfold in_range. lia.
    + cbn. by rewrite lookup_insert_eq.
  - apply (inv_put (packing ids) (packing (ids ++ [i])) s i r a' r'); [done|done|done|done|done|by split|].
    intros j x Hj Hne [Hlx Hpx]. split; [done|]. intros [Hin|Hin%list_elem_of_singleton]%elem_of_app; [by apply Hpx|done].
  - apply (steps_down_put s a' i r r' Hr). done.
  - split; [unfold row_count; cbn; by rewrite lookup_insert_eq|]. split; [done|exact Hca| |done]. intros j.
    destruct (decide (j = i)) as [-> |Hj]; [right|left; by apply Hsame].
    exists r, new, n. split; [done|]. split; [done|]. cbn. by rewrite lookup_insert_eq.
Qed.

Definition rows (s : Scheduler) (ids : list nat) : Z := foldr Z.add 0%Z (row_count s <$> ids).

Lemma rows_ext s s' ids : (forall i, i ∈ ids -> reqs s' !! i = reqs s !! i) -> rows s' ids = rows s ids.
Proof.
  clear. intros H. unfold rows. f_equal. apply list_fmap_ext. intros k i Hi. unfold row_count.
  rewrite H; [done|]. by eapply list_elem_of_lookup_2.
Qed.

Lemma pack_ok order todo s ids budget :
  inv (packing ids) s -> (forall j, j ∈ ids -> j ∈ running_ s) -> NoDup (ids ++ todo) ->
  Forall2 (fun k i => running_ s !! k = Some i) order todo ->
  exists s' m, let more := take m todo in
    pack cfg s (batch_of s ids) budget order = Ret (s', batch_of s' (ids ++ more), false) /\
    inv (packing (ids ++ more)) s' /\ steps_down s s' /\ (forall j, j ∉ more -> reqs s' !! j = reqs s !! j) /\
    (inbound_ s' = inbound_ s /\ waiting_ s' = waiting_ s /\ running_ s' = running_ s) /\
    (0 <= rows s' more <= Z.max 0 budget)%Z /\ ((m < length todo)%nat -> rows s' more = Z.max 0 budget) /\
    (todo <> [] -> (1 <= budget)%Z -> more <> []) /\ grown s s'.
Proof using Hpool Hchunk.
  clear Hctx. intros H Hids Hnd Ho. revert s ids budget H Hids Hnd Ho.
  assert (Hstop : forall s ids todo budget, inv (packing ids) s -> (todo = [] \/ (budget <= 0)%Z) ->
    exists s' m, let more := take m todo in Ret (s, batch_of s ids, false) = Ret (s', batch_of s' (ids ++ more), false) /\
    inv (packing (ids ++ more)) s' /\ steps_down s s' /\ (forall j, j ∉ more -> reqs s' !! j = reqs s !! j) /\
    (inbound_ s' = inbound_ s /\ waiting_ s' = waiting_ s /\ running_ s' = running_ s) /\
    (0 <= rows s' more <= Z.max 0 budget)%Z /\ ((m < length todo)%nat -> rows s' more = Z.max 0 budget) /\
    (todo <> [] -> (1 <= budget)%Z -> more <> []) /\ grown s s').
  { intros s ids l budget H Hl. exists s, 0%nat. cbv zeta. rewrite !take_0, app_nil_r. unfold rows. cbn [fmap list_fmap foldr].
    split; [done|]. split; [done|]. split; [done|]. split; [done|]. split; [done|]. split; [lia|].
    split; [|split; [|done]]; intros; destruct Hl as [-> |Hl]; simpl in *; (lia || done). }
  revert todo. induction order as [|k order IH]; intros todo s ids budget H Hids Hnd Ho.
  { apply Forall2_nil_inv_l in Ho as ->. cbn [pack]. apply Hstop; [done|by left]. }
  apply Forall2_cons_inv_l in Ho as (i & todo' & Hk & Ho & ->). cbn [pack].
  destruct (Z.leb_spec budget 0) as [Hb|Hb]; [apply Hstop; [done|by right]|].
  assert (Hi : i ∈ running_ s) by by eapply list_elem_of_lookup_2.
  destruct (inv_get _ _ i H Hi) as (r & Hg & Hr & Hl & _). unfold index_at at 1. rewrite Hk. cbn [run_bind]. rewrite Hg. cbn [run_bind].
  pose proof (live_left _ Hl) as Hleft. assert (Hrem : (1 <= Remaining r)%Z) by (unfold Remaining; lia).
  rewrite (proj2 (Z.leb_gt _ _)) by lia.
  destruct (chunk_size_ok (Remaining r) budget Hrem ltac:(lia)) as [Hn Hp]. set (n := chunk_size _ _ _) in *.
  assert (Hni : i ∉ ids). { apply NoDup_app in Hnd as (_ & Hnd & _). intros Hin. apply (Hnd i Hin). by left. }
  destruct (pack_one s ids i r n (length (running_ s)) H Hi Hni Hids Hr ltac:(lia) Hp)
    as (s1 & E & H1 & D1 & S1 & (I1 & W1 & R1) & C1 & G1).
  destruct (Grow _ s i _) as [[s0 ok]| |]; cbn [run_bind] in E |- *; [|done..].
  destruct (AddRequest s0 (batch_of s ids) i n) as [[s2 b]| |]; cbn [run_bind] in E |- *; [|done..].
  injection E as -> -> ->. cbn [negb run_bind]. fold (batch_of s1 (ids ++ [i])).
  destruct (IH todo' s1 (ids ++ [i]) (budget - n)%Z H1) as (s' & m & E & H' & D' & S' & (I' & W' & R') & B' & F' & N' & G').
  { intros j [Hj|Hj%list_elem_of_singleton]%elem_of_app; rewrite R1; [by apply Hids|by subst]. }
  { by rewrite <- app_assoc. }
  { by rewrite R1. }
  cbv zeta in *. exists s', (S m). cbn [take]. rewrite <- app_assoc in E, H'. cbn [app] in E, H'.
  assert (Hnm : i ∉ take m todo').
  { intros Hin. apply NoDup_app in Hnd as (_ & _ & Hnd). apply NoDup_cons in Hnd as [Hnd _]. apply Hnd.
    apply (sublist_subseteq (take m todo')); [apply sublist_take|done]. }
  assert (Hrow : rows s' (i :: take m todo') = (n + rows s' (take m todo'))%Z).
  { unfold rows. cbn [fmap list_fmap foldr]. f_equal. rewrite <- C1. unfold row_count. by rewrite S'. }
  rewrite Hrow. split; [exact E|]. split; [exact H'|]. split; [by etrans|]. split.
  { intros j [Hj1 Hj2]%not_elem_of_cons. rewrite S', S1 by done. done. }
  split_and!; [congruence..|lia|lia| |done|by etrans].
  intros Hm. cbn [length] in Hm. rewrite F' by lia. lia.
Qed.

End spec.

End runtime.
