(* ===== verification/SchedulerSpec.v ===== *)
(** * What the scheduler guarantees

    The theorems on [Scheduler]: the batches are what the forward pass expects, the loop
    never reads out of range and every submitted request is answered when the pool covers
    every slot at the full context length; and what happens when it does not. *)

From S2P Require Import Prelude GoStrings Chatml Client Generate BlockAllocator KvTables.
From S2P Require Import Sequence Scheduler SchedulerInv.
From stdpp Require Import relations sorting.
Local Open Scope go_scope.

(** ** The order of a batch *)
Section runtime.
Context {RT : Runtime}.

Definition remaining_of (s : Scheduler) (i : nat) : Z :=
  match reqs s !! i with Some r => Remaining r | None => 0%Z end.

Lemma insert_by_perm key x l : insert_by key x l ≡ₚ x :: l.
Proof.
  induction l as [|y l IH]; [done|]. cbn [insert_by]. case_match; [done|]. rewrite IH. apply Permutation_swap.
Qed.

Lemma stable_sort_perm key l : stable_sort key l ≡ₚ l.
Proof. induction l as [|x l IH]; [done|]. cbn. rewrite insert_by_perm. by rewrite IH. Qed.

Definition by_key (key : nat -> Z) : relation nat := fun a b => (key a <= key b)%Z.

Lemma insert_by_sorted key x l : StronglySorted (by_key key) l -> StronglySorted (by_key key) (insert_by key x l).
Proof.
  induction 1 as [|y l Hl IH Hy]; [by repeat constructor|]. cbn [insert_by].
  destruct (Z.leb_spec (key x) (key y)) as [Hle|Hlt].
  - constructor; [by constructor|]. constructor; [done|]. eapply Forall_impl; [exact Hy|].
    unfold by_key. intros z Hz. lia.
  - constructor; [exact IH|]. rewrite insert_by_perm. constructor; [|done]. unfold by_key. lia.
Qed.

Lemma stable_sort_sorted key l : StronglySorted (by_key key) (stable_sort key l).
Proof. induction l as [|x l IH]; [constructor|]. by apply insert_by_sorted. Qed.

Lemma StronglySorted_Forall2 (R R' : relation nat) (P : nat -> nat -> Prop) l k :
  (forall a b x y, P a x -> P b y -> R a b -> R' x y) ->
  Forall2 P l k -> StronglySorted R l -> StronglySorted R' k.
Proof.
  intros HR. induction 1 as [|a x l k Ha Hl IH]; intros Hs; [constructor|].
  apply StronglySorted_inv in Hs as [Hs Hall]. constructor; [by apply IH|]. clear IH Hs.
  induction Hl as [|b y l k Hb _ IH]; [constructor|]. apply Forall_cons in Hall as [Hab Hall].
  constructor; [by eapply HR|by apply IH].
Qed.

(** The list of the entries at a list of indices. *)
Lemma lookup_all {A} (l : list A) order :
  Forall (fun k => k < length l)%nat order -> exists todo, Forall2 (fun k x => l !! k = Some x) order todo.
Proof.
  induction 1 as [|k order Hk _ [todo IH]]; [by exists []|].
  destruct (lookup_lt_is_Some_2 l k Hk) as [x Hx]. exists (x :: todo). by constructor.
Qed.

Lemma lookup_indices {A} (l : list A) : Forall2 (fun k x => l !! k = Some x) (seq 0 (length l)) l.
Proof.
  apply Forall2_same_length_lookup_2; [by rewrite length_seq|].
  intros i k x Hk Hx. by apply lookup_seq in Hk as [-> _].
Qed.

Lemma lookup_all_perm {A} (l : list A) order order' todo todo' :
  order ≡ₚ order' -> Forall2 (fun k x => l !! k = Some x) order todo ->
  Forall2 (fun k x => l !! k = Some x) order' todo' -> todo ≡ₚ todo'.
Proof.
  intros Hp H H'. assert (forall order todo, Forall2 (fun k x => l !! k = Some x) order todo ->
    todo = omap (fun k => l !! k) order) as E.
  { induction 1 as [|k x o t Hk _ IH]; [done|]. cbn. by rewrite Hk, IH. }
  rewrite (E _ _ H), (E _ _ H'). by rewrite Hp.
Qed.

Section spec.
Context (cfg : SchedulerConfig) (max_ctx : Z) (pool : nat).
Context (Hctx : (0 < max_ctx)%Z) (Hslots : (1 <= n_slots cfg)%Z) (Hbudget : (1 <= token_budget cfg)%Z).
Context (Hchunk : (1 <= prefill_chunk cfg)%Z).
Context (Hpool : (n_slots cfg * max_blocks max_ctx <= Z.of_nat pool)%Z).

#[local] Notation inv := (inv cfg max_ctx pool).
#[local] Notation all_live := (all_live cfg max_ctx pool).
#[local] Notation live := (live max_ctx).
#[local] Notation packing := (packing cfg max_ctx).
#[local] Notation steps_down := (steps_down max_ctx).

Lemma remainings_ok Q s ids :
  inv Q s -> (forall i, i ∈ ids -> i ∈ running_ s) -> remainings s ids = Ret (remaining_of s <$> ids).
Proof.
  clear. intros H. induction ids as [|i ids IH]; intros Hin; [done|]. cbn [remainings fmap list_fmap].
  destruct (inv_get _ _ _ Q s i H) as (r & -> & Hr & _); [apply Hin; by left|]. cbn [run_bind].
  rewrite IH by (intros j Hj; apply Hin; by right). cbn [run_bind]. unfold remaining_of. by rewrite Hr.
Qed.

(** The batch is a prefix of the running requests in the order of their work. *)
Record batch_of_running (s s' : Scheduler) (ids : list nat) : Prop := {
  br_prefix : exists todo m, ids = take m todo /\ todo ≡ₚ running_ s /\
    StronglySorted (by_key (remaining_of s)) todo /\ ((m < length todo)%nat -> rows s' ids = token_budget cfg);
  br_rows : (0 <= rows s' ids <= token_budget cfg)%Z;
  br_some : running_ s <> [] -> ids <> [];
}.

Lemma batch_running Q s s' ids :
  inv Q s -> batch_of_running s s' ids -> running_ s' = running_ s -> NoDup ids /\ (forall i, i ∈ ids -> i ∈ running_ s').
Proof.
  clear. intros H [(todo & m & -> & Hperm & _) _ _] ->. split.
  - eapply sublist_NoDup; [|apply sublist_take]. rewrite Hperm. by eapply inv_running_nodup.
  - intros i Hi. rewrite <- Hperm. by apply (sublist_subseteq _ _ (sublist_take todo m)).
Qed.

Lemma BuildBatch_ok s f :
  all_live s ->
  exists s' ids, BuildBatch cfg (S f) s = Ret (s', batch_of s' ids) /\ inv (packing ids) s' /\ steps_down s s' /\
    (forall j, j ∉ ids -> reqs s' !! j = reqs s !! j) /\
    (inbound_ s' = inbound_ s /\ waiting_ s' = waiting_ s /\ running_ s' = running_ s) /\ batch_of_running s s' ids /\ grown s s'.
Proof using Hbudget Hchunk Hpool.
  clear Hctx Hslots. intros H. cbn [BuildBatch]. rewrite (remainings_ok _ s (running_ s) H) by done. cbn [run_bind].
  set (key := fun k => default 0%Z ((remaining_of s <$> running_ s) !! k)).
  set (order := stable_sort key _). pose proof (stable_sort_perm key (seq 0 (length (running_ s)))) as Hp. fold order in Hp.
  destruct (lookup_all (running_ s) order) as [todo Htodo].
  { rewrite Hp. apply Forall_forall. intros k Hk. apply elem_of_seq in Hk. lia. }
  pose proof (lookup_all_perm _ _ _ _ _ Hp Htodo (lookup_indices (running_ s))) as Hperm.
  destruct (pack_ok cfg max_ctx pool Hpool Hchunk order todo s [] (token_budget cfg))
    as (s' & m & E & H' & D & S & Q' & B & F & N & G).
  - eapply inv_mono; [|exact H]. intros i r _ _ Hl. split; [done|]. by intros ?%not_elem_of_nil.
  - by intros j ?%not_elem_of_nil.
  - cbn [app]. rewrite Hperm. by eapply inv_running_nodup.
  - exact Htodo.
  - cbv zeta in *. cbn [app] in *. change (batch_of s []) with empty_batch in E. rewrite E. cbn [run_bind].
    exists s', (take m todo). split; [done|]. split; [exact H'|]. split; [exact D|]. split; [exact S|]. split; [exact Q'|]. split; [|exact G].
    split; [|lia|].
    + exists todo, m. split; [done|]. split; [done|]. split; [|intros Hm; rewrite F by done; lia].
      eapply StronglySorted_Forall2; [|exact Htodo|apply (stable_sort_sorted key)].
      intros a b x y Ha Hb. unfold by_key, key. rewrite !list_lookup_fmap, Ha, Hb. done.
    + intros Hne. apply N; [|lia]. intros ->. by apply Permutation_nil_l in Hperm.
Qed.

(** ** After the forward pass *)

(** A request whose chunk has been computed. *)
Record computed (r : Request) : Prop := {
  comp_kv : kv_ok max_ctx r;
  comp_stream : streaming r;
  comp_room : (NumTokens r < max_ctx)%Z;
}.

Definition advancing (ids todo : list nat) (i : nat) (r : Request) : Prop :=
  computed r /\ (i ∈ todo -> live r /\ planned cfg r) /\ (i ∉ ids -> live r).

Lemma live_computed r : live r -> computed r.
Proof. clear. intros H. split; [apply H|apply H|]. apply (live_left _ _ H). Qed.

Lemma Advance_computed r : live r -> planned cfg r -> computed (Advance r).
Proof.
  clear. intros [Hkv Hleft Hstr] [P1 P2 P3 _]. pose proof (kv_computed _ _ Hkv). pose proof (kv_table _ _ Hkv) as [_ Ht].
  split; [|done|apply Hleft].
  split; cbn; [apply Hkv|unfold NumTokens in *; cbn; lia| |done].
  pose proof (kv_cached _ _ Hkv). lia.
Qed.

Lemma advance_all_ok ids todo s :
  inv (advancing ids todo) s -> NoDup todo -> (forall i, i ∈ todo -> i ∈ running_ s /\ i ∈ ids) ->
  exists s', advance_all s todo = Ret s' /\ inv (advancing ids []) s' /\ steps_down s s' /\
    (forall i, i ∈ todo -> reqs s' !! i = Advance <$> reqs s !! i) /\
    (forall i, i ∉ todo -> reqs s' !! i = reqs s !! i) /\
    (inbound_ s' = inbound_ s /\ waiting_ s' = waiting_ s /\ running_ s' = running_ s).
Proof.
  clear. revert s. induction todo as [|i todo IH]; intros s H Hnd Hin; cbn [advance_all].
  { exists s. split_and!; [done|done|done| |done..]. by intros i ?%not_elem_of_nil. }
  apply NoDup_cons in Hnd as [Hi Hnd]. destruct (Hin i) as [Hrun Hids]; [by left|].
  destruct (inv_get _ _ _ _ s i H Hrun) as (r & -> & Hr & _ & Hpl & _). cbn [run_bind].
  destruct Hpl as [Hl Hp]; [by left|].
  pose proof (plan_some _ _ Hp) as Hn.
  destruct (IH (put s i (Advance r))) as (s' & -> & H' & D & A & B & Q').
  - apply (inv_put_same _ _ _ (advancing ids (i :: todo)) _ s i r (Advance r) H Hrun Hr eq_refl); [cbn; lia| |].
    + split; [by apply Advance_computed|]. done.
    + intros j x _ Hne (Hc & Hl' & Hids'). split; [done|]. split; [|done]. intros Hj. apply Hl'. by right.
  - done.
  - intros j Hj. apply Hin. by right.
  - exists s'. split; [done|]. split; [done|]. split.
    { etrans; [|exact D]. apply (steps_down_put max_ctx s (alloc_ s) i r (Advance r) Hr). cbn. unfold NumTokens; cbn. lia. }
    split; [|split; [|done]].
    + intros j [-> |Hj]%elem_of_cons.
      * rewrite B by done. cbn. by rewrite lookup_insert_eq, Hr.
      * rewrite A by done. cbn. rewrite lookup_insert_ne; [done|]. by intros ->.
    + intros j [Hji Hj]%not_elem_of_cons. rewrite B by done. cbn. by rewrite lookup_insert_ne.
Qed.

(** *** Handing out the sampled tokens *)
Definition accepting (todo fin : list nat) (i : nat) (r : Request) : Prop :=
  kv_ok max_ctx r /\ (i ∈ todo -> computed r) /\ (i ∈ fin -> answered r) /\ (i ∉ todo -> i ∉ fin -> live r).

Definition at_end (s : Scheduler) (i : nat) : bool := (remaining_of s i =? 0)%Z.

Lemma at_end_Advance s s1 i r :
  reqs s !! i = Some r -> reqs s1 !! i = Some (Advance r) -> at_end s1 i = due s i.
Proof.
  clear. intros Hr H1. unfold at_end, remaining_of, due. rewrite H1, Hr. unfold Remaining, NumTokens. cbn.
  destruct (Z.eqb_spec (computed_ r + num_new_ r) (len (prompt_ r) + len (output_ r)));
    [by rewrite (proj2 (Z.eqb_eq _ _)) by lia|by rewrite (proj2 (Z.eqb_neq _ _)) by lia].
Qed.

Lemma AcceptSampled_ok r t :
  computed r -> Remaining r = 0%Z ->
  let '(r', fin) := AcceptSampled r t in
  kv_ok max_ctx r' /\ block_table_ r' = block_table_ r /\ (NumTokens r' = NumTokens r + 1)%Z /\ computed_ r' = computed_ r /\
  if fin then answered r' else live r'.
Proof.
  clear. intros [Hkv [(k & Hk & Hq & Hcl) [Hb1 Hb2]] Hroom] H0. rewrite (AcceptSampled_eq r k t Hk).
  set (fin := _ || _ || _). unfold Remaining in H0. pose proof (kv_computed _ _ Hkv) as Hc. pose proof (kv_ctx _ _ Hkv) as Hm.
  assert (forall sk fl, kv_ok max_ctx (set_gen r sk (output_ r ++ [t]) fl)) as Hkv'.
  { intros sk fl. split; cbn; [done| |apply Hkv|apply Hkv]. unfold NumTokens in *. cbn. rewrite len_snoc. lia. }
  split; [apply Hkv'|]. split; [done|]. split; [unfold NumTokens; cbn; rewrite len_snoc; lia|]. split; [done|].
  assert (Htok : q_ (Token k t) = EvTokenId <$> (output_ r ++ [t])) by (cbn; by rewrite Hq, fmap_app).
  destruct fin eqn:Ef.
  - unfold done_sink. eexists _, _. split; [done|]. cbn in *. rewrite Htok. split; [done|]. split; [|done].
    split; [done|]. cbn [set_gen output_ max_new_]. rewrite len_snoc. split; [unfold Generated in *; lia|]. exists (output_ r), t. split; [done|]. split; [done|].
    unfold fin in Ef. rewrite !orb_true_iff, bool_decide_eq_true, !Z.leb_le in Ef. unfold NumTokens, Generated in *. cbn.
    rewrite len_snoc. case_bool_decide; (split; [done|]); [lia|]. split; [lia|]. destruct Ef as [[?|?]|?]; [left; lia|done|right; lia].
  - unfold fin in Ef. rewrite !orb_false_iff, bool_decide_eq_false, !Z.leb_gt, Hm in Ef. destruct Ef as [[Ef1 Ef2] Ef].
    split; [apply Hkv'| |].
    + unfold NumTokens in *. cbn. rewrite len_snoc. lia.
    + split; [by exists (Token k t)|]. split; cbn; [rewrite len_snoc; unfold Generated in *; lia|].
      apply Forall_app. by repeat constructor.
Qed.

Lemma accept_all_ok samples todo : forall s fin k,
  inv (accepting todo fin) s -> NoDup todo -> (forall i, i ∈ todo -> i ∈ running_ s /\ i ∉ fin) ->
  NoDup fin -> (forall i, i ∈ fin -> i ∈ running_ s) ->
  (k + length (filter (fun i => at_end s i = true) todo) <= length samples)%nat ->
  exists s' fin', accept_all s samples k todo fin = Ret (s', fin') /\ inv (accepting [] fin') s' /\ steps_down s s' /\
    NoDup fin' /\ (forall i, i ∈ fin' -> i ∈ running_ s') /\
    (inbound_ s' = inbound_ s /\ waiting_ s' = waiting_ s /\ running_ s' = running_ s).
Proof.
  clear. induction todo as [|i todo IH]; intros s fin k H Hnd Hin Hfin Hrun Hk; cbn [accept_all].
  { exists s, fin. split_and!; done. }
  apply NoDup_cons in Hnd as [Hi Hnd]. destruct (Hin i) as [Hri Hif]; [by left|].
  destruct (inv_get _ _ _ _ s i H Hri) as (r & -> & Hr & Hkv & Hc & _). cbn [run_bind].
  specialize (Hc ltac:(by left)).
  assert (Hend : at_end s i = (Remaining r =? 0)%Z) by (unfold at_end, remaining_of; by rewrite Hr).
  rewrite filter_cons in Hk. destruct (Z.eqb_spec (Remaining r) 0) as [H0|H0].
  - rewrite decide_True in Hk by done. cbn [length] in Hk.
    destruct (lookup_lt_is_Some_2 samples k) as [t Ht]; [lia|]. unfold index_at. rewrite Ht. cbn [run_bind].
    pose proof (AcceptSampled_ok r t Hc H0) as Ha. destruct (AcceptSampled r t) as [r' fl].
    destruct Ha as (Hkv' & Htab & Hnum & Hcomp & Hfl).
    destruct (IH (put s i r') (if fl then fin ++ [i] else fin) (S k)) as (s' & fin' & -> & H' & D & R').
    + apply (inv_put_same _ _ _ (accepting (i :: todo) fin) _ s i r r' H Hri Hr Htab); [lia| |].
      * split; [done|]. split; [done|]. destruct fl; [split; [done|]|by split].
        intros _ Hno. destruct Hno. apply elem_of_app. right. by left.
      * intros j x _ Hne (Hk1 & Hk2 & Hk3 & Hk4). split; [done|]. split; [intros Hj; apply Hk2; by right|].
        assert (j ∈ (if fl then fin ++ [i] else fin) <-> j ∈ fin) as E.
        { destruct fl; [|done]. rewrite elem_of_app, list_elem_of_singleton. tauto. }
        rewrite E. split; [done|]. intros Hj. apply Hk4. by rewrite not_elem_of_cons.
    + done.
    + intros j Hj. destruct (Hin j) as [Hj1 Hj2]; [by right|]. split; [done|]. destruct fl; [|done].
      rewrite elem_of_app, list_elem_of_singleton. by intros [?| ->].
    + destruct fl; [|done]. apply NoDup_app. split_and!; [done| |apply NoDup_singleton].
      intros j Hj ->%list_elem_of_singleton. done.
    + intros j Hj. cbn. destruct fl; [|by apply Hrun]. apply elem_of_app in Hj as [Hj|Hj%list_elem_of_singleton]; [by apply Hrun|by subst].
    + rewrite (filter_test_ext _ (at_end s)); [lia|]. intros j Hj. unfold at_end, remaining_of. cbn.
      rewrite lookup_insert_ne; [done|]. by intros ->.
    + exists s', fin'. split; [done|]. split; [done|]. split; [|exact R'].
      etrans; [|exact D]. apply (steps_down_put max_ctx s (alloc_ s) i r r' Hr). lia.
  - rewrite decide_False in Hk by (rewrite Hend; done).
    destruct (IH s fin k) as (s' & fin' & E & H' & R'); [|done| |done|done|done|].
    + eapply inv_mono; [|exact H]. intros j x Hj Hx (Hk1 & Hk2 & Hk3 & Hk4). split; [done|].
      split; [intros Hjt; apply Hk2; by right|]. split; [done|]. intros Hjt Hjf.
      destruct (decide (j = i)) as [-> |Hne]; [|apply Hk4; [by rewrite not_elem_of_cons|done]].
      rewrite Hr in Hx. injection Hx as <-. destruct Hc as [K1 K2 K3]. split; [done| |done].
      pose proof (kv_computed _ _ K1). unfold Remaining in H0. lia.
    + intros j Hj. apply Hin. by right.
    + exists s', fin'. by rewrite E.
Qed.

(** *** Recording full blocks in the prefix cache *)
Lemma cache_loop_ok rounds a r rest idx parent :
  kv_wf a ((block_table_ r, computed_ r) :: rest) -> (0 <= idx)%Z ->
  (kKvBlock * (idx + Z.of_nat rounds) <= computed_ r)%Z -> kv_ok max_ctx r ->
  exists a' parent', cache_loop rounds a r idx parent = Ret (a', parent') /\
    kv_wf a' ((block_table_ r, computed_ r) :: rest) /\ num_blocks_ a' = num_blocks_ a.
Proof.
  clear. revert a idx parent. induction rounds as [|k IH]; intros a idx parent Hwf Hidx Hle Hkv; cbn [cache_loop].
  { by exists a, parent. }
  pose proof (kv_computed _ _ Hkv) as Hc. pose proof (kv_table _ _ Hkv) as [Ht _]. unfold kKvBlock in *.
  destruct (HashBlock_ok parent r (idx * 16) 16) as (h & -> & Hh); [lia..|]. cbn [run_bind].
  destruct (index_at_lt (block_table_ r) (Z.to_nat idx)) as (b & Hb & ->); [unfold len in *; lia|]. cbn [run_bind].
  destruct (kv_insert a _ _ _ _ b h Hwf Hb) as (a1 & -> & Hwf1 & Hn1); [unfold open_at, kKvBlock; lia|done|]. cbn [run_bind].
  destruct (IH a1 (idx + 1)%Z h Hwf1) as (a2 & p & -> & Hwf2 & Hn2); [lia|lia|done|].
  exists a2, p. split; [done|]. split; [done|]. by rewrite Hn2.
Qed.

(** Only the cache cursor of the request changes. *)
Lemma CacheBlocks_ok fin s i :
  inv (accepting [] fin) s -> i ∈ running_ s ->
  exists s', CacheBlocks s i = Ret s' /\ inv (accepting [] fin) s' /\ steps_down s s' /\
    (inbound_ s' = inbound_ s /\ waiting_ s' = waiting_ s /\ running_ s' = running_ s).
Proof.
  clear. intros H Hi. unfold CacheBlocks. destruct (inv_get _ _ _ _ s i H Hi) as (r & -> & Hr & Hkv & _ & Ha & Hl).
  cbn [run_bind]. set (full := Z.quot _ _). pose proof (kv_computed _ _ Hkv) as Hc. pose proof (kv_cached _ _ Hkv) as Hcb.
  assert (Hfull : (kKvBlock * full <= computed_ r)%Z /\ (0 <= full)%Z /\ (cached_blocks_ r <= full)%Z).
  { unfold full. rewrite Z.quot_div_nonneg by (unfold kKvBlock; lia). unfold kKvBlock in *. split_and!.
    - apply Z.mul_div_le. lia.
    - apply Z.div_pos; lia.
    - apply Z.div_le_lower_bound; lia. }
  assert (Hloop : forall rest, kv_wf (alloc_ s) ((block_table_ r, computed_ r) :: rest) ->
    exists a' p, cache_loop (Z.to_nat (full - cached_blocks_ r)) (alloc_ s) r (cached_blocks_ r) (last_hash_ r) = Ret (a', p) /\
      kv_wf a' ((block_table_ r, computed_ r) :: rest) /\ num_blocks_ a' = num_blocks_ (alloc_ s)).
  { intros rest Hwf. apply cache_loop_ok; [done|lia| |done]. rewrite Z2Nat.id by lia. unfold kKvBlock in *. lia. }
  pose proof (inv_alloc _ _ _ _ _ H) as Hwf. rewrite (held_split s i) in Hwf by done. unfold holding_of at 1 in Hwf. rewrite Hr in Hwf.
  destruct (Hloop _ Hwf) as (a' & p & E & _ & Hn). rewrite E. cbn [run_bind].
  set (r' := set_kv r _ _ _ _ _).
  assert (Hkv' : kv_ok max_ctx r').
  { split; cbn; [apply Hkv|exact Hc|lia|apply Hkv]. }
  eexists. split; [done|]. split; [|split; [|done]].
  - apply (inv_put _ _ _ (accepting [] fin) (accepting [] fin) s i r a' r' H Hi Hr); [|done| |done].
    + intros rest Hrest. destruct (Hloop _ Hrest) as (a2 & p2 & E2 & Hwf2 & _). rewrite E in E2. by injection E2 as <- _.
    + split; [done|]. split; [by intros ?%not_elem_of_nil|]. split; [exact Ha|]. intros Hn1 Hn2.
      destruct (Hl Hn1 Hn2) as [L1 L2 L3]. by split.
  - apply (steps_down_put max_ctx s a' i r r' Hr). done.
Qed.

Lemma each_CacheBlocks_ok fin ids s :
  inv (accepting [] fin) s -> (forall i, i ∈ ids -> i ∈ running_ s) ->
  exists s', each CacheBlocks s ids = Ret s' /\ inv (accepting [] fin) s' /\ steps_down s s' /\
    (inbound_ s' = inbound_ s /\ waiting_ s' = waiting_ s /\ running_ s' = running_ s).
Proof.
  clear. revert s. induction ids as [|i ids IH]; intros s H Hin; cbn [each]; [by exists s|].
  destruct (CacheBlocks_ok fin s i H) as (s1 & -> & H1 & D1 & I1 & W1 & R1); [apply Hin; by left|]. cbn [run_bind].
  destruct (IH s1 H1) as (s2 & -> & H2 & D2 & I2 & W2 & R2); [intros j Hj; rewrite R1; apply Hin; by right|].
  exists s2. split; [done|]. split; [done|]. split; [by etrans|]. split_and!; congruence.
Qed.

(** ** A step *)
Context {Hforward : RuntimeOk RT}.

(** The device is nobody's business but the forward pass's. *)
Lemma inv_model Q s d : inv Q s -> inv Q (set_model s d).
Proof. clear. by intros []. Qed.

(** What follows the forward pass. *)
Lemma finish_step_ok s ids inp tokens :
  inv (packing ids) s -> NoDup ids -> (forall i, i ∈ ids -> i ∈ running_ s) ->
  length tokens = length (logits_rows (batch_input s ids)) ->
  exists s', Finish cfg s {| input := inp; requests := ids; sampled := tokens; batch_finished := [] |} = Ret s' /\
    all_live s' /\ steps_down s s' /\ inbound_ s' = inbound_ s /\ live_ids s' ⊆+ live_ids s /\
    (forall i, i ∈ ids -> (weight max_ctx s' i < weight max_ctx s i)%nat).
Proof using Type.
  clear Hctx Hslots Hbudget Hchunk Hpool Hforward. intros H Hnd Hin Htok. unfold Finish, Apply. cbn [requests sampled batch_finished].
  assert (Hadv : inv (advancing ids ids) s).
  { eapply inv_mono; [|exact H]. intros i r _ _ [Hl Hp]. split; [by apply live_computed|]. split; [intros Hi; by split; auto|done]. }
  destruct (advance_all_ok ids ids s Hadv Hnd) as (s1 & -> & H1 & D1 & A1 & B1 & I1 & W1 & R1); [auto|]. cbn [run_bind].
  assert (Hdue : filter (fun i => at_end s1 i = true) ids = filter (fun i => due s i = true) ids).
  { apply filter_test_ext. intros i Hi. destruct (inv_get _ _ _ _ s i H (Hin i Hi)) as (r & _ & Hr & _).
    apply (at_end_Advance _ _ _ r Hr). by rewrite A1, Hr. }
  destruct (accept_all_ok tokens ids s1 [] 0)
    as (s2 & fin & -> & H2 & D2 & F2 & G2 & I2 & W2 & R2).
  { eapply inv_mono; [|exact H1]. intros i r _ _ (Hc & _ & Hl). split; [apply Hc|]. split; [done|].
    split; [by intros ?%not_elem_of_nil|]. intros Hi _. by apply Hl. }
  { done. }
  { intros i Hi. split; [rewrite R1; by apply Hin|apply not_elem_of_nil]. }
  { constructor. }
  { by intros i ?%not_elem_of_nil. }
  { rewrite Hdue, Htok. cbn [batch_input logits_rows]. rewrite length_last_rows. lia. }
  cbn [run_bind].
  assert (exists s3, (if use_prefix_cache cfg then each CacheBlocks s2 ids else Ret s2) = Ret s3 /\
    inv (accepting [] fin) s3 /\ steps_down s2 s3 /\
    (inbound_ s3 = inbound_ s2 /\ waiting_ s3 = waiting_ s2 /\ running_ s3 = running_ s2)) as (s3 & -> & H3 & D3 & I3 & W3 & R3).
  { destruct (use_prefix_cache cfg); [|by exists s2]. apply each_CacheBlocks_ok; [done|].
    intros i Hi. rewrite R2, R1. by apply Hin. }
  cbn [run_bind].
  destruct (each_Retire_ok cfg max_ctx pool (accepting [] fin) s3 fin H3 F2) as (s4 & -> & H4 & D4 & M4 & S4 & I4 & W4).
  { intros i Hi. rewrite R3. by apply G2. }
  { intros i r Hi Hr. rewrite <- R3 in G2. destruct (inv_running _ _ _ _ _ H3 i (G2 i Hi)) as (x & Hx & _ & _ & Ha & _).
    rewrite Hr in Hx. injection Hx as <-. left. by apply Ha. }
  exists s4. split; [done|]. assert (Hd14 : steps_down s1 s4).
  { etrans; [exact D2|]. etrans; [exact D3|]. split; [apply D4|apply D4]. }
  split; [|split; [by etrans|split; [congruence|split]]].
  - eapply inv_mono; [|exact H4]. intros i r Hi _ (_ & _ & _ & Hl). apply Hl; [apply not_elem_of_nil|]. by apply M4 in Hi as [_ Hi].
  - apply NoDup_submseteq; [apply (inv_nodup _ _ _ _ _ H4)|]. unfold live_ids. rewrite I4, W4, I3, W3, I2, W2, I1, W1.
    intros i. rewrite !elem_of_app, M4, R3, R2, R1. tauto.
  - intros i Hi. eapply Nat.le_lt_trans; [apply (down_weight _ _ _ Hd14)|].
    destruct (inv_get _ _ _ _ s i H (Hin i Hi)) as (r & _ & Hr & Hl & Hp). specialize (Hp Hi).
    pose proof (plan_some _ _ Hp). pose proof (live_left _ _ Hl). unfold weight. rewrite A1, Hr by done. cbn.
    unfold NumTokens in *. cbn. lia.
Qed.

Lemma Step_ok s :
  all_live s ->
  exists s', Step cfg s = Ret s' /\ all_live s' /\ steps_down s s' /\ inbound_ s' = inbound_ s /\
    live_ids s' ⊆+ live_ids s /\ (live_ids s' = inbound_ s \/ (load max_ctx s' < load max_ctx s)%nat).
Proof using Hctx Hslots Hbudget Hchunk Hpool Hforward.
  intros H. unfold Step.
  destruct (Refill_ok cfg max_ctx pool Hctx s H Hslots) as (s1 & -> & H1 & D1 & I1 & P1 & E1). cbn [run_bind].
  destruct (BuildBatch_ok s1 (length (running_ s1)) H1) as (s2 & ids & -> & H2 & D2 & S2 & (I2 & W2 & R2) & Hbr & _).
  destruct (batch_running _ s1 s2 ids H1 Hbr R2) as [Hnd Hin]. pose proof (br_some _ _ _ Hbr) as Hsome.
  cbn [run_bind]. change (requests (batch_of s2 ids)) with ids. change (input (batch_of s2 ids)) with (batch_input s2 ids).
  change (batch_finished (batch_of s2 ids)) with (@nil nat).
  assert (Hlive : live_ids s2 = live_ids s1) by (unfold live_ids; by rewrite I2, W2, R2).
  destruct ids as [|i ids'].
  - exists s2. split; [done|]. split; [|split; [by etrans|split; [congruence|split; [by rewrite Hlive|left]]]].
    + eapply inv_mono; [|exact H2]. by intros i r _ _ [Hl _].
    + assert (running_ s1 = []) as Hr by (destruct (running_ s1); [done|exfalso; by apply Hsome]).
      rewrite Hlive. unfold live_ids. by rewrite Hr, (E1 Hr), I1, !app_nil_r.
  - pose proof (Forward_samples (model_ s2) (batch_input s2 (i :: ids'))) as Htok.
    destruct (Forward _ _) as [d tokens]. cbn [snd] in Htok.
    rewrite <- (batch_input_ext s2 (set_model s2 d)) in Htok by done.
    destruct (finish_step_ok (set_model s2 d) (i :: ids') (batch_input s2 (i :: ids')) tokens (inv_model _ s2 d H2) Hnd Hin Htok) as (s3 & E3 & H3 & D3 & I3 & P3 & W3).
    rewrite E3. change (live_ids (set_model s2 d)) with (live_ids s2) in *. change (inbound_ (set_model s2 d)) with (inbound_ s2) in *.
    change (weight max_ctx (set_model s2 d)) with (weight max_ctx s2) in *. assert (steps_down s2 s3) as D3' by (split; apply D3).
    clear D3. rename D3' into D3.
    exists s3. split; [done|]. split; [done|]. split; [etrans; [exact D1|]; by etrans|]. split; [congruence|].
    split; [by rewrite P3, Hlive|right].
    eapply Nat.lt_le_trans; [|apply (load_le max_ctx s s1); [done|done]].
    eapply Nat.lt_le_trans; [|apply (load_le max_ctx s1 s2); [done|by rewrite Hlive]].
    unfold load. eapply Nat.le_lt_trans; [by apply sum_submseteq|].
    apply (sum_lt _ _ _ i); [intros j _; apply (down_weight _ _ _ D3)| |apply W3; by left].
    unfold live_ids. rewrite !elem_of_app. right. right. apply Hin. by left.
Qed.

(** ** Taking in what was submitted *)
Lemma report_settled r msg : streaming r -> settled (report r msg).
Proof.
  clear. intros [(k & Hk & Hq & Hcl) _]. left. unfold report. rewrite Hk. eexists _, _. split; [done|].
  cbn. rewrite Hq. done.
Qed.

Lemma queue_perm (i : nat) (l w r : list nat) : l ++ (w ++ [i]) ++ r ≡ₚ i :: l ++ w ++ r.
Proof. clear. rewrite (Permutation_app_comm w). cbn [app]. by rewrite <- Permutation_middle. Qed.

(** A request that finds the waiting queue full leaves the queues, told why. *)
Lemma drain_refused s i incoming r msg :
  all_live (set_queues s (i :: incoming) (waiting_ s) (running_ s)) -> reqs s !! i = Some r ->
  let s1 := put s i (report r msg) in
  all_live (set_queues s1 incoming (waiting_ s1) (running_ s1)).
Proof.
  clear. intros H Hr s1. destruct (inv_queued _ _ _ _ _ H i) as (x & Hx & Hl & Ht); [by left|].
  cbn [set_queues reqs] in Hx. rewrite Hr in Hx. injection Hx as <-.
  destruct H as [H1 H2 H3 H4 H5 H6 H7]. unfold live_ids in *. cbn [set_queues inbound_ waiting_ running_ reqs alloc_] in *.
  apply NoDup_cons in H1 as [Hni H1].
  assert (Hsame : forall j, j ∈ incoming ++ waiting_ s ++ running_ s -> reqs s1 !! j = reqs s !! j).
  { intros j Hj. cbn. rewrite lookup_insert_ne; [done|]. by intros ->. }
  split; cbn [set_queues inbound_ waiting_ running_ alloc_]; unfold live_ids; cbn [set_queues inbound_ waiting_ running_].
  - done.
  - intros j Hj. change (exists r, reqs s1 !! j = Some r /\ live r). rewrite Hsame by (rewrite !elem_of_app; tauto). by apply H2.
  - intros j Hj. change (exists r, reqs s1 !! j = Some r /\ live r /\ block_table_ r = []).
    rewrite Hsame by (rewrite elem_of_app in Hj; rewrite !elem_of_app; tauto). apply H3. by right.
  - rewrite (held_ext s); [done|]. intros j Hj. unfold holding_of.
    change (reqs (set_queues s1 ?x ?y ?z)) with (reqs s1). change (reqs (set_queues s ?x ?y ?z)) with (reqs s).
    rewrite Hsame; [done|]. rewrite !elem_of_app. by right; right.
  - done.
  - done.
  - intros j x. change (reqs s1 !! j = Some x -> j ∈ incoming ++ waiting_ s ++ running_ s \/ retired x).
    cbn [s1 put reqs]. destruct (decide (j = i)) as [-> |Hne].
    + rewrite lookup_insert_eq. intros [= <-]. right. split; [apply report_settled, Hl|done].
    + rewrite lookup_insert_ne by done. intros Hx. destruct (H7 j x Hx) as [Hj|]; [left|by right].
      by apply elem_of_cons in Hj as [? |Hj].
Qed.

(** Any other joins the end of the waiting queue. *)
Lemma drain_queued s i incoming :
  all_live (set_queues s (i :: incoming) (waiting_ s) (running_ s)) ->
  all_live (set_queues s incoming (waiting_ s ++ [i]) (running_ s)).
Proof.
  clear. intros [H1 H2 H3 H4 H5 H6 H7]. unfold live_ids in *. cbn [set_queues inbound_ waiting_ running_ reqs alloc_] in *.
  assert (Hperm := queue_perm i incoming (waiting_ s) (running_ s)).
  split; cbn [set_queues inbound_ waiting_ running_ alloc_ reqs]; unfold live_ids; cbn [set_queues inbound_ waiting_ running_].
  - by rewrite Hperm.
  - exact H2.
  - intros j Hj. apply H3. set_solver.
  - exact H4.
  - done.
  - done.
  - intros j x Hx. rewrite Hperm. by apply H7.
Qed.

(** [incoming] has been taken from the inbound queue and is still to be placed. *)
Lemma drain_ok incoming : forall s,
  inbound_ s = [] -> all_live (set_queues s incoming (waiting_ s) (running_ s)) ->
  exists s', drain cfg s incoming = Ret s' /\ all_live s' /\ steps_down s s' /\ inbound_ s' = [] /\
    live_ids s' ⊆+ incoming ++ waiting_ s ++ running_ s.
Proof.
  clear. induction incoming as [|i incoming IH]; intros s Hin H; cbn [drain].
  { exists s. assert (set_queues s [] (waiting_ s) (running_ s) = s) as Es by (destruct s; cbn in *; by subst).
    rewrite Es in H. split_and!; try done. unfold live_ids. by rewrite Hin. }
  destruct (inv_queued _ _ _ _ _ H i) as (r & Hr & _); [by left|]. cbn [set_queues reqs] in Hr.
  case_match.
  - unfold get. rewrite Hr. cbn [run_bind].
    destruct (IH (put s i (report r (queue_full cfg s)))) as (s' & -> & H' & D' & I' & P'); [done|by apply drain_refused|].
    exists s'. split; [done|]. split; [done|]. split; [|split; [done|]].
    + etrans; [|exact D']. by apply (steps_down_put max_ctx s (alloc_ s) i r _ Hr).
    + etrans; [exact P'|]. cbn. by apply submseteq_cons.
  - destruct (IH (set_queues s (inbound_ s) (waiting_ s ++ [i]) (running_ s))) as (s' & -> & H' & D' & I' & P');
      [done|exact (drain_queued s i incoming H)|].
    exists s'. split; [done|]. split; [done|]. split; [split; apply D'|]. split; [done|].
    etrans; [exact P'|]. cbn [set_queues waiting_ running_]. by rewrite queue_perm.
Qed.

Lemma run_round_ok s :
  all_live s ->
  exists s', run_round cfg s = Ret s' /\ all_live s' /\ steps_down s s' /\
    (live_ids s' = [] \/ (load max_ctx s' < load max_ctx s)%nat).
Proof using Hctx Hslots Hbudget Hchunk Hpool Hforward.
  intros H. unfold run_round. destruct (negb _ && negb _) eqn:Eidle.
  { exists s. split; [done|]. split; [done|]. split; [done|]. left. unfold live_ids, Busy in *.
    destruct (inbound_ s), (waiting_ s), (running_ s); done. }
  set (s0 := set_queues s [] _ _).
  destruct (drain_ok (inbound_ s) s0 eq_refl) as (s1 & -> & H1 & D1 & I1 & P1); [by destruct s|]. cbn [run_bind].
  change (live_ids s1 ⊆+ live_ids s) in P1.
  assert (D1' : steps_down s s1) by (split; apply D1).
  destruct (Busy s1) eqn:Eb.
  - destruct (Step_ok s1 H1) as (s2 & -> & H2 & D2 & I2 & P2 & L2). exists s2. split; [done|]. split; [done|].
    split; [by etrans|]. rewrite I1 in L2. destruct L2 as [L2|L2]; [by left|right].
    eapply Nat.lt_le_trans; [exact L2|]. by apply load_le.
  - exists s1. split; [done|]. split; [done|]. split; [done|]. left. unfold live_ids, Busy in *. rewrite I1.
    destruct (waiting_ s1), (running_ s1); done.
Qed.

End spec.

(** ** The engine as a transition system *)

(** A client that goes away: the handler raises the flag of the sink. *)
Definition cancel_request (r : Request) : Request :=
  set_gen r ((fun k => {| q_ := q_ k; closed_ := closed_ k; Sequence.cancel := true |}) <$> sink_ r) (output_ r) (finished_ r).

(** A configuration whose pool covers every slot at the full context length. *)
Record ample (cfg : SchedulerConfig) (max_ctx : Z) (pool : nat) : Prop := {
  ample_ctx : (0 < max_ctx)%Z;
  ample_slots : (1 <= n_slots cfg)%Z;
  ample_budget : (1 <= token_budget cfg)%Z;
  ample_chunk : (1 <= prefill_chunk cfg)%Z;
  ample_pool : (n_slots cfg * BlocksFor max_ctx <= Z.of_nat pool)%Z;
}.

(** Handlers submit and cancel requests between the turns of the loop. Prompts are not
    empty and leave room in the context, as the Go side makes sure. *)
Inductive engine_step (cfg : SchedulerConfig) (max_ctx : Z)
    (s : Scheduler) : Scheduler -> Prop :=
  | step_submit i g :
      reqs s !! i = None -> InputIds g <> [] -> (len (InputIds g) < max_ctx)%Z ->
      engine_step cfg max_ctx s (Submit s i (request_of max_ctx g))
  | step_cancel i r :
      reqs s !! i = Some r -> engine_step cfg max_ctx s (put s i (cancel_request r))
  | step_round s' :
      run_round cfg s = Ret s' -> engine_step cfg max_ctx s s'.

Fixpoint rounds (cfg : SchedulerConfig) (n : nat) (s : Scheduler) : run Scheduler :=
  match n with
  | O => Ret s
  | S n => let* s := run_round cfg s in rounds cfg n s
  end.

Section engine.
Context (cfg : SchedulerConfig) (max_ctx : Z) (pool : nat).
Context (Hample : ample cfg max_ctx pool).
Context {Hforward : RuntimeOk RT}.

#[local] Notation inv := (inv cfg max_ctx pool).
#[local] Notation all_live := (all_live cfg max_ctx pool).

Lemma new_scheduler_live d : all_live (new_scheduler d pool).
Proof using Hample.
  destruct Hample. split; cbn.
  - constructor.
  - by intros i ?%not_elem_of_nil.
  - by intros i ?%not_elem_of_nil.
  - apply kv_wf_nil.
  - done.
  - unfold len. simpl. lia.
  - intros i r Hr. by rewrite lookup_empty in Hr.
Qed.

Lemma request_live g : InputIds g <> [] -> (len (InputIds g) < max_ctx)%Z -> live max_ctx (request_of max_ctx g).
Proof.
  clear. intros Hne Hlen. assert (0 < len (InputIds g))%Z by (unfold len; destruct (InputIds g); [done|simpl; lia]).
  assert (0 <= max_blocks max_ctx)%Z as Hb.
  { unfold max_blocks, BlocksFor, kKvBlock. apply Z.quot_pos; lia. }
  split; [split| |]; cbn.
  - done.
  - unfold NumTokens, len in *. cbn. lia.
  - lia.
  - unfold len. simpl. lia.
  - unfold NumTokens, len in *. cbn. lia.
  - split; [by exists new_sink|]. split; [|constructor]. cbn. unfold len at 1. simpl. unfold kDefaultMaxTokens.
    destruct (Z.ltb_spec 0 (pb_MaxTokens g)), (Z.ltb_spec (max_ctx - len (InputIds g)) 1); lia.
Qed.

Lemma Submit_live s i g :
  all_live s -> reqs s !! i = None -> InputIds g <> [] -> (len (InputIds g) < max_ctx)%Z ->
  all_live (Submit s i (request_of max_ctx g)).
Proof.
  clear. intros [H1 H2 H3 H4 H5 H6 H7] Hi Hne Hlen. unfold Submit. set (r := request_of max_ctx g).
  assert (Hno : i ∉ live_ids s).
  { intros Hin. unfold live_ids in Hin. rewrite app_assoc, elem_of_app in Hin.
    destruct Hin as [Hin|Hin]; [destruct (H3 i Hin) as (x & Hx & _)|destruct (H2 i Hin) as (x & Hx & _)]; congruence. }
  assert (Hperm : (inbound_ s ++ [i]) ++ waiting_ s ++ running_ s ≡ₚ i :: live_ids s).
  { unfold live_ids. rewrite (Permutation_app_comm (inbound_ s)). done. }
  assert (Hne' : forall j, j ∈ live_ids s -> i <> j) by by intros j Hj ->.
  split; cbn [set_queues put inbound_ waiting_ running_ reqs alloc_].
  - unfold live_ids. cbn. rewrite Hperm. by constructor.
  - intros j Hj. rewrite lookup_insert_ne; [by apply H2|]. apply Hne'. unfold live_ids. rewrite !elem_of_app. tauto.
  - intros j Hj. destruct (decide (i = j)) as [<-|Hij].
    + exists r. rewrite lookup_insert_eq. split; [done|]. split; [by apply request_live|done].
    + rewrite lookup_insert_ne by done. apply H3. set_solver.
  - rewrite (held_ext s); [done|]. intros j Hj. unfold holding_of. cbn. rewrite lookup_insert_ne; [done|].
    apply Hne'. unfold live_ids. rewrite !elem_of_app. tauto.
  - done.
  - done.
  - intros j x. unfold live_ids at 1. cbn. rewrite Hperm, elem_of_cons. destruct (decide (i = j)) as [<-|Hij]; [tauto|].
    rewrite lookup_insert_ne by done. intros Hx. destruct (H7 j x Hx); tauto.
Qed.

Lemma cancel_live s i r : all_live s -> reqs s !! i = Some r -> all_live (put s i (cancel_request r)).
Proof.
  clear. intros [H1 H2 H3 H4 H5 H6 H7] Hr.
  assert (Hl : live max_ctx r -> live max_ctx (cancel_request r)).
  { intros [[K1 K2 K3 K4] L [(k & Hk & Hq & Hc) Hb]]. split; [by split|done|]. split; [|exact Hb].
    unfold cancel_request. rewrite Hk. by eexists. }
  split; cbn [put inbound_ waiting_ running_ reqs alloc_]; [done| | | |done|done|].
  - intros j Hj. destruct (H2 j Hj) as (x & Hx & Hlx). destruct (decide (i = j)) as [<-|Hij].
    + rewrite lookup_insert_eq. rewrite Hr in Hx. injection Hx as <-. eexists. split; [done|]. by apply Hl.
    + rewrite lookup_insert_ne by done. by exists x.
  - intros j Hj. destruct (H3 j Hj) as (x & Hx & Hlx & Ht). destruct (decide (i = j)) as [<-|Hij].
    + rewrite lookup_insert_eq. rewrite Hr in Hx. injection Hx as <-. eexists. split; [done|]. split; [by apply Hl|done].
    + rewrite lookup_insert_ne by done. by exists x.
  - rewrite (held_ext s); [done|]. intros j Hj. unfold holding_of. cbn. destruct (decide (i = j)) as [<-|Hij].
    + by rewrite lookup_insert_eq, Hr.
    + by rewrite lookup_insert_ne.
  - intros j x. change (live_ids (put s i (cancel_request r))) with (live_ids s).
    destruct (decide (i = j)) as [<-|Hij]; [|rewrite lookup_insert_ne by done; apply H7].
    rewrite lookup_insert_eq. intros [= <-]. destruct (H7 i r Hr) as [|[[(k & e & Hk & Hq)|[[(k & Hk & Hq & Hc) Hb] _]] Ht]]; [by left|right; split; [|done]..].
    + left. unfold cancel_request. rewrite Hk. by exists {| q_ := q_ k; closed_ := closed_ k; Sequence.cancel := true |}, e.
    + right. split; [|unfold cancel_request, is_cancelled; cbn; by rewrite Hk].
      split; [|exact Hb]. unfold cancel_request. rewrite Hk. by eexists.
Qed.

Lemma reachable_live d s : rtc (engine_step cfg max_ctx) (new_scheduler d pool) s -> all_live s.
Proof using Hample Hforward.
  assert (forall s s', rtc (engine_step cfg max_ctx) s s' -> all_live s -> all_live s') as Hpres.
  { induction 1 as [|x y z Hxy _ IH]; [done|]. intros Hx. apply IH. destruct Hxy as [i g Hi Hne Hlen|i r Hr|s' Hs'].
    - by apply Submit_live.
    - by apply cancel_live.
    - destruct Hample as [A1 A2 A3 A4 A5].
      destruct (run_round_ok cfg max_ctx pool A1 A2 A3 A4 A5 x Hx) as (s'' & E & H' & _).
      rewrite Hs' in E. by injection E as <-. }
  intros Hr. apply (Hpres _ _ Hr), new_scheduler_live.
Qed.

(** Enough turns without new requests leave nothing to do. *)
Lemma rounds_drain n : forall s, all_live s -> (load max_ctx s <= n)%nat ->
  exists s', rounds cfg (S n) s = Ret s' /\ all_live s' /\ live_ids s' = [] /\ dom (reqs s') = dom (reqs s).
Proof using Hample Hforward.
  pose proof Hample as [A1 A2 A3 A4 A5].
  assert (Hidle : forall k s, live_ids s = [] -> rounds cfg k s = Ret s).
  { induction k as [|k IHk]; intros s Hs; [done|]. cbn [rounds]. unfold live_ids in Hs.
    apply app_eq_nil in Hs as [Hi Hs]. apply app_eq_nil in Hs as [Hw Hr]. unfold run_round, Busy. rewrite Hi, Hw, Hr.
    cbn [has_any negb andb orb run_bind]. apply IHk. unfold live_ids. by rewrite Hi, Hw, Hr. }
  induction n as [|n IH]; intros s H Hn;
    destruct (run_round_ok cfg max_ctx pool A1 A2 A3 A4 A5 s H) as (s1 & E & H1 & D1 & L1).
  - exists s1. cbn [rounds]. rewrite E. cbn [run_bind]. destruct L1 as [L1|L1]; [|lia].
    split; [done|]. split; [done|]. split; [done|]. apply D1.
  - change (rounds cfg (S (S n)) s) with (let* s := run_round cfg s in rounds cfg (S n) s).
    rewrite E. cbn [run_bind]. destruct L1 as [L1|L1].
    + exists s1. rewrite Hidle by done. split; [done|]. split; [done|]. split; [done|]. apply D1.
    + destruct (IH s1 H1) as (s2 & E2 & H2 & L2 & D2); [lia|]. exists s2. split; [done|]. split; [done|]. split; [done|].
      rewrite D2. apply D1.
Qed.

End engine.

End runtime.

(** ** Properties *)

(** C18: the engine serves every request: with a pool that covers every slot at the full
    context length, in any state reached by submissions, cancellations and turns of the
    loop, a turn never reads out of range, at most the configured number of requests run,
    every request ever submitted is queued once or holds no blocks and its stream has been closed by one
    terminal event after its tokens - an error, or the finish reason and counts those tokens
    imply - (or its client has gone), and a bounded number of turns without new submissions
    settles them all. *)
Theorem engine_serves {RT : Runtime} {HRT : RuntimeOk RT} cfg max_ctx d pool s :
  ample cfg max_ctx pool -> rtc (engine_step cfg max_ctx) (new_scheduler d pool) s ->
  (exists s', run_round cfg s = Ret s') /\
  (len (running_ s) <= n_slots cfg)%Z /\ NoDup (live_ids s) /\
  (forall i r, reqs s !! i = Some r -> i ∈ live_ids s \/ retired r) /\
  exists s', rounds cfg (S (load max_ctx s)) s = Ret s' /\ live_ids s' = [] /\
    forall i, is_Some (reqs s !! i) -> exists r, reqs s' !! i = Some r /\ retired r.
Proof.
  intros Ha Hr. pose proof (reachable_live _ _ _ Ha d s Hr) as H. pose proof Ha as [A1 A2 A3 A4 A5].
  split; [|split; [apply (inv_slots _ _ _ _ _ H)|split; [apply (inv_nodup _ _ _ _ _ H)|split; [apply (inv_rest _ _ _ _ _ H)|]]]].
  - destruct (run_round_ok cfg max_ctx pool A1 A2 A3 A4 A5 s H) as (s' & E & _). by exists s'.
  - destruct (rounds_drain cfg max_ctx pool Ha (load max_ctx s) s H ltac:(done)) as (s' & E & H' & L & D).
    exists s'. split; [done|]. split; [done|]. intros i Hi. rewrite <- elem_of_dom, <- D, elem_of_dom in Hi.
    destruct Hi as [r Hi]. exists r. split; [done|]. destruct (inv_rest _ _ _ _ _ H' i r Hi) as [Hl|]; [|done].
    rewrite L in Hl. by apply not_elem_of_nil in Hl.
Qed.

(** C19: with a pool that covers every slot at full context ([ample]: preemption while a
    batch is packed breaks it otherwise), the batch of every turn is what the forward pass
    expects: it holds a prefix of the
    running requests ordered by their remaining work, as many as fit the token budget,
    each once; its input is the concatenation of their chunks, with a row sampled for
    exactly those that reach their last token; a chunk is not empty, is at most the prefill
    chunk unless it is a single token, and lies within the blocks of the request's table.
    A block the chunk writes into is in no other table, nowhere else in this one, and not in
    the prefix cache, so no write can change keys and values another request reads. *)
Theorem batch_well_formed {RT : Runtime} {HRT : RuntimeOk RT} cfg max_ctx d pool s :
  ample cfg max_ctx pool -> rtc (engine_step cfg max_ctx) (new_scheduler d pool) s ->
  exists s1 s2 ids, Refill cfg s = Ret s1 /\
    BuildBatch cfg (S (length (running_ s1))) s1 = Ret (s2, batch_of s2 ids) /\
    NoDup ids /\ (running_ s1 <> [] -> ids <> []) /\
    (exists todo m, ids = take m todo /\ todo ≡ₚ running_ s1 /\
       StronglySorted (by_key (remaining_of s1)) todo /\
       ((m < length todo)%nat -> len (in_tokens (batch_input s2 ids)) = token_budget cfg)) /\
    (len (in_tokens (batch_input s2 ids)) <= token_budget cfg)%Z /\
    forall i, i ∈ ids -> exists r, reqs s2 !! i = Some r /\
      (1 <= num_new_ r)%Z /\ (computed_ r + num_new_ r <= NumTokens r)%Z /\
      (computed_ r + num_new_ r <= kKvBlock * len (block_table_ r))%Z /\
      ((1 < Remaining r)%Z -> (num_new_ r <= prefill_chunk cfg)%Z) /\
      (forall k b, block_table_ r !! k = Some b -> open_at (computed_ r) k ->
         exclusive (alloc_ s2) (held s2 (running_ s2)) b).
Proof.
  intros Ha Hr. pose proof (reachable_live _ _ _ Ha d s Hr) as H. destruct Ha as [A1 A2 A3 A4 A5].
  destruct (Refill_ok cfg max_ctx pool A1 s H A2) as (s1 & E1 & H1 & _).
  destruct (BuildBatch_ok cfg max_ctx pool A3 A4 A5 s1 (length (running_ s1)) H1)
    as (s2 & ids & E2 & H2 & D2 & S2 & (I2 & W2 & R2) & Hbr & _).
  destruct (batch_running _ _ _ _ s1 s2 ids H1 Hbr R2) as [Hnd Hin].
  destruct Hbr as [(todo & m & Hids & Hperm & Hsort & Hfull) Hrows Hsome].
  assert (Hplan : forall i, i ∈ ids -> exists r, reqs s2 !! i = Some r /\ live max_ctx r /\ planned cfg r).
  { intros i Hi. destruct (inv_get _ _ _ _ s2 i H2 (Hin i Hi)) as (r & _ & Hx & Hl & Hp). exists r. auto. }
  assert (Hlen : len (in_tokens (batch_input s2 ids)) = rows s2 ids).
  { apply length_batch_tokens. intros i Hi. destruct (Hplan i Hi) as (r & Hx & Hl & [P1 P2 _ _]). exists r. split; [done|].
    pose proof (kv_computed _ _ (live_kv _ _ Hl)). unfold in_range. lia. }
  exists s1, s2, ids. split; [done|]. split; [done|]. rewrite Hlen. split; [done|]. split; [done|]. split; [by exists todo, m|]. split; [lia|].
  intros i Hi. destruct (Hplan i Hi) as (r & Hx & _ & [P1 P2 P3 P4]). exists r.
  split; [done|]. split; [done|]. split; [done|]. split; [done|]. split; [done|]. intros k b.
  apply (kv_open _ _ (inv_alloc _ _ _ _ _ H2)). apply list_elem_of_fmap. exists i. unfold holding_of. rewrite Hx. split; [done|]. by apply Hin.
Qed.

(** ** Witnesses *)
Definition toy_config : SchedulerConfig :=
  {| n_slots := 2; max_waiting := 8; token_budget := 64; prefill_chunk := 64; use_prefix_cache := true |}.

(** Runtimes without a state, of a function on inputs. *)
Definition pure_runtime (f : ForwardInput -> list Z) : Runtime :=
  {| Device := unit; Forward := fun d inp => (d, f inp) |}.

Definition toy_runtime : Runtime := pure_runtime (fun inp => (fun _ => 5%Z) <$> logits_rows inp).

Lemma toy_runtime_ok : RuntimeOk toy_runtime.
Proof. intros d inp. apply length_fmap. Qed.

Definition toy_generate (n : nat) : GenerateRequest :=
  {| InputIds := replicate n 1%Z; pb_MaxTokens := 3; pb_Temperature := one_f; pb_TopP := one_f; StopTokenIds := [9%Z] |}.

(** Two requests of 16 and 17 tokens have been submitted. *)
Definition toy_state (pool : nat) : @Scheduler toy_runtime :=
  Submit (Submit (new_scheduler (tt : @Device toy_runtime) pool) 0 (request_of 64 (toy_generate 16))) 1 (request_of 64 (toy_generate 17)).

Lemma toy_reachable pool :
  rtc (engine_step toy_config 64) (new_scheduler (RT := toy_runtime) tt pool) (toy_state pool).
Proof.
  eapply rtc_l; [apply (step_submit _ _ _ 0 (toy_generate 16)); [done|done|by vm_compute]|].
  eapply rtc_l; [apply (step_submit _ _ _ 1 (toy_generate 17)); [done|done|by vm_compute]|]. apply rtc_refl.
Qed.

Lemma toy_ample : ample toy_config 64 8.
Proof. split; vm_compute; congruence. Qed.

Lemma engine_serves_witness :
  exists s', rounds (RT := toy_runtime) toy_config (S (load 64 (toy_state 8))) (toy_state 8) = Ret s' /\ live_ids s' = [] /\
    exists r, reqs s' !! 1%nat = Some r /\ retired r.
Proof.
  destruct (engine_serves (HRT := toy_runtime_ok) toy_config 64 tt 8 (toy_state 8) toy_ample (toy_reachable 8)) as (_ & _ & _ & _ & s' & H1 & H2 & H3).
  exists s'. split; [exact H1|]. split; [exact H2|]. apply H3. by eexists.
Defined.

Lemma batch_well_formed_witness :
  exists s1 s2 ids, Refill (RT := toy_runtime) toy_config (toy_state 8) = Ret s1 /\
    BuildBatch toy_config (S (length (running_ s1))) s1 = Ret (s2, batch_of s2 ids) /\
    NoDup ids /\ (len (in_tokens (batch_input s2 ids)) <= 64)%Z.
Proof.
  destruct (batch_well_formed (HRT := toy_runtime_ok) toy_config 64 tt 8 (toy_state 8) toy_ample (toy_reachable 8)) as (s1 & s2 & ids & H1 & H2 & H3 & _ & _ & H4 & _).
  exists s1, s2, ids. exact (conj H1 (conj H2 (conj H3 H4))).
Defined.

(** ** Without the assumption on the pool *)

(** A forward pass that samples the number of the row. *)
Definition row_runtime : Runtime := pure_runtime logits_rows.

(** The older request is past its block boundary, the younger one at it. *)
Definition swapped_state (pool : nat) : @Scheduler row_runtime :=
  Submit (Submit (new_scheduler (tt : @Device row_runtime) pool) 0 (request_of 64 (toy_generate 17))) 1 (request_of 64 (toy_generate 16)).

Lemma swapped_reachable pool :
  rtc (engine_step toy_config 64) (new_scheduler (RT := row_runtime) tt pool) (swapped_state pool).
Proof.
  eapply rtc_l; [apply (step_submit _ _ _ 0 (toy_generate 17)); [done|done|by vm_compute]|].
  eapply rtc_l; [apply (step_submit _ _ _ 1 (toy_generate 16)); [done|done|by vm_compute]|]. apply rtc_refl.
Qed.

(** The state after a turn; only meant for turns that return. *)
Definition after_round {RT : Runtime} (s : Scheduler) : Scheduler :=
  match run_round toy_config s with Ret s => s | _ => s end.

Lemma after_round_step {RT : Runtime} s s' :
  match run_round toy_config s with Ret _ => true | _ => false end = true ->
  rtc (engine_step toy_config 64) s' s -> rtc (engine_step toy_config 64) s' (after_round s).
Proof.
  intros H Hr. eapply rtc_r; [exact Hr|]. apply step_round. unfold after_round. by destruct (run_round toy_config s).
Qed.

(** Without that pool, preemption breaks the loop that packs a batch, which runs over
    indices computed before requests were removed from the vector. Two requests are
    decoding and the pool of three blocks is used up. If the older one needs a block, the
    loop preempts the younger one and then reads [running_[1]] of a vector of length 1. If
    the younger one does, the older one is preempted although it is in the batch already:
    its row is computed on blocks that were taken from it, and the token sampled from that
    row is handed to the younger request. *)
Lemma preemption_breaks_batches :
  (exists s, rtc (engine_step toy_config 64) (new_scheduler (RT := toy_runtime) tt 3) s /\
     running_ s = [0; 1]%nat /\ waiting_ s = [] /\ remaining_of s <$> [0; 1]%nat = [1; 1]%Z /\
     (exists s1 s2, Refill toy_config s = Ret s1 /\ Grow 3 s1 0 17 = Ret (s2, true) /\
        running_ s2 = [0]%nat /\ waiting_ s2 = [1]%nat) /\
     BuildBatch toy_config 3 s = Panic /\ run_round toy_config s = Panic) /\
  (exists s s1 batch s2, rtc (engine_step toy_config 64) (new_scheduler (RT := row_runtime) tt 3) s /\
     running_ s = [0; 1]%nat /\ waiting_ s = [] /\ remaining_of s <$> [0; 1]%nat = [1; 1]%Z /\
     BuildBatch toy_config 3 s = Ret (s1, batch) /\
     requests batch = [0; 1]%nat /\ waiting_ s1 = [0]%nat /\ table_of s1 0 = [] /\
     req_index (input batch) = [0; 1]%Z /\ (Forward (model_ s1) (input batch)).2 = [0; 1]%Z /\
     run_round toy_config s = Ret s2 /\
     (last ∘ output_ <$> reqs s2 !! 1%nat) = Some (Some 0%Z)).
Proof.
  split.
  - exists (after_round (toy_state 3)).
    split; [apply after_round_step; [vm_compute; reflexivity|apply toy_reachable]|].
    set (s := after_round _). do 3 (split; [vm_compute; reflexivity|]). split; [|split; vm_compute; reflexivity].
    set (s1 := match Refill toy_config s with Ret s => s | _ => s end).
    set (s2 := match Grow 3 s1 0 17 with Ret (s, _) => s | _ => s end).
    exists s1, s2. split_and!; vm_compute; reflexivity.
  - set (s := after_round (swapped_state 3)).
    set (b := match BuildBatch toy_config 3 s with Ret p => p | _ => (s, empty_batch) end).
    exists s, b.1, b.2, (after_round s).
    split; [apply after_round_step; [vm_compute; reflexivity|apply swapped_reachable]|].
    split_and!; vm_compute; reflexivity.
Qed.
