(* ===== verification/Delivery.v ===== *)
(** * A Generate call, from the submission to the client

    The handler of one call ([Handler]) next to the engine ([SchedulerSpec]). The engine's
    turns are atomic here as they are in [Scheduler], but what a turn pushes reaches the
    queue of the call one operation at a time, in between the handler's own operations: a
    [call] holds the engine, the queue as far as it has been filled, and the handler. Only
    its handler cancels a request. *)

From stdpp Require Import relations.
From S2P Require Import Prelude GoStrings Chatml Client Generate BlockAllocator Sequence Handler.
From S2P Require Import Scheduler SchedulerFrame SchedulerInv SchedulerSpec.
Local Open Scope go_scope.

Section delivery.
Context {RT : Runtime}.

Record call := { eng : Scheduler; queue_ : GrpcSink; hdl : handler }.

Definition sink_of (s : Scheduler) (i : nat) : option GrpcSink :=
  match reqs s !! i with Some r => sink_ r | None => None end.

(** The queue may be filled up to what the engine has pushed. *)
Definition behind (k : GrpcSink) (s : Scheduler) (i : nat) : Prop :=
  exists ks, sink_of s i = Some ks /\ rtc sink_step k ks.

(** [found] says what the client may be found to be when the handler asks: [fun _ => True] of
    any client, [eq true] of one that stays. *)
Inductive call_step (cfg : SchedulerConfig) (max_ctx : Z) (i : nat) (found : bool -> Prop) : call -> call -> Prop :=
  | call_engine s s' k k' h :
      sink_of s i = Some k -> engine_step cfg max_ctx s s' ->
      sink_of s' i = Some k' -> Sequence.cancel k' = Sequence.cancel k ->
      call_step cfg max_ctx i found {| eng := s; queue_ := k; hdl := h |} {| eng := s'; queue_ := k; hdl := h |}
  | call_push s k k' h :
      sink_step k k' -> behind k' s i ->
      call_step cfg max_ctx i found {| eng := s; queue_ := k; hdl := h |} {| eng := s; queue_ := k'; hdl := h |}
  | call_turn client s r k h :
      found client -> reqs s !! i = Some r ->
      call_step cfg max_ctx i found {| eng := s; queue_ := k; hdl := h |}
        {| eng := if Sequence.cancel (turn client k h).1 then put s i (cancel_request r) else s;
           queue_ := (turn client k h).1; hdl := (turn client k h).2 |}.

(** ** What the engine does to a sink *)

(** Between two turns. *)
Definition settled_sink (k : GrpcSink) : Prop :=
  exists ids, (q_ k = EvTokenId <$> ids /\ closed_ k = false) \/
    (exists e, q_ k = (EvTokenId <$> ids) ++ [e] /\ is_terminal e = true /\ closed_ k = true).

Lemma ends_terminal r e : ends r e -> is_terminal e = true.
Proof. by destruct e. Qed.

Lemma streaming_or_answered cfg max_ctx pool s i r :
  all_live cfg max_ctx pool s -> reqs s !! i = Some r -> streaming r \/ answered r.
Proof.
  intros H Hr. destruct (inv_rest _ _ _ _ _ H i r Hr) as [Hl|[[Ha|[Hs _]] _]]; [left|by right|by left].
  unfold live_ids in Hl. rewrite app_assoc in Hl. apply elem_of_app in Hl as [Hl|Hl].
  - destruct (inv_queued _ _ _ _ _ H i Hl) as (x & Hx & Hlive & _). rewrite Hr in Hx. injection Hx as <-. apply Hlive.
  - destruct (inv_running _ _ _ _ _ H i Hl) as (x & Hx & Hlive). rewrite Hr in Hx. injection Hx as <-. apply Hlive.
Qed.

Lemma live_sink cfg max_ctx pool s i r :
  all_live cfg max_ctx pool s -> reqs s !! i = Some r -> exists k, sink_ r = Some k /\ settled_sink k.
Proof.
  intros H Hr. destruct (streaming_or_answered _ _ _ _ _ _ H Hr) as [[(k & Hk & Hq & Hc) _]|(k & e & Hk & Hq & He & Hc)];
    exists k; (split; [done|]); exists (output_ r); [by left|right].
  exists e. split; [done|]. split; [by eapply ends_terminal|done].
Qed.

Lemma push_tokens_steps ids' : forall k ids, q_ k = EvTokenId <$> ids -> closed_ k = false ->
  rtc sink_step k (push_tokens k ids').
Proof.
  induction ids' as [|t ids' IH]; intros k ids Hq Hc.
  - assert (push_tokens k [] = k) as -> by (unfold push_tokens; destruct k; cbn in *; by rewrite app_nil_r). apply rtc_refl.
  - rewrite <- push_tokens_cons. eapply rtc_l.
    + apply (sink_token _ t). unfold ongoing. rewrite Hq. apply tokens_ongoing.
    + apply (IH _ (ids ++ [t])); [cbn; by rewrite Hq, fmap_app|done].
Qed.

Lemma tokens_app_inv ids ids' rest : EvTokenId <$> ids' = (EvTokenId <$> ids) ++ rest -> exists more, ids' = ids ++ more.
Proof.
  revert ids'. induction ids as [|t ids IH]; intros ids' E; [by exists ids'|]. destruct ids' as [|t' ids']; [done|].
  cbn in E. injection E as <- E. destruct (IH ids' E) as [more ->]. by exists more.
Qed.

Lemma settled_sink_steps k k' :
  settled_sink k -> settled_sink k' -> q_ k `prefix_of` q_ k' -> Sequence.cancel k' = Sequence.cancel k -> rtc sink_step k k'.
Proof.
  intros [ids [[Hq Hc]|(e & Hq & He & Hc)]] [ids' Hk'] [rest Hp] Hcan; rewrite Hq in Hp.
  - destruct Hk' as [[Hq' Hc']|(e' & Hq' & He' & Hc')]; rewrite Hq' in Hp.
    + apply tokens_app_inv in Hp as [more ->]. rewrite fmap_app, <- Hq in Hq'.
      replace k' with (push_tokens k more); [by eapply push_tokens_steps|]. unfold push_tokens. destruct k'; cbn in *. congruence.
    + assert (exists more, ids' = ids ++ more) as [more ->].
      { destruct rest as [|x rest _] using rev_ind.
        - rewrite app_nil_r in Hp. destruct ids as [|t ids _] using rev_ind; [by destruct ids'|].
          rewrite fmap_app in Hp. apply app_inj_tail in Hp as [_ ->]. done.
        - rewrite app_assoc in Hp. apply app_inj_tail in Hp as [Hp _]. by eapply tokens_app_inv. }
      etrans; [by apply (push_tokens_steps more k ids)|].
      assert (Hall : q_ (push_tokens k more) = EvTokenId <$> (ids ++ more)) by (cbn; by rewrite Hq, fmap_app).
      eapply rtc_l; [apply (sink_terminal _ e'); [unfold ongoing; rewrite Hall; apply tokens_ongoing|done]|].
      eapply rtc_l; [apply sink_close|].
      * apply (terminal_not_ongoing _ (ids ++ more) e'); [cbn [Push q_]; by rewrite Hall|done].
      * replace (Close _) with k'; [apply rtc_refl|]. destruct k' as [q' c' cc']. unfold Close, Push. rewrite Hall. cbn in *. congruence.
  - assert (q_ k' = q_ k /\ closed_ k' = true) as [E E'].
    { rewrite Hq. destruct Hk' as [[Hq' _]|(e' & Hq' & He' & Hc')]; rewrite Hq' in Hp.
      - exfalso. apply (f_equal (Forall (fun e => is_terminal e = false))) in Hp.
        pose proof (tokens_ongoing ids') as Ht. rewrite Hp, <- app_assoc in Ht. apply Forall_app in Ht as [_ Ht].
        apply Forall_cons in Ht as [Ht _]. congruence.
      - destruct rest as [|x rest _] using rev_ind; [by rewrite Hq', Hp, app_nil_r|].
        exfalso. rewrite app_assoc in Hp. apply app_inj_tail in Hp as [Hp _].
        pose proof (tokens_ongoing ids') as Ht. rewrite Hp, <- app_assoc in Ht. apply Forall_app in Ht as [_ Ht].
        apply Forall_cons in Ht as [Ht _]. congruence. }
    replace k' with k; [apply rtc_refl|]. destruct k, k'. cbn in *. congruence.
Qed.

Lemma raise_cancel_steps k k' : rtc sink_step k k' -> rtc sink_step (raise_cancel k) (raise_cancel k').
Proof.
  intros H. apply (rtc_congruence (R := sink_step) raise_cancel); [|exact H]. intros x y [t Ho|e Ho He|Ho].
  - by apply (sink_token (raise_cancel x) t).
  - by apply (sink_terminal (raise_cancel x) e).
  - by apply (sink_close (raise_cancel x)).
Qed.

Lemma all_right_sinks k k' h : rtc sink_step k k' -> all_right k h -> all_right k' h.
Proof. induction 1 as [|x y z Hxy _ IH]; [done|]. intros Hx. by eapply IH, all_right_sink. Qed.

Lemma sink_steps_same k k' : rtc sink_step k k' -> q_ k `prefix_of` q_ k' /\ Sequence.cancel k' = Sequence.cancel k.
Proof.
  induction 1 as [|x y z Hxy _ [H1 H2]]; [done|]. apply sink_step_prefix in Hxy as [H3 H4]. split; [by etrans|congruence].
Qed.

(** After the terminal event nothing is pushed. *)
Lemma sink_steps_done k k' : rtc sink_step k k' -> ~ ongoing k -> q_ k' = q_ k.
Proof. induction 1 as [|x y z [t Ho|e Ho _|_] _ IH]; [done|done|done|]. intros Hx. by rewrite IH. Qed.

(** ** The invariant of a call *)
Section call.
Context {HRT : RuntimeOk RT}.
Context (cfg : SchedulerConfig) (max_ctx : Z) (pool : nat) (d : Device) (Hample : ample cfg max_ctx pool).

Definition reachable (s : Scheduler) : Prop := rtc (engine_step cfg max_ctx) (new_scheduler d pool) s.

Lemma reachable_sink s i r : reachable s -> reqs s !! i = Some r -> exists k, sink_ r = Some k /\ settled_sink k.
Proof using HRT Hample. intros Hr. eapply live_sink. by eapply reachable_live. Qed.

Lemma engine_step_sink s s' i k k' :
  reachable s -> engine_step cfg max_ctx s s' -> sink_of s i = Some k -> sink_of s' i = Some k' ->
  Sequence.cancel k' = Sequence.cancel k -> rtc sink_step k k'.
Proof using HRT Hample.
  intros Hs Hstep Hk Hk' Hc. assert (Hs' : reachable s') by by eapply rtc_r.
  unfold sink_of in Hk, Hk'. destruct (reqs s !! i) as [r|] eqn:Hr; [|done]. destruct (reqs s' !! i) as [r'|] eqn:Hr'; [|done].
  destruct Hstep as [j g Hj _ _|j x Hj|s' Hround].
  - cbn in Hr'. rewrite lookup_insert_ne in Hr' by (intros ->; congruence). rewrite Hr in Hr'. injection Hr' as <-.
    rewrite Hk in Hk'. injection Hk' as <-. apply rtc_refl.
  - cbn in Hr'. destruct (decide (j = i)) as [-> |Hne].
    + rewrite lookup_insert_eq in Hr'. injection Hr' as <-. rewrite Hr in Hj. injection Hj as <-.
      unfold cancel_request in Hk'. cbn in Hk'. rewrite Hk in Hk'. injection Hk' as <-. cbn in Hc.
      replace {| q_ := _ |} with k; [apply rtc_refl|]. destruct k. cbn in *. congruence.
    + rewrite lookup_insert_ne in Hr' by done. rewrite Hr in Hr'. injection Hr' as <-. rewrite Hk in Hk'. injection Hk' as <-. apply rtc_refl.
  - pose proof (run_round_extends cfg _ _ Hround i) as He. rewrite Hr in He. destruct He as (x & Hx & Hg). rewrite Hr' in Hx. injection Hx as <-.
    pose proof (grow_sink _ _ Hg) as Hsg. rewrite Hk, Hk' in Hsg. destruct Hsg as [Hp _].
    destruct (reachable_sink s i r Hs Hr) as (k0 & E0 & H0). rewrite Hk in E0. injection E0 as <-.
    destruct (reachable_sink s' i r' Hs' Hr') as (k1 & E1 & H1). rewrite Hk' in E1. injection E1 as <-.
    by apply settled_sink_steps.
Qed.

Record call_ok (i : nat) (c : call) : Prop := {
  call_reachable : reachable (eng c);
  call_behind : behind (queue_ c) (eng c) i;
  call_handler : all_right (queue_ c) (hdl c);
  call_cancel : Sequence.cancel (queue_ c) = true -> at_ (hdl c) = Returned;
}.

Lemma turn_queue client k h : (turn client k h).1 = k \/ ((turn client k h).1 = raise_cancel k /\ at_ (turn client k h).2 = Returned).
Proof using Type.
  unfold turn. destruct (at_ h); [by left; destruct (_ !! _)| | | |by left]; try (destruct client; [by left|by right]).
  by left; destruct (_ && _).
Qed.

Lemma turn_stays client k h : at_ h = Returned -> turn client k h = (k, h).
Proof using Type. unfold turn. by intros ->. Qed.

Lemma call_step_ok i found c c' : call_step cfg max_ctx i found c c' -> call_ok i c -> call_ok i c'.
Proof using HRT Hample.
  intros [s s' k k' h Hk Hs Hk' Hc|s k k' h Hkk Hb|client s r k h _ Hr] [H1 (ks & Hks & Hb') H3 H4]; cbn [eng queue_ hdl] in *.
  - split; cbn; [by eapply rtc_r| |done|done]. exists k'. split; [done|]. rewrite Hk in Hks. injection Hks as <-.
    by eapply engine_step_sink.
  - split; cbn; [done|done|by eapply all_right_sink|]. apply sink_step_prefix in Hkk as [_ ->]. done.
  - pose proof (all_right_turn client k h H3) as Hh. destruct (turn_queue client k h) as [Eq|[Eq Er]].
    + assert (Hret : Sequence.cancel k = true -> turn client k h = (k, h)) by (intros E; by apply turn_stays, H4).
      destruct (turn client k h) as [k1 h1]. cbn in Eq |- *. subst k1.
      destruct (Sequence.cancel k) eqn:Ec; [|split; cbn; [done|by exists ks|done|by rewrite Ec]].
      injection (Hret eq_refl) as ->. split; cbn; [by eapply rtc_r; [|apply (step_cancel _ _ s i r)]| |done|auto].
      exists (raise_cancel ks). unfold sink_of in *. cbn. rewrite lookup_insert_eq. rewrite Hr in Hks. unfold cancel_request. cbn. rewrite Hks.
      split; [done|]. apply sink_steps_same in Hb' as Hcan. destruct Hcan as [_ Hcan].
      replace (raise_cancel ks) with ks; [done|]. unfold raise_cancel. destruct ks. cbn in *. congruence.
    + destruct (turn client k h) as [k1 h1]. cbn in Eq, Er |- *. subst k1. cbn [Sequence.cancel raise_cancel].
      split; cbn; [by eapply rtc_r; [|apply (step_cancel _ _ s i r)]| |done|done].
      exists (raise_cancel ks). unfold sink_of in *. cbn. rewrite lookup_insert_eq. rewrite Hr in Hks. unfold cancel_request. cbn. rewrite Hks.
      split; [done|]. by apply raise_cancel_steps.
Qed.

Definition submitted (s : Scheduler) (i : nat) (g : GenerateRequest) : call :=
  {| eng := Submit s i (request_of max_ctx g); queue_ := new_sink; hdl := started |}.

Lemma submitted_ok s i g :
  reachable s -> reqs s !! i = None -> InputIds g <> [] -> (len (InputIds g) < max_ctx)%Z -> call_ok i (submitted s i g).
Proof using Type.
  intros Hs Hi Hne Hlen. split; cbn; [by eapply rtc_r; [|apply step_submit]| | |done].
  - exists new_sink. split; [|apply rtc_refl]. unfold sink_of. cbn. by rewrite lookup_insert_eq.
  - split; [by apply (fed_tokens _ [])|]. split; [|done]. cbn. by split_and!.
Qed.

Lemma calls_ok i found c c' : rtc (call_step cfg max_ctx i found) c c' -> call_ok i c -> call_ok i c'.
Proof using HRT Hample. induction 1 as [|x y z Hxy _ IH]; [done|]. intros Hx. by eapply IH, call_step_ok. Qed.

(** The handler does not cancel a request whose client stays. *)
Lemma staying_uncancelled i found c c' : (forall b, found b -> b = true) -> rtc (call_step cfg max_ctx i found) c c' ->
  Sequence.cancel (queue_ c) = false -> Sequence.cancel (queue_ c') = false.
Proof using Type.
  intros Hst. induction 1 as [|x y z Hxy _ IH]; [done|]. intros Hx. apply IH. clear IH.
  destruct Hxy as [s s' k k' h _ _ _ _|s k k' h Hkk _|client s r k h Hf _]; cbn [queue_] in *; [done| |].
  - apply sink_step_prefix in Hkk as [_ ->]. done.
  - rewrite (Hst client Hf). by rewrite turn_stays_uncancelled.
Qed.

(** Whole turns only make requests grow. *)
Lemma rounds_extends n : forall s s', rounds cfg n s = Ret s' -> extends s s'.
Proof using Type.
  clear. induction n as [|n IH]; intros s s'; cbn [rounds]; [by intros [= <-]|]. intros H. bind_step H.
  etrans; [by eapply run_round_extends|by eapply IH].
Qed.

(** Turns of the engine push to the queue what it takes. *)
Lemma rounds_behind n s s' k i :
  reachable s -> rounds cfg n s = Ret s' -> behind k s i -> reachable s' /\ behind k s' i.
Proof using HRT Hample.
  revert s. induction n as [|n IH]; intros s Hs; cbn [rounds]; [by intros [= <-]|]. intros H (ks & Hk & Hb). bind_step H.
  assert (Hstep : engine_step cfg max_ctx s x) by by apply step_round.
  assert (Hx' : reachable x) by by eapply rtc_r.
  apply (IH x Hx' H). pose proof (run_round_extends cfg _ _ Hx i) as He. pose proof Hk as Hk0. unfold sink_of in Hk.
  destruct (reqs s !! i) as [r|] eqn:Hr; [|done]. destruct He as (r' & Hr' & Hg).
  destruct (reachable_sink x i r' Hx' Hr') as (k' & Hk' & _). exists k'. split; [unfold sink_of; by rewrite Hr'|].
  etrans; [exact Hb|]. eapply engine_step_sink; [exact Hs|exact Hstep|exact Hk0|unfold sink_of; by rewrite Hr'|].
  pose proof (grow_sink _ _ Hg) as Hsg. rewrite Hk, Hk' in Hsg. apply Hsg.
Qed.

(** A request that is over has its terminal event in the sink. *)
Lemma retired_answered r k : retired r -> sink_ r = Some k -> Sequence.cancel k = false ->
  answered r /\ ~ ongoing k.
Proof using Type.
  intros [[Ha|[_ Hc]] _] Hk Hcan.
  - split; [done|]. destruct Ha as (k' & e & Hk' & Hq & He & _). rewrite Hk in Hk'. injection Hk' as <-.
    eapply terminal_not_ongoing; [exact Hq|by eapply ends_terminal].
  - unfold is_cancelled in Hc. rewrite Hk in Hc. congruence.
Qed.

End call.

End delivery.

(** C5: a Generate call is served to the end: a request is submitted to an engine whose pool
    covers every slot at full context, in any state it reaches, and from then on turns of the
    engine, other submissions and cancellations, pushes to its queue and operations of its
    handler interleave in any way. What the client has been written is a prefix of the
    request's events; the handler returns only after the terminal event of a request that has
    been answered, having written all of its events, or when it found the client gone; and a
    bounded number of turns of the engine, followed by a bounded number of operations of the
    handler, always ends the call. A client that stays is never taken for one that is gone:
    its request is not cancelled, and when the call ends it has been written all the events. *)
Theorem generate_call_served {RT : Runtime} {HRT : RuntimeOk RT} cfg max_ctx pool d s i g found s' k h :
  ample cfg max_ctx pool -> rtc (engine_step cfg max_ctx) (new_scheduler d pool) s ->
  reqs s !! i = None -> InputIds g <> [] -> (len (InputIds g) < max_ctx)%Z ->
  rtc (call_step cfg max_ctx i found) (submitted max_ctx s i g) {| eng := s'; queue_ := k; hdl := h |} ->
  (exists r ks, reqs s' !! i = Some r /\ sink_ r = Some ks /\ rtc sink_step k ks /\ wrote h `prefix_of` q_ ks /\
     (at_ h = Returned -> Sequence.cancel ks = true \/ (answered r /\ wrote h = written (q_ ks))) /\
     ((forall b, found b -> b = true) -> Sequence.cancel ks = false)) /\
  exists s2 ks, rounds cfg (S (load max_ctx s')) s' = Ret s2 /\ sink_of s2 i = Some ks /\ rtc sink_step k ks /\
    (forall clients, (2 * length (q_ ks) + 2 < length clients)%nat -> at_ (turns clients ks h).2 = Returned) /\
    ((forall b, found b -> b = true) -> forall n, (2 * length (q_ ks) + 2 < n)%nat ->
       let '(k', h') := turns (replicate n true) ks h in
       at_ h' = Returned /\ wrote h' = written (q_ ks) /\ Sequence.cancel k' = false).
Proof.
  intros Ha Hs Hi Hne Hlen Hrun. pose proof (calls_ok cfg max_ctx pool d Ha _ _ _ _ Hrun ltac:(by apply submitted_ok)) as [Hr (ks & Hks & Hb) Hh Hcan].
  cbn [eng queue_ hdl] in *. destruct (sink_steps_same _ _ Hb) as [Hp Ec].
  pose proof (reachable_live cfg max_ctx pool Ha d s' Hr) as Hlive.
  assert (Hstay : (forall b, found b -> b = true) -> Sequence.cancel k = false).
  { intros Hf. apply (staying_uncancelled cfg max_ctx i found _ _ Hf Hrun eq_refl). }
  split.
  - unfold sink_of in Hks. destruct (reqs s' !! i) as [r|] eqn:Hrr; [|done]. exists r, ks. do 3 (split; [done|]).
    split; [etrans; [apply Hh|exact Hp]|]. split; [|intros Hf; rewrite Ec; by apply Hstay]. intros E. destruct Hh as (Hf & Hh & _).
    unfold handling in Hh. rewrite E in Hh. destruct Hh as [Hh|[Hw Ho]]; [left; congruence|right].
    rewrite (sink_steps_done _ _ Hb Ho), written_all by done. split; [|done].
    destruct (streaming_or_answered _ _ _ _ _ _ Hlive Hrr) as [[(k' & Hk' & Hq & _) _]|]; [|done].
    rewrite Hks in Hk'. injection Hk' as <-. exfalso. apply Ho. unfold ongoing.
    rewrite <- (sink_steps_done _ _ Hb Ho), Hq. apply tokens_ongoing.
  - destruct (rounds_drain cfg max_ctx pool Ha (load max_ctx s') s' Hlive ltac:(done)) as (s2 & E & H2 & L & _).
    destruct (rounds_behind cfg max_ctx pool d Ha _ _ _ k i Hr E ltac:(by exists ks)) as [Hr2 (k2 & Hk2 & Hb2)].
    exists s2, k2. do 3 (split; [done|]). destruct (sink_steps_same _ _ Hb2) as [_ Ec2].
    assert (Hk : all_right k2 h) by by eapply all_right_sinks.
    assert (Hwork : (work k2 h <= 2 * length (q_ k2) + 2)%nat) by (unfold work; destruct (at_ h); lia).
    assert (Hover : Sequence.cancel k = false -> ~ ongoing k2).
    { intros Eck. unfold sink_of in Hk2. destruct (reqs s2 !! i) as [r|] eqn:Hrr; [|done].
      assert (retired r) as Hret by (destruct (inv_rest _ _ _ _ _ H2 i r Hrr) as [Hin|]; [rewrite L in Hin; by apply not_elem_of_nil in Hin|done]).
      by destruct (retired_answered r k2 Hret Hk2 ltac:(congruence)). }
    split.
    + intros clients Hl. destruct (Sequence.cancel k) eqn:Eck; [by apply turns_returned, Hcan|]. apply turns_finish; [done|by apply Hover|lia].
    + intros Hf n Hn. specialize (Hstay Hf). apply staying_writes_all; [done|by apply Hover|congruence|lia].
Qed.

(** ** Witness *)

(** A turn of the engine, its token pushed, and the handler about to write it. *)
Definition one_turn : @Scheduler toy_runtime :=
  after_round (Submit (new_scheduler (tt : @Device toy_runtime) 8) 0 (request_of 64 (toy_generate 16))).
Definition writing : handler := {| at_ := AtWrite (EvTokenId 5); popped := 1; wrote := [] |}.

Lemma one_turn_served :
  rtc (call_step toy_config 64 0 (eq true)) (submitted 64 (new_scheduler (RT := toy_runtime) tt 8) 0 (toy_generate 16))
    {| eng := one_turn; queue_ := Token new_sink 5; hdl := writing |}.
Proof.
  eapply rtc_l.
  { eapply (call_engine _ _ _ _ _ one_turn new_sink (Token new_sink 5)); [vm_compute; reflexivity| |vm_compute; reflexivity|done].
    apply step_round. vm_compute. reflexivity. }
  eapply rtc_l.
  { eapply (call_push _ _ _ _ _ new_sink (Token new_sink 5)); [apply sink_token; constructor|].
    exists (Token new_sink 5). split; [vm_compute; reflexivity|apply rtc_refl]. }
  eapply rtc_l; [|apply rtc_refl].
  eapply (call_turn _ _ _ _ true one_turn _ (Token new_sink 5) started); [done|]. vm_compute. reflexivity.
Qed.

Lemma generate_call_served_witness : exists s2 ks,
  rounds toy_config (S (load 64 one_turn)) one_turn = Ret s2 /\ sink_of s2 0 = Some ks /\ length (q_ ks) = 4%nat /\
  wrote (turns (replicate 11 true) ks writing).2 = written (q_ ks).
Proof.
  destruct (generate_call_served (HRT := toy_runtime_ok) toy_config 64 8 tt (new_scheduler (RT := toy_runtime) tt 8) 0 (toy_generate 16) (eq true)
    one_turn (Token new_sink 5) writing toy_ample (rtc_refl _ _) eq_refl ltac:(done) ltac:(by vm_compute) one_turn_served)
    as (_ & s2 & ks & H1 & H2 & _ & _ & H4). exists s2, ks. split; [exact H1|]. split; [exact H2|].
  assert (length (q_ ks) = 4%nat) as Hl.
  { assert (exists x, rounds toy_config (S (load 64 one_turn)) one_turn = Ret x /\ (length ∘ q_ <$> sink_of x 0) = Some 4%nat) as (x & Hx & Hq)
      by (eexists; split; vm_compute; reflexivity).
    rewrite H1 in Hx. injection Hx as <-. rewrite H2 in Hq. by injection Hq. }
  split; [exact Hl|]. specialize (H4 ltac:(by intros b <-) 11%nat ltac:(rewrite Hl; lia)).
  destruct (turns (replicate 11 true) ks writing) as [k' h']. apply H4.
Defined.
