(* ===== verification/KvContents.v ===== *)
(** * The keys and values a request reads are those of its own tokens

    Requests share blocks through the prefix cache, their chunks are computed together, and
    blocks change hands. [contents] says that none of this shows: every position a request
    has computed, and every cached block, holds keys and values that the model computes for
    the tokens of the sequence alone, whoever computed them. So every token of every answer
    is one the model may sample after its own prompt and the answer so far.

    The prefix cache compares 64-bit hashes, not tokens; the theorem is for requests whose
    whole blocks do not collide ([no_collisions]). *)

From stdpp Require Import relations sorting.
From S2P Require Import Prelude GoStrings Chatml Client Generate BlockAllocator KvTables Sequence.
From S2P Require Import Scheduler PagedRuntime SchedulerFrame SchedulerInv SchedulerSpec.
Local Open Scope go_scope.

(** ** Hashes of token blocks *)
Definition mix (parent : Z) (block : list Z) : Z :=
  let h := foldl hash_token (Z.lxor parent 0x9E3779B97F4A7C15) block in if (h =? 0)%Z then 1%Z else h.

(** The hash of the first [k] blocks. *)
Fixpoint chain (ts : list Z) (k : nat) : Z :=
  match k with
  | O => 0%Z
  | S k => mix (chain ts k) (take block_size (drop (block_size * k) ts))
  end.

Lemma hash_tokens_foldl r n : forall i h,
  (0 <= i)%Z -> (i + Z.of_nat n <= NumTokens r)%Z ->
  hash_tokens r n i h = Ret (foldl hash_token h (chunk_tokens r i (Z.of_nat n))).
Proof.
  induction n as [|n IH]; intros i h Hi Hn; [done|]. cbn [hash_tokens].
  destruct (chunk_tokens_cons r i (Z.of_nat (S n))) as (t & -> & ->); [lia..|]. cbn [run_bind foldl].
  replace (Z.of_nat (S n) - 1)%Z with (Z.of_nat n) by lia. apply IH; lia.
Qed.

Lemma HashBlock_mix parent r k :
  (block_size * S k <= length (all_tokens r))%nat ->
  HashBlock parent r (Z.of_nat k * kKvBlock) kKvBlock = Ret (mix parent (take block_size (drop (block_size * k) (all_tokens r)))).
Proof.
  intros Hk. unfold HashBlock, kKvBlock, block_size in *. rewrite hash_tokens_foldl.
  - cbn [run_bind]. unfold chunk_tokens, mix. by replace (Z.to_nat (Z.of_nat k * 16)) with (16 * k)%nat by lia.
  - lia.
  - rewrite NumTokens_len. unfold len. lia.
Qed.

Lemma chain_ext ts ts' k : take (block_size * k) ts = take (block_size * k) ts' -> chain ts k = chain ts' k.
Proof.
  induction k as [|k IH]; intros H; [done|]. cbn [chain]. f_equal.
  - apply IH. apply (f_equal (take (block_size * k))) in H. rewrite !take_take in H.
    by rewrite !Nat.min_l in H by (unfold block_size; lia).
  - rewrite !take_drop_commute. replace (block_size * k + block_size)%nat with (block_size * S k)%nat by lia. by rewrite H.
Qed.

Lemma chain_take ts k n : (block_size * k <= n)%nat -> chain (take n ts) k = chain ts k.
Proof. intros H. apply chain_ext. by rewrite take_take, Nat.min_l. Qed.

Lemma take_prefix {A} (l l' : list A) n : l `prefix_of` l' -> (n <= length l)%nat -> take n l' = take n l.
Proof. intros [k ->] Hn. by rewrite take_app_le. Qed.

Lemma chain_prefix ts ts' k : ts `prefix_of` ts' -> (block_size * k <= length ts)%nat -> chain ts' k = chain ts k.
Proof. intros Hp Hk. apply chain_ext. by apply take_prefix. Qed.

Section contents.
Context {RT : Runtime} {PR : PagedRuntime RT}.

(** ** Keys and values of a sequence of tokens *)

(** [valid ts v]: [v] may be computed for the last of the tokens [ts], from values that may
    be computed for the tokens before it. *)
Inductive valid : list Z -> KV -> Prop :=
  | valid_intro ts t kvs v :
      length kvs = length ts ->
      (forall p w, kvs !! p = Some w -> valid (take (S p) ts) w) ->
      computes kvs t v -> valid (ts ++ [t]) v.

(** Values for all of [ts]. *)
Definition all_valid (ts : list Z) (kvs : list KV) : Prop :=
  length kvs = length ts /\ forall p w, kvs !! p = Some w -> valid (take (S p) ts) w.

(** An answer the model may give to [prompt] on its own, token by token. *)
Definition generates (prompt : list Z) (sp : SampleParams) (out : list Z) : Prop :=
  forall k t, out !! k = Some t -> exists kvs t0, last (prompt ++ take k out) = Some t0 /\
    all_valid (prompt ++ take k out) kvs /\ picks kvs t0 sp t.

Lemma generates_snoc prompt sp out t t0 kvs :
  generates prompt sp out -> last (prompt ++ out) = Some t0 -> all_valid (prompt ++ out) kvs -> picks kvs t0 sp t -> generates prompt sp (out ++ [t]).
Proof.
  intros Hg Hl Hv Hp k x [Hk|[Hk Hx]]%lookup_app_Some.
  - rewrite take_app_le by (apply lookup_lt_Some in Hk; lia). by apply Hg.
  - apply list_lookup_singleton_Some in Hx as [Hx <-]. assert (k = length out) as -> by lia.
    rewrite take_app_length. by exists kvs, t0.
Qed.

(** ** The invariant *)
Definition seen (d : Device) (ts : list Z) (table : list nat) (n : nat) : Prop :=
  forall p, (p < n)%nat -> (p `div` block_size < length table)%nat -> valid (take (S p) ts) (slot_at d table p).

Record req_ok (d : Device) (r : Request) : Prop := {
  rq_seen : seen d (all_tokens r) (block_table_ r) (Z.to_nat (computed_ r));
  rq_range : (0 <= cached_blocks_ r)%Z /\ (kKvBlock * cached_blocks_ r <= computed_ r <= NumTokens r)%Z;
  rq_hash : last_hash_ r = chain (all_tokens r) (Z.to_nat (cached_blocks_ r));
  rq_out : generates (prompt_ r) (sp_ r) (output_ r);
}.

(** [ts] are the first [k] blocks of some request's tokens. *)
Definition known (s : Scheduler) (ts : list Z) (k : nat) : Prop :=
  exists i r, reqs s !! i = Some r /\ ts = take (block_size * k) (all_tokens r) /\
    (block_size * k <= length (all_tokens r))%nat.

Definition block_ok (d : Device) (s : Scheduler) (h : Z) (b : nat) : Prop :=
  exists ts k, known s ts (S k) /\ h = chain ts (S k) /\
    forall o, (o < block_size)%nat -> valid (take (S (block_size * k + o)) ts) (slot d b o).

Record contents (s : Scheduler) : Prop := {
  ct_device : device_ok (model_ s);
  ct_req : forall i r, reqs s !! i = Some r -> req_ok (model_ s) r;
  ct_cached : forall h b, cached_ (alloc_ s) !! h = Some b -> block_ok (model_ s) s h b;
}.

(** Requests with equal hashes of their first blocks have equal first blocks. *)
Definition no_collisions (s : Scheduler) : Prop :=
  forall ts ts' k k', known s ts (S k) -> known s ts' (S k') -> chain ts (S k) = chain ts' (S k') -> ts = ts'.

Lemma all_tokens_grows r r' : grows r r' -> all_tokens r `prefix_of` all_tokens r'.
Proof. intros H. unfold all_tokens. rewrite (grow_prompt _ _ H). apply prefix_app, H. Qed.

(** Requests stay and keep their tokens. *)
Definition carries (s s' : Scheduler) : Prop :=
  forall i r, reqs s !! i = Some r -> exists r', reqs s' !! i = Some r' /\ all_tokens r `prefix_of` all_tokens r'.

#[export] Instance carries_trans : Transitive carries.
Proof.
  intros a b c H1 H2 i r Hr. destruct (H1 i r Hr) as (r1 & Hr1 & P1). destruct (H2 i r1 Hr1) as (r2 & Hr2 & P2).
  exists r2. split; [done|by etrans].
Qed.

Lemma extends_carries s s' : extends s s' -> carries s s'.
Proof.
  intros He i r Hi. specialize (He i). rewrite Hi in He. destruct He as (r' & Hr' & Hg%all_tokens_grows). by exists r'.
Qed.

Lemma known_carries s s' ts k : carries s s' -> known s ts k -> known s' ts k.
Proof.
  intros He (i & r & Hi & -> & Hk). destruct (He i r Hi) as (r' & Hr' & Hg).
  exists i, r'. split; [done|]. split; [symmetry; by apply take_prefix|]. apply prefix_length in Hg. lia.
Qed.

Lemma no_collisions_carries s s' : carries s s' -> no_collisions s' -> no_collisions s.
Proof. intros He H ts ts' k k' H1 H2. apply H; by eapply known_carries. Qed.

Lemma no_collisions_extends s s' : extends s s' -> no_collisions s' -> no_collisions s.
Proof. intros He%extends_carries. by apply no_collisions_carries. Qed.

Lemma block_ok_carries d s s' h b : carries s s' -> block_ok d s h b -> block_ok d s' h b.
Proof. intros He (ts & k & Hk & Hh & Ho). exists ts, k. split; [by eapply known_carries|done]. Qed.

Lemma block_ok_extends d s s' h b : extends s s' -> block_ok d s h b -> block_ok d s' h b.
Proof. intros He%extends_carries. by apply block_ok_carries. Qed.

(** ** Tokens of the vocabulary *)
Definition in_vocabulary (ts : list Z) : Prop := Forall (fun t => 0 <= t < max_token)%Z ts.

(** What clients may ask for: the engine does not check the tokens of a prompt. *)
Definition prompts_in_vocabulary (s : Scheduler) : Prop := forall i r, reqs s !! i = Some r -> in_vocabulary (prompt_ r).
Definition answers_in_vocabulary (s : Scheduler) : Prop := forall i r, reqs s !! i = Some r -> in_vocabulary (output_ r).
Definition tokens_in_vocabulary (s : Scheduler) : Prop := forall i r, reqs s !! i = Some r -> in_vocabulary (all_tokens r).

Lemma tokens_of_prompts s : prompts_in_vocabulary s -> answers_in_vocabulary s -> tokens_in_vocabulary s.
Proof. intros Hp Ho i r Hr. apply Forall_app_2; [by eapply Hp|by eapply Ho]. Qed.

Lemma tokens_carries s s' : carries s s' -> tokens_in_vocabulary s' -> tokens_in_vocabulary s.
Proof.
  intros Hc H i r Hr. destruct (Hc i r Hr) as (r' & Hr' & [rest E]). specialize (H i r' Hr'). rewrite E in H. by apply Forall_app in H as [H _].
Qed.

Lemma tokens_same s s' : same_tokens s s' -> tokens_in_vocabulary s -> tokens_in_vocabulary s'.
Proof. intros Hs H i r' Hr'. destruct (Hs i r' Hr') as (r & Hr & E1 & E2). unfold all_tokens. rewrite E1, E2. by eapply H. Qed.

Lemma answers_same s s' : same_tokens s s' -> answers_in_vocabulary s -> answers_in_vocabulary s'.
Proof. intros Hs H i r' Hr'. destruct (Hs i r' Hr') as (r & Hr & _ & ->). by eapply H. Qed.

Lemma accept_all_answers samples todo : in_vocabulary samples -> forall s fin k s' fin',
  accept_all s samples k todo fin = Ret (s', fin') -> answers_in_vocabulary s -> answers_in_vocabulary s'.
Proof.
  intros Hs. induction todo as [|i todo IH]; intros s fin k s' fin'; cbn [accept_all]; [by intros [= <- _]|].
  intros H Ho. bind_step H. destruct (Remaining x =? 0)%Z; [|by eapply IH]. bind_step H. rename x0 into t.
  destruct (AcceptSampled x t) as [r' fl] eqn:Ea. eapply IH; [exact H|]. intros j y Hy. cbn [put reqs] in Hy.
  apply lookup_insert_Some in Hy as [[<- <-]|[_ Hy]]; [|by eapply Ho].
  assert (output_ r' = output_ x ++ [t]) as -> by (unfold AcceptSampled in Ea; by destruct (negb _) in Ea; injection Ea as <- _).
  apply Forall_app_2; [by eapply Ho|]. apply Forall_singleton. unfold index_at in Hx0. destruct (samples !! k) as [t'|] eqn:Et; [|done].
  injection Hx0 as <-. by apply (Forall_lookup_1 _ _ _ _ Hs Et).
Qed.

(** *** Changing a request, the allocator or the queues *)
Lemma contents_put s i r a' r' :
  contents s -> reqs s !! i = Some r -> cached_ a' ⊆ cached_ (alloc_ s) -> grows r r' -> req_ok (model_ s) r' ->
  contents (put (set_alloc s a') i r').
Proof.
  intros [H0 H1 H2] Hi Ha Hg Hr. split; cbn [put set_alloc reqs model_ alloc_]; [done|..].
  - intros j x. destruct (decide (i = j)) as [<-|Hne]; [rewrite lookup_insert_eq; by intros [= <-]|].
    rewrite lookup_insert_ne by done. apply H1.
  - intros h b Hh. eapply block_ok_extends; [by eapply (extends_put s (set_alloc s a') i r r')|]. apply H2.
    by eapply lookup_weaken.
Qed.

Lemma contents_same s s' : reqs s' = reqs s -> model_ s' = model_ s -> alloc_ s' = alloc_ s -> contents s -> contents s'.
Proof.
  intros E1 E2 E3 [H0 H1 H2]. split; rewrite ?E1, ?E2, ?E3; [done..|]. intros h b Hb.
  eapply block_ok_extends; [by apply extends_reqs|by apply H2].
Qed.

(** The bookkeeping that leaves the positions seen alone. *)
Lemma req_ok_same d r r' :
  all_tokens r' = all_tokens r -> block_table_ r' = block_table_ r -> computed_ r' = computed_ r ->
  cached_blocks_ r' = cached_blocks_ r -> last_hash_ r' = last_hash_ r ->
  generates (prompt_ r') (sp_ r') (output_ r') -> req_ok d r -> req_ok d r'.
Proof.
  intros E1 E2 E3 E4 E5 Hg [H1 H2 H3 _]. rewrite NumTokens_len in H2.
  split; rewrite ?NumTokens_len, ?E1, ?E2, ?E3, ?E4, ?E5; done.
Qed.

(** ** Every operation between two forward passes *)
Lemma req_ok_no_table d r : req_ok d r -> req_ok d (set_table r []).
Proof. intros [H1 H2 H3 H4]. split; [|done..]. intros p _ Hp. cbn in Hp. lia. Qed.

Lemma Release_contents s i s' : Release s i = Ret s' -> contents s -> contents s'.
Proof.
  unfold Release, Free. intros H Hc. bind_step H. bind_step H. apply bind_inv in Hx0 as (a & Ha%FreeMany_cached & [= <- <-]).
  injection H as <-. apply (contents_put s i x); [done|done|by rewrite Ha|apply grows_table|].
  apply req_ok_no_table. by apply (ct_req _ Hc i).
Qed.

Lemma Retire_contents s i s' : Retire s i = Ret s' -> contents s -> contents s'.
Proof.
  unfold Retire. intros H Hc. bind_step H. injection H as <-. apply (contents_same x); [done..|by eapply Release_contents].
Qed.

Lemma each_contents (f : Scheduler -> nat -> run Scheduler) ids :
  (forall s i s', f s i = Ret s' -> contents s -> contents s') ->
  forall s s', each f s ids = Ret s' -> contents s -> contents s'.
Proof.
  intros Hf. induction ids as [|i ids IH]; intros s s'; cbn [each]; [by intros [= <-]|]. intros H Hc. bind_step H.
  eapply IH; [done|by eapply Hf].
Qed.

Lemma drop_cancelled_contents q : forall s s' q', drop_cancelled s q = Ret (s', q') -> contents s -> contents s'.
Proof.
  induction q as [|i q IH]; intros s s' q'; cbn [drop_cancelled]; [by intros [= <- _]|]. intros H Hc. bind_step H.
  destruct (is_cancelled x); bind_step H.
  - eapply IH; [done|by eapply Release_contents].
  - injection H as <- _. by eapply IH.
Qed.

Lemma report_contents s i r msg : reqs s !! i = Some r -> contents s -> contents (put s i (report r msg)).
Proof.
  intros Hr Hc. pose proof (ct_req _ Hc i r Hr) as Hok.
  apply (contents_put s i r (alloc_ s)); [done|done|done|apply grows_report|].
  by eapply req_ok_same; [..|exact Hok]; try done; apply Hok.
Qed.

(** *** Blocks from the prefix cache *)
Lemma acquire_loop_found r rounds : forall a table n parent a' table' n' parent',
  acquire_loop rounds a r table (Z.of_nat n) parent = Ret (a', table', n', parent') ->
  parent = chain (all_tokens r) n -> (block_size * (n + rounds) <= length (all_tokens r))%nat ->
  exists new, table' = table ++ new /\ n' = Z.of_nat (n + length new) /\ parent' = chain (all_tokens r) (n + length new) /\
    cached_ a' = cached_ a /\ (length new <= rounds)%nat /\
    forall j b, new !! j = Some b -> cached_ a !! chain (all_tokens r) (S (n + j)) = Some b.
Proof.
  induction rounds as [|k IH]; intros a table n parent a' table' n' parent' H Hp Hl; cbn [acquire_loop] in H.
  { injection H as <- <- <- <-. exists []. rewrite app_nil_r. cbn. rewrite Nat.add_0_r. by split_and!. }
  rewrite HashBlock_mix in H by (unfold block_size in *; lia). cbn [run_bind] in H. subst parent.
  change (mix _ _) with (chain (all_tokens r) (S n)) in H. bind_step H. apply CacheLookup_cached in Hx as [Hb Hfound].
  destruct o as [b0|].
  - replace (Z.of_nat n + 1)%Z with (Z.of_nat (S n)) in H by lia.
    apply IH in H as (new & -> & -> & -> & Hc & Hn & Hf); [|done|unfold block_size in *; lia].
    exists (b0 :: new). cbn [length]. rewrite <- app_assoc, <- Nat.add_succ_comm. split; [done|]. split; [done|]. split; [done|].
    split; [by rewrite Hc|]. split; [lia|]. intros [|j] b1; cbn.
    + intros [= <-]. rewrite Nat.add_0_r. by apply Hfound.
    + intros Hj. rewrite <- Hb, Nat.add_succ_r. by apply Hf.
  - injection H as <- <- <- <-. exists []. rewrite app_nil_r. cbn. rewrite Nat.add_0_r. split_and!; [done..|lia|done].
Qed.

Lemma known_own s i r k : reqs s !! i = Some r -> (block_size * k <= length (all_tokens r))%nat ->
  known s (take (block_size * k) (all_tokens r)) k.
Proof. intros Hr Hk. by exists i, r. Qed.

(** A block found under the hash of one's own tokens holds their keys and values. *)
Lemma found_valid s i r j b p :
  contents s -> no_collisions s -> reqs s !! i = Some r -> (block_size * S j <= length (all_tokens r))%nat ->
  cached_ (alloc_ s) !! chain (all_tokens r) (S j) = Some b -> p `div` block_size = j ->
  valid (take (S p) (all_tokens r)) (slot (model_ s) b (p `mod` block_size)).
Proof.
  intros Hc Hno Hr Hl Hb Hp. destruct (ct_cached _ Hc _ _ Hb) as (ts & k & Hk & Hh & Hv).
  pose proof (known_own s i r (S j) Hr Hl) as Hown. rewrite <- (chain_take _ (S j) (block_size * S j)) in Hh by lia.
  pose proof (Hno _ _ _ _ Hown Hk Hh) as E.
  assert (k = j) as ->.
  { destruct Hk as (i' & r' & _ & Hts & Hl'). apply (f_equal length) in E. rewrite Hts, !length_take in E. unfold block_size in *. lia. }
  assert (p `mod` block_size < block_size)%nat as Hm by (apply Nat.mod_upper_bound; done). specialize (Hv _ Hm).
  pose proof (Nat.div_mod_eq p block_size) as Hdiv. rewrite Hp in Hdiv. rewrite <- Hdiv, <- E, take_take in Hv.
  rewrite Nat.min_l in Hv; [done|]. unfold block_size in *. lia.
Qed.

Lemma AcquirePrefix_contents cfg s i r s' :
  AcquirePrefix cfg s i = Ret s' -> reqs s !! i = Some r -> block_table_ r = [] -> contents s -> no_collisions s -> contents s'.
Proof.
  unfold AcquirePrefix. destruct (negb _); [by intros [= <-]|]. intros H Hr Ht Hc Hno. unfold get in H. rewrite Hr in H. cbn [run_bind] in H.
  rewrite Ht in H. bind_step H. injection H as <-.
  pose proof (ct_req _ Hc i r Hr) as [_ _ _ Hout]. rewrite NumTokens_len in Hx.
  set (rounds := Z.to_nat _) in Hx.
  assert (block_size * rounds <= length (all_tokens r))%nat as Hrounds.
  { unfold rounds, block_size, len, kKvBlock. destruct (length (all_tokens r)) as [|m]; [done|].
    rewrite Z.quot_div_nonneg by lia. pose proof (Z.mul_div_le (Z.of_nat (S m) - 1) 16 ltac:(done)). lia. }
  apply (acquire_loop_found r rounds _ [] 0) in Hx as (new & -> & -> & -> & Hca & Hn & Hf); [|done|exact Hrounds].
  cbn [app Nat.add] in *. apply (contents_put s i r); [done|done|by rewrite Hca| |].
  { destruct (0 <? _)%Z; [|apply grows_table]. etrans; apply grows_kv. }
  destruct new as [|b0 new]; [apply req_ok_no_table; by apply (ct_req _ Hc i)|].
  rewrite (proj2 (Z.ltb_lt _ _)) by (cbn [length]; lia). set (table := b0 :: new) in *.
  split; [intros p Hp Hpt| |cbn [AdoptPrefix set_table set_kv last_hash_ cached_blocks_]; by rewrite Nat2Z.id|done]; cbn [AdoptPrefix set_table set_kv block_table_ computed_ cached_blocks_] in *.
  - destruct (lookup_lt_is_Some_2 _ _ Hpt) as [x Hx]. unfold slot_at, addr. rewrite (nth_lookup_Some _ _ _ _ Hx).
    apply (found_valid s i r (p `div` block_size) x p Hc Hno Hr); [|by apply Hf|done].
    etrans; [|exact Hrounds]. apply Nat.mul_le_mono_l. lia.
  - change (NumTokens _) with (NumTokens r). rewrite NumTokens_len. unfold kKvBlock, len, block_size in *. lia.
Qed.

(** *** Admission, submission and packing *)
Lemma fill_slots_contents cfg w : forall s s',
  fill_slots cfg s w = Ret s' -> no_collisions s' -> contents s -> contents s'.
Proof.
  induction w as [|i w IH]; intros s s'; cbn [fill_slots]; [by intros [= <-] _; apply contents_same|].
  destruct (_ <? _)%Z; [|by intros [= <-] _; apply contents_same]. intros H Hno Hc. bind_step H. bind_step H.
  pose proof (fill_slots_extends _ _ _ _ H) as He. eapply IH; [exact H|exact Hno|]. apply (contents_same x0); [done..|].
  case_bool_decide; [|by injection Hx0 as <-]. eapply AcquirePrefix_contents; [done..|].
  eapply no_collisions_extends; [|exact Hno]. etrans; [|exact He]. etrans; [by eapply AcquirePrefix_extends|by apply extends_reqs].
Qed.

Lemma Refill_contents cfg s s' : Refill cfg s = Ret s' -> no_collisions s' -> contents s -> contents s'.
Proof.
  unfold Refill. intros H Hno Hc. bind_step H. bind_step H. apply drop_cancelled_contents in Hx; [|done].
  apply drop_cancelled_contents in Hx0; [|by apply (contents_same s0)]. eapply fill_slots_contents; [exact H|done|].
  by apply (contents_same s1).
Qed.

Lemma drain_contents cfg incoming : forall s s', drain cfg s incoming = Ret s' -> contents s -> contents s'.
Proof.
  induction incoming as [|i incoming IH]; intros s s'; cbn [drain]; [by intros [= <-]|]. destruct (_ && _).
  - intros H Hc. bind_step H. eapply IH; [exact H|]. by apply report_contents.
  - intros H Hc. eapply IH; [exact H|]. by apply (contents_same s).
Qed.

Lemma cancel_carries s i r : reqs s !! i = Some r -> carries s (put s i (cancel_request r)).
Proof.
  intros Hr j x Hx. cbn. destruct (decide (i = j)) as [<-|Hne].
  - rewrite lookup_insert_eq. eexists. split; [done|]. rewrite Hr in Hx. by injection Hx as <-.
  - rewrite lookup_insert_ne by done. by exists x.
Qed.

Lemma cancel_contents s i r : reqs s !! i = Some r -> contents s -> contents (put s i (cancel_request r)).
Proof.
  intros Hr Hc. pose proof (ct_req _ Hc i r Hr) as Hok. split; cbn [put reqs model_ alloc_]; [apply Hc|..].
  - intros j x. destruct (decide (i = j)) as [<-|Hne]; [|rewrite lookup_insert_ne by done; apply (ct_req _ Hc)].
    rewrite lookup_insert_eq. intros [= <-]. by eapply req_ok_same; [..|exact Hok]; try done; apply Hok.
  - intros h b Hb. eapply block_ok_carries; [by apply (cancel_carries s i r)|]. by apply (ct_cached _ Hc).
Qed.

Lemma Submit_carries s i r : reqs s !! i = None -> carries s (Submit s i r).
Proof. intros Hi j x Hx. exists x. split; [|done]. cbn. rewrite lookup_insert_ne; [done|]. intros <-. congruence. Qed.

Lemma Submit_contents s i max_ctx g : reqs s !! i = None -> contents s -> contents (Submit s i (request_of max_ctx g)).
Proof.
  intros Hi Hc. split; cbn [Submit set_queues put reqs model_ alloc_]; [apply Hc|..].
  - intros j x. destruct (decide (i = j)) as [<-|Hne]; [|rewrite lookup_insert_ne by done; apply (ct_req _ Hc)].
    rewrite lookup_insert_eq. intros [= <-]. split; [|cbn; unfold NumTokens, len; cbn; lia|done|by intros k t ?].
    intros p Hp. cbn in Hp. lia.
  - intros h b Hb. eapply block_ok_carries; [by apply Submit_carries|]. by apply (ct_cached _ Hc).
Qed.

Lemma grown_contents s s' :
  grown s s' -> extends s s' ->
  (forall i r, i ∈ running_ s -> reqs s !! i = Some r -> (computed_ r <= kKvBlock * len (block_table_ r))%Z) ->
  contents s -> contents s'.
Proof.
  intros [Hm Ha Hr _] He Hk [H0 H1 H2]. split; rewrite Hm; [done|..].
  - intros i r' Hr'. destruct (Hr i) as [E|(r & new & n & Hi & Hrun & E)]; [rewrite E in Hr'; by apply (H1 i)|].
    rewrite E in Hr'. injection Hr' as <-. destruct (H1 i r Hi) as [K1 K2 K3 K4]. split; [|done..].
    intros p Hp Hpt. cbn in Hp, Hpt |- *. specialize (Hk i r Hrun Hi).
    assert (p `div` block_size < length (block_table_ r))%nat as Hlt.
    { apply Nat.Div0.div_lt_upper_bound. unfold kKvBlock, len, block_size in *. lia. }
    specialize (K1 p Hp Hlt). unfold slot_at, addr in *. by rewrite app_nth1.
  - intros h b Hb. eapply block_ok_extends; [exact He|]. apply H2. by eapply lookup_weaken.
Qed.

End contents.
