(* ===== verification/KvSound.v ===== *)
(** * Answers do not depend on the batches

    The rest of the proof that [contents] (in [KvContents]) is an invariant: the forward
    pass on a batch, and what follows it. The theorem is about every state the engine
    reaches: each token of each answer is one the model may sample after the request's own
    prompt and the answer before it, as if the request had been computed alone, from the
    first token on. *)

From stdpp Require Import relations sorting.
From S2P Require Import Prelude GoStrings Chatml Client Generate BlockAllocator KvTables Sequence.
From S2P Require Import Scheduler PagedRuntime SchedulerFrame SchedulerInv SchedulerSpec KvContents.
Local Open Scope go_scope.

Section sound.
Context {RT : Runtime} {PR : PagedRuntime RT}.

(** ** The batch as chunks *)
Definition chunk_of (s : Scheduler) (i : nat) : chunk :=
  {| ck_table := table_of s i;
     ck_start := Z.to_nat (holding_of s i).2;
     ck_tokens := row_tokens s i;
     ck_sample := if due s i then sp_ <$> reqs s !! i else None |}.

Definition in_ranges (s : Scheduler) (ids : list nat) : Prop :=
  forall i, i ∈ ids -> exists r, reqs s !! i = Some r /\ in_range r.

Lemma in_ranges_cons s i ids : in_ranges s (i :: ids) -> (exists r, reqs s !! i = Some r /\ in_range r) /\ in_ranges s ids.
Proof. intros H. split; [apply H; by left|]. intros j Hj. apply H. by right. Qed.

Lemma row_tokens_len s i r : reqs s !! i = Some r -> in_range r -> len (row_tokens s i) = num_new_ r.
Proof. intros Hr (H0 & Hn & Hc). unfold row_tokens. rewrite Hr. by apply length_chunk_tokens. Qed.

Lemma chunk_positions s i r : reqs s !! i = Some r -> in_range r -> ck_positions (chunk_of s i) = row_positions s i.
Proof.
  intros Hr Hin. unfold ck_positions. cbn [chunk_of ck_start ck_tokens]. rewrite (row_tokens_len _ _ _ Hr Hin).
  unfold row_positions, holding_of. rewrite Hr. cbn [snd]. rewrite Z2Nat.id; [done|]. apply Hin.
Qed.

Lemma last_rows_chunks s ids : in_ranges s ids -> forall start, last_rows s start ids = sampled_rows start (chunk_of s <$> ids).
Proof.
  induction ids as [|i ids IH]; intros H start; [done|]. apply in_ranges_cons in H as [(r & Hr & Hin) H].
  cbn [last_rows fmap list_fmap sampled_rows]. cbn [chunk_of ck_sample ck_tokens]. rewrite (row_tokens_len _ _ _ Hr Hin).
  unfold row_count at 1 2. rewrite Hr, IH by done. f_equal. cbn. by destruct (due s i).
Qed.

Lemma batch_input_chunks s ids : in_ranges s ids -> batch_input s ids = input_of (chunk_of s <$> ids).
Proof.
  intros H. unfold batch_input, input_of. f_equal.
  - by rewrite <- list_fmap_compose.
  - rewrite <- list_fmap_compose. f_equal. apply list_fmap_ext. intros k i Hi. apply list_elem_of_lookup_2 in Hi.
    destruct (H i Hi) as (r & Hr & Hin). symmetry. by eapply chunk_positions.
  - rewrite imap_fmap. f_equal. apply imap_ext. intros k i Hi. cbn. apply list_elem_of_lookup_2 in Hi.
    destruct (H i Hi) as (r & Hr & Hin). unfold ck_rows. cbn [chunk_of ck_tokens]. f_equal.
    pose proof (row_tokens_len _ _ _ Hr Hin) as E. unfold row_count. rewrite Hr. unfold len in E. lia.
  - by apply last_rows_chunks.
  - by rewrite <- list_fmap_compose.
  - clear H. induction ids as [|i ids IH]; [done|]. cbn [fmap list_fmap concat omap list_omap]. rewrite IH. cbn [chunk_of ck_sample].
    unfold params_of, due. destruct (reqs s !! i) as [r|]; [|done]. by destruct (_ =? _)%Z.
Qed.

(** What a forward pass gives for the rows it samples. *)
Definition sampled_ok (s : Scheduler) (i : nat) (t : Z) : Prop :=
  exists r kvs t0, reqs s !! i = Some r /\ last (all_tokens r) = Some t0 /\ all_valid (all_tokens r) kvs /\ picks kvs t0 (sp_ r) t.

(** The requests of the batch advance; nothing else changes. *)
Lemma advance_all_reqs ids : forall s s', NoDup ids -> advance_all s ids = Ret s' ->
  alloc_ s' = alloc_ s /\ model_ s' = model_ s /\ (forall i, i ∈ ids -> reqs s' !! i = Advance <$> reqs s !! i) /\
  (forall i, i ∉ ids -> reqs s' !! i = reqs s !! i).
Proof.
  induction ids as [|i ids IH]; intros s s' Hnd; cbn [advance_all].
  { intros [= <-]. do 2 (split; [done|]). split; [by intros i ?%not_elem_of_nil|done]. }
  apply NoDup_cons in Hnd as [Hi Hnd]. intros H. bind_step H. apply IH in H as (-> & -> & H1 & H2); [|done].
  cbn [put alloc_ model_ reqs] in *. do 2 (split; [done|]). split.
  - intros j [-> |Hj]%elem_of_cons; [rewrite H2 by done; by rewrite lookup_insert_eq, Hx|].
    rewrite H1 by done. rewrite lookup_insert_ne; [done|]. by intros ->.
  - intros j [Hji Hj]%not_elem_of_cons. rewrite H2 by done. by rewrite lookup_insert_ne.
Qed.

Lemma idle_table cfg max_ctx pool Q s i r :
  inv cfg max_ctx pool Q s -> reqs s !! i = Some r -> i ∉ running_ s -> block_table_ r = [].
Proof.
  intros H Hr Hi. destruct (inv_rest _ _ _ _ _ H i r Hr) as [Hl|[_ Ht]]; [|done].
  unfold live_ids in Hl. rewrite app_assoc in Hl. apply elem_of_app in Hl as [Hl|Hl]; [|done].
  destruct (inv_queued _ _ _ _ _ H i Hl) as (x & Hx & _ & Ht). rewrite Hr in Hx. by injection Hx as <-.
Qed.

(** The buffers hold the largest batch. *)
Record fits (cfg : SchedulerConfig) (max_ctx : Z) (pool : nat) : Prop := {
  fit_rows : (token_budget cfg <= max_rows)%Z;
  fit_slots : (n_slots cfg <= max_requests)%Z;
  fit_table : (BlocksFor max_ctx <= max_table)%Z;
  fit_context : (max_ctx <= max_position)%Z;
  fit_pool : (Z.of_nat pool <= max_block)%Z;
}.

Section batch.
Context (cfg : SchedulerConfig) (max_ctx : Z) (pool : nat).

#[local] Notation inv := (inv cfg max_ctx pool).
#[local] Notation packing := (packing cfg max_ctx).

(** *** A block that is held once *)
Lemma exclusive_unique a s ids b i j k k' :
  exclusive a (held s ids) b -> NoDup ids -> i ∈ ids -> j ∈ ids ->
  table_of s i !! k = Some b -> table_of s j !! k' = Some b -> i = j /\ k = k'.
Proof using Type.
  intros [Hc _] Hnd Hi Hj Hk Hk'. rewrite (held_split s i ids Hi) in Hc.
  assert (Hh : forall j, (holding_of s j).1 = table_of s j) by (intros x; unfold holding_of, table_of; by destruct (reqs s !! x)).
  destruct (holding_of s i) as [t c] eqn:E. pose proof (Hh i) as Ht. rewrite E in Ht. cbn in Ht. subst t.
  rewrite owned_cons, count_app in Hc.
  assert (0 < count b (table_of s i))%nat by (apply count_elem; by eapply list_elem_of_lookup_2).
  destruct (decide (i = j)) as [<-|Hne].
  - split; [done|]. destruct (decide (k = k')) as [|Hkk]; [done|]. pose proof (count_two b _ k k' Hk Hk' Hkk). lia.
  - assert (b ∈ owned (held s (erase i ids))) as Hin.
    { eapply (owned_elem _ (table_of s j) (holding_of s j).2 k'); [|done]. apply list_elem_of_fmap. exists j.
      split; [rewrite <- (Hh j); by destruct (holding_of s j)|]. apply erase_elem; [done..|]. by split; [|intros ->]. }
    apply count_elem in Hin. lia.
Qed.

Context (s : Scheduler) (ids : list nat).
Context (Hinv : inv (packing ids) s) (Hnd : NoDup ids) (Hids : forall i, i ∈ ids -> i ∈ running_ s).

Lemma batch_request i : i ∈ ids -> exists r, reqs s !! i = Some r /\ live max_ctx r /\ planned cfg r /\ in_range r.
Proof using Hinv Hids.
  intros Hi. destruct (inv_get _ _ _ _ s i Hinv (Hids i Hi)) as (r & _ & Hr & Hl & Hp). exists r. split; [done|].
  specialize (Hp Hi). split; [done|]. split; [done|]. pose proof (kv_computed _ _ (live_kv _ _ Hl)). destruct Hp. unfold in_range. lia.
Qed.

Lemma batch_ranges : in_ranges s ids.
Proof using Hinv Hids. intros i Hi. destruct (batch_request i Hi) as (r & Hr & _ & _ & Hin). by exists r. Qed.

(** The block a chunk writes to. *)
Lemma written_block i p : i ∈ ids -> written (chunk_of s i) p ->
  exists b, table_of s i !! (p `div` block_size) = Some b /\ exclusive (alloc_ s) (held s (running_ s)) b.
Proof using Hinv Hids.
  intros Hi [H1 H2]. destruct (batch_request i Hi) as (r & Hr & Hl & Hp & Hin).
  pose proof (row_tokens_len _ _ _ Hr Hin) as Hlen. unfold ck_end in H2. cbn [chunk_of ck_start ck_tokens] in *.
  unfold holding_of in H1, H2. unfold table_of. rewrite Hr in *. cbn [snd] in *.
  pose proof (plan_blocks _ _ Hp) as Hb. destruct Hin as (H0 & Hn & _). unfold len, kKvBlock in *.
  destruct (lookup_lt_is_Some_2 (block_table_ r) (p `div` block_size)) as [b Hbl].
  { apply Nat.Div0.div_lt_upper_bound. unfold block_size. lia. }
  exists b. split; [done|]. apply (kv_open _ _ (inv_alloc _ _ _ _ _ Hinv) (block_table_ r) (computed_ r) (p `div` block_size)); [|done|].
  - apply list_elem_of_fmap. exists i. unfold holding_of. rewrite Hr. split; [done|by apply Hids].
  - unfold open_at, kKvBlock. pose proof (Nat.div_mod_eq p block_size). pose proof (Nat.mod_upper_bound p block_size ltac:(done)).
    unfold block_size in *. lia.
Qed.

Lemma addr_nth table p b : table !! (p `div` block_size) = Some b -> addr table p = (b, p `mod` block_size).
Proof using Type. intros H. unfold addr. by rewrite (nth_lookup_Some _ _ _ _ H). Qed.

(** Written positions are nobody else's. *)
Lemma written_apart i j p q :
  i ∈ ids -> j ∈ running_ s -> written (chunk_of s i) p -> (q `div` block_size < length (table_of s j))%nat ->
  addr (table_of s i) p = addr (table_of s j) q -> i = j /\ p = q.
Proof using Hinv Hids.
  intros Hi Hj Hw Hq E. destruct (written_block i p Hi Hw) as (b & Hb & Hex).
  destruct (lookup_lt_is_Some_2 _ _ Hq) as [b' Hb']. rewrite (addr_nth _ _ _ Hb), (addr_nth _ _ _ Hb') in E.
  apply pair_equal_spec in E as [<- Em].
  destruct (exclusive_unique (alloc_ s) s (running_ s) b i j (p `div` block_size) (q `div` block_size) Hex) as [Hij Hdiv];
    [by eapply inv_running_nodup|by apply Hids|done..|].
  split; [done|]. rewrite (Nat.div_mod_eq p block_size), (Nat.div_mod_eq q block_size). by rewrite Hdiv, Em.
Qed.

Lemma batch_chunk c i : i ∈ ids -> c = chunk_of s i -> exists r, reqs s !! i = Some r /\ live max_ctx r /\
  ck_table c = block_table_ r /\ ck_start c = Z.to_nat (computed_ r) /\ ck_end c = Z.to_nat (computed_ r + num_new_ r) /\
  (0 <= computed_ r)%Z /\ (1 <= num_new_ r)%Z /\ (computed_ r + num_new_ r <= kKvBlock * len (block_table_ r))%Z /\
  (computed_ r + num_new_ r <= NumTokens r)%Z.
Proof using Hinv Hids.
  intros Hi ->. destruct (batch_request i Hi) as (r & Hr & Hl & Hp & Hin). exists r. split; [done|]. split; [done|].
  unfold ck_end. cbn [chunk_of ck_start ck_tokens ck_table]. unfold table_of, holding_of. rewrite Hr.
  pose proof (row_tokens_len _ _ _ Hr Hin) as Hlen. destruct Hp, Hin as (H0 & _ & _). unfold len in Hlen. cbn [snd].
  split_and!; [done|done|lia|done..].
Qed.

Lemma below_end_in_table i q : i ∈ ids -> (q < ck_end (chunk_of s i))%nat -> (q `div` block_size < length (table_of s i))%nat.
Proof using Hinv Hids.
  intros Hi Hq. destruct (batch_chunk _ i Hi eq_refl) as (r & Hr & _ & _ & _ & He & _ & _ & Hb & _). rewrite He in Hq.
  unfold table_of. rewrite Hr. apply Nat.Div0.div_lt_upper_bound. unfold kKvBlock, len, block_size in *. lia.
Qed.

Context (Hfits : fits cfg max_ctx pool) (Hrows : (len (in_tokens (batch_input s ids)) <= token_budget cfg)%Z).
Context (Hwords : tokens_in_vocabulary s).

Lemma batch_chunks_ok : chunks_ok (chunk_of s <$> ids).
Proof using Hinv Hids Hnd Hfits Hrows Hwords.
  destruct Hfits as [F1 F2 F3 F4 F5]. split.
  - rewrite <- batch_input_chunks by by apply batch_ranges. lia.
  - unfold len. rewrite length_fmap. pose proof (inv_slots _ _ _ _ _ Hinv) as Hs. unfold len in Hs.
    pose proof (submseteq_length _ _ (NoDup_submseteq ids (running_ s) Hnd Hids)). lia.
  - intros c (i & -> & Hi)%list_elem_of_fmap. destruct (batch_chunk _ i Hi eq_refl) as (r & Hr & Hl & Ht & Hs & He & H0 & H1 & Hb & Hn).
    pose proof (kv_table _ _ (live_kv _ _ Hl)) as [_ Hmax]. pose proof (live_left _ _ Hl). unfold max_blocks in Hmax. rewrite Ht.
    split_and!; [|unfold kKvBlock, len, block_size in *; lia|lia|lia|].
    2: { apply Forall_forall. intros b Hbl. apply list_elem_of_lookup in Hbl as [k Hbl].
      pose proof (wf_owned _ _ (kv_alloc _ _ (inv_alloc _ _ _ _ _ Hinv)) b) as Hpool. rewrite (inv_pool _ _ _ _ _ Hinv) in Hpool.
      enough (b < pool)%nat by lia. apply Hpool, (owned_elem _ (block_table_ r) (computed_ r) k); [|done].
      apply list_elem_of_fmap. exists i. unfold holding_of. rewrite Hr. split; [done|by apply Hids]. }
    intros E. unfold ck_end in He. rewrite E, Hs in He. cbn in He. lia.
  - intros c (i & -> & Hi)%list_elem_of_fmap. cbn [chunk_of ck_tokens]. unfold row_tokens.
    destruct (reqs s !! i) as [r|] eqn:Hr; [|constructor]. apply Forall_take, Forall_drop. by apply (Hwords i).
  - intros i j c c' p q Hi Hj Hw Hq E. rewrite list_lookup_fmap in Hi, Hj.
    destruct (ids !! i) as [x|] eqn:Ei; [|done]. destruct (ids !! j) as [y|] eqn:Ej; [|done]. cbn in Hi, Hj.
    injection Hi as <-. injection Hj as <-. pose proof (list_elem_of_lookup_2 _ _ _ Ei) as Hx. pose proof (list_elem_of_lookup_2 _ _ _ Ej) as Hy.
    destruct (written_apart x y p q Hx (Hids y Hy) Hw) as [<- Hpq]; [by apply below_end_in_table|done|].
    split; [|done]. by eapply NoDup_lookup.
Qed.

(** *** After the forward pass *)
Context (d : Device) (tokens : list Z) (Hfwd : forward_ok (model_ s) (chunk_of s <$> ids) d tokens).
Context (Hcontents : contents s).

Lemma slot_kept j q :
  j ∈ running_ s -> (q `div` block_size < length (table_of s j))%nat -> (j ∈ ids -> (q < ck_start (chunk_of s j))%nat) ->
  slot_at d (table_of s j) q = slot_at (model_ s) (table_of s j) q.
Proof using Hinv Hids Hfwd.
  intros Hj Hq Hstart. unfold slot_at. destruct (addr (table_of s j) q) as [b o] eqn:E. apply (fw_kept _ _ _ _ Hfwd).
  { unfold addr in E. apply pair_equal_spec in E as [_ <-]. by apply Nat.mod_upper_bound. }
  intros c p (i & -> & Hi)%list_elem_of_fmap Hw Ea. cbn [chunk_of ck_table] in Ea. rewrite <- E in Ea.
  destruct (written_apart i j p q Hi Hj Hw Hq Ea) as [<- <-]. specialize (Hstart Hi). destruct Hw. lia.
Qed.

Lemma cached_kept h b o : cached_ (alloc_ s) !! h = Some b -> (o < block_size)%nat -> slot d b o = slot (model_ s) b o.
Proof using Hinv Hids Hfwd.
  intros Hb Ho. apply (fw_kept _ _ _ _ Hfwd); [done|]. intros c p (i & -> & Hi)%list_elem_of_fmap Hw E.
  destruct (written_block i p Hi Hw) as (b' & Hb' & _ & Hh). cbn [chunk_of ck_table] in E.
  rewrite (addr_nth _ _ _ Hb') in E. injection E as -> _.
  apply (wf_cached _ _ (kv_alloc _ _ (inv_alloc _ _ _ _ _ Hinv))) in Hb as [Hb Hne]. congruence.
Qed.

(** All positions up to the end of its chunk. *)
Lemma chunk_valid i r : i ∈ ids -> reqs s !! i = Some r ->
  forall p, (p < ck_end (chunk_of s i))%nat -> valid (take (S p) (all_tokens r)) (slot_at d (block_table_ r) p).
Proof using Hinv Hids Hfwd Hcontents.
  intros Hi Hr. destruct (batch_chunk _ i Hi eq_refl) as (r' & Hr' & _ & Ht & Hs & He & H0 & H1 & Hb & Hn).
  rewrite Hr in Hr'. injection Hr' as <-. cbn [chunk_of ck_table] in Ht. rewrite <- Ht.
  induction p as [p IH] using lt_wf_ind. intros Hp. pose proof (below_end_in_table i p Hi Hp) as Htab.
  destruct (decide (p < ck_start (chunk_of s i))%nat) as [Hlt|Hge].
  - rewrite slot_kept; [|by apply Hids|done|done]. rewrite Ht. apply (rq_seen _ _ (ct_req _ Hcontents i r Hr)); [lia|by rewrite <- Ht].
  - rewrite NumTokens_len in Hn. unfold len in Hn. destruct (lookup_lt_is_Some_2 (all_tokens r) p) as [t Hp2]; [lia|].
    assert (Htok : ck_tokens (chunk_of s i) !! (p - ck_start (chunk_of s i))%nat = Some t).
    { cbn [chunk_of ck_tokens]. unfold row_tokens. rewrite Hr. unfold chunk_tokens. rewrite lookup_take_lt by lia.
      rewrite lookup_drop. by replace (Z.to_nat (computed_ r) + _)%nat with p by lia. }
    pose proof (fw_written _ _ _ _ Hfwd (chunk_of s i) _ t ltac:(by apply list_elem_of_fmap_2) Htok) as Hc.
    replace (ck_start (chunk_of s i) + (p - ck_start (chunk_of s i)))%nat with p in Hc by lia. cbn [chunk_of ck_table] in Hc.
    rewrite (take_S_r _ _ _ Hp2). eapply valid_intro; [| |exact Hc].
    + rewrite length_view, length_take. lia.
    + intros q w Hq. pose proof (lookup_lt_Some _ _ _ Hq) as Hlq. rewrite length_view in Hlq. rewrite lookup_view in Hq by done.
      injection Hq as <-. rewrite take_take, Nat.min_l by lia. apply IH; lia.
Qed.

Lemma samples_ok : Forall2 (sampled_ok s) (filter (fun i => due s i = true) ids) tokens.
Proof using Hinv Hids Hfwd Hcontents.
  pose proof (fw_sampled _ _ _ _ Hfwd) as H.
  assert (Hf : filter (fun c => is_Some (ck_sample c)) (chunk_of s <$> ids) = chunk_of s <$> filter (fun i => due s i = true) ids).
  { assert (forall i, i ∈ ids -> is_Some (reqs s !! i)) as Hs.
    { intros i Hi. destruct (batch_request i Hi) as (r & -> & _). done. }
    clear - Hs. induction ids as [|i l IH]; [done|]. rewrite fmap_cons, !filter_cons, IH by (intros j Hj; apply Hs; by right).
    destruct (Hs i) as [r Hr]; [by left|]. cbn [chunk_of ck_sample]. rewrite Hr. destruct (due s i).
    - rewrite !decide_True by done. done.
    - rewrite !decide_False by (done || by intros [? ?]). done. }
  rewrite Hf in H. apply Forall2_fmap_l in H. eapply Forall2_impl_elem; [exact H|].
  intros i t [Hdue Hi]%list_elem_of_filter (sp & t0 & Hsp & Hlast & Hp). cbn [chunk_of ck_sample ck_table ck_tokens] in Hsp, Hp, Hlast. rewrite Hdue in Hsp.
  destruct (batch_chunk _ i Hi eq_refl) as (r & Hr & _ & Ht & _ & He & H0 & H1 & _). exists r. rewrite Hr in Hsp. injection Hsp as <-.
  unfold due in Hdue. rewrite Hr in Hdue. apply Z.eqb_eq in Hdue. rewrite NumTokens_len in Hdue. unfold len in Hdue.
  eexists _, t0. split; [done|]. split.
  { unfold row_tokens in Hlast. rewrite Hr in Hlast. unfold chunk_tokens in Hlast.
    rewrite take_ge in Hlast by (rewrite length_drop; lia). rewrite last_lookup, lookup_drop, length_drop in Hlast.
    rewrite last_lookup. rewrite <- Hlast. f_equal. lia. }
  split; [|exact Hp]. split; [rewrite length_view; lia|]. intros p w Hw.
  pose proof (lookup_lt_Some _ _ _ Hw) as Hlt. rewrite length_view in Hlt. rewrite lookup_view in Hw by done. injection Hw as <-.
  cbn [chunk_of ck_table] in Ht. rewrite Ht. by apply (chunk_valid i r).
Qed.

Lemma advance_contents s1 : advance_all (set_model s d) ids = Ret s1 ->
  contents s1 /\ Forall2 (sampled_ok s1) (filter (fun i => at_end s1 i = true) ids) tokens.
Proof using Hinv Hnd Hids Hfwd Hcontents.
  intros H. pose proof (advance_all_extends _ _ _ H) as He.
  destruct (advance_all_reqs ids _ _ Hnd H) as (Ea & Em & H1 & H2). cbn [set_model alloc_ model_ reqs] in *.
  split; [split|].
  - rewrite Em. apply (fw_device _ _ _ _ Hfwd).
  - intros i r Hr. rewrite Em. destruct (decide (i ∈ ids)) as [Hi|Hi].
    + destruct (batch_chunk _ i Hi eq_refl) as (x & Hx & Hl & _ & _ & Hend & H0 & Hn & _ & Hle). rewrite H1, Hx in Hr by done.
      injection Hr as <-. destruct (ct_req _ Hcontents i x Hx) as [_ K2 K3 K4]. split; [|cbn|done..].
      * intros p Hp _. apply (chunk_valid i x Hi Hx). by rewrite Hend.
      * change (NumTokens (Advance x)) with (NumTokens x). lia.
    + rewrite H2 in Hr by done. destruct (ct_req _ Hcontents i r Hr) as [K1 K2 K3 K4]. split; [|done..].
      intros p Hp Hpt. destruct (decide (i ∈ running_ s)) as [Hrun|Hrun].
      * pose proof (slot_kept i p Hrun) as Hk. unfold table_of in Hk. rewrite Hr in Hk. rewrite Hk; [by apply K1|done|done].
      * rewrite (idle_table _ _ _ _ _ _ _ Hinv Hr Hrun) in Hpt. cbn in Hpt. lia.
  - intros h b Hb. rewrite Em, Ea in *. eapply block_ok_extends; [exact He|].
    destruct (ct_cached _ Hcontents h b Hb) as (ts & k & Hk & Hh & Hv). exists ts, k. split; [exact Hk|]. split; [done|].
    intros o Ho. rewrite (cached_kept h b o Hb Ho). by apply Hv.
  - assert (Hf : filter (fun i => at_end s1 i = true) ids = filter (fun i => due s i = true) ids).
    { apply filter_test_ext. intros i Hi. destruct (batch_request i Hi) as (r & Hr & _).
      apply (at_end_Advance _ _ _ r Hr). by rewrite H1, Hr. }
    rewrite Hf. eapply Forall2_impl_elem; [apply samples_ok|]. intros i t [_ Hi]%list_elem_of_filter (r & kvs & t0 & Hr & Hl & Hv & Hp).
    exists (Advance r), kvs, t0. rewrite H1, Hr by done. done.
Qed.

End batch.

(** *** The sampled tokens are handed out *)
Lemma AcceptSampled_fields r t r' fin : AcceptSampled r t = (r', fin) ->
  prompt_ r' = prompt_ r /\ sp_ r' = sp_ r /\ output_ r' = output_ r ++ [t] /\ block_table_ r' = block_table_ r /\
  computed_ r' = computed_ r /\ cached_blocks_ r' = cached_blocks_ r /\ last_hash_ r' = last_hash_ r.
Proof. unfold AcceptSampled. by destruct (negb _); intros [= <- _]. Qed.

Lemma accept_req_ok d r t t0 kvs r' fin :
  AcceptSampled r t = (r', fin) -> req_ok d r -> last (all_tokens r) = Some t0 -> all_valid (all_tokens r) kvs ->
  picks kvs t0 (sp_ r) t -> req_ok d r'.
Proof.
  intros (E1 & E2 & E3 & E4 & E5 & E6 & E7)%AcceptSampled_fields [H1 [H2 H2'] H3 H4] Ht0 Hv Hp.
  assert (Et : all_tokens r' = all_tokens r ++ [t]) by (unfold all_tokens; by rewrite E1, E3, app_assoc).
  rewrite NumTokens_len in H2'. unfold len, kKvBlock in H2'. split; rewrite ?NumTokens_len, ?Et, ?E4, ?E5, ?E6, ?E7.
  - intros p Hlt Hpt. rewrite take_app_le by lia. by apply H1.
  - split; [done|]. unfold kKvBlock, len. rewrite length_app. cbn [length]. lia.
  - rewrite H3. symmetry. apply chain_prefix; [by apply prefix_app_r|]. unfold block_size. lia.
  - rewrite E1, E2, E3. by eapply generates_snoc.
Qed.

Lemma accept_all_contents samples todo : forall s fin k s' fin',
  accept_all s samples k todo fin = Ret (s', fin') -> NoDup todo -> contents s ->
  Forall2 (sampled_ok s) (filter (fun i => at_end s i = true) todo) (drop k samples) -> contents s'.
Proof.
  induction todo as [|i todo IH]; intros s fin k s' fin'; cbn [accept_all]; [by intros [= <- _]|].
  intros H Hnd Hc Hs. apply NoDup_cons in Hnd as [Hi Hnd]. bind_step H. rewrite filter_cons in Hs.
  assert (Hend : at_end s i = (Remaining x =? 0)%Z) by (unfold at_end, remaining_of; by rewrite Hx). rewrite Hend in Hs.
  destruct (Remaining x =? 0)%Z; [|by eapply IH]. rewrite decide_True in Hs by done. bind_step H.
  unfold index_at in Hx0. destruct (samples !! k) as [t|] eqn:Et; [|done]. injection Hx0 as <-.
  rewrite (drop_S _ _ _ Et) in Hs. apply Forall2_cons in Hs as [(r & kvs & t0 & Hr & Hl & Hv & Hp) Hs].
  rewrite Hx in Hr. injection Hr as <-. destruct (AcceptSampled x t) as [r' fl] eqn:Ea.
  eapply IH; [exact H|done| |].
  - apply (contents_put s i x (alloc_ s)); [done|done|done|by eapply grows_AcceptSampled|].
    eapply accept_req_ok; [exact Ea|by apply (ct_req _ Hc i)|done..].
  - assert (Hsame : forall j, j ∈ todo -> reqs (put s i r') !! j = reqs s !! j).
    { intros j Hj. cbn. rewrite lookup_insert_ne; [done|]. by intros ->. }
    rewrite (filter_test_ext _ (at_end s)).
    + eapply Forall2_impl_elem; [exact Hs|]. intros j y [_ Hj]%list_elem_of_filter (r1 & kvs1 & t1 & Hr1 & Hok).
      exists r1, kvs1, t1. by rewrite Hsame.
    + intros j Hj. unfold at_end, remaining_of. by rewrite Hsame.
Qed.

(** *** Full blocks are recorded *)
Lemma cache_loop_records r rounds : forall a n a' parent',
  cache_loop rounds a r (Z.of_nat n) (chain (all_tokens r) n) = Ret (a', parent') ->
  (block_size * (n + rounds) <= length (all_tokens r))%nat ->
  parent' = chain (all_tokens r) (n + rounds) /\
  forall h b, cached_ a' !! h = Some b -> cached_ a !! h = Some b \/
    exists j, (n <= j < n + rounds)%nat /\ h = chain (all_tokens r) (S j) /\ block_table_ r !! j = Some b.
Proof.
  induction rounds as [|k IH]; intros a n a' parent' H Hl; cbn [cache_loop] in H.
  { injection H as <- <-. rewrite Nat.add_0_r. split; [done|]. by left. }
  rewrite HashBlock_mix in H by (unfold block_size in *; lia). cbn [run_bind] in H.
  change (mix _ _) with (chain (all_tokens r) (S n)) in H. bind_step H. bind_step H.
  replace (Z.of_nat n + 1)%Z with (Z.of_nat (S n)) in H by lia.
  apply IH in H as [-> Hc]; [|unfold block_size in *; lia]. split; [by rewrite Nat.add_succ_comm|].
  rewrite Nat2Z.id in Hx. unfold index_at in Hx. destruct (block_table_ r !! n) as [b0|] eqn:Eb; [|done]. injection Hx as <-.
  intros h b Hb. destruct (Hc h b Hb) as [Hb1|(j & Hj & Hh & Hb1)]; [|right; exists j; split; [lia|done]].
  apply CacheInsert_cached in Hx0 as [E|E]; rewrite E in Hb1; [by left|].
  apply lookup_insert_Some in Hb1 as [[<- <-]|[_ Hb1]]; [right|by left]. exists n. split; [lia|done].
Qed.

Lemma CacheBlocks_contents s i s' : CacheBlocks s i = Ret s' -> contents s -> contents s'.
Proof.
  intros H Hc. pose proof (CacheBlocks_extends _ _ _ H) as He. unfold CacheBlocks in H. bind_step H.
  pose proof (ct_req _ Hc i x Hx) as [K1 [K2 K2'] K3 K4]. bind_step H. injection H as <-.
  rewrite NumTokens_len in K2'. unfold len, kKvBlock in *. rewrite Z.quot_div_nonneg in * by lia.
  set (full := (computed_ x / 16)%Z) in *. pose proof (Z.mul_div_le (computed_ x) 16 ltac:(done)) as Hfull. fold full in Hfull.
  assert (cached_blocks_ x <= full)%Z as Hle by (apply Z.div_le_lower_bound; lia).
  rewrite K3 in Hx0. rewrite <- (Z2Nat.id (cached_blocks_ x)) in Hx0 at 2 by lia.
  apply cache_loop_records in Hx0 as [-> Hrec]; [|unfold block_size; lia].
  replace (Z.to_nat (cached_blocks_ x) + Z.to_nat (full - cached_blocks_ x))%nat with (Z.to_nat full) in * by lia.
  assert (Hcarry : carries s _) by exact (extends_carries _ _ He). split; cbn [put set_alloc reqs model_ alloc_]; [apply Hc|..].
  - intros j r. destruct (decide (i = j)) as [<-|Hne]; [|rewrite lookup_insert_ne by done; apply (ct_req _ Hc)].
    rewrite lookup_insert_eq. intros [= <-]. split; [exact K1|cbn; unfold kKvBlock|done|exact K4].
    change (NumTokens (set_kv x _ _ _ _ _)) with (NumTokens x). rewrite NumTokens_len. unfold len. lia.
  - intros h bl Hb. destruct (Hrec h bl Hb) as [Hold|(j & Hj & -> & Hbl)]; [by eapply block_ok_carries, (ct_cached _ Hc)|].
    eapply block_ok_carries; [exact Hcarry|]. exists (take (block_size * S j) (all_tokens x)), j.
    split; [apply (known_own s i x (S j) Hx); unfold block_size; lia|]. split; [by rewrite chain_take|].
    intros o Ho. rewrite take_take, Nat.min_l by (unfold block_size in *; lia).
    assert (Hdiv : ((block_size * j + o) `div` block_size = j /\ (block_size * j + o) `mod` block_size = o)%nat).
    { rewrite Nat.mul_comm, Nat.div_add_l, Nat.div_small, (Nat.add_comm _ o), Nat.Div0.mod_add, Nat.mod_small by done. lia. }
    destruct Hdiv as [Hdiv Hmod]. pose proof (K1 (block_size * j + o)%nat) as Hv. rewrite Hdiv in Hv.
    unfold slot_at, addr in Hv. rewrite Hdiv, Hmod, (nth_lookup_Some _ _ _ _ Hbl) in Hv. apply Hv; [unfold block_size in *; lia|].
    by eapply lookup_lt_Some.
Qed.

Lemma finish_contents cfg s1 s' samples ids :
  (let* (s2, finished) := accept_all s1 samples 0 ids [] in
   let* s3 := (if use_prefix_cache cfg then each CacheBlocks s2 ids else Ret s2) in
   each Retire s3 finished) = Ret s' ->
  NoDup ids -> contents s1 -> Forall2 (sampled_ok s1) (filter (fun i => at_end s1 i = true) ids) samples -> contents s'.
Proof.
  intros H Hnd Hc Hs. bind_step H. bind_step H. apply accept_all_contents in Hx; [|done..].
  eapply each_contents; [by apply Retire_contents|exact H|]. destruct (use_prefix_cache cfg); [|by injection Hx0 as <-].
  eapply each_contents; [by apply CacheBlocks_contents|exact Hx0|exact Hx].
Qed.

(** ** A turn of the loop *)
Section turn.
Context {HRT : RuntimeOk RT} {HPR : PagedRuntimeOk RT PR}.
Context (cfg : SchedulerConfig) (max_ctx : Z) (pool : nat).
Context (Hample : ample cfg max_ctx pool) (Hfits : fits cfg max_ctx pool).

#[local] Notation all_live := (all_live cfg max_ctx pool).

Lemma live_covered s i r : all_live s -> i ∈ running_ s -> reqs s !! i = Some r -> (computed_ r <= kKvBlock * len (block_table_ r))%Z.
Proof using Type.
  intros H Hi Hr. destruct (inv_running _ _ _ _ _ H i Hi) as (x & Hx & Hl). rewrite Hr in Hx. injection Hx as <-.
  apply (kv_table _ _ (live_kv _ _ Hl)).
Qed.

(** *** Answers are words of the vocabulary *)
Lemma Finish_answers s batch s' : in_vocabulary (sampled batch) -> Finish cfg s batch = Ret s' ->
  answers_in_vocabulary s -> answers_in_vocabulary s'.
Proof using Type.
  intros Hs H Ho. unfold Finish, Apply in H. bind_step H. bind_step Hx. apply (advance_all_frames (R := same_tokens)) in Hx0.
  apply (settle_frames (R := same_tokens)) in H. eapply answers_same; [exact H|]. eapply accept_all_answers; [exact Hs|exact Hx|]. by eapply answers_same.
Qed.

Lemma run_round_answers s s' : run_round cfg s = Ret s' -> answers_in_vocabulary s -> answers_in_vocabulary s'.
Proof using HPR.
  unfold run_round. destruct (_ && _); [by intros [= <-]|]. intros H Ho. bind_step H.
  apply (drain_frames (R := same_tokens)) in Hx. assert (answers_in_vocabulary x) as Hox by by eapply answers_same.
  destruct (Busy x); [|by injection H as <-]. unfold Step in H. bind_step H. bind_step H.
  apply (Refill_frames (R := same_tokens)) in Hx0. apply (BuildBatch_frames (R := same_tokens)) in Hx1.
  assert (answers_in_vocabulary s0) as Hs0 by (eapply answers_same; [exact Hx1|by eapply answers_same]).
  destruct (requests c) as [|i ids]; [by injection H as <-|]. pose proof (samples_token (model_ s0) (input c)) as Hw.
  destruct (Forward (model_ s0) (input c)) as [d tokens]. by eapply Finish_answers; [..|exact H|exact Hs0].
Qed.

Lemma reachable_answers d s : rtc (engine_step cfg max_ctx) (new_scheduler d pool) s -> answers_in_vocabulary s.
Proof using HPR.
  revert s. refine (rtc_ind_r answers_in_vocabulary _ _ _); [intros i r Hr; cbn in Hr; by rewrite lookup_empty in Hr|].
  intros s s' _ Hstep IH. destruct Hstep as [i g Hi _ _|i r Hi|x Hx]; [..|by eapply run_round_answers].
  - intros j x Hj. cbn in Hj. apply lookup_insert_Some in Hj as [[<- <-]|[_ Hj]]; [constructor|by eapply IH].
  - intros j x Hj. cbn in Hj. apply lookup_insert_Some in Hj as [[<- <-]|[_ Hj]]; [by apply (IH i r)|by eapply IH].
Qed.

(** *** The contents of the store *)
Lemma Step_contents s s' : all_live s -> contents s -> Step cfg s = Ret s' -> no_collisions s' -> tokens_in_vocabulary s' -> contents s'.
Proof using Hample Hfits HPR.
  intros H Hc HS Hno Hwords. destruct Hample as [A1 A2 A3 A4 A5]. unfold Step in HS. bind_step HS. rename x into s1, Hx into E1.
  destruct (Refill_ok cfg max_ctx pool A1 s H A2) as (? & E & H1 & _). rewrite E1 in E. injection E as <-.
  bind_step HS. rename s0 into s2, Hx into E2. pose proof (BuildBatch_extends _ _ _ _ _ E2) as X2.
  destruct (BuildBatch_ok cfg max_ctx pool A3 A4 A5 s1 (length (running_ s1)) H1)
    as (? & ids & E & H2 & _ & _ & (_ & _ & R2) & Hbr & G). rewrite E2 in E. injection E as <- ->.
  destruct (batch_running _ _ _ _ s1 s2 ids H1 Hbr R2) as [Hnd Hin]. pose proof (br_rows _ _ _ _ Hbr) as Hrows.
  pose proof (batch_ranges cfg max_ctx pool s2 ids H2 Hin) as Hrange.
  assert (Hc2 : extends s2 s' -> contents s2).
  { intros X3. apply (grown_contents s1); [done|done|intros i r; by apply live_covered|].
    eapply Refill_contents; [exact E1| |done]. eapply no_collisions_extends; [|exact Hno]. by etrans. }
  cbn [requests batch_of input batch_finished] in HS. destruct ids as [|i0 ids']; [injection HS as <-; by apply Hc2|].
  set (ids := i0 :: ids') in *. destruct (Forward (model_ s2) (batch_input s2 ids)) as [d tokens] eqn:EF.
  assert (X3 : extends s2 s'). { apply Finish_extends in HS. etrans; [|exact HS]. by apply extends_reqs. }
  specialize (Hc2 X3). unfold rows in Hrows. rewrite <- (length_batch_tokens s2 ids Hrange) in Hrows.
  pose proof (Forward_paged (model_ s2) _ (ct_device _ Hc2) (batch_chunks_ok cfg max_ctx pool s2 ids H2 Hnd Hin Hfits ltac:(lia)
    (tokens_carries _ _ (extends_carries _ _ X3) Hwords))) as Hfwd.
  rewrite <- batch_input_chunks, EF in Hfwd by done. cbn [fst snd] in Hfwd.
  unfold Finish, Apply in HS. cbn [requests sampled batch_finished] in HS.
  destruct (advance_all _ ids) as [s3| |] eqn:E3; [|done..]. cbn [run_bind] in HS.
  destruct (advance_contents cfg max_ctx pool s2 ids H2 Hnd Hin d tokens Hfwd Hc2 s3 E3) as [Hc3 Hs3].
  eapply finish_contents; [exact HS|done..].
Qed.

Lemma run_round_contents s s' : all_live s -> contents s -> run_round cfg s = Ret s' -> no_collisions s' -> tokens_in_vocabulary s' -> contents s'.
Proof using Hample Hfits HPR.
  intros H Hc HS Hno Hw. unfold run_round in HS. destruct (_ && _); [by injection HS as <-|]. bind_step HS.
  set (s0 := set_queues s [] _ _) in *.
  destruct (drain_ok cfg max_ctx pool (inbound_ s) s0 eq_refl) as (? & E & H1 & _); [by destruct s|].
  rewrite Hx in E. injection E as <-. apply drain_contents in Hx; [|by apply (contents_same s)].
  destruct (Busy x); [by eapply Step_contents|by injection HS as <-].
Qed.

Lemma engine_step_carries s s' : engine_step cfg max_ctx s s' -> carries s s'.
Proof using Type.
  intros [i g Hi _ _|i r Hr|x Hx]; [by apply Submit_carries|by apply cancel_carries|].
  by apply extends_carries, (run_round_extends cfg).
Qed.

Lemma new_scheduler_contents d : device_ok d -> contents (new_scheduler d pool).
Proof using Type. intros Hd. split; cbn; [done|intros i r Hr|intros h b Hb]; by rewrite lookup_empty in *. Qed.

Lemma reachable_contents d s : device_ok d -> rtc (engine_step cfg max_ctx) (new_scheduler d pool) s ->
  prompts_in_vocabulary s -> no_collisions s -> contents s.
Proof using Hample Hfits HPR HRT.
  intros Hd Hs0 Hp. pose proof (tokens_of_prompts _ Hp (reachable_answers d s Hs0)) as Hw. clear Hp. revert s Hs0 Hw. pose proof (reachable_live cfg max_ctx pool Hample d) as Hlive. 
  refine (rtc_ind_r (fun s => tokens_in_vocabulary s -> no_collisions s -> contents s) _ _ _); [intros _ _; by apply new_scheduler_contents|].
  intros s s' Hs Hstep IH Hw Hno. assert (Hno0 : no_collisions s) by (eapply no_collisions_carries; [by apply engine_step_carries|done]).
  specialize (IH (tokens_carries _ _ (engine_step_carries _ _ Hstep) Hw) Hno0). pose proof (Hlive s Hs) as H. destruct Hstep as [i g Hi _ _|i r Hi|x Hx].
  - by apply Submit_contents.
  - by apply cancel_contents.
  - by apply (run_round_contents s).
Qed.

End turn.

End sound.
