(* ===== verification/Answers.v ===== *)
(** * Answers do not depend on the engine

    What [KvSound] means for the answers: each is one the model may give to the request on
    its own, and when the model is a function, the configuration of the engine, the
    requests next to it and the state of the prefix cache do not show in it. The theorems
    assume an ample pool, prompts of tokens of the vocabulary and that no two different
    prefixes collide in the prefix cache; the last lemma is about two prompts that do, and
    what the second one is answered. *)

From stdpp Require Import relations sorting.
From S2P Require Import Prelude GoStrings Chatml Client Generate BlockAllocator KvTables Sequence.
From S2P Require Import Scheduler PagedRuntime SchedulerFrame SchedulerInv SchedulerSpec KvContents KvSound.
Local Open Scope go_scope.

(** ** A model that is a function *)
Record functional {RT : Runtime} (PR : PagedRuntime RT) : Prop := {
  fun_computes : forall kvs t v v', computes kvs t v -> computes kvs t v' -> v = v';
  fun_picks : forall kvs t0 sp t t', picks kvs t0 sp t -> picks kvs t0 sp t' -> t = t';
}.

Section functional.
Context {RT : Runtime} {PR : PagedRuntime RT} (Hfun : functional PR).

Lemma valid_unique ts v : valid ts v -> forall v', valid ts v' -> v = v'.
Proof using Hfun.
  induction 1 as [ts t kvs v Hl Hv IH Hc]. intros v' Hv'. remember (ts ++ [t]) as l eqn:E.
  destruct Hv' as [ts' t' kvs' v' Hl' Hv' Hc']. apply app_inj_tail in E as [-> ->].
  assert (kvs = kvs') as <-; [|by eapply fun_computes].
  apply list_eq_same_length with (length kvs); [congruence|done|]. intros p w w' _ Hw Hw'. by eapply IH, Hv'.
Qed.

Lemma all_valid_unique ts kvs kvs' : all_valid ts kvs -> all_valid ts kvs' -> kvs = kvs'.
Proof using Hfun.
  intros [H1 H2] [H1' H2']. apply list_eq_same_length with (length kvs); [congruence|done|].
  intros p w w' _ Hw Hw'. by eapply valid_unique; [apply H2|apply H2'].
Qed.

(** Two answers to the same prompt agree as far as they go. *)
Lemma generates_agree prompt sp out out' :
  generates prompt sp out -> generates prompt sp out' -> (length out <= length out')%nat -> out `prefix_of` out'.
Proof using Hfun.
  intros H H' Hl. assert (forall k, (k <= length out)%nat -> take k out = take k out') as E.
  { induction k as [|k IH]; intros Hk; [done|]. specialize (IH ltac:(lia)).
    destruct (lookup_lt_is_Some_2 out k) as [t Ht]; [lia|]. destruct (lookup_lt_is_Some_2 out' k) as [t' Ht']; [lia|].
    rewrite (take_S_r _ _ _ Ht), (take_S_r _ _ _ Ht'), <- IH. do 2 f_equal.
    destruct (H k t Ht) as (kvs & t0 & Hl0 & Hv & Hp), (H' k t' Ht') as (kvs' & t0' & Hl0' & Hv' & Hp').
    rewrite <- IH in Hv', Hl0'. rewrite Hl0 in Hl0'. injection Hl0' as <-. rewrite (all_valid_unique _ _ _ Hv' Hv) in Hp'. by eapply fun_picks. }
  exists (drop (length out) out'). rewrite <- (firstn_all out) at 1. rewrite (E (length out)) by lia. by rewrite take_drop.
Qed.

End functional.

(** ** Deciding that nothing collides *)
Section decide.
Context {RT : Runtime}.

(** The whole blocks at the front of the requests' tokens. *)
Definition fronts (s : Scheduler) : list (list Z * Z) :=
  concat ((fun '(_, r) => (fun k => (take (block_size * S k) (all_tokens r), chain (all_tokens r) (S k)))
    <$> seq 0 (length (all_tokens r) `div` block_size)) <$> map_to_list (reqs s)).

Definition collision_free (s : Scheduler) : bool :=
  forallb (fun '(ts, h) => forallb (fun '(ts', h') => negb (h =? h')%Z || bool_decide (ts = ts')) (fronts s)) (fronts s).

Lemma known_front s ts k : known s ts (S k) -> (ts, chain ts (S k)) ∈ fronts s.
Proof.
  intros (i & r & Hi & -> & Hk). apply list_elem_of_In, in_concat. eexists. split; apply list_elem_of_In.
  - apply list_elem_of_fmap. exists (i, r). split; [done|]. by apply elem_of_map_to_list.
  - apply list_elem_of_fmap. exists k. rewrite chain_take by done. split; [done|]. apply elem_of_seq.
    split; [lia|]. apply Nat.div_le_lower_bound; [done|exact Hk].
Qed.

Lemma collision_free_ok s : collision_free s = true -> no_collisions s.
Proof.
  intros H ts ts' k k' H1%known_front H2%known_front E. unfold collision_free in H. rewrite forallb_forall in H.
  apply list_elem_of_In in H1, H2. specialize (H _ H1). cbn beta iota in H. rewrite forallb_forall in H. specialize (H _ H2).
  cbn beta iota in H. rewrite E, Z.eqb_refl in H. cbn [negb orb] in H. by apply bool_decide_eq_true in H.
Qed.

(** Prompts of tokens below [words]. *)
Definition prompts_below (words : Z) (s : Scheduler) : bool :=
  forallb (fun '(_, r) => forallb (fun t => (0 <=? t)%Z && (t <? words)%Z) (prompt_ r)) (map_to_list (reqs s)).

Lemma prompts_below_ok {PR : PagedRuntime RT} s : prompts_below max_token s = true -> prompts_in_vocabulary s.
Proof.
  intros H i r Hr. unfold prompts_below in H. rewrite forallb_forall in H. apply elem_of_map_to_list in Hr.
  apply list_elem_of_In in Hr. specialize (H _ Hr). cbn beta iota in H. rewrite forallb_forall in H. apply Forall_forall. intros t Ht.
  apply list_elem_of_In in Ht. specialize (H t Ht). apply andb_true_iff in H as [H1%Z.leb_le H2%Z.ltb_lt]. done.
Qed.

(** Turns, as steps of the engine. *)
Definition ran (cfg : SchedulerConfig) (n : nat) (s : Scheduler) : Scheduler :=
  match rounds cfg n s with Ret s' => s' | _ => s end.

Lemma rounds_steps cfg max_ctx n : forall s s', rounds cfg n s = Ret s' -> rtc (engine_step cfg max_ctx) s s'.
Proof.
  induction n as [|n IH]; intros s s'; cbn [rounds]; [by intros [= <-]|]. intros (s1 & H1 & H2)%bind_inv.
  eapply rtc_l; [by apply step_round|by apply IH].
Qed.

Lemma ran_steps cfg max_ctx n s s0 : rtc (engine_step cfg max_ctx) s0 s -> rtc (engine_step cfg max_ctx) s0 (ran cfg n s).
Proof.
  intros H. etrans; [exact H|]. unfold ran. destruct (rounds cfg n s) eqn:E; [by eapply rounds_steps|done..].
Qed.

End decide.

(** ** A model for the witnesses

    The keys and values of a position are the tokens up to it; the sampled token is a
    function of them. *)
Definition echo_kv (kvs : list (list Z)) (t : Z) : list Z := default [] (last kvs) ++ [t].
Definition echo_pick (kvs : list (list Z)) (_ : SampleParams) : Z :=
  foldl (fun h t => (3 * h + t) mod 1000)%Z 0%Z (default [] (last kvs)).

Definition echo_runtime : Runtime := reference_runtime echo_kv echo_pick.
Definition echo_words : Z := 151936.
Definition echo_paged : PagedRuntime echo_runtime := reference_paged echo_kv echo_pick 64 8 8 64 8 echo_words.

Lemma echo_samples : RuntimeOk echo_runtime.
Proof. apply reference_samples. Qed.

Lemma echo_ok : PagedRuntimeOk echo_runtime echo_paged.
Proof.
  apply reference_ok. intros kvs sp. unfold echo_pick, echo_words. generalize (default [] (last kvs)). intros ts. destruct ts as [|t l _] using rev_ind; [done|].
  rewrite foldl_snoc. match goal with |- (0 <= ?x mod _ < _)%Z => pose proof (Z.mod_pos_bound x 1000 ltac:(done)) end. lia.
Qed.

Lemma echo_functional : functional echo_paged.
Proof. split; [by intros kvs t v v' -> ->|by intros kvs t0 sp t t' -> ->]. Qed.

Definition echo_device : @Device echo_runtime := fun _ _ => [].

(** The second request finds the block of the first in the cache. *)
Definition echo_shared : @Scheduler echo_runtime :=
  ran toy_config 2 (Submit (ran toy_config 2 (Submit (new_scheduler echo_device 8) 0 (request_of 64 (toy_generate 17))))
    1 (request_of 64 (toy_generate 17))).

(** Small batches without the cache. *)
Definition small_config : SchedulerConfig :=
  {| n_slots := 1; max_waiting := 8; token_budget := 5; prefill_chunk := 4; use_prefix_cache := false |}.
Definition echo_alone : @Scheduler echo_runtime :=
  ran small_config 6 (Submit (new_scheduler echo_device 8) 0 (request_of 64 (toy_generate 17))).

(** ** Properties *)

(** C3: every answer is the model's answer to its own prompt: in any state that an engine
    reaches whose pool covers every slot at full context ([ample]; preemption never happens
    then, and without it [SchedulerSpec.preemption_breaks_batches] shows batches going wrong)
    and whose configuration fits the buffers of the device ([fits]), as long as the prompts
    are of tokens of the vocabulary and no two different prefixes known to the engine have
    the same hash: whatever was batched together, cached or shared on the way, each token of
    each request was sampled from keys and values that the model computes for the prompt and
    the tokens before it alone; so are the keys and values of every position the request has
    computed, and of every block in the prefix cache. *)
Theorem answers_own_prompt {RT : Runtime} {PR : PagedRuntime RT} {HRT : RuntimeOk RT} {HPR : PagedRuntimeOk RT PR}
    cfg max_ctx d pool s :
  ample cfg max_ctx pool -> fits cfg max_ctx pool -> device_ok d -> rtc (engine_step cfg max_ctx) (new_scheduler d pool) s ->
  prompts_in_vocabulary s -> no_collisions s ->
  (forall i r, reqs s !! i = Some r -> generates (prompt_ r) (sp_ r) (output_ r) /\
     seen (model_ s) (all_tokens r) (block_table_ r) (Z.to_nat (computed_ r))) /\
  (forall h b, cached_ (alloc_ s) !! h = Some b -> block_ok (model_ s) s h b).
Proof.
  intros Ha Hf Hd Hr Hw Hno. destruct (reachable_contents cfg max_ctx pool Ha Hf d s Hd Hr Hw Hno) as [_ H1 H2].
  split; [|exact H2]. intros i r Hi. split; apply (H1 i r Hi).
Qed.

(** C4: batching does not show: take two engines that run the same model, a function of
    the positions before a token and of the sampling parameters (so no random draws), with
    configurations, pools, devices, other requests and schedules of their own, each with a
    pool that covers every slot at full context and a configuration that fits its buffers,
    with prompts of tokens of the vocabulary and without hash collisions between the
    prefixes it knows (a collision does change an answer: [prefix_cache_collision]). They
    give requests with the same prompt and the same sampling parameters answers that agree
    as far as both go. *)
Theorem batching_invisible {RT : Runtime} {PR : PagedRuntime RT} {HRT : RuntimeOk RT} {HPR : PagedRuntimeOk RT PR}
    cfg cfg' max_ctx max_ctx' d d' pool pool' s s' i i' r r' :
  functional PR -> device_ok d -> device_ok d' ->
  ample cfg max_ctx pool -> fits cfg max_ctx pool -> rtc (engine_step cfg max_ctx) (new_scheduler d pool) s ->
  prompts_in_vocabulary s -> no_collisions s ->
  ample cfg' max_ctx' pool' -> fits cfg' max_ctx' pool' -> rtc (engine_step cfg' max_ctx') (new_scheduler d' pool') s' ->
  prompts_in_vocabulary s' -> no_collisions s' ->
  reqs s !! i = Some r -> reqs s' !! i' = Some r' -> prompt_ r' = prompt_ r -> sp_ r' = sp_ r ->
  output_ r `prefix_of` output_ r' \/ output_ r' `prefix_of` output_ r.
Proof.
  intros Hfun Hd Hd' Ha Hf Hr Hw Hno Ha' Hf' Hr' Hw' Hno' Hi Hi' Ep Es.
  pose proof (rq_out _ _ (ct_req _ (reachable_contents cfg max_ctx pool Ha Hf d s Hd Hr Hw Hno) i r Hi)) as G.
  pose proof (rq_out _ _ (ct_req _ (reachable_contents cfg' max_ctx' pool' Ha' Hf' d' s' Hd' Hr' Hw' Hno') i' r' Hi')) as G'.
  rewrite Ep, Es in G'. destruct (Nat.le_ge_cases (length (output_ r)) (length (output_ r'))) as [Hl|Hl].
  - left. by eapply generates_agree.
  - right. by eapply generates_agree.
Qed.

(** ** Witnesses *)
Lemma echo_shared_reachable : rtc (engine_step toy_config 64) (new_scheduler echo_device 8) echo_shared.
Proof.
  apply ran_steps. eapply rtc_r; [apply ran_steps|].
  - eapply rtc_once. by apply (step_submit _ _ _ 0 (toy_generate 17)).
  - apply (step_submit _ _ _ 1 (toy_generate 17)); [by vm_compute|done|by vm_compute].
Qed.

Lemma echo_alone_reachable : rtc (engine_step small_config 64) (new_scheduler echo_device 8) echo_alone.
Proof. apply ran_steps. eapply rtc_once. by apply (step_submit _ _ _ 0 (toy_generate 17)). Qed.

Lemma echo_shared_free : no_collisions echo_shared.
Proof. apply collision_free_ok. vm_compute. reflexivity. Qed.

Lemma echo_alone_free : no_collisions echo_alone.
Proof. apply collision_free_ok. vm_compute. reflexivity. Qed.

Lemma echo_shared_words : prompts_in_vocabulary (PR := echo_paged) echo_shared.
Proof. apply prompts_below_ok. vm_compute. reflexivity. Qed.

Lemma echo_alone_words : prompts_in_vocabulary (PR := echo_paged) echo_alone.
Proof. apply prompts_below_ok. vm_compute. reflexivity. Qed.

Lemma echo_fits cfg : (token_budget cfg <= 64)%Z -> (n_slots cfg <= 8)%Z -> fits (PR := echo_paged) cfg 64 8.
Proof. intros H1 H2. by split. Qed.

Lemma small_ample : ample small_config 64 8.
Proof. split; vm_compute; congruence. Qed.

Lemma answers_own_prompt_witness :
  exists r, reqs echo_shared !! 1%nat = Some r /\ output_ r = [81; 324]%Z /\
    generates (PR := echo_paged) (prompt_ r) (sp_ r) (output_ r).
Proof.
  destruct (answers_own_prompt (PR := echo_paged) (HRT := echo_samples) (HPR := echo_ok) toy_config 64 echo_device 8 echo_shared
    toy_ample (echo_fits toy_config ltac:(done) ltac:(done)) I echo_shared_reachable echo_shared_words echo_shared_free) as [H _].
  destruct (reqs echo_shared !! 1%nat) as [r|] eqn:E; [|vm_compute in E; discriminate].
  exists r. split; [reflexivity|]. split; [|apply (H 1%nat r E)]. vm_compute in E. injection E as <-. reflexivity.
Defined.

Lemma batching_invisible_witness :
  exists r r', reqs echo_shared !! 0%nat = Some r /\ reqs echo_alone !! 0%nat = Some r' /\
    output_ r = [81; 324; 296]%Z /\ output_ r' = [81; 324]%Z /\
    (output_ r `prefix_of` output_ r' \/ output_ r' `prefix_of` output_ r).
Proof.
  destruct (reqs echo_shared !! 0%nat) as [r|] eqn:E; [|vm_compute in E; discriminate].
  destruct (reqs echo_alone !! 0%nat) as [r'|] eqn:E'; [|vm_compute in E'; discriminate].
  exists r, r'. split; [reflexivity|]. split; [reflexivity|].
  assert (Hp : prompt_ r' = prompt_ r /\ sp_ r' = sp_ r /\ output_ r = [81; 324; 296]%Z /\ output_ r' = [81; 324]%Z).
  { vm_compute in E. injection E as <-. vm_compute in E'. injection E' as <-. repeat split. }
  split; [apply Hp|]. split; [apply Hp|].
  exact (batching_invisible (PR := echo_paged) (HRT := echo_samples) (HPR := echo_ok) toy_config small_config 64 64
    echo_device echo_device 8 8 echo_shared echo_alone 0 0 r r' echo_functional I I
    toy_ample (echo_fits toy_config ltac:(done) ltac:(done)) echo_shared_reachable echo_shared_words echo_shared_free
    small_ample (echo_fits small_config ltac:(done) ltac:(done)) echo_alone_reachable echo_alone_words echo_alone_free
    E E' (proj1 Hp) (proj1 (proj2 Hp))).
Defined.

(** ** Two prompts that collide *)

(** Blocks of tokens of the vocabulary, found by a birthday search over the state of the
    hash before the last token: two states that differ only in bits a token can flip. *)
Definition colliding : list Z * list Z :=
  (replicate 9 1 ++ [34296; 56831; 1136; 80480; 63990; 13240; 1],
   replicate 9 1 ++ [38778; 19496; 111250; 103528; 16972; 115512; 109225])%Z.

Definition asking (prompt : list Z) : GenerateRequest :=
  {| InputIds := prompt; pb_MaxTokens := 3; pb_Temperature := one_f; pb_TopP := one_f; StopTokenIds := [] |}.

(** The first prompt is answered, then the second asked. *)
Definition echo_collision : @Scheduler echo_runtime :=
  let '(p, q) := colliding in
  ran toy_config 1 (Submit (ran toy_config 3 (Submit (new_scheduler echo_device 8) 0 (request_of 64 (asking (p ++ [1%Z])))))
    1 (request_of 64 (asking (q ++ [1%Z])))).

Lemma echo_collision_reachable : rtc (engine_step toy_config 64) (new_scheduler echo_device 8) echo_collision.
Proof.
  apply ran_steps. eapply rtc_r; [apply ran_steps|].
  - eapply rtc_once. apply (step_submit _ _ _ 0 (asking (colliding.1 ++ [1%Z]))); [done|done|by vm_compute].
  - apply (step_submit _ _ _ 1 (asking (colliding.2 ++ [1%Z]))); [by vm_compute|done|by vm_compute].
Qed.

(** The keys and values, and so the answer, of the model for the witnesses. *)
Lemma echo_valid ts : ts <> [] -> valid (PR := echo_paged) ts ts.
Proof.
  assert (forall n ts, length ts = S n -> valid (PR := echo_paged) ts ts) as H.
  { intros n. induction n as [n IH] using lt_wf_ind. intros l Hl. destruct l as [|t l _] using rev_ind; [done|]. clear ts.
    rewrite length_app in Hl. cbn in Hl.
    apply (valid_intro (PR := echo_paged) l t ((fun p => take (S p) l) <$> seq 0 (length l))).
    - by rewrite length_fmap, length_seq.
    - intros p w Hp. apply list_lookup_fmap_Some_1 in Hp as (q & -> & Hq); apply lookup_seq in Hq as [-> Hq].
      apply (IH p); [lia|]. rewrite length_take. lia.
    - change (l ++ [t] = echo_kv ((fun p => take (S p) l) <$> seq 0 (length l)) t). unfold echo_kv.
      destruct l as [|x l]; [done|]. cbn [length]. rewrite seq_S, fmap_app. cbn [fmap list_fmap]. rewrite last_snoc. cbn [default from_option].
      unfold id. by rewrite firstn_all2 by (cbn; lia). }
  intros Hne. apply (H (length ts - 1)%nat). destruct ts; [done|simpl; lia].
Qed.

Lemma echo_all_valid ts : all_valid (PR := echo_paged) ts ((fun p => take (S p) ts) <$> seq 0 (length ts)).
Proof.
  split; [by rewrite length_fmap, length_seq|]. intros p w Hp.
  apply list_lookup_fmap_Some_1 in Hp as (q & -> & Hq); apply lookup_seq in Hq as [-> Hq]. apply echo_valid. destruct ts; [simpl in Hq; lia|done].
Qed.

Definition echo_next (ts : list Z) (sp : SampleParams) : Z := echo_pick ((fun p => take (S p) ts) <$> seq 0 (length ts)) sp.

Lemma echo_one_token prompt sp t : prompt <> [] -> generates (PR := echo_paged) prompt sp [t] <-> t = echo_next prompt sp.
Proof.
  intros Hne. split.
  - intros H. destruct (H 0%nat t eq_refl) as (kvs & t0 & _ & Hv & Hp). cbn [take] in Hv. rewrite app_nil_r in Hv.
    by rewrite (all_valid_unique echo_functional _ _ _ Hv (echo_all_valid prompt)) in Hp.
  - intros -> [|k] x Hx; [|done]. injection Hx as <-. cbn [take]. rewrite app_nil_r.
    destruct (last prompt) as [t0|] eqn:E; [|by apply last_None in E]. eexists _, t0. split; [done|]. split; [apply echo_all_valid|done].
Qed.

(** The prefix cache compares hashes and no tokens, and the hash can be steered: these
    two blocks of ordinary tokens have the same one. When a prompt that starts with the first
    has been answered, a request whose prompt starts with the second is computed on the keys
    and values of the first, and its first token is one the model would give to the other
    prompt and would not give to its own. *)
Lemma prefix_cache_collision :
  let '(p, q) := colliding in
  p <> q /\ Forall (fun t => 0 <= t < 151643)%Z (p ++ q) /\ chain p 1 = chain q 1 /\
  exists s r t, rtc (engine_step toy_config 64) (new_scheduler (RT := echo_runtime) echo_device 8) s /\
    reqs s !! 1%nat = Some r /\ prompt_ r = q ++ [1%Z] /\ output_ r = [t] /\
    ~ generates (PR := echo_paged) (prompt_ r) (sp_ r) (output_ r) /\
    generates (PR := echo_paged) (p ++ [1%Z]) (sp_ r) (output_ r).
Proof.
  cbn beta iota delta [colliding]. split; [by vm_compute|]. split; [by repeat constructor|]. split; [vm_compute; reflexivity|].
  destruct (reqs echo_collision !! 1%nat) as [r|] eqn:E; [|vm_compute in E; discriminate].
  exists echo_collision, r, 774%Z. split; [exact echo_collision_reachable|]. split; [exact E|].
  vm_compute in E. injection E as <-. cbn [prompt_ output_ sp_]. split; [reflexivity|]. split; [reflexivity|].
  rewrite !echo_one_token by done. split; [vm_compute; congruence|vm_compute; reflexivity].
Qed.
