(* ===== verification/StartUp.v ===== *)
(** * The engine from its start

    Models how [RunEngine] of [engine/src/grpc_service.cc] puts the engine together: the
    arguments with their defaults ([args.h]), the number of blocks of the [KvStore]
    ([kv_store.cu]), the scheduler's configuration and the fresh [ModelRuntime]. The theorem
    closes the development of the engine: the scheduler of [Scheduler] over the device of
    [ModelRuntime], as the process starts them, meets every hypothesis of the theorems on
    either. *)

From Stdlib Require Import Floats.SpecFloat.
From S2P Require Import Prelude GoStrings Chatml Client Generate BlockAllocator KvTables Sequence Handler Scheduler PagedRuntime.
From S2P Require Import StepContext KvStore Attention GraphCache Sampler ModelRuntime ForwardOk.
From S2P Require Import SchedulerFrame SchedulerInv SchedulerSpec KvContents KvSound.
Local Open Scope go_scope.

(** ** Arguments *)
Record Args := {
  arg_model_dir : bytes;
  arg_max_ctx : Z;
  arg_gpu_mem_fraction : float32;
  arg_seed : Z;
  arg_address : bytes;
  arg_slots : Z;
  arg_max_waiting : Z;
  arg_token_budget : Z;
  arg_prefill_chunk : Z;
  arg_use_prefix_cache : bool;
}.

(** [0.9f] *)
Definition nine_tenths : float32 := S754_finite false 15099494 (-24).

Definition default_args (dir : bytes) : Args :=
  {| arg_model_dir := dir; arg_max_ctx := 4096; arg_gpu_mem_fraction := nine_tenths; arg_seed := 1234; arg_address := go "127.0.0.1:50051";
     arg_slots := 16; arg_max_waiting := 0; arg_token_budget := 1024; arg_prefill_chunk := 512; arg_use_prefix_cache := true |}.

Definition scheduler_config (a : Args) : SchedulerConfig :=
  {| n_slots := arg_slots a;
     max_waiting := if (0 <? arg_max_waiting a)%Z then arg_max_waiting a else (4 * arg_slots a)%Z;
     token_budget := arg_token_budget a;
     prefill_chunk := if (0 <? arg_prefill_chunk a)%Z then arg_prefill_chunk a else arg_token_budget a;
     use_prefix_cache := arg_use_prefix_cache a |}.

(** The last component of the model directory. *)
Fixpoint base_name (s acc : bytes) : bytes :=
  match s with
  | [] => acc
  | c :: s => if Byte.eqb c x2f then base_name s [] else base_name s (acc ++ [c])
  end.

Definition model_id (dir : bytes) : bytes :=
  match base_name dir [] with [] => go "flashqwen" | id => id end.

Example model_id_ex : model_id (go "/models/Qwen3-8B") = go "Qwen3-8B" /\ model_id (go "/models/") = go "flashqwen".
Proof. split; reflexivity. Qed.

(** ** The store *)

(** What [cudaMemGetInfo] reports once the weights are loaded, in bytes. *)
Record MemInfo := { free_bytes : Z; total_bytes : Z }.

(** The conversions of [size_t] to [float] and back. *)
Definition float_of_size (n : Z) : float32 := binary_normalize 24 128 n 0 false.
Definition size_of_float (x : float32) : Z :=
  match x with
  | S754_finite false m e => if (0 <=? e)%Z then Z.shiftl (Z.pos m) e else Z.shiftr (Z.pos m) (- e)
  | _ => 0
  end.

(** The bytes of a block, in all layers. *)
Definition per_block : Z := (Z.of_nat kNumLayers * 2 * kKvBlock * kv_dim * 2)%Z.

Definition kv_avail (fraction : float32) (mem : MemInfo) : Z :=
  let used := (total_bytes mem - free_bytes mem)%Z in
  let budget := size_of_float (SFmul 24 128 (float_of_size (total_bytes mem)) fraction) in
  if (used <? budget)%Z then (budget - used)%Z else 0%Z.

(** The number of blocks; [None] when the constructor throws. *)
Definition kv_blocks (max_ctx : Z) (fraction : float32) (mem : MemInfo) : option Z :=
  let num_blocks := Z.quot (kv_avail fraction mem) per_block in
  if (num_blocks <? BlocksFor max_ctx)%Z then None else Some num_blocks.

Lemma kv_blocks_fit max_ctx fraction mem n : kv_blocks max_ctx fraction mem = Some n ->
  (BlocksFor max_ctx <= n)%Z /\ (0 <= n)%Z /\ (n * per_block <= kv_avail fraction mem)%Z.
Proof.
  unfold kv_blocks. destruct (Z.ltb_spec (Z.quot (kv_avail fraction mem) per_block) (BlocksFor max_ctx)) as [|Hle]; [done|]. intros [= <-].
  assert (0 <= kv_avail fraction mem)%Z as Ha by (unfold kv_avail; destruct (Z.ltb_spec (total_bytes mem - free_bytes mem) (size_of_float (SFmul 24 128 (float_of_size (total_bytes mem)) fraction))); lia).
  assert (0 < per_block)%Z as Hp by (vm_compute; reflexivity). rewrite Z.quot_div_nonneg in * by lia.
  split; [lia|]. split; [by apply Z.div_pos|]. rewrite Z.mul_comm. by apply Z.mul_div_le.
Qed.

(** ** The device between two turns *)
Section device.
Context {RT : Runtime} {PR : PagedRuntime RT} {HRT : RuntimeOk RT} {HPR : PagedRuntimeOk RT PR}.
Context (cfg : SchedulerConfig) (max_ctx : Z) (pool : nat) (Hample : ample cfg max_ctx pool) (Hfits : fits cfg max_ctx pool).

#[local] Notation all_live := (all_live cfg max_ctx pool).

(** The batch of a turn fits the device, which is as the last turn left it. *)
Lemma batch_fits s : all_live s -> tokens_in_vocabulary s ->
  exists s1 s2 ids chs, Refill cfg s = Ret s1 /\ BuildBatch cfg (S (length (running_ s1))) s1 = Ret (s2, batch_of s2 ids) /\
    batch_input s2 ids = input_of chs /\ chunks_ok chs /\ model_ s2 = model_ s.
Proof using Hample Hfits.
  intros H Hw. destruct Hample as [A1 A2 A3 A4 A5]. destruct (Refill_ok cfg max_ctx pool A1 s H A2) as (s1 & E1 & H1 & _).
  destruct (BuildBatch_ok cfg max_ctx pool A3 A4 A5 s1 (length (running_ s1)) H1) as (s2 & ids & E2 & H2 & _ & _ & (_ & _ & R2) & Hbr & _).
  destruct (batch_running _ _ _ _ s1 s2 ids H1 Hbr R2) as [Hnd Hin]. pose proof (br_rows _ _ _ _ Hbr) as Hrows.
  pose proof (batch_ranges cfg max_ctx pool s2 ids H2 Hin) as Hrange. unfold rows in Hrows. rewrite <- (length_batch_tokens s2 ids Hrange) in Hrows.
  assert (tokens_in_vocabulary s2) as Hw2.
  { eapply tokens_same; [eapply (BuildBatch_frames (R := same_tokens)); exact E2|].
    eapply tokens_same; [eapply (Refill_frames (R := same_tokens)); exact E1|done]. }
  exists s1, s2, ids, (chunk_of s2 <$> ids). split; [done|]. split; [done|]. split; [by apply batch_input_chunks|].
  split; [by apply (batch_chunks_ok cfg max_ctx pool s2 ids H2 Hnd Hin Hfits ltac:(lia) Hw2)|].
  apply (Refill_frames (R := same_model)) in E1. apply (BuildBatch_frames (R := same_model)) in E2. by transitivity (model_ s1).
Qed.

Lemma Step_device s s' : all_live s -> tokens_in_vocabulary s -> device_ok (model_ s) -> Step cfg s = Ret s' -> device_ok (model_ s').
Proof using Hample Hfits HPR.
  intros H Hw Hd. destruct (batch_fits s H Hw) as (s1 & s2 & ids & chs & E1 & E2 & Eb & Hok & Em). unfold Step. rewrite E1. cbn [run_bind]. rewrite E2.
  cbn [run_bind requests batch_of input batch_finished]. rewrite Eb, Em. destruct ids as [|i ids]; [intros [= <-]; by rewrite Em|].
  pose proof (fw_device _ _ _ _ (Forward_paged _ _ Hd Hok)) as Hd'. destruct (Forward (model_ s) (input_of chs)) as [d tokens].
  intros HS%(Finish_frames (R := same_model)). by rewrite HS.
Qed.

Lemma drained s : all_live s -> exists s0, drain cfg (set_queues s [] (waiting_ s) (running_ s)) (inbound_ s) = Ret s0 /\
  all_live s0 /\ model_ s0 = model_ s /\ same_tokens s s0.
Proof using Hample.
  intros H. destruct (drain_ok cfg max_ctx pool (inbound_ s) (set_queues s [] (waiting_ s) (running_ s)) eq_refl) as (s0 & E & H0 & _); [by destruct s|].
  exists s0. split; [done|]. split; [done|]. pose proof (drain_frames (R := same_tokens) _ _ _ _ E) as Ht.
  split; [by apply (drain_frames (R := same_model)) in E|exact Ht].
Qed.

Lemma reachable_device d s : device_ok d -> rtc (engine_step cfg max_ctx) (new_scheduler d pool) s -> tokens_in_vocabulary s ->
  device_ok (model_ s).
Proof using Hample Hfits HPR HRT.
  intros Hd. pose proof (reachable_live cfg max_ctx pool Hample d) as Hlive. revert s.
  refine (rtc_ind_r (fun s => tokens_in_vocabulary s -> device_ok (model_ s)) _ _ _); [done|]. intros s s' Hs Hstep IH Hw. specialize (Hlive s Hs).
  pose proof (tokens_carries _ _ (engine_step_carries _ _ _ _ Hstep) Hw) as Hw0. specialize (IH Hw0).
  destruct Hstep as [i g _ _ _|i r _|s' HS]; [done..|]. unfold run_round in HS. destruct (_ && _); [by injection HS as <-|].
  destruct (drained s Hlive) as (s0 & E & H0 & Em & Et). rewrite E in HS. cbn [run_bind] in HS. rewrite <- Em in IH.
  destruct (Busy s0); [eapply Step_device; [exact H0|by eapply tokens_same|exact IH|exact HS]|by injection HS as <-].
Qed.

End device.

(** ** [RunEngine] *)
Section started.
Context {V : Type} `{!Inhabited V} (A : Arithmetic V) (rng : nat -> float32) (a : Args).

Definition engine_runtime (blocks : nat) : Runtime := gpu_runtime A (arg_max_ctx a) blocks rng.

Definition engine_paged (blocks : nat) : PagedRuntime (engine_runtime blocks) :=
  gpu_paged A (arg_max_ctx a) blocks rng (Z.to_nat (Z.max 1 (arg_token_budget a) + kRowSlack)) (Z.to_nat (arg_slots a))
    (Z.to_nat (BlocksFor (arg_max_ctx a))).

Record Started := { e_blocks : nat; e_config : SchedulerConfig; e_scheduler : @Scheduler (engine_runtime e_blocks) }.

(** Device memory starts with any contents: [junk] in the inputs, [rows] in the buffers and
    [kv] in the store. *)
Definition RunEngine (mem : MemInfo) (junk : Z) (rows : buffer -> nat -> list V) (kv : nat -> Z -> V) : option Started :=
  let model := new_ModelRuntime (arg_max_ctx a) (arg_slots a) (arg_token_budget a) junk rows kv in
  match kv_blocks (arg_max_ctx a) (arg_gpu_mem_fraction a) mem with
  | None => None
  | Some n => Some {| e_blocks := Z.to_nat n; e_config := scheduler_config a;
                      e_scheduler := new_scheduler (RT := engine_runtime (Z.to_nat n)) model (Z.to_nat n) |}
  end.

(** Arguments the engine can serve with: at least a slot, a row and a position, a pool for
    the slots, and no more of any than the 32-bit offsets of the kernels reach. None of these
    is checked when it starts. *)
Record sensible (blocks : nat) : Prop := {
  sens_ctx : (0 < arg_max_ctx a <= kMaxPositions)%Z;
  sens_slots : (1 <= arg_slots a <= kMaxSampled)%Z;
  sens_budget : (1 <= arg_token_budget a <= kMaxRows)%Z;
  sens_pool : (arg_slots a * BlocksFor (arg_max_ctx a) <= Z.of_nat blocks < 2 ^ 31)%Z;
}.

Lemma sensible_ample blocks : sensible blocks -> ample (scheduler_config a) (arg_max_ctx a) blocks.
Proof using Type.
  intros [[H1 _] [H2 _] [H3 _] [H4 _]]. split; [done..| |done]. cbn. destruct (Z.ltb_spec 0 (arg_prefill_chunk a)); lia.
Qed.

Lemma sensible_fits blocks : sensible blocks -> fits (PR := engine_paged blocks) (scheduler_config a) (arg_max_ctx a) blocks.
Proof using Type.
  intros [H1 H2 H3 H4]. assert (0 <= BlocksFor (arg_max_ctx a))%Z by (unfold BlocksFor, kKvBlock; apply Z.quot_pos; lia).
  split; cbn [max_rows max_requests max_table max_position max_block engine_paged gpu_paged scheduler_config token_budget n_slots];
    unfold kRowSlack; lia.
Qed.

(** The engine as it runs: what is reachable from its start. *)
Definition running (e : Started) (s : @Scheduler (engine_runtime (e_blocks e))) : Prop :=
  rtc (engine_step (e_config e) (arg_max_ctx a)) (e_scheduler e) s.

(** The forward pass of the next turn. *)
Definition next_pass (e : Started) (s : @Scheduler (engine_runtime (e_blocks e))) : run (Device_ V * list Z) :=
  let cfg := e_config e in
  let* s0 := drain cfg (set_queues s [] (waiting_ s) (running_ s)) (inbound_ s) in
  let* s1 := Refill cfg s0 in
  let* (s2, batch) := BuildBatch cfg (S (length (running_ s1))) s1 in
  Forward_ A (arg_max_ctx a) (Z.of_nat (e_blocks e)) rng (model_ s2) (input batch).

End started.

Lemma started_answers {V} `{!Inhabited V} (A : Arithmetic V) rng a mem junk rows kv e s :
  arithmetic_ok A -> RunEngine A rng a mem junk rows kv = Some e -> sensible a (e_blocks A rng a e) ->
  running A rng a e s -> (forall i r, reqs s !! i = Some r -> Forall (fun t => 0 <= t < kVocabSize)%Z (prompt_ r)) ->
  (exists d out, next_pass A rng a e s = Ret (d, out)) /\
  (forall i r, reqs s !! i = Some r -> Forall (fun t => 0 <= t < kVocabSize)%Z (output_ r)) /\
  (no_collisions s -> forall i r, reqs s !! i = Some r ->
     generates (PR := engine_paged A rng a (e_blocks A rng a e)) (prompt_ r) (sp_ r) (output_ r)).
Proof.
  intros Hm He Hs Hr Hp. unfold RunEngine in He. destruct (kv_blocks _ _ _) as [n|]; [|done]. injection He as <-.
  cbn [e_blocks] in *. unfold running in Hr. cbn [e_config e_scheduler e_blocks] in Hr. set (blocks := Z.to_nat n) in *.
  pose proof (sensible_ample a blocks Hs) as Ha. pose proof (sensible_fits A rng a blocks Hs) as Hf.
  set (PR := engine_paged A rng a blocks) in *. assert (HPR : PagedRuntimeOk _ PR) by by apply gpu_paged_ok.
  assert (HRT : RuntimeOk (engine_runtime A rng a blocks)) by apply gpu_samples.
  assert (Hd : device_ok (PagedRuntime := PR) (new_ModelRuntime (arg_max_ctx a) (arg_slots a) (arg_token_budget a) junk rows kv)).
  { destruct Hs. apply new_ModelRuntime_runs; lia. }
  pose proof (reachable_answers (PR := PR) _ _ _ _ s Hr) as Ho. pose proof (tokens_of_prompts (PR := PR) s Hp Ho) as Hw.
  split; [|split; [exact Ho|]].
  - pose proof (reachable_live _ _ _ Ha _ s Hr) as Hl. pose proof (reachable_device _ _ _ Ha Hf _ s Hd Hr Hw) as Hds.
    destruct (drained _ _ _ Ha s Hl) as (s0 & E0 & H0 & Em & Et). unfold next_pass. cbn [e_config e_blocks]. rewrite E0. cbn [run_bind].
    destruct (batch_fits _ _ _ Ha Hf s0 H0 (tokens_same _ _ Et Hw)) as (s1 & s2 & ids & chs & -> & E2 & Eb & Hok & Em2). cbn [run_bind]. rewrite E2.
    cbn [run_bind batch_of input]. rewrite Eb, Em2, Em.
    destruct (Forward_ok A (arg_max_ctx a) blocks rng _ _ _ (model_ s) chs (ar_masked _ Hm) Hds Hok) as (d & out & E & _). by exists d, out.
  - intros Hno i r Hi. apply (rq_out _ _ (ct_req _ (reachable_contents _ _ _ Ha Hf _ s Hd Hr Hp Hno) i r Hi)).
Qed.

(** ** Property *)

(** C7: the engine works as a whole. Start it with arguments that make sense - a pool that
    covers every slot at full context, and no more rows, slots and positions than the 32-bit
    offsets of its kernels reach ([sensible]) -, and let the prompts it is given be of tokens
    of the vocabulary, which the engine does not check; assume that masked positions
    contribute nothing to the prompt kernel, which Inf or NaN left in device memory breaks,
    and that the model has a logit for each token ([arithmetic_ok]). Then in any state the
    engine reaches the next forward pass neither reads nor writes out of bounds, and all
    tokens of answers belong to the vocabulary; and as long as no two different prefixes
    known to it share a hash, every token of every answer is one that the model samples after
    the prompt and the tokens before it, whatever else was in the batches. *)
Theorem started_engine_answers {V} `{!Inhabited V} (A : Arithmetic V) rng a mem junk rows kv e s :
  arithmetic_ok A -> RunEngine A rng a mem junk rows kv = Some e -> sensible a (e_blocks A rng a e) ->
  running A rng a e s -> (forall i r, reqs s !! i = Some r -> Forall (fun t => 0 <= t < kVocabSize)%Z (prompt_ r)) ->
  (exists d out, next_pass A rng a e s = Ret (d, out)) /\
  (forall i r, reqs s !! i = Some r -> Forall (fun t => 0 <= t < kVocabSize)%Z (output_ r)) /\
  (no_collisions s -> forall i r, reqs s !! i = Some r ->
     generates (PR := engine_paged A rng a (e_blocks A rng a e)) (prompt_ r) (sp_ r) (output_ r)).
Proof. apply started_answers. Qed.

(** ** Witness *)

(** A small engine, on a device with room for twelve blocks. *)
Definition small_args : Args :=
  {| arg_model_dir := go "/models/Qwen3-8B"; arg_max_ctx := 64; arg_gpu_mem_fraction := nine_tenths; arg_seed := 1234;
     arg_address := go "127.0.0.1:50051"; arg_slots := 2; arg_max_waiting := 0; arg_token_budget := 8; arg_prefill_chunk := 0;
     arg_use_prefix_cache := true |}.

Definition small_memory : MemInfo := {| free_bytes := 40000000; total_bytes := 100000000 |}.

Example small_pool : kv_blocks 64 nine_tenths small_memory = Some 12%Z /\ kv_blocks 256 nine_tenths small_memory = None.
Proof. split; vm_compute; reflexivity. Qed.

Definition small_engine : option (Started toy_arithmetic (fun _ => one_f) small_args) :=
  RunEngine toy_arithmetic (fun _ => one_f) small_args small_memory (-1) (fun _ _ => []) (fun _ a => a).

Lemma started_engine_answers_witness : exists e s, small_engine = Some e /\ e_blocks _ _ _ e = 12%nat /\ len (inbound_ s) = 2%Z /\
  running toy_arithmetic (fun _ => one_f) small_args e s /\ exists d out, next_pass toy_arithmetic (fun _ => one_f) small_args e s = Ret (d, out).
Proof.
  assert (exists e, small_engine = Some e /\ e_blocks _ _ _ e = 12%nat /\ inbound_ (e_scheduler _ _ _ e) = [] /\
    reqs (e_scheduler _ _ _ e) = ∅) as (e & He & Hb & Hi & Hq).
  { unfold small_engine, RunEngine. change (kv_blocks _ _ _) with (kv_blocks 64 nine_tenths small_memory). rewrite (proj1 small_pool).
    eexists. repeat split. }
  set (s1 := Submit (e_scheduler _ _ _ e) 0 (request_of 64 (toy_generate 16))).
  set (s2 := Submit s1 1 (request_of 64 (toy_generate 17))). exists e, s2.
  assert (Hrun : running toy_arithmetic (fun _ => one_f) small_args e s2).
  { eapply rtc_l; [|eapply rtc_once].
    - apply (step_submit _ _ _ 0 (toy_generate 16)); [by rewrite Hq|done|done].
    - apply (step_submit _ _ _ 1 (toy_generate 17)); [|done|done]. cbn. by rewrite Hq. }
  split; [exact He|]. split; [exact Hb|]. split; [cbn; by rewrite Hi|]. split; [exact Hrun|].
  refine (proj1 (started_engine_answers toy_arithmetic (fun _ => one_f) small_args small_memory (-1) _ _ e s2 toy_arithmetic_ok He _ Hrun _)).
  - split; rewrite ?Hb; vm_compute; split; congruence.
  - intros i r Hr. cbn in Hr. rewrite Hq in Hr. apply lookup_insert_Some in Hr as [[_ <-]|[_ Hr]]; [repeat constructor; vm_compute; congruence|].
    apply lookup_insert_Some in Hr as [[_ <-]|[_ Hr]]; [repeat constructor; vm_compute; congruence|]. by rewrite lookup_empty in Hr.
Defined.
