(* ===== verification/Boot.v ===== *)
(** * From the files of a model to its answers

    Models the whole of [RunEngine] of [engine/src/grpc_service.cc]: the check of the
    configuration ([ModelSpec]), the weights ([SafeTensors]), the device and the pool
    ([StartUp]), the address, and the message with which it gives up ([KvStore]'s is that of
    [engine/src/kv_store.cu]). What the kernels compute depends on the weights: the arithmetic
    is a function of what was uploaded.

    The property goes from the files to the tokens: a directory with the configuration and the
    tensors of the model starts an engine whose answers are computed with those tensors. *)

From Stdlib Require Import Floats.SpecFloat.
From S2P Require Import Prelude GoStrings Chatml Client Generate Supervisor BlockAllocator KvTables Sequence Handler Scheduler PagedRuntime.
From S2P Require Import StepContext KvStore Attention GraphCache Sampler ModelRuntime ForwardOk.
From S2P Require Import SchedulerFrame SchedulerInv SchedulerSpec KvContents KvSound StartUp RapidJson ModelSpec SafeTensors.
Local Open Scope go_scope.

(** ** Too little memory *)

(** [%.1f] of a number of bytes, in gigabytes. *)
Definition gigabytes (n : Z) : bytes :=
  format_float 1 (SFdiv 53 1024 (binary_normalize 53 1024 (size_t n) 0 false) (binary_normalize 53 1024 (10 ^ 9) 0 false)).

(** [%.0f] *)
Definition rounded (x : float32) : bytes :=
  match x with
  | S754_finite s m e =>
      (if s then [x2d] else []) ++ itoa (if (0 <=? e)%Z then Z.shiftl (Z.pos m) e else div_half_even (Z.pos m) (2 ^ (- e)))
  | S754_zero s => (if s then [x2d] else []) ++ go "0"
  | S754_infinity s => if s then go "-inf" else go "inf"
  | S754_nan => go "nan"
  end.

(** The message is cut at the size of its buffer. *)
Definition not_enough (max_ctx : Z) (fraction : float32) (mem : MemInfo) : bytes :=
  let max_blocks := BlocksFor max_ctx in
  let avail := kv_avail fraction mem in
  take 255 (go "not enough VRAM for even one full-length sequence at max_ctx=" ++ itoa max_ctx ++ go " (need " ++ itoa max_blocks ++
    go " blocks = " ++ gigabytes (max_blocks * per_block) ++ go " GB, have " ++ itoa (Z.quot avail per_block) ++ go " blocks = " ++
    gigabytes avail ++ go " GB under the " ++ rounded (SFmul 24 128 fraction (binary_normalize 24 128 100 0 false)) ++ go "% cap)").

Example not_enough_ex : not_enough 256 nine_tenths small_memory =
  go "not enough VRAM for even one full-length sequence at max_ctx=256 (need 16 blocks = 0.0 GB, have 12 blocks = 0.0 GB under the 90% cap)".
Proof. vm_compute. reflexivity. Qed.

(** ** The start *)
Section boot.
Context {V : Type} `{!Inhabited V} (A : Weights -> Arithmetic V) (rng : nat -> float32) (a : Args).
Context (Parse : bytes -> option doc) (ParseN : bytes -> Z -> run (option doc)) (read_file : bytes -> option bytes).
Context (rope_cos rope_sin : nat -> nat -> float32).
(** Whether the server can listen on an address. *)
Context (BuildAndStart : bytes -> bool).

Record Booted := { b_weights : Weights; b_engine : Started (A b_weights) rng a }.

(** What is logged before the engine returns 1. *)
Definition load_failed {B} (what : bytes) : run (result bytes B) := Ret (Err (go "[engine] model load failed: " ++ what)).

Definition RunEngine (word : Z) (mem : MemInfo) (junk : Z) (rows : buffer -> nat -> list V) (kv : nat -> Z -> V) : run (result bytes Booted) :=
  match Load Parse (arg_model_dir a) (read_file (arg_model_dir a ++ go "/config.json")) with
  | Ret (Ok dir) =>
      match ModelWeights Parse ParseN rope_cos rope_sin read_file word dir (arg_max_ctx a) with
      | Ret (Ok w) =>
          match StartUp.RunEngine (A w) rng a mem junk rows kv with
          | Some e =>
              if BuildAndStart (arg_address a) then Ret (Ok {| b_weights := w; b_engine := e |})
              else Ret (Err (go "[engine] failed to bind " ++ arg_address a))
          | None => load_failed (not_enough (arg_max_ctx a) (arg_gpu_mem_fraction a) mem)
          end
      | Ret (Err e) => load_failed e
      | Panic => Panic
      | Fuel => Fuel
      end
  | Ret (Err e) => load_failed e
  | Panic => Panic
  | Fuel => Fuel
  end.

(** A directory with the model: its configuration is that of the build, and its tensors are
    those of a checkpoint. *)
Record model_directory (ck : list (bytes * Shard)) : Prop := {
  md_config : exists text l c, read_file (arg_model_dir a ++ go "/config.json") = Some text /\ Parse (c_str text) = Some (DObject l) /\
      config_of l c /\ c_arch c = kArch /\ built_for c;
  md_checkpoint : checkpoint Parse ParseN read_file (arg_model_dir a) ck;
  md_complete : Forall (fun n => n ∈ tn_name <$> tensors_in ck) weight_names;
}.

(** Another configuration ends the start with what differs. *)
Lemma RunEngine_refuses word mem junk rows kv text l c : read_file (arg_model_dir a ++ go "/config.json") = Some text ->
  Parse (c_str text) = Some (DObject l) -> config_of l c -> c_arch c = kArch -> ~ built_for c ->
  RunEngine word mem junk rows kv = load_failed (not_this_build (arg_model_dir a) (joined (differences c))).
Proof using Type.
  intros Ht HP Hc Ha Hb. unfold RunEngine. rewrite Ht, (Load_result _ _ _ _ _ HP Hc), bool_decide_true by done.
  by rewrite bool_decide_false by by rewrite differences_nil.
Qed.

Lemma RunEngine_ok ck word mem junk rows kv : model_directory ck -> (0 <= arg_max_ctx a)%Z ->
  let w := weights_of rope_cos rope_sin (elems ck) (arg_max_ctx a) in
  RunEngine word mem junk rows kv =
  match StartUp.RunEngine (A w) rng a mem junk rows kv with
  | None => load_failed (not_enough (arg_max_ctx a) (arg_gpu_mem_fraction a) mem)
  | Some e => if BuildAndStart (arg_address a) then Ret (Ok {| b_weights := w; b_engine := e |})
              else Ret (Err (go "[engine] failed to bind " ++ arg_address a))
  end.
Proof using Type.
  intros [(text & l & c & Ht & HP & Hc & Ha & Hb) Hck Hn] Hx. unfold RunEngine.
  rewrite Ht, (Load_result _ _ _ _ _ HP Hc), !bool_decide_true by (done || by apply differences_nil).
  by rewrite (ModelWeights_ok _ _ _ _ _ _ ck).
Qed.

End boot.

(** ** Property *)

(** C6: the engine goes from the files of the model to its answers: given a directory with
    the configuration of the build and the tensors of the model, memory for one sequence and
    an address it can listen on, it starts, with exactly the weights in the files. If moreover
    its arguments make sense (a pool for all slots at full context, sizes within the 32-bit
    offsets of the kernels: [sensible]), masked positions contribute nothing to the prompt
    kernel ([arithmetic_ok]; Inf or NaN in unwritten memory breaks it) and the prompts it is
    given are of tokens of the vocabulary - none of which the engine checks -, then in every
    state it reaches the next forward pass neither reads nor writes out of bounds, and, as
    long as no two different prefixes known to it share a hash, every answer is one that the
    model with these weights samples. *)
Theorem engine_boots {V} `{!Inhabited V} (A : Weights -> Arithmetic V) rng a Parse ParseN read_file rope_cos rope_sin BuildAndStart
    ck word mem junk rows kv n :
  model_directory a Parse ParseN read_file ck -> (0 <= arg_max_ctx a)%Z ->
  kv_blocks (arg_max_ctx a) (arg_gpu_mem_fraction a) mem = Some n -> BuildAndStart (arg_address a) = true ->
  exists b, RunEngine A rng a Parse ParseN read_file rope_cos rope_sin BuildAndStart word mem junk rows kv = Ret (Ok b) /\
    b_weights _ _ _ b = weights_of rope_cos rope_sin (elems ck) (arg_max_ctx a) /\ e_blocks _ _ _ (b_engine _ _ _ b) = Z.to_nat n /\
    (arithmetic_ok (A (b_weights _ _ _ b)) -> sensible a (Z.to_nat n) ->
     forall s, running (A (b_weights _ _ _ b)) rng a (b_engine _ _ _ b) s ->
     (forall i r, reqs s !! i = Some r -> Forall (fun t => 0 <= t < kVocabSize)%Z (prompt_ r)) ->
     (exists d out, next_pass (A (b_weights _ _ _ b)) rng a (b_engine _ _ _ b) s = Ret (d, out)) /\
     (no_collisions s -> forall i r, reqs s !! i = Some r ->
        generates (PR := engine_paged (A (b_weights _ _ _ b)) rng a (e_blocks _ _ _ (b_engine _ _ _ b))) (prompt_ r) (sp_ r) (output_ r))).
Proof.
  intros Hd Hx Hn Hb. rewrite (RunEngine_ok _ _ _ _ _ _ _ _ _ ck) by done. set (w := weights_of _ _ _ _).
  destruct (StartUp.RunEngine (A w) rng a mem junk rows kv) as [e|] eqn:He.
  2: { unfold StartUp.RunEngine in He. by rewrite Hn in He. }
  rewrite Hb. exists {| b_weights := w; b_engine := e |}. cbn [b_weights b_engine]. split; [done|]. split; [done|].
  assert (e_blocks (A w) rng a e = Z.to_nat n) as Eb by (unfold StartUp.RunEngine in He; rewrite Hn in He; by injection He as <-).
  split; [done|]. intros Hm Hs s Hr Hp. rewrite <- Eb in Hs. destruct (started_answers (A w) rng a mem junk rows kv e s Hm He Hs Hr Hp) as (H1 & _ & H2).
  split; [done|exact H2].
Qed.

(** ** Witness *)

(** The small engine of [StartUp] on the directory of the tiny model of [SafeTensors]. *)
Definition small_files (path : bytes) : option bytes :=
  if bool_decide (path = go "/models/Qwen3-8B/config.json") then Some (go "{}")
  else if bool_decide (path = go "/models/Qwen3-8B/model.safetensors") then Some (shard_file tiny_shard) else None.

Lemma small_directory : model_directory small_args (parse_config 36) tiny_parser small_files tiny_checkpoint.
Proof.
  split; [|apply tiny_ok; vm_compute; reflexivity|exact tiny_complete]. exists (go "{}"), (config_json 36), (qwen3 36).
  split; [vm_compute; reflexivity|]. split; [done|]. split; [by apply qwen3_config|]. split; [done|]. split; vm_compute; reflexivity.
Qed.

Definition zero_rope (_ _ : nat) : float32 := S754_zero false.

Lemma engine_boots_witness : exists b,
  RunEngine (fun _ => toy_arithmetic) (fun _ => one_f) small_args (parse_config 36) tiny_parser small_files zero_rope zero_rope (fun _ => true)
    7 small_memory (-1) (fun _ _ => []) (fun _ a => a) = Ret (Ok b) /\
  w_fnorm (b_weights _ _ _ b) = [65536; 2621440000]%Z /\ e_blocks _ _ _ (b_engine _ _ _ b) = 12%nat /\
  exists d out, next_pass toy_arithmetic (fun _ => one_f) small_args (b_engine _ _ _ b) (e_scheduler _ _ _ (b_engine _ _ _ b)) = Ret (d, out).
Proof.
  destruct (engine_boots (fun _ => toy_arithmetic) (fun _ => one_f) small_args (parse_config 36) tiny_parser small_files zero_rope zero_rope (fun _ => true)
    tiny_checkpoint 7 small_memory (-1) (fun _ _ => []) (fun _ a => a) 12 small_directory ltac:(done) (proj1 small_pool) eq_refl) as (b & E & Hw & Hb & H).
  exists b. split; [exact E|]. split; [rewrite Hw; vm_compute; reflexivity|]. split; [exact Hb|].
  apply H; [exact toy_arithmetic_ok|split; vm_compute; split; congruence|apply rtc_refl|].
  assert (reqs (e_scheduler _ _ _ (b_engine _ _ _ b)) = ∅) as ->; [|intros i r Hr; by rewrite lookup_empty in Hr].
  rewrite (RunEngine_ok _ _ _ _ _ _ _ _ _ tiny_checkpoint) in E by (exact small_directory || done).
  unfold StartUp.RunEngine in E. change (kv_blocks _ _ _) with (kv_blocks 64 nine_tenths small_memory) in E. rewrite (proj1 small_pool) in E.
  by injection E as <-.
Defined.
