(* ===== verification/System.v ===== *)
(** * The serving system, end to end

    The Go generator on top of the engine's scheduler: requests of the API become engine
    requests through [buildRequest], the scheduler runs them together, and what their sinks
    were given is what [Generate] reads. The engine's side of the contract is
    [SchedulerSpec]'s invariant; the client's side is [sent_admissible]: what [buildRequest]
    sends is what the scheduler may be given. *)

From stdpp Require Import relations.
From S2P Require Import Prelude GoStrings TokenizerCore Vocab Encode Chatml Render Stream Client Generate.
From S2P Require Import BlockAllocator Sequence Handler Scheduler SchedulerFrame SchedulerInv SchedulerSpec Delivery.
Local Open Scope go_scope.

(** ** What the client sends *)
Lemma Render_nonempty msgs tools think : Render msgs tools think <> [].
Proof.
  unfold Render. intros H. apply app_eq_nil in H as [_ H]. apply app_eq_nil in H as [_ H].
  apply app_eq_nil in H as [H _]. apply (f_equal length) in H. vm_compute in H. discriminate.
Qed.

Lemma prompt_ids_nonempty g req ids : wire_ok (gtok g) -> prompt_ids g req = Ret ids -> ids <> [].
Proof.
  intros Hw Hp. destruct (decide (InputIDs req = [])) as [He|Hne].
  - destruct (prompt_ids_text g req Hw He) as (ids' & E & Hd & _). rewrite Hp in E. injection E as <-.
    intros ->. unfold prompt_text in Hd. cbn in Hd. case_bool_decide; cbn [negb] in Hd; [by apply (eq_sym) in Hd; apply Render_nonempty in Hd|].
    congruence.
  - unfold prompt_ids in Hp. destruct (InputIDs req) as [|id l]; [done|]. cbn in Hp. by injection Hp as <-.
Qed.

(** The request built for the engine: admissible, and with a budget that fits. *)
Lemma sent_admissible g req greq :
  wire_ok (gtok g) -> in_int 32 (maxCtx g) -> buildRequest g req = Ret (Ok greq) -> (len (InputIds greq) < 2 ^ 62)%Z ->
  InputIds greq <> [] /\ (len (InputIds greq) < maxCtx g)%Z /\
  (1 <= pb_MaxTokens greq <= maxCtx g - len (InputIds greq))%Z.
Proof.
  intros Hw Hm Hb Hl. unfold buildRequest in Hb. destruct (prompt_ids g req) as [ids| |] eqn:Hp; [|done..]. cbn [run_bind] in Hb.
  pose proof (prompt_ids_nonempty g req ids Hw Hp) as Hne.
  destruct (resolveMaxTokens g (len ids) (MaxTokens req)) as [mt|err] eqn:Er; [|done]. injection Hb as <-. cbn [InputIds pb_MaxTokens] in *.
  assert (len (int32 <$> ids) = len ids) as El by (unfold len; by rewrite length_fmap). rewrite El in *.
  rewrite resolveMaxTokens_eq in Er by (done || (unfold len in *; lia)).
  destruct (Z.leb_spec (maxCtx g) (len ids)) as [|Hroom]; [done|]. injection Er as <-.
  split; [by destruct ids|]. split; [done|].
  assert (in_int 32 (if (MaxTokens req <=? 0)%Z then maxCtx g - len ids else Z.min (MaxTokens req) (maxCtx g - len ids))) as Hi.
  { unfold in_int, len in *. destruct (Z.leb_spec (MaxTokens req) 0); lia. }
  unfold int32. rewrite wrap_id by done. destruct (Z.leb_spec (MaxTokens req) 0); lia.
Qed.

(** ** The system *)
Section system.
Context {RT : Runtime} (cfg : SchedulerConfig) (g : Generator).

(** The engine, and the API requests that have been sent to it. *)
Record system := { engine : Scheduler; sent : gmap nat Client.Request }.

(** API requests arrive and are cancelled between the turns of the engine's loop; no prompt
    is longer than memory. *)
Inductive system_step (s : system) : system -> Prop :=
  | sys_request i req greq :
      reqs (engine s) !! i = None -> buildRequest g req = Ret (Ok greq) -> (len (InputIds greq) < 2 ^ 62)%Z ->
      system_step s {| engine := Submit (engine s) i (request_of (maxCtx g) greq); sent := <[i := req]> (sent s) |}
  | sys_cancel i r :
      reqs (engine s) !! i = Some r -> system_step s {| engine := put (engine s) i (cancel_request r); sent := sent s |}
  | sys_round e :
      run_round cfg (engine s) = Ret e -> system_step s {| engine := e; sent := sent s |}.

Definition start (d : Device) (pool : nat) : system := {| engine := new_scheduler d pool; sent := ∅ |}.

(** [r] is what [greq] has become. *)
Record serves (greq : GenerateRequest) (r : Sequence.Request) : Prop := {
  serves_prompt : prompt_ r = InputIds greq;
  serves_params : sp_ r = {| temp := pb_Temperature greq; top_p := if float_positive (pb_TopP greq) then pb_TopP greq else one_f |};
  serves_stop : stop_ids_ r = StopTokenIds greq;
  serves_budget : max_new_ r = pb_MaxTokens greq;
  serves_ctx : max_ctx_ r = maxCtx g;
  serves_room : (1 <= pb_MaxTokens greq <= maxCtx g - len (InputIds greq))%Z;
}.

(** Every request of the engine is that of the API request sent under its number. *)
Definition from_api (log : gmap nat Client.Request) (i : nat) (r : Sequence.Request) : Prop :=
  exists req greq, log !! i = Some req /\ buildRequest g req = Ret (Ok greq) /\ serves greq r.

Definition all_from_api (s : system) : Prop := forall i r, reqs (engine s) !! i = Some r -> from_api (sent s) i r.

Lemma serves_grows greq r r' : grows r r' -> serves greq r -> serves greq r'.
Proof. intros [] []. split; congruence. Qed.

Lemma from_api_extends s s' log : extends s s' ->
  (forall i r, reqs s !! i = Some r -> from_api log i r) -> forall i r, reqs s' !! i = Some r -> from_api log i r.
Proof.
  intros He H i r Hr. specialize (He i). destruct (reqs s !! i) as [r0|] eqn:E; [|congruence].
  destruct He as (r1 & E1 & Hg). rewrite Hr in E1. injection E1 as <-.
  destruct (H i r0 E) as (req & greq & Hl & Hb & Hs). exists req, greq. split; [done|]. split; [done|by eapply serves_grows].
Qed.

Context (Hw : wire_ok (gtok g)) (Hm : in_int 32 (maxCtx g)).

Lemma system_engine s s' : system_step s s' -> engine_step cfg (maxCtx g) (engine s) (engine s').
Proof using Hw Hm.
  intros [i req greq Hi Hb Hl|i r Hr|e Hs]; cbn [engine]; [|by constructor|by constructor].
  destruct (sent_admissible g req greq Hw Hm Hb Hl) as (H1 & H2 & _). by constructor.
Qed.

Lemma system_from_api s s' : system_step s s' -> all_from_api s -> all_from_api s'.
Proof using Hw Hm.
  intros [i req greq Hi Hb Hl|i r0 Hr|e Hs] H; unfold all_from_api in *; cbn [engine sent].
  - destruct (sent_admissible g req greq Hw Hm Hb Hl) as (H1 & H2 & H3). intros j r. unfold Submit, from_api. cbn [set_queues put reqs].
    destruct (decide (i = j)) as [<-|Hne]; [|rewrite !lookup_insert_ne by done; apply H].
    rewrite !lookup_insert_eq. intros [= <-]. exists req, greq. split; [done|]. split; [done|]. split; try done.
    cbn. destruct (Z.ltb_spec 0 (pb_MaxTokens greq)), (Z.ltb_spec (maxCtx g - len (InputIds greq)) 1); lia.
  - intros j r. cbn [put reqs]. destruct (decide (i = j)) as [<-|Hne]; [|rewrite lookup_insert_ne by done; apply H].
    rewrite lookup_insert_eq. intros [= <-]. destruct (H i r0 Hr) as (req & greq & Hl & Hb & []). by exists req, greq.
  - eapply from_api_extends; [|exact H]. by eapply run_round_extends.
Qed.

Lemma system_reachable d pool s : rtc system_step (start d pool) s ->
  rtc (engine_step cfg (maxCtx g)) (new_scheduler d pool) (engine s) /\ all_from_api s.
Proof using Hw Hm.
  intros Hr. assert (forall s0, rtc system_step s0 s -> all_from_api s0 ->
    rtc (engine_step cfg (maxCtx g)) (engine s0) (engine s) /\ all_from_api s) as H.
  { clear Hr. induction 1 as [|x y z Hxy _ IH]; intros Hreq; [by split; [apply rtc_refl|]|].
    destruct IH as [H1 H2]; [by eapply system_from_api|]. split; [|done]. eapply rtc_l; [by apply system_engine|exact H1]. }
  apply (H _ Hr). intros i r. cbn. by rewrite lookup_empty.
Qed.

End system.
Arguments system : clear implicits.
Arguments system {RT}.

(** ** What the client gets *)

(** The outcome of an engine request as its client sees it: an error the engine reports, or
    the finish reason and the counts its tokens imply. *)
Definition client_outcome (greq : GenerateRequest) (out : list Z) (oc : result error Stats) : Prop :=
  (exists err, oc = Err (errorFor err)) \/
  (len out <= pb_MaxTokens greq)%Z /\
  exists ids t, out = ids ++ [t] /\ Forall (fun x => x ∉ StopTokenIds greq) ids /\
    if bool_decide (t ∈ StopTokenIds greq)
    then oc = Ok (Build_Stats (go "stop") (len (InputIds greq)) (len ids))
    else len out = pb_MaxTokens greq /\ oc = Ok (Build_Stats (go "length") (len (InputIds greq)) (len out)).

(** The generator connected to an engine that answers with [st]. *)
Definition connected (g : Generator) (st : rpc_stream) : Generator :=
  NewGenerator {| cli_GetModel := cli_GetModel (conn g); cli_Generate := fun _ => Ok st |} (cm g) (gtok g) (maxCtx g).

Lemma tokens_snoc ids e : is_terminal e = true -> tokens ((EvTokenId <$> ids) ++ [e]) = ids.
Proof. intros He. induction ids as [|id ids IH]; cbn; [by destruct e|by rewrite IH]. Qed.

Lemma terminal_error ids err : terminal ((EvTokenId <$> ids) ++ [EvError err]) None = Err (errorFor err).
Proof.
  unfold terminal. induction ids as [|id ids IH]; [done|]. cbn [fmap list_fmap app list_find is_terminal].
  case_decide; [done|]. by destruct (list_find _ _) as [[i []]|].
Qed.

Lemma answered_outcome g greq r :
  serves g greq r -> answered r ->
  exists k, sink_ r = Some k /\ closed_ k = true /\ answer_ids (rpc_answer k) = output_ r /\
    client_outcome greq (output_ r) (outcome (rpc_answer k)).
Proof.
  intros [S1 _ S2 S3 S4 S5] (k & e & Hk & Hq & He & Hc). exists k. split; [done|]. split; [done|].
  pose proof (ends_terminal r e He) as Ht. unfold answer_ids, outcome, rpc_answer. cbn [events ending].
  rewrite Hq, (written_tokens _ _ []) by done. split; [by apply tokens_snoc|].
  destruct e as [|reason p c|err|]; try done; [right|left; exists err; apply terminal_error].
  destruct He as (Hp & Hl & ids & t & Ho & Hs & Hend). rewrite S3 in Hl. split; [done|]. exists ids, t.
  rewrite S2 in Hs, Hend. split; [done|]. split; [done|]. rewrite terminal_done, Hp, S1.
  case_bool_decide; destruct Hend as [-> [-> Hlen]] || destruct Hend as [-> ->]; [done|].
  split; [|done]. rewrite S3, S4 in Hlen. unfold NumTokens in Hlen. rewrite S1 in Hlen. lia.
Qed.

(** ** Property *)

(** C2: API requests are answered end to end, by an engine whose pool covers every slot at
    full context: whatever requests the Go generator builds and submits, in whatever order
    and however many are cancelled meanwhile, a bounded number of turns of the engine's loop
    completes every request that was not cancelled. What the engine works on is what
    [buildRequest] makes of the API request that was sent - its prompt, sampling parameters,
    stop tokens and budget -, and the client of that request reads exactly the tokens
    generated for it, at most as many as its budget, with no stop token before the last;
    learns the finish reason and the counts they imply, unless the engine refused it; and
    [Generate] returns the text and tool calls those tokens decode to. *)
Theorem api_requests_answered {RT : Runtime} {HRT : RuntimeOk RT} cfg g d pool s :
  ample cfg (maxCtx g) pool -> wire_ok (gtok g) -> in_int 32 (maxCtx g) ->
  rtc (system_step cfg g) (start d pool) s ->
  exists s', rounds cfg (S (load (maxCtx g) (engine s))) (engine s) = Ret s' /\
  forall i r, reqs (engine s) !! i = Some r -> is_cancelled r = false ->
  exists req greq r' k,
    sent s !! i = Some req /\ buildRequest g req = Ret (Ok greq) /\ reqs s' !! i = Some r' /\
    prompt_ r' = InputIds greq /\
    sp_ r' = {| temp := pb_Temperature greq; top_p := if float_positive (pb_TopP greq) then pb_TopP greq else one_f |} /\
    stop_ids_ r' = StopTokenIds greq /\ max_new_ r' = pb_MaxTokens greq /\
    output_ r `prefix_of` output_ r' /\ sink_ r' = Some k /\ closed_ k = true /\
    answer_ids (rpc_answer k) = output_ r' /\ client_outcome greq (output_ r') (outcome (rpc_answer k)) /\
    Generate (connected g (rpc_answer k)) req None tt =
      Ret (tt, match outcome (rpc_answer k) with
               | Ok stats => Ok (chat_result (cm g) (rpc_answer k) stats)
               | Err err => Err err
               end).
Proof.
  intros Ha Hw Hm Hr. destruct (system_reachable cfg g Hw Hm d pool s Hr) as [He Hreq].
  pose proof (reachable_live _ _ _ Ha d (engine s) He) as H.
  destruct (rounds_drain cfg _ pool Ha (load (maxCtx g) (engine s)) (engine s) H ltac:(done)) as (s' & E & H' & L & _).
  exists s'. split; [done|]. intros i r Hi Hc.
  pose proof (rounds_extends cfg _ (engine s) s' E i) as Hx. rewrite Hi in Hx. destruct Hx as (r' & Hi' & Hg).
  destruct (Hreq i r Hi) as (req & greq & Hl & Hb & Hs). apply (serves_grows g greq r r' Hg) in Hs.
  assert (answered r') as Ans.
  { destruct (inv_rest _ _ _ _ _ H' i r' Hi') as [Hin|[[Hans|[_ Hcan]] _]]; [|done|].
    - rewrite L in Hin. by apply not_elem_of_nil in Hin.
    - rewrite (grows_cancelled _ _ Hg), Hc in Hcan. done. }
  destruct (answered_outcome g greq r' Hs Ans) as (k & Hk & Hcl & Hids & Hout).
  exists req, greq, r', k. do 3 (split; [done|]). do 4 (split; [apply Hs|]). split; [apply Hg|]. do 4 (split; [done|]).
  assert (answers (connected g (rpc_answer k)) req greq (rpc_answer k)) as Hans by by split.
  rewrite (Generate_eq _ _ _ _ _ _ Hans). by destruct (outcome (rpc_answer k)).
Qed.

(** ** Witness *)

(** One request to the toy model has arrived. *)
Definition one_request : system (RT := toy_runtime) :=
  {| engine := Submit (new_scheduler (tt : @Device toy_runtime) 8) 0 (request_of 64 toy_greq); sent := {[0%nat := toy_request]} |}.

Lemma one_request_reachable : rtc (system_step toy_config toy_generator) (start (RT := toy_runtime) tt 8) one_request.
Proof.
  eapply rtc_l; [|apply rtc_refl].
  refine (sys_request toy_config toy_generator (start (tt : @Device toy_runtime) 8) 0 toy_request toy_greq eq_refl _ _);
    vm_compute; reflexivity.
Qed.

Lemma api_requests_answered_witness :
  exists s', rounds toy_config (S (load 64 (engine one_request))) (engine one_request) = Ret s' /\
  exists r' k, reqs s' !! 0%nat = Some r' /\ max_new_ r' = pb_MaxTokens toy_greq /\ sink_ r' = Some k /\ closed_ k = true /\
    answer_ids (rpc_answer k) = output_ r'.
Proof.
  destruct (api_requests_answered (HRT := toy_runtime_ok) toy_config toy_generator tt 8 one_request toy_ample
    toy_wire_ok ltac:(split; vm_compute; congruence) one_request_reachable) as (s' & H & Hall).
  exists s'. split; [exact H|].
  destruct (Hall 0%nat (request_of 64 toy_greq) eq_refl eq_refl) as (req & greq & r' & k & Hl & Hb & H1 & _ & _ & _ & H2 & _ & H3 & H4 & H5 & _).
  exists r', k. split; [exact H1|]. split; [|exact (conj H3 (conj H4 H5))]. rewrite H2. change (Some toy_request = Some req) in Hl. injection Hl as <-.
  assert (buildRequest toy_generator toy_request = Ret (Ok toy_greq)) as E by (vm_compute; reflexivity). rewrite E in Hb. by injection Hb as <-.
Defined.
